(* ===== verification/_CoqProject ===== *)
-Q . S2P
Prelude.v
Memory.v
Layout.v
BootInfo.v
Frame.v
Heap.v
HeapTrace.v
Interrupts.v
FrameApi.v
HeapApi.v
KernelTrace.v
HeapTest.v
Uefi.v
Elf.v
Load.v
Link.v
File.v
QemuExit.v
Handoff.v
Bootloader.v
Port.v
Pic.v
Font.v
Console.v
Screen.v
Serial.v
Fmt.v
Keyboard.v
Gdt.v
Idt.v
Wait.v
Interleave.v
KeyPress.v
Main.v
Fault.v
Typed.v
System.v
Xtask.v
Host.v
Harness.v
Injector.v
Tests.v
Patience.v
FontGen.v
