(* ===== verification/Prelude.v ===== *)
(** * Rust_BL: a UEFI bootloader and the kernel it starts

    The repository builds two freestanding x86-64 programs and a host tool. The
    bootloader ([bootloader/src]) reads [kernel.elf] from the EFI partition,
    loads its segments at the physical addresses they ask for, gathers the
    framebuffer description and the final memory map into a [BootInfo]
    ([boot_info/src/lib.rs]), leaves the firmware and jumps. The kernel
    ([kernel/src]) checks the struct, installs its descriptor tables and
    drivers, paints the screen, builds a frame allocator over the memory map
    and a heap over the frames, waits for a hundred timer ticks and a keypress,
    and ends the virtual machine with an exit code. The tool
    ([xtask/src/main.rs]) runs all of it under QEMU and judges the run by that
    code and by a capture of the screen.

    ** How the code is modelled

    Code is a pure function on explicit state. Memory is a finite map from
    addresses to bytes ([Memory]); structs the two binaries or the hardware
    share are laid out by the [repr(C)] and [packed] rules ([Layout]) and read
    and written as bytes. Integers are [Z] in the range of their type. The
    repository builds the debug profile, in which [+], [-] and [*] panic on
    overflow, so these are [add_u], [sub_u] and [mul_u]; [as], [wrapping_add],
    [checked_add] and the rest have definitions of their own. Every operation
    returns an [outcome]: a value, an error of the function's own [Result]
    type, a panic, or "still running" for a loop run with a bound. Interrupts
    are off or on in the state ([HasIF]), devices answer through an interface
    ([Device]), the firmware through interfaces that state what the UEFI
    specification documents ([Firmware], [FileProtocol], [ExitServices]), and
    the harness's operating system through the calls it makes ([Host]).

    ** The files

    - [Prelude]: outcomes, machine integers, counted loops, arithmetic lemmas
      and tactics; [Memory]: bytes, little-endian loads and stores, agreement
      of two memories; [Layout]: struct layout.
    - [BootInfo]: [boot_info/src/lib.rs]. The types, their bytes, the iterator
      over usable frames ([next], [usable_run]).
    - [Frame], [FrameApi]: [kernel/src/frame.rs]. The allocator's methods over
      memory ([alloc], [dealloc], [bump], [contiguous]), with the free list
      threaded through the free frames; then the static behind its critical
      section and the public functions, including the self-test.
    - [Heap], [HeapTrace], [HeapApi], [HeapTest]: [kernel/src/heap.rs]. The
      free-list allocator ([heap_alloc], [heap_dealloc] and their loops); what
      holds after any sequence of calls; the global allocator's entry points,
      [init] against the interface of whoever provides its frames, and the
      gauges; the self-test, with the [Box], [Vec] and [String] operations it
      drives over those entry points.
    - [Interrupts]: [kernel/src/interrupts.rs], as a function and as a sequence
      of instructions with interrupts landing between them.
    - [KernelTrace]: both allocators together, from boot, under any sequence of
      requests, returns and writes by their clients.
    - [Uefi], [Elf], [File], [Handoff], [Bootloader]: [bootloader/src]. The
      firmware interface; [elf.rs]; [file.rs]; [graphics.rs], [memory.rs] and
      [handoff.rs]; and [main.rs], which composes them. [QemuExit] is the exit
      code contract both binaries have a copy of. [Load] says which files the
      loader accepts.
    - [Link]: [kernel/build.rs] and [kernel/kernel.ld]. The lines the build
      script prints; the linker script as data, with the location counter that
      interprets it; the linker, as an interface with the promises the build
      relies on.
    - [Port], [Pic]: [port.rs], [pic.rs] and [pit.rs] under [kernel/src];
      [Font], [Console], [Screen]: [font.rs], [console.rs] and [fill_screen] of
      [main.rs]; [Serial]: [serial.rs]; [Fmt]: what they use of [core::fmt];
      [Keyboard]: [keyboard.rs] and [ps2.rs]; [Gdt], [Idt]: [gdt.rs] and
      [idt.rs]; [Wait]: the end of [kernel_main], from enabling interrupts,
      against a schedule of the interrupts; [Interleave]: the same as a machine
      interrupted at any instruction, with its halts; [KeyPress]: the wait
      again, for a keyboard whose bytes are known in advance ([Typist]).
    - [Main]: [_start], [kernel_main], [init], [selftest] and the panic handler
      of [kernel/src/main.rs], over the components above: the state they share,
      every line printed, every check that ends the run. [Fault]: the
      processor's delivery of exceptions through the tables the kernel
      installed, double faults and their escalation included.
    - [Typed]: the whole kernel once more, for the ranges of its integers.
    - [System]: the two programs as one. The kernel starts from the processor
      state and the memory the bootloader's jump leaves.
    - [Xtask], [Host], [Harness]: [xtask/src/main.rs]. The screen check and the
      exit codes; the operating system's calls, as events with the laws the
      harness needs; the programs made of them: building and staging, the boot
      under QEMU with its time limits, the corrupted-image test, the commands.
      [Injector]: the thread that presses keys, beside the guest that waits for
      one. [Patience]: the same programs under a guest that does its part in
      time.
    - [Tests]: the unit tests of [boot_info/src/lib.rs] and
      [xtask/src/main.rs]. [FontGen]: [tools/generate_font.py], which wrote
      [font.rs].

    A definition carries the name of the function or type it models where that
    name is free; [init] functions are named after their module.

    ** What the theorems show

    - Memory management. From boot, whatever the kernel's clients do within
      the allocators' contracts, no byte has two owners, no usable frame is
      lost, the counters are exact, no entry point panics or runs on, and a
      refusal means exhaustion ([KernelTrace]); [alloc] of the heap is
      first fit and [dealloc] keeps the list fully coalesced ([Heap]); the
      frame allocator owns exactly the usable frames of any memory map,
      malformed or not ([BootInfo], [FrameApi]).
    - Booting. Whatever the ELF file and the firmware's answers, the
      bootloader ends: in the kernel; in the failure exit; in a panic, when the
      buffer for the file cannot be had, and only then; or in the reset the
      [uefi] crate answers with when the firmware never lets go. Every page of
      the segments it loads is exactly what the file says. When it jumps, the
      kernel has its entry conditions, its image, a valid struct, the
      firmware's map and a stack, none of which its allocator will hand out
      ([Elf], [File], [Bootloader]). The struct crosses between the binaries
      intact ([BootInfo]). The loader accepts exactly the files whose segments
      can be placed ([Load]); the kernel file this build links is one of them,
      and one linked without the build script's [-znorelro] need not be
      ([Link]).
    - Hardware. The words written to the descriptor tables decode, as the
      processor decodes them, to what the kernel meant, and every vector
      reaches its handler ([Gdt], [Idt]); the controllers, the timer and the
      line are programmed as their data sheets ask from any state the firmware
      left ([Pic], [Serial]); no exception the processor can raise resets the
      machine, whatever the state of the stack it strikes on ([Fault]); the
      keyboard controller's initialisation is
      bounded and follows the protocol on any device, present or not
      ([Keyboard]).
    - Output. The console implements a terminal: a record of a cursor and a
      character in every cell, which the pixels show ([Console]); printing
      refines it and sends the same text down the line, with no other port
      access than the line's ([transmits] in [Serial]); and the kernel's own boot
      output passes the harness's check ([Xtask]).
    - The boot. From any handoff it can use [_start] runs every initialisation
      and self-test, prints exactly the boot's lines and reaches its wait with
      the tables, the console and both allocators as specified; a machine short
      of memory and a handoff it cannot trust end with the line that says why
      and the failure code ([Main], [HeapTest]). Whatever it is booted with,
      its integers stay inside their widths ([Typed]).
    - The whole machine. What the bootloader delivers is always accepted by the
      kernel, and on a platform whose firmware, linker and screen keep their
      own promises (the record [platform]) the image's constant segments, the
      struct and the map survive the kernel's boot, and the allocators' memory
      is clear of the whole image and the stack; from power on, with the line
      alive and the timer ticking, every run ends, through the exit device
      unless the bootloader's buffer or [ExitBootServices] failed, with success
      only after the ticks and a key, and always when a key comes in time
      ([System], on top of [Wait] and [KeyPress]).
      Interrupts may land wherever the flag lets them: the schedules [Wait] is
      run with are exactly the interleavings of a machine with a step for every
      critical section, halt and interrupt, none of which gets stuck, and every
      fair execution of which ends ([Interleave], [System.fair_boot_ends]).
    - The harness. Every command ends inside its limits, with a code or in the
      panic of a line that could not be printed or a thread that could not be
      started, and leaves no QEMU behind but at such a panic or when the host
      fails to give its status; the corrupted image is put back except after
      such a status, a failed write, or a refused print between the corruption
      and the boot; [test] passes against this bootloader; a pass of [run] means
      the modelled machine succeeded and showed its text ([Harness]), and [run]
      does pass when the guest succeeds in time ([Patience]); the keys the
      harness presses include one the kernel is waiting for when its thread is
      not too late and QEMU takes them until then ([Injector]). The unit tests
      pass, and the
      captures they refuse are one change away from one that is accepted
      ([Tests]). The committed font is what the generator makes of the font
      file ([FontGen]).

    Some theorems show where the code falls short of what it says:
    [FrameApi.alloc_frame_top_of_memory_panics],
    [Elf.load_kernel_accepts_entry_in_gap], the interrupt mask in
    [Serial.serial_init_programs], the buffer whose refusal is a panic and not a
    reported failure ([File.read_file_exact]), and the corrupted kernel left in
    place when standard output is closed ([Harness.closed_stdout_leaves_corrupted]).
    Lemmas show more of it on the way: the ways [boot_qemu] leaves QEMU running
    ([Harness.boot_qemu_spec]), and the line that reports the keyboard controller initialised whatever
    happened to it ([Main.init_lines]).

    ** Bounds

    Loops without a structural bound take one as an argument, and the theorems
    give a value that is enough. The heap's walks need one step per free block:
    [WALK_FUEL] is one more than the sixteen-byte grains of the 1 MiB heap. The
    frame allocator's loops take at most one step per frame of the current run
    and per region left ([strand_fuel], [bump_fuel]). Reading a file takes at
    most one read per byte. The wait for the transmitter takes as many reads as
    the device needs, [live n]. The keyboard controller's loops have the
    source's own budget. The last phase takes a batch of interrupts, maybe an
    empty one, before every print, every read of a counter and the exit; a
    schedule in which 1108 batches bring a tick, whatever the others bring, is
    enough ([BEATS]), and a press within 1100 ticks of the start is always seen.
    Fair executions need no bound: what they ask is that the timer goes on and
    that the kernel's code gets to run again. The injector's forty presses
    are half a second or more apart: one that starts less than twenty seconds
    before the kernel enables interrupts is still pressing after that, and one
    that starts later needs a single round inside the kernel's eleven seconds.
    Exceptions nest four deep at most before the processor
    stops, so [raise] is run with that depth. The harness's capture loop and
    its wait for QEMU sleep in every round, so 601 rounds outlast their
    deadlines.

    ** What is not modelled

    Log lines of the bootloader have no effect on its outcome. What the [uefi]
    crate does in its panic handler and after an [ExitBootServices] that keeps
    failing is not in the repository: such a run ends there, for the machine with
    a reset or a shutdown ([Switched_off] in [System]). The texts of the
    harness's messages are constructors with their arguments. Its injector
    thread and the guest are run side by side on the clock they share, not
    interleaved call by call: neither reads what the other writes except the
    guest its keyboard. The linker is an interface: how it collects and groups
    sections, and the addresses it gives the kernel's statics and handlers, are
    parameters. The Cargo manifests, [rust-toolchain.toml] and the target
    settings configure the build and have no model; [workspace_root], which
    comes from the build environment, is a parameter. The kernel's statics other
    than the segment tables (the interrupt table, both allocators, the console,
    the counters) are values of the state, not bytes of the image, and so are
    the frames its functions push on the stack: that the loader's copy of the
    statics' initial values is what they start from is the linker's part, and
    no theorem speaks of the bytes of writable segments or of the stack once the
    kernel runs, but that the allocators' memory is clear of them.
    Instruction-level details ([asm!]
    blocks) are modelled by their effect on the processor state named in the
    file; caches, timing and paging (the machine is identity-mapped throughout)
    are not. *)
From stdpp Require Export base numbers list option gmap.
From Stdlib Require Export ZArith Lia.

#[export] Set Default Goal Selector "!".
Open Scope Z_scope.

(** ** Outcomes *)

(** What running a piece of the Rust code gives: a value, an error value of
    the function's own [Result] type, a panic (a failed [assert!], an index
    out of range, or an arithmetic overflow, which the debug profile the
    repository builds checks), or, for a loop run with a bound, "still
    running". *)
Inductive outcome (E A : Type) : Type :=
| Ok (a : A)
| Err (e : E)
| Panic
| Loop.
Arguments Ok {E A} a.
Arguments Err {E A} e.
Arguments Panic {E A}.
Arguments Loop {E A}.

(** Code with no error type of its own. *)
Abbreviation res := (outcome Empty_set).

#[export] Instance outcome_ret {E} : MRet (outcome E) := fun A a => Ok a.
#[export] Instance outcome_bind {E} : MBind (outcome E) := fun A B f m =>
  match m with
  | Ok a => f a
  | Err e => Err e
  | Panic => Panic
  | Loop => Loop
  end.

(** [?] on an [Option] inside a function returning [Result]:
    [o.ok_or(e)?]. *)
Definition ok_or {E A} (e : E) (o : option A) : outcome E A :=
  match o with Some a => Ok a | None => Err e end.

(** A panicking function called from code with an error type. *)
Definition lift {E A} (m : res A) : outcome E A :=
  match m with
  | Ok a => Ok a
  | Err e => match e with end
  | Panic => Panic
  | Loop => Loop
  end.

(** The code came to an end of its own. *)
Definition settled {E A} (r : outcome E A) : Prop := match r with Ok _ | Err _ => True | Panic | Loop => False end.

Lemma bind_Ok {E A B} (a : A) (f : A -> outcome E B) : mbind f (Ok a) = f a.
Proof. reflexivity. Qed.

Lemma bind_assoc {E A B C} (m : outcome E A) (f : A -> outcome E B) (g : B -> outcome E C) :
  (b ← (a ← m; f a); g b) = (a ← m; b ← f a; g b).
Proof. by destruct m. Qed.

Lemma bind_ext {E A B} (m : outcome E A) (f g : A -> outcome E B) :
  (forall a, f a = g a) -> mbind f m = mbind g m.
Proof. intros Hfg. destruct m; [apply Hfg|done..]. Qed.

Lemma bind_Ok_inv {E A B} (m : outcome E A) (f : A -> outcome E B) b :
  mbind f m = Ok b -> exists a, m = Ok a /\ f a = Ok b.
Proof. destruct m; try discriminate. simpl. eauto. Qed.

(** ** Machine integers: a [w]-bit unsigned integer is a [Z] in range *)

Definition in_u (w x : Z) : Prop := 0 <= x < 2 ^ w.

(** [+], [-] and [*] of the debug profile: overflow panics. *)
Definition add_u {E} (w a b : Z) : outcome E Z :=
  if a + b <? 2 ^ w then Ok (a + b) else Panic.
Definition sub_u {E} (a b : Z) : outcome E Z :=
  if b <=? a then Ok (a - b) else Panic.
Definition mul_u {E} (w a b : Z) : outcome E Z :=
  if a * b <? 2 ^ w then Ok (a * b) else Panic.

(** [checked_add], [checked_mul], [saturating_sub], [as uN], [!x]. *)
Definition checked_add (w a b : Z) : option Z :=
  if a + b <? 2 ^ w then Some (a + b) else None.
Definition checked_mul (w a b : Z) : option Z :=
  if a * b <? 2 ^ w then Some (a * b) else None.
Definition saturating_sub (a b : Z) : Z := Z.max 0 (a - b).
Definition as_u (w x : Z) : Z := x mod 2 ^ w.
Definition not_u (w x : Z) : Z := 2 ^ w - 1 - x.

(** [next_multiple_of], its checked form, and [div_ceil]. *)
Definition round_up (a n : Z) : Z :=
  if a mod n =? 0 then a else a + (n - a mod n).
Definition next_multiple_of {E} (w a n : Z) : outcome E Z :=
  if round_up a n <? 2 ^ w then Ok (round_up a n) else Panic.
Definition checked_next_multiple_of (w a n : Z) : option Z :=
  if round_up a n <? 2 ^ w then Some (round_up a n) else None.
Definition div_ceil (a n : Z) : Z :=
  if a mod n =? 0 then a / n else a / n + 1.

(** ** [for i in a..b] *)

Fixpoint for_n {E S} (n : nat) (i : Z) (body : Z -> S -> outcome E S) (s : S) : outcome E S :=
  match n with
  | O => Ok s
  | S n => s ← body i s; for_n n (i + 1) body s
  end.

Definition for_range {E S} (a b : Z) (body : Z -> S -> outcome E S) (s : S) : outcome E S :=
  for_n (Z.to_nat (b - a)) a body s.

(** A loop whose body keeps an invariant indexed by the counter. *)
Lemma for_n_inv {E S} (P : Z -> S -> Prop) n i (body : Z -> S -> outcome E S) s :
  P i s ->
  (forall j s, i <= j < i + Z.of_nat n -> P j s -> exists s', body j s = Ok s' /\ P (j + 1) s') ->
  exists s', for_n n i body s = Ok s' /\ P (i + Z.of_nat n) s'.
Proof.
  revert i s. induction n as [|n IH]; intros i s Hs Hb; simpl.
  - exists s. by rewrite Z.add_0_r.
  - destruct (Hb i s ltac:(lia) Hs) as (s1 & -> & H1). simpl.
    destruct (IH (i + 1) s1 H1) as (s2 & -> & H2).
    + intros j s' Hj. apply Hb. lia.
    + exists s2. split; [done|]. by replace (i + Z.of_nat (Datatypes.S n)) with (i + 1 + Z.of_nat n) by lia.
Qed.

Lemma for_range_inv {E S} (P : Z -> S -> Prop) a b (body : Z -> S -> outcome E S) s :
  a <= b -> P a s ->
  (forall j s, a <= j < b -> P j s -> exists s', body j s = Ok s' /\ P (j + 1) s') ->
  exists s', for_range a b body s = Ok s' /\ P b s'.
Proof.
  intros Hab Hs Hb. destruct (for_n_inv P (Z.to_nat (b - a)) a body s Hs) as (s' & Hr & HP).
  - intros j s' Hj. apply Hb. lia.
  - exists s'. split; [exact Hr|]. by replace b with (a + Z.of_nat (Z.to_nat (b - a))) by lia.
Qed.

(** ** Arithmetic lemmas *)

Create HintDb rust.

Lemma add_u_ok {E} w a b : a + b < 2 ^ w -> add_u (E:=E) w a b = Ok (a + b).
Proof. intros H. unfold add_u. destruct (Z.ltb_spec (a + b) (2 ^ w)); [done|lia]. Qed.

Lemma sub_u_ok {E} a b : b <= a -> sub_u (E:=E) a b = Ok (a - b).
Proof. intros H. unfold sub_u. destruct (Z.leb_spec b a); [done|lia]. Qed.

Lemma mul_u_ok {E} w a b : a * b < 2 ^ w -> mul_u (E:=E) w a b = Ok (a * b).
Proof. intros H. unfold mul_u. destruct (Z.ltb_spec (a * b) (2 ^ w)); [done|lia]. Qed.

Lemma add_u_panic {E} w a b : 2 ^ w <= a + b -> add_u (E:=E) w a b = Panic.
Proof. intros H. unfold add_u. destruct (Z.ltb_spec (a + b) (2 ^ w)); [lia|done]. Qed.

Lemma checked_add_Some w a b c :
  checked_add w a b = Some c <-> c = a + b /\ a + b < 2 ^ w.
Proof.
  unfold checked_add. destruct (Z.ltb_spec (a + b) (2 ^ w)); split.
  - by intros [= <-].
  - by intros [-> _].
  - done.
  - intros [_ ?]. lia.
Qed.

Lemma checked_mul_Some w a b c :
  checked_mul w a b = Some c <-> c = a * b /\ a * b < 2 ^ w.
Proof.
  unfold checked_mul. destruct (Z.ltb_spec (a * b) (2 ^ w)); split.
  - by intros [= <-].
  - by intros [-> _].
  - done.
  - intros [_ ?]. lia.
Qed.

Lemma as_u_small w x : in_u w x -> as_u w x = x.
Proof. unfold as_u, in_u. intros. by apply Z.mod_small. Qed.

Lemma as_u_in_u w x : 0 <= w -> in_u w (as_u w x).
Proof. intros. unfold as_u, in_u. apply Z.mod_pos_bound. lia. Qed.

(** A tactic for goals mixing linear arithmetic with [mod] and [/] by
    constants. *)
Ltac divmod := Z.div_mod_to_equations; lia.

(** Multiples as divisibility: what [mod] goals with a variable modulus
    need. *)
Lemma mod_add_multiple a b n : 0 < n -> a mod n = 0 -> b mod n = 0 -> (a + b) mod n = 0.
Proof. intros Hn Ha Hb. rewrite Z.add_mod, Ha, Hb by lia. by rewrite Z.mod_0_l by lia. Qed.

Lemma mod_sub_multiple a b n : 0 < n -> a mod n = 0 -> b mod n = 0 -> (a - b) mod n = 0.
Proof. intros Hn Ha Hb. rewrite Zminus_mod, Ha, Hb. by rewrite Z.mod_0_l by lia. Qed.

Lemma mod_divide_trans a m n : 0 < n -> 0 < m -> (n | m) -> a mod m = 0 -> a mod n = 0.
Proof.
  intros Hn Hm Hd Ha. apply Z.mod_divide; [lia|].
  apply Z.mod_divide in Ha; [|lia]. by etrans.
Qed.

Lemma round_up_spec a n :
  0 < n -> a <= round_up a n < a + n /\ round_up a n mod n = 0.
Proof.
  intros Hn. unfold round_up. pose proof (Z.mod_pos_bound a n Hn).
  destruct (Z.eqb_spec (a mod n) 0) as [|Hne]; [lia|].
  split; [lia|]. replace (a + (n - a mod n)) with (n * (a / n + 1)).
  - rewrite Z.mul_comm. by apply Z.mod_mul; lia.
  - pose proof (Z.div_mod a n). lia.
Qed.

(** [round_up] is the least multiple at or above its argument. *)
Lemma round_up_least a n b : 0 < n -> a <= b -> b mod n = 0 -> round_up a n <= b.
Proof.
  intros Hn Hab Hb. destruct (round_up_spec a n Hn) as [[Hl Hu] Hm].
  destruct (Z.le_gt_cases (round_up a n) b) as [|Hgt]; [done|].
  assert ((round_up a n - b) mod n = 0) as Hd by (apply mod_sub_multiple; lia).
  rewrite Z.mod_small in Hd by lia. lia.
Qed.

Lemma round_up_mono a b n : 0 < n -> a <= b -> round_up a n <= round_up b n.
Proof. intros Hn Hab. destruct (round_up_spec b n Hn) as [[Hl _] Hm]. apply round_up_least; [done|lia|done]. Qed.

Lemma round_up_id a n : a mod n = 0 -> round_up a n = a.
Proof. intros H. unfold round_up. by rewrite H. Qed.

Lemma div_ceil_spec a n :
  0 < n -> 0 <= a -> a <= div_ceil a n * n < a + n.
Proof.
  intros Hn Ha. unfold div_ceil. pose proof (Z.div_mod a n).
  pose proof (Z.mod_pos_bound a n Hn). destruct (Z.eqb_spec (a mod n) 0); nia.
Qed.

(** [x & !(2^k - 1)] rounds down: the mask idiom of the loader. *)
Lemma land_not_ones v k :
  in_u 64 v -> 0 <= k <= 64 -> Z.land v (not_u 64 (2 ^ k - 1)) = v - v mod 2 ^ k.
Proof.
  intros [Hv0 Hv] Hk.
  assert (not_u 64 (2 ^ k - 1) = Z.ldiff (Z.ones 64) (Z.ones k)) as ->.
  { unfold not_u. rewrite Z.ldiff_ones_r, Z.shiftr_div_pow2, Z.shiftl_mul_pow2 by lia.
    rewrite Z.ones_div_pow2 by lia. rewrite !Z.ones_equiv, <- !Z.sub_1_r.
    rewrite Z.mul_sub_distr_r, <- Z.pow_add_r by lia.
    replace (64 - k + k) with 64 by lia. lia. }
  assert (Z.land v (Z.ldiff (Z.ones 64) (Z.ones k)) = Z.ldiff v (Z.ones k)) as ->.
  { apply Z.bits_inj'. intros i Hi. rewrite Z.land_spec, !Z.ldiff_spec.
    rewrite (Z.testbit_ones_nonneg 64) by lia.
    destruct (Z.ltb_spec i 64); [done|].
    rewrite (Z.bits_above_log2 v i); [done|lia|].
    destruct (Z.eq_dec v 0) as [->|]; [simpl; lia|].
    apply Z.lt_le_trans with 64; [|lia]. apply Z.log2_lt_pow2; lia. }
  rewrite Z.ldiff_ones_r, Z.shiftr_div_pow2, Z.shiftl_mul_pow2 by lia.
  pose proof (Z.div_mod v (2 ^ k)). lia.
Qed.

(** Packing bit fields: fields that do not overlap add up. *)
Lemma lor_shiftl a b n : 0 <= n -> 0 <= a < 2 ^ n -> Z.lor a (Z.shiftl b n) = a + b * 2 ^ n.
Proof.
  intros Hn Ha. rewrite <- Z.shiftl_mul_pow2 by lia. symmetry. apply Z.add_nocarry_lor.
  apply Z.bits_inj'. intros i Hi. rewrite Z.land_spec, Z.bits_0, Z.shiftl_spec by lia.
  destruct (Z.ltb_spec i n) as [Hlt|Hge].
  - rewrite (Z.testbit_neg_r b) by lia. by rewrite andb_false_r.
  - assert (Z.testbit a i = false) as ->; [|done]. destruct (Z.eq_dec a 0) as [->|]; [by rewrite Z.bits_0|].
    apply Z.bits_above_log2; [lia|]. apply Z.lt_le_trans with n; [|lia]. apply Z.log2_lt_pow2; lia.
Qed.

(** Unpacking: a right shift and a mask take a field out. *)
Lemma land_mask v n : 0 <= n -> Z.land v (2 ^ n - 1) = v mod 2 ^ n.
Proof. intros Hn. rewrite <- Z.land_ones by lia. by rewrite Z.ones_equiv, Z.sub_1_r. Qed.

(** A boolean property of every integer below [n], by evaluation. *)
Lemma all_below (P : Z -> bool) n :
  forallb (fun i => P (Z.of_nat i)) (seq 0 n) = true -> forall v, 0 <= v < Z.of_nat n -> P v = true.
Proof.
  intros Hall v Hv. rewrite forallb_forall in Hall. rewrite <- (Z2Nat.id v) by lia.
  apply Hall, List.in_seq. lia.
Qed.

(** A sum of [f i] over [0 <= i < n]. *)
Fixpoint tally (n : nat) (f : Z -> Z) : Z :=
  match n with O => 0 | S n => tally n f + f (Z.of_nat n) end.

Lemma tally_bound n f b : (forall i, 0 <= f i <= b) -> 0 <= tally n f <= Z.of_nat n * b.
Proof. intros Hf. induction n as [|n IH]; simpl tally; [lia|]. specialize (Hf (Z.of_nat n)). lia. Qed.

Lemma tally_succ i f : 0 <= i -> tally (Z.to_nat (i + 1)) f = tally (Z.to_nat i) f + f i.
Proof. intros Hi. rewrite Z2Nat.inj_add by lia. rewrite Nat.add_1_r. simpl. by rewrite Z2Nat.id by lia. Qed.

Lemma tally_zero n f : (forall i, 0 <= i < Z.of_nat n -> f i = 0) -> tally n f = 0.
Proof. induction n as [|n IH]; intros Hf; simpl; [done|]. rewrite IH, Hf by (intros; try apply Hf; lia). lia. Qed.

(** Where an element of a concatenation falls among the lists. *)
Lemma concat_split {A} (ls : list (list A)) l x r :
  concat ls = l ++ x :: r ->
  exists pre l' r' post, ls = pre ++ (l' ++ x :: r') :: post /\ l = concat pre ++ l'.
Proof.
  revert l. induction ls as [|y ls IH]; intros l Hc; [by destruct l|]. simpl in Hc.
  apply app_eq_inv in Hc as [(k & -> & Hk)|(k & -> & Hk)].
  - destruct k as [|z k]; simpl in Hk.
    + destruct (IH [] (eq_sym Hk)) as (pre & l' & r' & post & -> & Hl).
      exists ((l ++ []) :: pre), l', r', post. split; [done|]. simpl. rewrite <- app_assoc, <- Hl. by rewrite !app_nil_r.
    + injection Hk as -> _. by exists [], l, k, ls.
  - destruct (IH k Hk) as (pre & l' & r' & post & -> & ->). exists (y :: pre), l', r', post.
    split; [done|]. simpl. by rewrite app_assoc.
Qed.

(** ** Tactics *)

(** Peel the binds of a successful run. *)
Ltac inv_bind H :=
  let a := fresh "a" in
  apply bind_Ok_inv in H as (a & ? & H).

(** Discharge the overflow checks of a run whose bounds are in context. *)
Ltac run_arith :=
  repeat first
    [ rewrite add_u_ok by (lia || nia)
    | rewrite sub_u_ok by (lia || nia)
    | rewrite mul_u_ok by (lia || nia)
    | rewrite bind_Ok ].

(** Case analysis on the boolean comparisons of the goal. *)
Ltac case_cmp :=
  match goal with
  | |- context [?a <? ?b] => destruct (Z.ltb_spec a b)
  | |- context [?a <=? ?b] => destruct (Z.leb_spec a b)
  | |- context [?a =? ?b] => destruct (Z.eqb_spec a b)
  end.

(** The same on a hypothesis. *)
Ltac case_cmp_in H :=
  match type of H with
  | context [?a <? ?b] => destruct (Z.ltb_spec a b)
  | context [?a <=? ?b] => destruct (Z.leb_spec a b)
  | context [?a =? ?b] => destruct (Z.eqb_spec a b)
  end.

#[export] Hint Resolve mod_add_multiple mod_sub_multiple : rust.
