(* ===== verification/Memory.v ===== *)
(** Physical memory: a byte store, little-endian words in it, and the
    agreement of two memories on a set of addresses. *)
From S2P Require Import Prelude.

(** The identity-mapped physical memory both binaries run on. An address
    nothing wrote reads as 0. *)
Abbreviation mem := (gmap Z Z).

Definition peek (m : mem) (a : Z) : Z := default 0 (m !! a).

(** ** Little-endian words *)

(** [to_le_bytes] and [from_le_bytes]. *)
Fixpoint le_bytes (n : nat) (v : Z) : list Z :=
  match n with
  | O => []
  | S n => v mod 256 :: le_bytes n (v / 256)
  end.

Fixpoint le_value (bs : list Z) : Z :=
  match bs with
  | [] => 0
  | b :: bs => b + 256 * le_value bs
  end.

Definition is_byte (b : Z) : Prop := 0 <= b < 256.

(** ** Block access *)

Fixpoint read_bytes (m : mem) (a : Z) (n : nat) : list Z :=
  match n with
  | O => []
  | S n => peek m a :: read_bytes m (a + 1) n
  end.

Fixpoint write_bytes (m : mem) (a : Z) (bs : list Z) : mem :=
  match bs with
  | [] => m
  | b :: bs => write_bytes (<[a := b]> m) (a + 1) bs
  end.

(** An aligned or unaligned load and store of an [n]-byte integer. *)
Definition load (n : nat) (m : mem) (a : Z) : Z := le_value (read_bytes m a n).
Definition store (n : nat) (m : mem) (a v : Z) : mem := write_bytes m a (le_bytes n v).

(** [ptr::write_bytes] of the byte [b] over [n] bytes. *)
Definition fill (m : mem) (a : Z) (n : nat) (b : Z) : mem :=
  write_bytes m a (replicate n b).

(** ** Encoding lemmas *)

Lemma length_le_bytes n v : length (le_bytes n v) = n.
Proof. revert v. induction n; intros; simpl; auto. Qed.

Lemma length_read_bytes m a n : length (read_bytes m a n) = n.
Proof. revert a. induction n; intros; simpl; auto. Qed.

Lemma le_bytes_is_byte n v : Forall is_byte (le_bytes n v).
Proof.
  revert v. induction n; intros v; simpl; constructor; auto.
  apply Z.mod_pos_bound. lia.
Qed.

Lemma pow256_succ n : 256 ^ Z.of_nat (S n) = 256 * 256 ^ Z.of_nat n.
Proof. rewrite Nat2Z.inj_succ, Z.pow_succ_r by lia. done. Qed.

Lemma le_value_le_bytes n v : le_value (le_bytes n v) = v mod 256 ^ Z.of_nat n.
Proof.
  revert v. induction n as [|n IH]; intros v.
  - simpl. by rewrite Z.mod_1_r.
  - cbn [le_bytes le_value]. rewrite IH, pow256_succ.
    pose proof (Z.pow_pos_nonneg 256 (Z.of_nat n)). rewrite Z.rem_mul_r by lia. done.
Qed.

Lemma le_value_bound bs : Forall is_byte bs -> 0 <= le_value bs < 256 ^ Z.of_nat (length bs).
Proof.
  induction 1 as [|b bs Hb _ IH]; [simpl; lia|]. unfold is_byte in Hb.
  cbn [le_value length]. rewrite pow256_succ. lia.
Qed.

Lemma le_bytes_le_value bs : Forall is_byte bs -> le_bytes (length bs) (le_value bs) = bs.
Proof.
  induction 1 as [|b bs Hb _ IH]; [done|]. unfold is_byte in Hb.
  cbn [le_value length le_bytes]. f_equal; [divmod|].
  replace ((b + 256 * le_value bs) / 256) with (le_value bs) by divmod. done.
Qed.

(** ** Reading what was written *)

Lemma peek_write_bytes m a bs x :
  peek (write_bytes m a bs) x =
  if bool_decide (a <= x < a + Z.of_nat (length bs))
  then default 0 (bs !! Z.to_nat (x - a)) else peek m x.
Proof.
  revert m a. induction bs as [|b bs IH]; intros m a.
  - simpl. rewrite bool_decide_false by lia. done.
  - cbn [write_bytes length]. rewrite IH. unfold peek at 1.
    destruct (decide (x = a)) as [->|Hne].
    + rewrite bool_decide_false by lia. rewrite bool_decide_true by lia.
      rewrite lookup_insert_eq. by rewrite Z.sub_diag.
    + rewrite lookup_insert_ne by done.
      destruct (decide (a + 1 <= x < a + 1 + Z.of_nat (length bs))).
      * rewrite !bool_decide_true by lia.
        replace (Z.to_nat (x - a)) with (S (Z.to_nat (x - (a + 1)))) by lia. done.
      * rewrite !bool_decide_false by lia. done.
Qed.

Lemma peek_write_bytes_out m a bs x :
  x < a \/ a + Z.of_nat (length bs) <= x -> peek (write_bytes m a bs) x = peek m x.
Proof. intros. rewrite peek_write_bytes, bool_decide_false by lia. done. Qed.

Lemma peek_write_bytes_in m a bs (i : nat) b :
  bs !! i = Some b -> peek (write_bytes m a bs) (a + Z.of_nat i) = b.
Proof.
  intros Hi. pose proof (lookup_lt_Some _ _ _ Hi).
  rewrite peek_write_bytes, bool_decide_true by lia.
  replace (Z.to_nat (a + Z.of_nat i - a)) with i by lia. by rewrite Hi.
Qed.

Lemma lookup_read_bytes m a n (i : nat) :
  (i < n)%nat -> read_bytes m a n !! i = Some (peek m (a + Z.of_nat i)).
Proof.
  revert a i. induction n as [|n IH]; intros a i Hi; [lia|].
  destruct i as [|i]; simpl; [by rewrite Z.add_0_r|].
  rewrite IH by lia. do 2 f_equal. lia.
Qed.

Lemma read_bytes_ext m m' a n :
  (forall x, a <= x < a + Z.of_nat n -> peek m x = peek m' x) ->
  read_bytes m a n = read_bytes m' a n.
Proof.
  revert a. induction n as [|n IH]; intros a H; [done|]. simpl. f_equal.
  - apply H. lia.
  - apply IH. intros. apply H. lia.
Qed.

Lemma read_write_bytes m a bs : read_bytes (write_bytes m a bs) a (length bs) = bs.
Proof.
  apply list_eq. intros i. destruct (decide (i < length bs)%nat) as [Hi|Hi].
  - rewrite lookup_read_bytes by lia.
    destruct (lookup_lt_is_Some_2 bs i Hi) as [b Hb].
    rewrite Hb. f_equal. by apply peek_write_bytes_in.
  - rewrite !lookup_ge_None_2; [done|lia|]. rewrite length_read_bytes. lia.
Qed.

(** ** Agreement off a set of addresses *)

(** [mem_agree P m m']: the two memories hold the same bytes at every
    address of [P]. Writers are specified by what they leave alone. *)
Definition mem_agree (P : Z -> Prop) (m m' : mem) : Prop :=
  forall a, P a -> peek m a = peek m' a.

#[export] Instance mem_agree_equivalence P : Equivalence (mem_agree P).
Proof.
  split.
  - by intros m a _.
  - intros m m' H a Ha. symmetry. auto.
  - intros m1 m2 m3 H1 H2 a Ha. etrans; auto.
Qed.

Lemma mem_agree_mono (P Q : Z -> Prop) m m' :
  (forall a, Q a -> P a) -> mem_agree P m m' -> mem_agree Q m m'.
Proof. intros HPQ H a Ha. auto. Qed.

(** The bytes of [n] addresses from [a]. *)
Definition range (a n x : Z) : Prop := a <= x < a + n.

Lemma mem_agree_write P m a bs :
  (forall x, P x -> ~ range a (Z.of_nat (length bs)) x) ->
  mem_agree P m (write_bytes m a bs).
Proof.
  intros H x Hx. symmetry. apply peek_write_bytes_out. specialize (H x Hx).
  unfold range in H. lia.
Qed.

Lemma mem_agree_store P n m a v :
  (forall x, P x -> ~ range a (Z.of_nat n) x) -> mem_agree P m (store n m a v).
Proof. intros. apply mem_agree_write. by rewrite length_le_bytes. Qed.

Lemma load_agree P n m m' a :
  mem_agree P m m' -> (forall x, range a (Z.of_nat n) x -> P x) -> load n m a = load n m' a.
Proof.
  intros H HP. unfold load. f_equal. apply read_bytes_ext. intros x Hx. apply H, HP, Hx.
Qed.

(** Loads are functions of the memory's contents alone. *)
#[export] Instance load_proper n :
  Proper (mem_agree (fun _ => True) ==> (=) ==> (=)) (load n).
Proof. intros m m' H a _ <-. by eapply load_agree. Qed.

Lemma load_store_eq n m a v : load n (store n m a v) a = v mod 256 ^ Z.of_nat n.
Proof.
  unfold load, store. pose proof (read_write_bytes m a (le_bytes n v)) as H.
  rewrite length_le_bytes in H. rewrite H. apply le_value_le_bytes.
Qed.

Lemma load_store_ne n k m a b v :
  a + Z.of_nat n <= b \/ b + Z.of_nat k <= a -> load n (store k m b v) a = load n m a.
Proof.
  intros H. symmetry. apply load_agree with (P := range a (Z.of_nat n)); [|done].
  apply mem_agree_store. unfold range. lia.
Qed.

(** The 8-byte case: pointers, sizes and every [u64] of the kernel. *)
Lemma load_store_u64 m a v : in_u 64 v -> load 8 (store 8 m a v) a = v.
Proof.
  unfold in_u. intros H. rewrite load_store_eq. apply Z.mod_small.
  change (256 ^ Z.of_nat 8) with (2 ^ 64). lia.
Qed.

Lemma load_store_u32 m a v : in_u 32 v -> load 4 (store 4 m a v) a = v.
Proof.
  unfold in_u. intros H. rewrite load_store_eq. apply Z.mod_small.
  change (256 ^ Z.of_nat 4) with (2 ^ 32). lia.
Qed.

#[export] Hint Resolve mem_agree_store mem_agree_write le_bytes_is_byte : rust.
