(* ===== verification/Layout.v ===== *)
(** Struct layout: the [repr(C)] and [repr(C, packed(n))] rules, as the
    compiler applies them to the types the two binaries share with each other
    and with the hardware, and reads and writes of a struct's fields. *)
From S2P Require Import Prelude Memory.

(** A type's size and alignment. *)
Record ctype := CType { csize : Z; calign : Z }.

Definition c_u8 : ctype := CType 1 1.
Definition c_u16 : ctype := CType 2 2.
Definition c_u32 : ctype := CType 4 4.
Definition c_u64 : ctype := CType 8 8.
Definition c_array (t : ctype) (n : Z) : ctype := CType (n * csize t) (calign t).

(** [packed(p)] caps every field's alignment at [p]. *)
Definition c_packed (p : Z) (t : ctype) : ctype := CType (csize t) (Z.min p (calign t)).

(** Each field goes to the next offset its alignment allows. *)
Fixpoint offsets_from (o : Z) (fs : list ctype) : list Z :=
  match fs with
  | [] => []
  | f :: fs => let o' := round_up o (calign f) in o' :: offsets_from (o' + csize f) fs
  end.

Fixpoint end_from (o : Z) (fs : list ctype) : Z :=
  match fs with
  | [] => o
  | f :: fs => end_from (round_up o (calign f) + csize f) fs
  end.

Definition c_align (fs : list ctype) : Z := foldr (fun f a => Z.max (calign f) a) 1 fs.

(** A [repr(C)] struct: the fields in order, its size rounded up to its
    alignment. *)
Definition repr_c (fs : list ctype) : ctype :=
  CType (round_up (end_from 0 fs) (c_align fs)) (c_align fs).

Definition offset (fs : list ctype) (i : nat) : Z := nth i (offsets_from 0 fs) 0.

(** ** Integer fields, read and written in order *)

(** [write_fields m a fvs]: store each [(offset, width, value)] below [a]. *)
Definition write_fields (m : mem) (a : Z) (fvs : list (Z * nat * Z)) : mem :=
  foldl (fun m f => store (snd (fst f)) m (a + fst (fst f)) (snd f)) m fvs.

Definition fields_span (fvs : list (Z * nat * Z)) (n : Z) : Prop :=
  Forall (fun f => 0 <= fst (fst f) /\ fst (fst f) + Z.of_nat (snd (fst f)) <= n) fvs.

(** Fields do not overlap. *)
Fixpoint fields_disjoint (fvs : list (Z * nat * Z)) : Prop :=
  match fvs with
  | [] => True
  | f :: rest =>
      Forall (fun g => fst (fst f) + Z.of_nat (snd (fst f)) <= fst (fst g)) rest /\
      fields_disjoint rest
  end.

Lemma write_fields_agree m a fvs n :
  fields_span fvs n -> mem_agree (fun x => ~ range a n x) m (write_fields m a fvs).
Proof.
  intros H. revert m. induction H as [|[[o k] v] fvs [Ho Hk] _ IH]; intros m; [done|].
  simpl in *. etrans; [|apply IH]. apply mem_agree_store. unfold range. lia.
Qed.

Lemma load_write_fields_ne m a fvs o k :
  Forall (fun g => o + Z.of_nat k <= fst (fst g) \/
                   fst (fst g) + Z.of_nat (snd (fst g)) <= o) fvs ->
  load k (write_fields m a fvs) (a + o) = load k m (a + o).
Proof.
  intros H. revert m. induction H as [|[[o' k'] v'] fvs Ho _ IH]; intros m; [done|].
  simpl in *. rewrite IH. apply load_store_ne. lia.
Qed.

(** A field reads back what was written to it. *)
Lemma load_write_fields m a fvs o k v :
  fields_disjoint fvs -> (o, k, v) ∈ fvs -> 0 <= v < 256 ^ Z.of_nat k ->
  load k (write_fields m a fvs) (a + o) = v.
Proof.
  intros Hd Hin Hv. revert m. induction fvs as [|[[o' k'] v'] fvs IH]; intros m.
  - by apply not_elem_of_nil in Hin.
  - destruct Hd as [Hf Hd]. simpl in Hf. apply elem_of_cons in Hin as [[= <- <- <-]|Hin].
    + simpl. rewrite load_write_fields_ne.
      * rewrite load_store_eq. by apply Z.mod_small.
      * eapply Forall_impl; [exact Hf|]. simpl. intros. by left.
    + simpl. by apply IH.
Qed.
