(* ===== verification/BootInfo.v ===== *)
(** The handoff ABI shared by the two binaries ([boot_info/src/lib.rs]): the
    framebuffer description, the flattened memory map, the iterator over its
    usable runs, the root struct, and their [repr(C)] byte layout. *)
From S2P Require Import Prelude Memory Layout.

Definition BOOT_INFO_MAGIC : Z := 0x52555354425f4c30.
Definition BOOT_INFO_VERSION : Z := 1.
Definition PAGE_SIZE : Z := 4096.

(** ** Pixel formats *)

Inductive PixelFormatKind := Rgb | Bgr.

#[export] Instance PixelFormatKind_eq_dec : EqDecision PixelFormatKind.
Proof. solve_decision. Defined.

(** [pixel_format as u32]. *)
Definition PixelFormatKind_as_u32 (f : PixelFormatKind) : Z :=
  match f with Rgb => 0 | Bgr => 1 end.

Definition from_u32 (value : Z) : option PixelFormatKind :=
  match value with
  | 0 => Some Rgb
  | 1 => Some Bgr
  | _ => None
  end.

(** ** The framebuffer *)

Record FrameBufferInfo := {
  fb_addr : Z;
  fb_size : Z;
  fb_width : Z;
  fb_height : Z;
  fb_stride : Z;
  fb_bytes_per_pixel : Z;
  fb_pixel_format_raw : Z;
  fb_pad : Z;
}.

Definition FrameBufferInfo_new (addr size width height stride bytes_per_pixel : Z)
    (pixel_format : PixelFormatKind) : FrameBufferInfo :=
  {| fb_addr := addr;
     fb_size := size;
     fb_width := width;
     fb_height := height;
     fb_stride := stride;
     fb_bytes_per_pixel := bytes_per_pixel;
     fb_pixel_format_raw := PixelFormatKind_as_u32 pixel_format;
     fb_pad := 0 |}.

Definition pixel_format (fb : FrameBufferInfo) : option PixelFormatKind :=
  from_u32 (fb_pixel_format_raw fb).

(** ** The memory map *)

Record MemoryRegion := {
  mr_start : Z;
  mr_pages : Z;
  mr_kind : Z;
  mr_pad : Z;
}.

Definition CONVENTIONAL : Z := 7.

Definition MemoryRegion_new (start pages kind : Z) : MemoryRegion :=
  {| mr_start := start; mr_pages := pages; mr_kind := kind; mr_pad := 0 |}.

Definition is_usable (r : MemoryRegion) : bool := mr_kind r =? CONVENTIONAL.

(** ** Usable runs *)

Record FrameRun := { fr_start : Z; fr_frames : Z }.

#[export] Instance FrameRun_eq_dec : EqDecision FrameRun.
Proof. solve_decision. Defined.

Record UsableRegions := { ur_regions : list MemoryRegion; ur_index : nat }.

Definition UsableRegions_new (regions : list MemoryRegion) : UsableRegions :=
  {| ur_regions := regions; ur_index := 0 |}.

(** The body of [next]'s loop: [None] is [continue], [Some] is the [return]. *)
Definition usable_run (region : MemoryRegion) : option FrameRun :=
  if negb (is_usable region) then None else
  span ← checked_mul 64 (mr_pages region) PAGE_SIZE;
  end_ ← checked_add 64 (mr_start region) span;
  start ← checked_next_multiple_of 64 (Z.max (mr_start region) PAGE_SIZE) PAGE_SIZE;
  let end_ := end_ - end_ mod PAGE_SIZE in
  if end_ <=? start then None
  else Some {| fr_start := start; fr_frames := (end_ - start) / PAGE_SIZE |}.

(** The loop, over the regions from the index on. *)
Fixpoint next_from (rest : list MemoryRegion) (index : nat) : option FrameRun * nat :=
  match rest with
  | [] => (None, index)
  | region :: rest =>
      match usable_run region with
      | Some run => (Some run, S index)
      | None => next_from rest (S index)
      end
  end.

Definition next (u : UsableRegions) : option FrameRun * UsableRegions :=
  let '(run, index) := next_from (drop (ur_index u) (ur_regions u)) (ur_index u) in
  (run, {| ur_regions := ur_regions u; ur_index := index |}).

(** ** The root struct *)

Record BootInfo := {
  bi_magic : Z;
  bi_version : Z;
  bi_pad : Z;
  bi_framebuffer : FrameBufferInfo;
  bi_memory_regions_ptr : Z;
  bi_memory_regions_len : Z;
  bi_kernel_base : Z;
  bi_kernel_size : Z;
}.

Definition BootInfo_new (framebuffer : FrameBufferInfo)
    (memory_regions_ptr memory_regions_len kernel_base kernel_size : Z) : BootInfo :=
  {| bi_magic := BOOT_INFO_MAGIC;
     bi_version := BOOT_INFO_VERSION;
     bi_pad := 0;
     bi_framebuffer := framebuffer;
     bi_memory_regions_ptr := memory_regions_ptr;
     bi_memory_regions_len := memory_regions_len;
     bi_kernel_base := kernel_base;
     bi_kernel_size := kernel_size |}.

Definition is_valid (b : BootInfo) : bool :=
  (bi_magic b =? BOOT_INFO_MAGIC) &&
  (bi_version b =? BOOT_INFO_VERSION) &&
  match pixel_format (bi_framebuffer b) with Some _ => true | None => false end.

(** ** The bytes in memory *)

Definition MemoryRegion_fields : list ctype := [c_u64; c_u64; c_u32; c_u32].
Definition FrameBufferInfo_fields : list ctype :=
  [c_u64; c_u64; c_u32; c_u32; c_u32; c_u32; c_u32; c_u32].
Definition BootInfo_fields : list ctype :=
  [c_u64; c_u32; c_u32; repr_c FrameBufferInfo_fields; c_u64; c_u64; c_u64; c_u64].

Definition size_of_MemoryRegion : Z := csize (repr_c MemoryRegion_fields).
Definition size_of_FrameBufferInfo : Z := csize (repr_c FrameBufferInfo_fields).
Definition size_of_BootInfo : Z := csize (repr_c BootInfo_fields).

Definition MemoryRegion_image (r : MemoryRegion) : list (Z * nat * Z) :=
  let o := offset MemoryRegion_fields in
  [(o 0%nat, 8%nat, mr_start r); (o 1%nat, 8%nat, mr_pages r);
   (o 2%nat, 4%nat, mr_kind r); (o 3%nat, 4%nat, mr_pad r)].

(** [regions_ptr.add(i).write(r)]. *)
Definition write_MemoryRegion (m : mem) (a : Z) (r : MemoryRegion) : mem :=
  write_fields m a (MemoryRegion_image r).

Definition read_MemoryRegion (m : mem) (a : Z) : MemoryRegion :=
  let o i := a + offset MemoryRegion_fields i in
  {| mr_start := load 8 m (o 0%nat); mr_pages := load 8 m (o 1%nat);
     mr_kind := load 4 m (o 2%nat); mr_pad := load 4 m (o 3%nat) |}.

Definition FrameBufferInfo_image (base : Z) (fb : FrameBufferInfo) : list (Z * nat * Z) :=
  let o i := base + offset FrameBufferInfo_fields i in
  [(o 0%nat, 8%nat, fb_addr fb); (o 1%nat, 8%nat, fb_size fb);
   (o 2%nat, 4%nat, fb_width fb); (o 3%nat, 4%nat, fb_height fb);
   (o 4%nat, 4%nat, fb_stride fb); (o 5%nat, 4%nat, fb_bytes_per_pixel fb);
   (o 6%nat, 4%nat, fb_pixel_format_raw fb); (o 7%nat, 4%nat, fb_pad fb)].

Definition read_FrameBufferInfo (m : mem) (a : Z) : FrameBufferInfo :=
  let o i := a + offset FrameBufferInfo_fields i in
  {| fb_addr := load 8 m (o 0%nat); fb_size := load 8 m (o 1%nat);
     fb_width := load 4 m (o 2%nat); fb_height := load 4 m (o 3%nat);
     fb_stride := load 4 m (o 4%nat); fb_bytes_per_pixel := load 4 m (o 5%nat);
     fb_pixel_format_raw := load 4 m (o 6%nat); fb_pad := load 4 m (o 7%nat) |}.

Definition BootInfo_image (b : BootInfo) : list (Z * nat * Z) :=
  let o := offset BootInfo_fields in
  [(o 0%nat, 8%nat, bi_magic b); (o 1%nat, 4%nat, bi_version b); (o 2%nat, 4%nat, bi_pad b)]
  ++ FrameBufferInfo_image (o 3%nat) (bi_framebuffer b) ++
  [(o 4%nat, 8%nat, bi_memory_regions_ptr b); (o 5%nat, 8%nat, bi_memory_regions_len b);
   (o 6%nat, 8%nat, bi_kernel_base b); (o 7%nat, 8%nat, bi_kernel_size b)].

Definition write_BootInfo (m : mem) (a : Z) (b : BootInfo) : mem :=
  write_fields m a (BootInfo_image b).

Definition read_BootInfo (m : mem) (a : Z) : BootInfo :=
  let o i := a + offset BootInfo_fields i in
  {| bi_magic := load 8 m (o 0%nat); bi_version := load 4 m (o 1%nat);
     bi_pad := load 4 m (o 2%nat); bi_framebuffer := read_FrameBufferInfo m (o 3%nat);
     bi_memory_regions_ptr := load 8 m (o 4%nat);
     bi_memory_regions_len := load 8 m (o 5%nat);
     bi_kernel_base := load 8 m (o 6%nat); bi_kernel_size := load 8 m (o 7%nat) |}.

(** [core::slice::from_raw_parts(ptr, len)]: element [i] is at
    [ptr + i * size_of::<MemoryRegion>()]. *)
Definition region_slot (ptr : Z) (i : nat) : Z := ptr + Z.of_nat i * size_of_MemoryRegion.

Definition read_regions (m : mem) (ptr : Z) (len : nat) : list MemoryRegion :=
  (fun i => read_MemoryRegion m (region_slot ptr i)) <$> seq 0 len.

Definition memory_regions (m : mem) (b : BootInfo) : list MemoryRegion :=
  read_regions m (bi_memory_regions_ptr b) (Z.to_nat (bi_memory_regions_len b)).

(** Fields fit their types: what a Rust value of the type guarantees. *)
Definition MemoryRegion_ok (r : MemoryRegion) : Prop :=
  in_u 64 (mr_start r) /\ in_u 64 (mr_pages r) /\ in_u 32 (mr_kind r) /\ in_u 32 (mr_pad r).

Definition FrameBufferInfo_ok (fb : FrameBufferInfo) : Prop :=
  in_u 64 (fb_addr fb) /\ in_u 64 (fb_size fb) /\ in_u 32 (fb_width fb) /\
  in_u 32 (fb_height fb) /\ in_u 32 (fb_stride fb) /\ in_u 32 (fb_bytes_per_pixel fb) /\
  in_u 32 (fb_pixel_format_raw fb) /\ in_u 32 (fb_pad fb).

Definition BootInfo_ok (b : BootInfo) : Prop :=
  in_u 64 (bi_magic b) /\ in_u 32 (bi_version b) /\ in_u 32 (bi_pad b) /\
  FrameBufferInfo_ok (bi_framebuffer b) /\ in_u 64 (bi_memory_regions_ptr b) /\
  in_u 64 (bi_memory_regions_len b) /\ in_u 64 (bi_kernel_base b) /\
  in_u 64 (bi_kernel_size b).

(** ** Layout facts *)

Lemma MemoryRegion_offsets : offsets_from 0 MemoryRegion_fields = [0; 8; 16; 20].
Proof. reflexivity. Qed.

Lemma BootInfo_offsets : offsets_from 0 BootInfo_fields = [0; 8; 12; 16; 56; 64; 72; 80].
Proof. reflexivity. Qed.

Lemma BootInfo_image_span b : fields_span (BootInfo_image b) size_of_BootInfo.
Proof. repeat constructor; vm_compute; congruence. Qed.

Lemma BootInfo_image_disjoint b : fields_disjoint (BootInfo_image b).
Proof. repeat (constructor; try (vm_compute; congruence)). Qed.

Lemma MemoryRegion_image_span r : fields_span (MemoryRegion_image r) size_of_MemoryRegion.
Proof. repeat constructor; vm_compute; congruence. Qed.

Lemma MemoryRegion_image_disjoint r : fields_disjoint (MemoryRegion_image r).
Proof. repeat (constructor; try (vm_compute; congruence)). Qed.

(** A field load of a struct just written. *)
Ltac field_load :=
  rewrite <- ?Z.add_assoc; apply load_write_fields;
  [ assumption
  | unfold MemoryRegion_image, BootInfo_image, FrameBufferInfo_image; cbn [app];
    repeat first [ apply list_elem_of_here | apply list_elem_of_further ]
  | change (256 ^ Z.of_nat 8) with (2 ^ 64); change (256 ^ Z.of_nat 4) with (2 ^ 32);
    assumption ].

Lemma read_write_MemoryRegion m a r :
  MemoryRegion_ok r -> read_MemoryRegion (write_MemoryRegion m a r) a = r.
Proof.
  intros (H1 & H2 & H3 & H4). pose proof (MemoryRegion_image_disjoint r).
  unfold read_MemoryRegion, write_MemoryRegion.
  transitivity (Build_MemoryRegion (mr_start r) (mr_pages r) (mr_kind r) (mr_pad r));
    [|by destruct r].
  f_equal; field_load.
Qed.

Lemma read_write_FrameBufferInfo m a b :
  BootInfo_ok b ->
  read_FrameBufferInfo (write_BootInfo m a b) (a + offset BootInfo_fields 3) =
  bi_framebuffer b.
Proof.
  intros (_ & _ & _ & (H1 & H2 & H3 & H4 & H5 & H6 & H7 & H8) & _).
  pose proof (BootInfo_image_disjoint b).
  unfold read_FrameBufferInfo, write_BootInfo. set (fb := bi_framebuffer b) in *.
  transitivity (Build_FrameBufferInfo (fb_addr fb) (fb_size fb) (fb_width fb)
    (fb_height fb) (fb_stride fb) (fb_bytes_per_pixel fb) (fb_pixel_format_raw fb)
    (fb_pad fb)); [|by destruct fb].
  f_equal; field_load.
Qed.

Lemma read_write_BootInfo m a b :
  BootInfo_ok b -> read_BootInfo (write_BootInfo m a b) a = b.
Proof.
  intros Hok. pose proof (read_write_FrameBufferInfo m a b Hok) as Hfb.
  destruct Hok as (H1 & H2 & H3 & _ & H5 & H6 & H7 & H8).
  pose proof (BootInfo_image_disjoint b). unfold read_BootInfo. rewrite Hfb.
  unfold write_BootInfo.
  transitivity (Build_BootInfo (bi_magic b) (bi_version b) (bi_pad b) (bi_framebuffer b)
    (bi_memory_regions_ptr b) (bi_memory_regions_len b) (bi_kernel_base b)
    (bi_kernel_size b)); [|by destruct b].
  f_equal; field_load.
Qed.

Lemma write_BootInfo_agree m a b :
  mem_agree (fun x => ~ range a size_of_BootInfo x) m (write_BootInfo m a b).
Proof. apply write_fields_agree, BootInfo_image_span. Qed.

Lemma write_MemoryRegion_agree m a r :
  mem_agree (fun x => ~ range a size_of_MemoryRegion x) m (write_MemoryRegion m a r).
Proof. apply write_fields_agree, MemoryRegion_image_span. Qed.

(** Reads of a struct depend on its own bytes only. *)
Ltac fields_agree H :=
  eapply load_agree; [exact H|]; intros x; unfold range;
  repeat match goal with |- context [offset ?F ?i] =>
    let v := eval vm_compute in (offset F i) in change (offset F i) with v end;
  change size_of_MemoryRegion with 24; change size_of_BootInfo with 88; lia.

Lemma read_MemoryRegion_agree m m' a :
  mem_agree (range a size_of_MemoryRegion) m m' ->
  read_MemoryRegion m a = read_MemoryRegion m' a.
Proof. intros H. unfold read_MemoryRegion. f_equal; fields_agree H. Qed.

Lemma read_BootInfo_agree m m' a :
  mem_agree (range a size_of_BootInfo) m m' -> read_BootInfo m a = read_BootInfo m' a.
Proof.
  intros H. unfold read_BootInfo, read_FrameBufferInfo.
  f_equal; [..|f_equal| | | |]; fields_agree H.
Qed.

(** ** The usable runs *)

(** One past the last byte of a region and of a run. *)
Definition mr_end (r : MemoryRegion) : Z := mr_start r + mr_pages r * PAGE_SIZE.
Definition fr_end (run : FrameRun) : Z := fr_start run + fr_frames run * PAGE_SIZE.

(** A well-formed descriptor: its span does not overflow. *)
Definition region_sane (r : MemoryRegion) : Prop :=
  MemoryRegion_ok r /\ mr_end r < 2 ^ 64.

(** What every consumer of a run relies on. *)
Definition run_ok (run : FrameRun) : Prop :=
  PAGE_SIZE <= fr_start run /\ fr_start run mod PAGE_SIZE = 0 /\ 0 < fr_frames run /\
  fr_end run < 2 ^ 64.

(** The page frame at [f] is a whole frame of the run. *)
Definition frame_in (run : FrameRun) (f : Z) : Prop :=
  f mod PAGE_SIZE = 0 /\ fr_start run <= f /\ f + PAGE_SIZE <= fr_end run.

(** The page frame at [f] is whole, usable, non-null memory of the region. *)
Definition frame_usable (r : MemoryRegion) (f : Z) : Prop :=
  mr_kind r = CONVENTIONAL /\ mr_end r < 2 ^ 64 /\
  f mod PAGE_SIZE = 0 /\ PAGE_SIZE <= f /\ mr_start r <= f /\ f + PAGE_SIZE <= mr_end r.

Lemma is_usable_true r : is_usable r = true <-> mr_kind r = CONVENTIONAL.
Proof. apply Z.eqb_eq. Qed.

(** The run of a region is the whole frames between the rounded bounds. *)
Lemma usable_run_Some r run :
  MemoryRegion_ok r ->
  usable_run r = Some run <->
  mr_kind r = CONVENTIONAL /\ mr_end r < 2 ^ 64 /\
  fr_start run = round_up (Z.max (mr_start r) PAGE_SIZE) PAGE_SIZE /\
  fr_end run = mr_end r - mr_end r mod PAGE_SIZE /\ fr_start run < fr_end run.
Proof.
  intros ([Hs0 Hs] & [Hp0 Hp] & _). unfold usable_run.
  destruct (is_usable r) eqn:Hu; [apply is_usable_true in Hu|].
  2: { split; [done|]. intros (Hk & _). apply is_usable_true in Hk. congruence. }
  assert (forall e, e <= mr_end r -> e mod PAGE_SIZE = 0 ->
    round_up (Z.max (mr_start r) PAGE_SIZE) PAGE_SIZE < e ->
    (e - round_up (Z.max (mr_start r) PAGE_SIZE) PAGE_SIZE) / PAGE_SIZE * PAGE_SIZE =
    e - round_up (Z.max (mr_start r) PAGE_SIZE) PAGE_SIZE) as Hdiv.
  { intros e _ He _.
    destruct (round_up_spec (Z.max (mr_start r) PAGE_SIZE) PAGE_SIZE) as [_ Hm]; [done|].
    unfold PAGE_SIZE in *. divmod. }
  unfold checked_mul, checked_add, checked_next_multiple_of. cbn [negb].
  set (S := round_up (Z.max (mr_start r) PAGE_SIZE) PAGE_SIZE) in *.
  assert (Z.max (mr_start r) PAGE_SIZE <= S < Z.max (mr_start r) PAGE_SIZE + PAGE_SIZE)
    as HS by (apply round_up_spec; done).
  unfold mr_end, fr_end in *.
  destruct (Z.ltb_spec (mr_pages r * PAGE_SIZE) (2 ^ 64)); simpl mbind; cycle 1.
  { split; [done|]. unfold PAGE_SIZE in *. lia. }
  destruct (Z.ltb_spec (mr_start r + mr_pages r * PAGE_SIZE) (2 ^ 64)); simpl mbind;
    [|split; [done|lia]].
  set (E := mr_start r + mr_pages r * PAGE_SIZE) in *.
  assert ((E - E mod PAGE_SIZE) mod PAGE_SIZE = 0) as HE by (unfold PAGE_SIZE; divmod).
  assert (0 <= E mod PAGE_SIZE) by (unfold PAGE_SIZE; divmod).
  specialize (Hdiv (E - E mod PAGE_SIZE)).
  destruct (Z.ltb_spec S (2 ^ 64)); simpl mbind; [|split; [done|lia]].
  destruct (Z.leb_spec (E - E mod PAGE_SIZE) S).
  - split; [done|lia].
  - split.
    + intros [= <-]; simpl. rewrite Hdiv by lia. lia.
    + intros (_ & _ & Hst & Hen & Hlt). f_equal. destruct run as [st fr]; simpl in *.
      subst st. f_equal. unfold PAGE_SIZE in *. nia.
Qed.

Lemma usable_run_ok r run : MemoryRegion_ok r -> usable_run r = Some run -> run_ok run.
Proof.
  intros Hok Hr. apply usable_run_Some in Hr as (_ & He & Hs & Hf & Hlt); [|done].
  destruct (round_up_spec (Z.max (mr_start r) PAGE_SIZE) PAGE_SIZE) as [? ?]; [done|].
  unfold run_ok. rewrite <- Hs in *. unfold fr_end in *.
  assert (0 <= mr_end r mod PAGE_SIZE) by (apply Z.mod_pos_bound; done).
  unfold PAGE_SIZE in *. repeat split; try lia.
Qed.

(** Exactly the usable frames of the region, no more and no fewer. *)
Lemma frame_in_usable_run r f :
  MemoryRegion_ok r ->
  frame_usable r f <-> exists run, usable_run r = Some run /\ frame_in run f.
Proof.
  intros Hok. split.
  - intros (Hk & He & Hf & H1 & H2 & H3).
    set (S := round_up (Z.max (mr_start r) PAGE_SIZE) PAGE_SIZE).
    set (E := mr_end r - mr_end r mod PAGE_SIZE).
    assert (S <= f) by (apply round_up_least; [done|lia|done]).
    assert (f + PAGE_SIZE <= E) by (unfold E, PAGE_SIZE in *; divmod).
    assert (S mod PAGE_SIZE = 0) by (apply round_up_spec; done).
    assert (E mod PAGE_SIZE = 0) by (unfold E, PAGE_SIZE; divmod).
    exists {| fr_start := S; fr_frames := (E - S) / PAGE_SIZE |}.
    assert ((E - S) / PAGE_SIZE * PAGE_SIZE = E - S) as Hd by (unfold PAGE_SIZE in *; divmod).
    rewrite usable_run_Some by done. unfold frame_in, fr_end; simpl. rewrite Hd.
    unfold PAGE_SIZE in *. repeat split; try done; lia.
  - intros (run & Hr & Hf & H1 & H2).
    apply usable_run_Some in Hr as (Hk & He & Hs & Hfe & Hlt); [|done].
    destruct (round_up_spec (Z.max (mr_start r) PAGE_SIZE) PAGE_SIZE) as [? ?]; [done|].
    assert (0 <= mr_end r mod PAGE_SIZE) by (apply Z.mod_pos_bound; done).
    unfold frame_usable. repeat split; try done; lia.
Qed.

(** The runs still to come. *)
Definition remaining (u : UsableRegions) : list FrameRun :=
  omap usable_run (drop (ur_index u) (ur_regions u)).

Lemma omap_usable_cons r rest :
  omap usable_run (r :: rest) =
  match usable_run r with
  | Some run => run :: omap usable_run rest
  | None => omap usable_run rest
  end.
Proof. reflexivity. Qed.

Lemma next_from_spec rest i :
  match next_from rest i with
  | (Some run, j) => exists k, j = (i + S k)%nat /\
      omap usable_run rest = run :: omap usable_run (drop (S k) rest)
  | (None, j) => omap usable_run rest = [] /\ j = (i + length rest)%nat
  end.
Proof.
  revert i. induction rest as [|r rest IH]; intros i.
  - split; [done|simpl; lia].
  - rewrite omap_usable_cons. cbn [next_from length].
    destruct (usable_run r) as [run|] eqn:Hr.
    + exists 0%nat. split; [lia|done].
    + specialize (IH (S i)). destruct (next_from rest (S i)) as [[run|] j].
      * destruct IH as (k & -> & ->). exists (S k). split; [lia|done].
      * destruct IH as [-> ->]. split; [done|lia].
Qed.

(** [next] yields the first remaining run and leaves the others. *)
Lemma next_spec u :
  match next u with
  | (Some run, u') => remaining u = run :: remaining u' /\
      (length (ur_regions u) - ur_index u' < length (ur_regions u) - ur_index u)%nat
  | (None, u') => remaining u = [] /\ remaining u' = []
  end /\ ur_regions (snd (next u)) = ur_regions u.
Proof.
  unfold next, remaining. pose proof (next_from_spec (drop (ur_index u) (ur_regions u)) (ur_index u)) as H.
  destruct (next_from _ _) as [[run|] j]; simpl; (split; [|done]).
  - destruct H as (k & -> & H). rewrite H, drop_drop.
    split; [done|]. destruct (decide (ur_index u < length (ur_regions u))%nat); [lia|].
    rewrite drop_ge in H by lia. done.
  - destruct H as [-> ->]. split; [done|]. rewrite length_drop, drop_ge; [done|lia].
Qed.

(** A [for] loop over the iterator: the runs it yields, in order. *)
Fixpoint drain (fuel : nat) (u : UsableRegions) : option (list FrameRun) :=
  match next u with
  | (None, _) => Some []
  | (Some run, u) =>
      match fuel with
      | O => None
      | S fuel => cons run <$> drain fuel u
      end
  end.

Lemma drain_spec fuel u :
  (length (ur_regions u) - ur_index u <= fuel)%nat -> drain fuel u = Some (remaining u).
Proof.
  revert u. induction fuel as [|fuel IH]; intros u Hf; cbn [drain];
    destruct (next_spec u) as [Hn Hr]; destruct (next u) as [[run|] u']; destruct Hn as [-> Hn];
    simpl in Hr; try done; try lia.
  rewrite IH; [done|]. rewrite Hr. lia.
Qed.

Lemma remaining_runs_ok regions :
  Forall MemoryRegion_ok regions -> Forall run_ok (omap usable_run regions).
Proof.
  intros Hok. apply Forall_forall. intros run Hrun.
  apply list_elem_of_omap in Hrun as (r & Hin & Hr). rewrite Forall_forall in Hok.
  by eapply usable_run_ok; [apply Hok|].
Qed.

(** ** Properties *)

(** C10: iterating over the usable runs of any memory map, however malformed
    its descriptors, ends within one step per descriptor; every run yielded is
    page-aligned, non-empty, off physical page zero and inside the address
    space; and a page frame lies in some run exactly when it is a whole,
    aligned, non-null frame of a CONVENTIONAL descriptor whose span does not
    overflow. *)
Theorem usable_regions_exact regions :
  Forall MemoryRegion_ok regions ->
  exists runs, drain (length regions) (UsableRegions_new regions) = Some runs /\
    Forall run_ok runs /\
    forall f, Exists (fun run => frame_in run f) runs <->
              Exists (fun r => frame_usable r f) regions.
Proof.
  intros Hok. exists (omap usable_run regions). split; [|split].
  - apply drain_spec. simpl. lia.
  - by apply remaining_runs_ok.
  - intros f. rewrite !Exists_exists. rewrite Forall_forall in Hok. split.
    + intros (run & Hrun & Hf). apply list_elem_of_omap in Hrun as (r & Hin & Hr).
      exists r. split; [done|]. apply frame_in_usable_run; eauto.
    + intros (r & Hin & Hf). apply frame_in_usable_run in Hf as (run & Hr & Hf); [|by apply Hok].
      exists run. split; [|done]. apply list_elem_of_omap. eauto.
Qed.

(** C36: the handoff struct crosses the binary boundary intact. It takes the
    88 bytes both sides assert; reading it at its address gives every field
    back as written, whatever was in memory; only those bytes change; and a
    struct built by [BootInfo::new] passes [is_valid] on the other side. *)
Theorem boot_info_roundtrip m a b :
  BootInfo_ok b ->
  size_of_BootInfo = 88 /\ size_of_FrameBufferInfo = 40 /\ size_of_MemoryRegion = 24 /\
  read_BootInfo (write_BootInfo m a b) a = b /\
  mem_agree (fun x => ~ range a 88 x) m (write_BootInfo m a b) /\
  (forall addr size w h stride bpp f ptr len base ksize,
     b = BootInfo_new (FrameBufferInfo_new addr size w h stride bpp f) ptr len base ksize ->
     is_valid (read_BootInfo (write_BootInfo m a b) a) = true /\
     pixel_format (bi_framebuffer (read_BootInfo (write_BootInfo m a b) a)) = Some f).
Proof.
  intros Hok. rewrite read_write_BootInfo by done. do 4 (split; [done|]).
  split; [exact (write_BootInfo_agree m a b)|].
  intros addr size w h stride bpp f ptr len base ksize ->. by destruct f.
Qed.

(** ** Instances *)

(** The map of the test that skips loader data, with a malformed descriptor
    and one at physical zero behind it. *)
Definition demo_map : list MemoryRegion :=
  [MemoryRegion_new 0x1000 4 2; MemoryRegion_new 0x5800 4 CONVENTIONAL;
   MemoryRegion_new (2 ^ 64 - 4096) (2 ^ 64 - 1) CONVENTIONAL;
   MemoryRegion_new 0 2 CONVENTIONAL].

Lemma demo_map_typed : Forall MemoryRegion_ok demo_map.
Proof. by repeat constructor; vm_compute. Defined.

Lemma usable_regions_exact_witness :
  exists runs, drain 4 (UsableRegions_new demo_map) = Some runs /\ Forall run_ok runs.
Proof.
  destruct (usable_regions_exact demo_map demo_map_typed) as (runs & H & H' & _).
  by exists runs.
Defined.

Example demo_map_runs :
  drain 4 (UsableRegions_new demo_map) =
  Some [{| fr_start := 0x6000; fr_frames := 3 |}; {| fr_start := 0x1000; fr_frames := 1 |}].
Proof. reflexivity. Qed.

Definition demo_boot_info : BootInfo :=
  BootInfo_new (FrameBufferInfo_new 0x80000000 0x300000 1024 768 1024 4 Bgr)
    0x7000 3 0x200000 0x40000.

Lemma demo_boot_info_ok : BootInfo_ok demo_boot_info.
Proof. by repeat split; vm_compute. Defined.

Lemma boot_info_roundtrip_witness :
  read_BootInfo (write_BootInfo ∅ 0x6000 demo_boot_info) 0x6000 = demo_boot_info.
Proof. by apply (boot_info_roundtrip ∅ 0x6000 demo_boot_info demo_boot_info_ok). Defined.
