(* ===== verification/Frame.v ===== *)
(** The physical frame allocator ([kernel/src/frame.rs]): the methods of
    [FrameAllocator] over the byte memory, the set of frames it still owns,
    and the functional specification of each method against that set. *)
From S2P Require Import Prelude Memory BootInfo.

(** ** Data *)

(** [Option<NonNull<FreeFrame>>] is one word, null for [None]. *)
Definition NonNull_new (a : Z) : option Z := if a =? 0 then None else Some a.
Definition link_word (p : option Z) : Z := default 0 p.

(** A free frame's node, in the frame's own first eight bytes. *)
Definition read_FreeFrame (m : mem) (node : Z) : option Z := NonNull_new (load 8 m node).
Definition write_FreeFrame (m : mem) (node : Z) (next : option Z) : mem :=
  store 8 m node (link_word next).

Record FrameAllocator := {
  runs : UsableRegions;
  cursor : Z;
  run_end : Z;
  free : option Z;
  in_use : Z;
}.

Definition set_cursor (c : Z) (fa : FrameAllocator) : FrameAllocator :=
  {| runs := runs fa; cursor := c; run_end := run_end fa; free := free fa; in_use := in_use fa |}.
Definition set_free (p : option Z) (fa : FrameAllocator) : FrameAllocator :=
  {| runs := runs fa; cursor := cursor fa; run_end := run_end fa; free := p; in_use := in_use fa |}.
Definition set_in_use (n : Z) (fa : FrameAllocator) : FrameAllocator :=
  {| runs := runs fa; cursor := cursor fa; run_end := run_end fa; free := free fa; in_use := n |}.
Definition set_run (u : UsableRegions) (c e : Z) (fa : FrameAllocator) : FrameAllocator :=
  {| runs := u; cursor := c; run_end := e; free := free fa; in_use := in_use fa |}.

(** ** Methods *)

Definition push_free (m : mem) (fa : FrameAllocator) (addr : Z) : mem * FrameAllocator :=
  (write_FreeFrame m addr (free fa), set_free (NonNull_new addr) fa).

(** [bump]'s inner loop: hand the rest of the run to the free stack. *)
Fixpoint strand (fuel : nat) (m : mem) (fa : FrameAllocator) : res (mem * FrameAllocator) :=
  limit ← add_u 64 (cursor fa) PAGE_SIZE;
  if limit <=? run_end fa then
    match fuel with
    | O => Loop
    | S fuel =>
        let stranded := cursor fa in
        c ← add_u 64 (cursor fa) PAGE_SIZE;
        let '(m, fa) := push_free m (set_cursor c fa) stranded in
        strand fuel m fa
    end
  else Ok (m, fa).

Definition strand_fuel (fa : FrameAllocator) : nat :=
  Z.to_nat ((run_end fa - cursor fa) / PAGE_SIZE).

(** [bump]'s outer loop, one iteration per run. *)
Fixpoint bump_loop (fuel : nat) (m : mem) (fa : FrameAllocator) (wanted : Z)
    : res (mem * FrameAllocator * option Z) :=
  if wanted <=? saturating_sub (run_end fa) (cursor fa) then
    let addr := cursor fa in
    c ← add_u 64 (cursor fa) wanted;
    Ok (m, set_cursor c fa, Some addr)
  else
    '(m, fa) ← strand (strand_fuel fa) m fa;
    match next (runs fa) with
    | (None, u) => Ok (m, set_run u (cursor fa) (run_end fa) fa, None)
    | (Some run, u) =>
        span ← mul_u 64 (fr_frames run) PAGE_SIZE;
        e ← add_u 64 (fr_start run) span;
        match fuel with
        | O => Loop
        | S fuel => bump_loop fuel m (set_run u (fr_start run) e fa) wanted
        end
    end.

Definition bump_fuel (fa : FrameAllocator) : nat :=
  length (ur_regions (runs fa)) - ur_index (runs fa).

Definition bump (m : mem) (fa : FrameAllocator) (frames : Z)
    : res (mem * FrameAllocator * option Z) :=
  match checked_mul 64 frames PAGE_SIZE with
  | None => Ok (m, fa, None)
  | Some wanted => bump_loop (bump_fuel fa) m fa wanted
  end.

Definition alloc (m : mem) (fa : FrameAllocator) : res (mem * FrameAllocator * option Z) :=
  match free fa with
  | Some node =>
      let fa := set_free (read_FreeFrame m node) fa in
      n ← add_u 64 (in_use fa) 1;
      Ok (m, set_in_use n fa, Some node)
  | None =>
      '(m, fa, addr) ← bump m fa 1;
      match addr with
      | None => Ok (m, fa, None)
      | Some addr =>
          n ← add_u 64 (in_use fa) 1;
          Ok (m, set_in_use n fa, Some addr)
      end
  end.

(** The closures the public entry points run: [dealloc_frame] and
    [alloc_contiguous]. *)
Definition dealloc (m : mem) (fa : FrameAllocator) (addr : Z) : mem * FrameAllocator :=
  let '(m, fa) := push_free m fa addr in
  (m, set_in_use (saturating_sub (in_use fa) 1) fa).

Definition contiguous (m : mem) (fa : FrameAllocator) (frames : Z)
    : res (mem * FrameAllocator * option Z) :=
  '(m, fa, addr) ← bump m fa frames;
  match addr with
  | None => Ok (m, fa, None)
  | Some addr =>
      n ← add_u 64 (in_use fa) frames;
      Ok (m, set_in_use n fa, Some addr)
  end.

(** [UsableRegions::new(regions).map(|run| run.frames).sum()]. *)
Fixpoint sum_frames (fuel : nat) (u : UsableRegions) (total : Z) : res Z :=
  match next u with
  | (None, _) => Ok total
  | (Some run, u) =>
      total ← add_u 64 total (fr_frames run);
      match fuel with
      | O => Loop
      | S fuel => sum_frames fuel u total
      end
  end.

(** [init]: the new allocator, if any, and the returned total. *)
Definition frame_init (regions : list MemoryRegion) : res (option FrameAllocator * Z) :=
  total ← sum_frames (length regions) (UsableRegions_new regions) 0;
  if total =? 0 then Ok (None, 0) else
  match next (UsableRegions_new regions) with
  | (Some run, u) =>
      span ← mul_u 64 (fr_frames run) PAGE_SIZE;
      e ← add_u 64 (fr_start run) span;
      Ok (Some {| runs := u; cursor := fr_start run; run_end := e; free := None; in_use := 0 |},
          total)
  | (None, _) => Ok (None, 0)
  end.

(** ** Frames as sets of addresses *)

(** The [n] consecutive frames from [a]. *)
Definition run_frames (a n : Z) : list Z := (fun i => a + i * PAGE_SIZE) <$> seqZ 0 n.

(** The bytes of a set of frames. *)
Definition owned (A : list Z) (x : Z) : Prop := exists f, f ∈ A /\ range f PAGE_SIZE x.

(** A frame address the allocator may hand out. *)
Definition frame_ok (f : Z) : Prop :=
  f mod PAGE_SIZE = 0 /\ PAGE_SIZE <= f /\ f + PAGE_SIZE < 2 ^ 64.

Lemma elem_of_run_frames f a n :
  f ∈ run_frames a n <-> exists i, f = a + i * PAGE_SIZE /\ 0 <= i < n.
Proof.
  unfold run_frames. rewrite list_elem_of_fmap. setoid_rewrite elem_of_seqZ.
  split; intros (i & -> & Hi); exists i; (split; [done|lia]).
Qed.

Lemma NoDup_run_frames a n : NoDup (run_frames a n).
Proof.
  apply NoDup_fmap_2; [|apply NoDup_seqZ]. intros i j H. unfold PAGE_SIZE in H. lia.
Qed.

Lemma run_frames_nil a n : n <= 0 -> run_frames a n = [].
Proof. intros. unfold run_frames. by rewrite seqZ_nil. Qed.

Lemma run_frames_app a k n :
  0 <= k <= n -> run_frames a n = run_frames a k ++ run_frames (a + k * PAGE_SIZE) (n - k).
Proof.
  intros Hk. unfold run_frames. replace n with (k + (n - k)) at 1 by lia.
  rewrite seqZ_app, fmap_app by lia. f_equal. rewrite Z.add_0_l.
  rewrite <- (Z.add_0_r k) at 1. rewrite <- fmap_add_seqZ, <- list_fmap_compose.
  apply list_fmap_ext. intros ? i _. simpl. lia.
Qed.

Lemma run_frames_cons a n :
  0 < n -> run_frames a n = a :: run_frames (a + PAGE_SIZE) (n - 1).
Proof.
  intros Hn. rewrite (run_frames_app a 1 n) by lia.
  replace (run_frames a 1) with [a] by (unfold run_frames; simpl; f_equal; lia).
  simpl. do 2 f_equal; lia.
Qed.

Lemma length_run_frames a n : length (run_frames a n) = Z.to_nat n.
Proof. unfold run_frames. by rewrite length_fmap, length_seqZ. Qed.

Lemma owned_mono A B x : A ⊆ B -> owned A x -> owned B x.
Proof. intros H (f & Hf & Hx). exists f. auto. Qed.

Lemma not_owned_mono A B x : A ⊆ B -> ~ owned B x -> ~ owned A x.
Proof. intros H Hn Ho. by eapply Hn, owned_mono. Qed.

#[export] Instance owned_proper : Proper ((≡ₚ) ==> (=) ==> iff) owned.
Proof. intros A B H x _ <-. unfold owned. by setoid_rewrite H. Qed.

(** Distinct aligned frames are disjoint. *)
Lemma frames_apart f g x :
  frame_ok f -> frame_ok g -> f <> g -> range f PAGE_SIZE x -> ~ range g PAGE_SIZE x.
Proof. unfold frame_ok, range, PAGE_SIZE. intros. divmod. Qed.

(** ** The intrusive stack *)

(** [free_chain m p l]: following the links from [p] visits exactly [l]. *)
Fixpoint free_chain (m : mem) (p : option Z) (l : list Z) : Prop :=
  match l with
  | [] => p = None
  | f :: l => p = Some f /\ free_chain m (read_FreeFrame m f) l
  end.

Lemma NonNull_new_Some f : frame_ok f -> NonNull_new f = Some f.
Proof.
  unfold frame_ok, NonNull_new, PAGE_SIZE. intros.
  destruct (Z.eqb_spec f 0); [lia|done].
Qed.

Lemma free_chain_agree m m' p l :
  mem_agree (owned l) m m' -> free_chain m p l -> free_chain m' p l.
Proof.
  revert p. induction l as [|f l IH]; intros p Hm; [done|]. intros [-> Hc]. split; [done|].
  assert (read_FreeFrame m' f = read_FreeFrame m f) as ->.
  { unfold read_FreeFrame. f_equal. symmetry. eapply load_agree; [exact Hm|].
    intros x Hx. exists f. split; [constructor|]. unfold range, PAGE_SIZE in *. lia. }
  apply IH; [|done]. eapply mem_agree_mono; [|exact Hm]. intros x.
  apply owned_mono. set_solver.
Qed.

(** Frames do not share bytes with a frame outside the list. *)
Lemma owned_apart A f x :
  Forall frame_ok A -> frame_ok f -> f ∉ A -> owned A x -> ~ range f PAGE_SIZE x.
Proof.
  intros HA Hf Hn (g & Hg & Hx). rewrite Forall_forall in HA.
  eapply (frames_apart g f); try done; [by apply HA|]. intros ->. done.
Qed.

Lemma write_FreeFrame_agree m f p :
  mem_agree (fun x => ~ range f PAGE_SIZE x) m (write_FreeFrame m f p).
Proof. apply mem_agree_store. unfold range, PAGE_SIZE. lia. Qed.

Lemma free_chain_push m fa f l :
  free_chain m (free fa) l -> Forall frame_ok l -> frame_ok f -> f ∉ l ->
  free_chain (fst (push_free m fa f)) (free (snd (push_free m fa f))) (f :: l).
Proof.
  intros Hc Hl Hf Hn. simpl. split; [by apply NonNull_new_Some|].
  assert (read_FreeFrame (write_FreeFrame m f (free fa)) f = free fa) as ->.
  { unfold read_FreeFrame, write_FreeFrame. destruct l as [|g l].
    - simpl in Hc. rewrite Hc. rewrite load_store_u64 by (unfold in_u; simpl; lia). done.
    - destruct Hc as [-> _]. apply Forall_cons in Hl as [Hg _]. simpl.
      rewrite load_store_u64; [by apply NonNull_new_Some|].
      unfold frame_ok, PAGE_SIZE, in_u in *. lia. }
  eapply free_chain_agree; [|exact Hc]. eapply mem_agree_mono; [|apply write_FreeFrame_agree].
  intros x Hx. by eapply owned_apart.
Qed.

(** ** The abstract state *)

(** A run the cursor can walk to its end without overflowing. *)
Definition run_good (run : FrameRun) : Prop := run_ok run /\ fr_end run + PAGE_SIZE < 2 ^ 64.

Definition cur_count (fa : FrameAllocator) : Z := (run_end fa - cursor fa) / PAGE_SIZE.
Definition cur_frames (fa : FrameAllocator) : list Z := run_frames (cursor fa) (cur_count fa).
Definition frames_of (run : FrameRun) : list Z := run_frames (fr_start run) (fr_frames run).
Definition bump_frames (fa : FrameAllocator) : list Z :=
  cur_frames fa ++ (remaining (runs fa) ≫= frames_of).

Definition fa_wf (fa : FrameAllocator) : Prop :=
  cursor fa mod PAGE_SIZE = 0 /\ run_end fa mod PAGE_SIZE = 0 /\
  0 <= cursor fa <= run_end fa /\ run_end fa + PAGE_SIZE < 2 ^ 64 /\
  Forall run_good (remaining (runs fa)).

(** [Repr m fa A]: the allocator still owns exactly the frames [A], some on
    the free stack and the others ahead of the cursor. *)
Definition Repr (m : mem) (fa : FrameAllocator) (A : list Z) : Prop :=
  exists l, fa_wf fa /\ free_chain m (free fa) l /\ NoDup A /\ Forall frame_ok A /\
    A ≡ₚ l ++ bump_frames fa.

#[export] Instance Repr_proper : Proper ((=) ==> (=) ==> (≡ₚ) ==> iff) Repr.
Proof.
  intros m _ <- fa _ <- A B H. unfold Repr. by setoid_rewrite H.
Qed.

(** Writes outside the frames the allocator owns cannot disturb it. *)
Lemma Repr_agree m m' fa A : mem_agree (owned A) m m' -> Repr m fa A -> Repr m' fa A.
Proof.
  intros Hm (l & Hwf & Hc & Hnd & Hok & Hp). exists l. repeat split; try done; [by apply Hwf..|].
  eapply free_chain_agree; [|exact Hc]. eapply mem_agree_mono; [|exact Hm].
  intros x. apply owned_mono. rewrite Hp. set_solver.
Qed.

(** ** Specifications of the methods *)

(** [strand] pushes every frame left in the run. *)
Lemma strand_spec (n : nat) m fa l :
  run_end fa = cursor fa + Z.of_nat n * PAGE_SIZE -> 0 <= cursor fa ->
  run_end fa + PAGE_SIZE < 2 ^ 64 -> free_chain m (free fa) l ->
  Forall frame_ok (run_frames (cursor fa) (Z.of_nat n) ++ l) -> NoDup (run_frames (cursor fa) (Z.of_nat n) ++ l) ->
  exists m' p l', strand n m fa = Ok (m', set_free p (set_cursor (run_end fa) fa)) /\
    free_chain m' p l' /\ l' ≡ₚ run_frames (cursor fa) (Z.of_nat n) ++ l /\
    mem_agree (fun x => ~ owned (run_frames (cursor fa) (Z.of_nat n)) x) m m'.
Proof.
  revert m fa l. induction n as [|n IH]; intros m fa l He H0 Ht Hc Hok Hnd; cbn [strand].
  - rewrite add_u_ok by (unfold PAGE_SIZE in *; lia). rewrite bind_Ok.
    case_cmp; [unfold PAGE_SIZE in *; lia|].
    exists m, (free fa), l. split; [|done]. destruct fa as [r c e p u]; simpl in *.
    unfold set_free, set_cursor; simpl. by replace e with c by lia.
  - rewrite add_u_ok by (unfold PAGE_SIZE in *; lia). rewrite bind_Ok.
    case_cmp; [|unfold PAGE_SIZE in *; lia]. rewrite bind_Ok.
    rewrite run_frames_cons in Hok, Hnd |- * by lia.
    replace (Z.of_nat (S n) - 1) with (Z.of_nat n) in * by lia.
    apply Forall_cons in Hok as [Hf Hok]. apply NoDup_cons in Hnd as [Hn Hnd].
    assert (cursor fa ∉ l) as Hnl by set_solver.
    pose proof (free_chain_push m (set_cursor (cursor fa + PAGE_SIZE) fa) (cursor fa) l
      Hc (proj2 (proj1 (Forall_app _ _ _) Hok)) Hf Hnl) as Hc'.
    set (fa1 := set_cursor (cursor fa + PAGE_SIZE) fa) in *. simpl in Hc' |- *.
    destruct (IH (write_FreeFrame m (cursor fa) (free fa)) (set_free (NonNull_new (cursor fa)) fa1)
      (cursor fa :: l)) as (m' & p & l' & Hs & Hc2 & Hp & Hag).
    + simpl. lia.
    + simpl. unfold PAGE_SIZE in *. lia.
    + done.
    + done.
    + simpl. rewrite <- Permutation_middle. by constructor.
    + simpl. rewrite <- Permutation_middle. by constructor.
    + exists m', p, l'. split; [exact Hs|]. split; [done|]. simpl in Hp, Hag. split.
      * rewrite Hp. symmetry. apply Permutation_middle.
      * etrans; [eapply mem_agree_mono; [|apply write_FreeFrame_agree]|
                 eapply mem_agree_mono; [|exact Hag]].
        -- intros x Hx Hr. apply Hx. exists (cursor fa). set_solver.
        -- intros x. apply not_owned_mono. set_solver.
Qed.

Lemma cur_count_spec fa :
  fa_wf fa -> 0 <= cur_count fa /\ run_end fa = cursor fa + cur_count fa * PAGE_SIZE.
Proof.
  intros (H1 & H2 & H3 & _). unfold cur_count.
  assert ((run_end fa - cursor fa) mod PAGE_SIZE = 0) by (apply mod_sub_multiple; done).
  unfold PAGE_SIZE in *. divmod.
Qed.

(** Stranding the current run changes where frames are kept, not which. *)
Lemma strand_Repr m fa A :
  Repr m fa A ->
  exists m' p, strand (strand_fuel fa) m fa = Ok (m', set_free p (set_cursor (run_end fa) fa)) /\
    Repr m' (set_free p (set_cursor (run_end fa) fa)) A /\
    mem_agree (fun x => ~ owned A x) m m'.
Proof.
  intros (l & Hwf & Hc & Hnd & Hok & Hp).
  destruct (cur_count_spec fa Hwf) as [Hn He]. destruct (id Hwf) as (Ha & Hb & Hle & Ht & Hr).
  assert (A ≡ₚ (run_frames (cursor fa) (cur_count fa) ++ l) ++
    (remaining (runs fa) ≫= frames_of)) as HA.
  { rewrite Hp. unfold bump_frames, cur_frames. rewrite (app_assoc l).
    apply Permutation_app_tail, Permutation_app_comm. }
  assert (NoDup (run_frames (cursor fa) (cur_count fa) ++ l)) as Hnd'.
  { rewrite HA in Hnd. by apply NoDup_app in Hnd as (? & _). }
  assert (Forall frame_ok (run_frames (cursor fa) (cur_count fa) ++ l)) as Hok'.
  { rewrite HA in Hok. by apply Forall_app in Hok as [? _]. }
  destruct (strand_spec (strand_fuel fa) m fa l) as (m' & p & l' & Hs & Hc' & Hl' & Hag);
    unfold strand_fuel in *; fold (cur_count fa) in *; rewrite ?Z2Nat.id in * by lia;
    try done; try lia.
  exists m', p. split; [done|]. split.
  - exists l'. repeat split; simpl; try done; try lia.
    rewrite HA. unfold bump_frames, cur_frames, cur_count. simpl.
    rewrite Z.sub_diag, (run_frames_nil _ 0) by done. simpl. by rewrite Hl'.
  - eapply mem_agree_mono; [|exact Hag]. intros x. apply not_owned_mono.
    rewrite HA. set_solver.
Qed.

(** A request of [k] frames can be served from the cursor's side. *)
Definition fits (fa : FrameAllocator) (k : Z) : Prop :=
  k <= cur_count fa \/ Exists (fun run => k <= fr_frames run) (remaining (runs fa)).

(** Taking [k] frames off the current run. *)
Lemma take_Repr m fa A k :
  Repr m fa A -> 0 <= k <= cur_count fa ->
  exists A', A ≡ₚ run_frames (cursor fa) k ++ A' /\
    Repr m (set_cursor (cursor fa + k * PAGE_SIZE) fa) A'.
Proof.
  intros (l & Hwf & Hc & Hnd & Hok & Hp) Hk.
  destruct (cur_count_spec fa Hwf) as [Hn He]. destruct (id Hwf) as (Ha & Hb & Hle & Ht & Hr).
  set (fa' := set_cursor (cursor fa + k * PAGE_SIZE) fa).
  assert (cur_count fa' = cur_count fa - k) as Hcc.
  { unfold cur_count, fa' in *. simpl. rewrite He. unfold PAGE_SIZE. divmod. }
  assert (A ≡ₚ run_frames (cursor fa) k ++ l ++ bump_frames fa') as HA.
  { rewrite Hp. unfold bump_frames, cur_frames. rewrite Hcc.
    rewrite (run_frames_app (cursor fa) k) by lia. simpl.
    rewrite <- !app_assoc. apply Permutation_app_swap_app. }
  exists (l ++ bump_frames fa'). split; [done|]. exists l. rewrite HA in Hnd, Hok.
  apply NoDup_app in Hnd as (_ & _ & ?). apply Forall_app in Hok as [_ ?].
  repeat split; try done; simpl; [|unfold PAGE_SIZE in *; lia..].
  apply mod_add_multiple; [done|done|]. by apply Z.mod_mul.
Qed.

(** Moving on to the next run, the current one being used up. *)
Lemma next_run_Repr m fa A run u :
  Repr m fa A -> cursor fa = run_end fa -> remaining (runs fa) = run :: remaining u ->
  Repr m (set_run u (fr_start run) (fr_end run) fa) A.
Proof.
  intros (l & Hwf & Hc & Hnd & Hok & Hp) He Hu.
  destruct Hwf as (_ & _ & _ & _ & Hr). rewrite Hu in Hr. apply Forall_cons in Hr as [Hrun Hr].
  destruct Hrun as [(H1 & H2 & H3 & H4) H5]. unfold fr_end in *.
  exists l. repeat split; try done; simpl; try lia.
  - apply mod_add_multiple; [done|done|]. by apply Z.mod_mul.
  - unfold PAGE_SIZE in *. lia.
  - unfold PAGE_SIZE in *. lia.
  - rewrite Hp. unfold bump_frames, cur_frames, cur_count, fr_end. simpl.
    rewrite He, Z.sub_diag, run_frames_nil, Hu by done. simpl.
    replace ((fr_start run + fr_frames run * PAGE_SIZE - fr_start run) / PAGE_SIZE)
      with (fr_frames run) by (unfold PAGE_SIZE; divmod). done.
Qed.

(** What a bump of [k] frames does to the abstract state: the result, and
    whether the request could be served. *)
Definition bump_post (m : mem) (fa : FrameAllocator) (A : list Z) (k : Z)
    (m' : mem) (fa' : FrameAllocator) (o : option Z) : Prop :=
  in_use fa' = in_use fa /\ mem_agree (fun x => ~ owned A x) m m' /\
  match o with
  | Some a => fits fa k /\ exists A', A ≡ₚ run_frames a k ++ A' /\ Repr m' fa' A'
  | None => ~ fits fa k /\ Repr m' fa' A /\ bump_frames fa' = []
  end.

(** One iteration when the current run has room. *)
Lemma bump_loop_here fuel m fa A k :
  Repr m fa A -> 0 <= k <= cur_count fa ->
  bump_loop fuel m fa (k * PAGE_SIZE) =
    Ok (m, set_cursor (cursor fa + k * PAGE_SIZE) fa, Some (cursor fa)) /\
  bump_post m fa A k m (set_cursor (cursor fa + k * PAGE_SIZE) fa) (Some (cursor fa)).
Proof.
  intros HR Hk. destruct (id HR) as (l & Hwf & _). destruct (cur_count_spec fa Hwf) as [Hn He].
  destruct Hwf as (_ & _ & Hle & Ht & _). split.
  - destruct fuel; cbn [bump_loop]; unfold saturating_sub; unfold PAGE_SIZE in *;
      (case_cmp; [|lia]); by rewrite add_u_ok by lia.
  - repeat split; [by left; lia|by apply take_Repr].
Qed.

(** The run is too small: it is stranded, and the allocator moves on. *)
Lemma bump_loop_next fuel m fa A k :
  Repr m fa A -> cur_count fa < k ->
  exists m1 fa1, Repr m1 fa1 A /\ in_use fa1 = in_use fa /\
    mem_agree (fun x => ~ owned A x) m m1 /\
    match remaining (runs fa) with
    | [] => bump_frames fa1 = [] /\ bump_loop fuel m fa (k * PAGE_SIZE) = Ok (m1, fa1, None)
    | run :: rest => cur_count fa1 = fr_frames run /\ remaining (runs fa1) = rest /\
        (bump_fuel fa1 < bump_fuel fa)%nat /\
        bump_loop (S fuel) m fa (k * PAGE_SIZE) = bump_loop fuel m1 fa1 (k * PAGE_SIZE)
    end.
Proof.
  intros HR Hk. destruct (id HR) as (l & Hwf & _). destruct (cur_count_spec fa Hwf) as [Hn He].
  destruct Hwf as (_ & _ & Hle & Ht & Hr).
  destruct (strand_Repr m fa A HR) as (m1 & p & Hs & HR1 & Hag).
  set (fa1 := set_free p (set_cursor (run_end fa) fa)) in *.
  assert (forall n, bump_loop n m fa (k * PAGE_SIZE) =
    match next (runs fa) with
    | (None, u) => Ok (m1, set_run u (cursor fa1) (run_end fa1) fa1, None)
    | (Some run, u) => span ← mul_u 64 (fr_frames run) PAGE_SIZE;
        e ← add_u 64 (fr_start run) span;
        match n with
        | O => Loop
        | S n => bump_loop n m1 (set_run u (fr_start run) e fa1) (k * PAGE_SIZE)
        end
    end) as Hstep.
  { intros n. destruct n; cbn [bump_loop]; unfold saturating_sub; unfold PAGE_SIZE in *;
      (case_cmp; [lia|]); by rewrite Hs, bind_Ok. }
  destruct (next_spec (runs fa)) as [Hnx Hrs]; destruct (next (runs fa)) as [[run|] u].
  - destruct Hnx as [Hu Hlt]. rewrite Hu in Hr |- *. apply Forall_cons in Hr as [Hrun _].
    destruct Hrun as [(Hr1 & Hr2 & Hr3 & Hr4) Hr5].
    exists m1, (set_run u (fr_start run) (fr_end run) fa1). rewrite Hstep.
    rewrite mul_u_ok, bind_Ok, add_u_ok, bind_Ok by (unfold fr_end, PAGE_SIZE in *; lia).
    repeat split; try done; [by apply next_run_Repr| |].
    + unfold cur_count, fr_end, PAGE_SIZE. simpl. divmod.
    + unfold bump_fuel. simpl in *. rewrite Hrs. lia.
  - destruct Hnx as [Hu Hu']. rewrite Hu.
    exists m1, (set_run u (cursor fa1) (run_end fa1) fa1). rewrite Hstep.
    assert (bump_frames (set_run u (cursor fa1) (run_end fa1) fa1) = bump_frames fa1) as Hb.
    { unfold bump_frames. simpl. by rewrite Hu, Hu'. }
    repeat split; try done.
    + destruct HR1 as (l1 & Hwf1 & ?). exists l1. rewrite Hb. split; [|done].
      destruct Hwf1 as (? & ? & ? & ? & ?). repeat split; simpl; try done; try lia.
      by rewrite Hu'.
    + rewrite Hb. unfold bump_frames, cur_frames, cur_count. simpl.
      by rewrite Z.sub_diag, run_frames_nil, Hu by done.
Qed.

Lemma bump_loop_spec fuel m fa A k :
  Repr m fa A -> 0 <= k -> (bump_fuel fa <= fuel)%nat ->
  exists m' fa' o, bump_loop fuel m fa (k * PAGE_SIZE) = Ok (m', fa', o) /\
    bump_post m fa A k m' fa' o.
Proof.
  revert m fa. induction fuel as [|fuel IH]; intros m fa HR Hk Hf;
    (destruct (Z.le_gt_cases k (cur_count fa)) as [Hfit|Hfit];
     [match goal with |- context [bump_loop ?n] =>
        destruct (bump_loop_here n m fa A k HR (conj Hk Hfit)) as [-> ?] end; by eauto 10|]).
  - destruct (bump_loop_next 0 m fa A k HR Hfit) as (m1 & fa1 & HR1 & Hu & Hag & Hnx).
    destruct (remaining (runs fa)) as [|run rest] eqn:Hrem.
    + destruct Hnx as [Hb ->]. eexists _, _, _. split; [done|]. repeat split; try done.
      intros [|Hx]; [lia|]. rewrite Hrem in Hx. by apply Exists_nil in Hx.
    + destruct Hnx as (_ & _ & ? & _). lia.
  - destruct (bump_loop_next fuel m fa A k HR Hfit) as (m1 & fa1 & HR1 & Hu & Hag & Hnx).
    destruct (bump_loop_next (S fuel) m fa A k HR Hfit) as (m2 & fa2 & HR2 & Hu2 & Hag2 & Hnx2).
    destruct (remaining (runs fa)) as [|run rest] eqn:Hrem.
    + destruct Hnx2 as [Hb ->]. eexists _, _, _. split; [done|]. repeat split; try done.
      intros [|Hx]; [lia|]. rewrite Hrem in Hx. by apply Exists_nil in Hx.
    + destruct Hnx as (Hc & Hrest & Hlt & ->).
      destruct (IH m1 fa1 HR1 Hk) as (m' & fa' & o & -> & Hin & Hag' & Ho); [lia|].
      assert (fits fa k <-> fits fa1 k) as Hfits.
      { unfold fits. rewrite Hrem, Hc, Hrest, Exists_cons.
        split; [intros [?|?]; [lia|done]|by right]. }
      eexists _, _, _. split; [done|]. split; [congruence|]. split; [etrans; [exact Hag|exact Hag']|].
      by destruct o; rewrite Hfits.
Qed.

(** [bump] never panics and never runs out of runs to look at. *)
Lemma bump_spec m fa A k :
  Repr m fa A -> 0 <= k -> k * PAGE_SIZE < 2 ^ 64 ->
  exists m' fa' o, bump m fa k = Ok (m', fa', o) /\ bump_post m fa A k m' fa' o.
Proof.
  intros HR Hk Hw. unfold bump, checked_mul.
  destruct (Z.ltb_spec (k * PAGE_SIZE) (2 ^ 64)); [|lia]. by apply bump_loop_spec.
Qed.

(** What a served request leaves: a stretch that could have held [n] more
    still fits [n], and none has grown. *)
Lemma bump_loop_room fuel m fa A k m' fa' a n :
  Repr m fa A -> 0 <= k -> 0 <= n -> bump_loop fuel m fa (k * PAGE_SIZE) = Ok (m', fa', Some a) ->
  (fits fa (n + k) -> fits fa' n) /\ (fits fa' n -> fits fa n).
Proof.
  intros HR Hk Hn. revert m fa HR. induction fuel as [|fuel IH]; intros m fa HR Hb;
    (destruct (Z.le_gt_cases k (cur_count fa)) as [Hfit|Hfit];
     [match type of Hb with bump_loop ?f _ _ _ = _ =>
        destruct (bump_loop_here f m fa A k HR (conj Hk Hfit)) as [Hb' _] end;
      rewrite Hb' in Hb; injection Hb as <- <- <-;
      assert (cur_count (set_cursor (cursor fa + k * PAGE_SIZE) fa) = cur_count fa - k) as Hcc;
      [destruct HR as (? & Hwf & _); destruct (cur_count_spec fa Hwf) as [_ He];
       unfold cur_count in *; simpl; rewrite He; unfold PAGE_SIZE; divmod|];
      unfold fits; rewrite Hcc; simpl; split; (intros [?|Hx]; [left; lia|right]);
      (eapply Exists_impl; [exact Hx|]; simpl; lia)|]).
  - destruct (bump_loop_next 0 m fa A k HR Hfit) as (m1 & fa1 & _ & _ & _ & Hnx).
    destruct (remaining (runs fa)); [by destruct Hnx as [_ Hnx]; rewrite Hnx in Hb|].
    cbn [bump_loop] in Hb. revert Hb. case_cmp.
    + intros _. exfalso. destruct HR as (? & Hwf & _). destruct (cur_count_spec fa Hwf) as [? He].
      unfold saturating_sub, PAGE_SIZE in *. lia.
    + intros Hb. inv_bind Hb. destruct a0 as [m2 fa2]. destruct (next (runs fa2)) as [[run'|] u]; [|by simplify_eq].
      inv_bind Hb. by inv_bind Hb.
  - destruct (bump_loop_next fuel m fa A k HR Hfit) as (m1 & fa1 & HR1 & _ & _ & Hnx).
    destruct (bump_loop_next (S fuel) m fa A k HR Hfit) as (m2 & fa2 & _ & _ & _ & Hnx2).
    destruct (remaining (runs fa)) as [|run rest] eqn:Hrem; [by destruct Hnx2 as [_ Hnx2]; rewrite Hnx2 in Hb|].
    destruct Hnx as (Hc & Hrest & _ & Hnx). rewrite Hnx in Hb. destruct (IH _ _ HR1 Hb) as [H1 H2].
    split.
    + intros Hx. apply H1. unfold fits in *. rewrite Hrem, Exists_cons in Hx. rewrite Hc, Hrest.
      destruct Hx as [?|?]; [lia|done].
    + intros Hx. apply H2 in Hx. unfold fits in *. rewrite Hrem, Exists_cons. rewrite Hc, Hrest in Hx. by right.
Qed.

Lemma fits_le fa n k : n <= k -> fits fa k -> fits fa n.
Proof.
  intros Hn [?|Hx]; [left; lia|right]. eapply Exists_impl; [exact Hx|]. simpl. lia.
Qed.

Lemma alloc_room m fa A m' fa' a n :
  Repr m fa A -> 0 <= n -> alloc m fa = Ok (m', fa', Some a) ->
  (fits fa (n + 1) -> fits fa' n) /\ (fits fa' n -> fits fa n).
Proof.
  intros HR Hn Ha. unfold alloc in Ha. destruct (free fa) as [node|].
  - inv_bind Ha. injection Ha as <- <- <-. split; [apply (fits_le fa); lia|done].
  - inv_bind Ha. destruct a0 as [[m1 fa1] [b|]]; [|by simplify_eq].
    inv_bind Ha. injection Ha as <- <- <-. unfold bump, checked_mul in *.
    change (1 * PAGE_SIZE <? 2 ^ 64) with true in *. cbv iota in *.
    match goal with Hb : bump_loop _ _ _ _ = _ |- _ => exact (bump_loop_room _ _ _ _ 1 _ _ _ n HR ltac:(lia) Hn Hb) end.
Qed.

(** [fits] for one frame: the cursor's side still has some. *)
Lemma fits_one fa : fa_wf fa -> ~ fits fa 1 -> bump_frames fa = [].
Proof.
  intros Hwf Hn. destruct (cur_count_spec fa Hwf) as [Hc _]. unfold bump_frames, cur_frames.
  rewrite run_frames_nil by (unfold fits in Hn; lia). simpl.
  destruct Hwf as (_ & _ & _ & _ & Hr). destruct (remaining (runs fa)) as [|run rest] eqn:E; [done|].
  destruct Hn. right. rewrite E. left. apply Forall_cons in Hr as [[(_ & _ & ? & _) _] _]. lia.
Qed.

(** [alloc]: a frame the allocator owned, or [None] when it owned none. *)
Lemma alloc_spec m fa A :
  Repr m fa A -> 0 <= in_use fa -> in_use fa + Z.of_nat (length A) < 2 ^ 64 ->
  exists m' fa' o, alloc m fa = Ok (m', fa', o) /\ mem_agree (fun x => ~ owned A x) m m' /\
    match o with
    | Some f => in_use fa' = in_use fa + 1 /\ exists A', A ≡ₚ f :: A' /\ Repr m' fa' A'
    | None => in_use fa' = in_use fa /\ A = [] /\ Repr m' fa' []
    end.
Proof.
  intros HR H0 Hlen. destruct (id HR) as (l & Hwf & Hc & Hnd & Hok & Hp). unfold alloc.
  destruct l as [|f l].
  - simpl in Hc. rewrite Hc.
    destruct (bump_spec m fa A 1 HR) as (m' & fa' & o & -> & Hin & Hag & Ho); [done..|].
    rewrite bind_Ok. destruct o as [a|].
    + destruct Ho as (_ & A' & HA & HR'). rewrite run_frames_cons, (run_frames_nil _ (1 - 1)) in HA by done.
      assert (length A <> 0)%nat by (rewrite HA; done).
      rewrite add_u_ok, bind_Ok by lia. eexists _, _, _. split; [done|]. split; [done|].
      split; [simpl; lia|]. by exists A'.
    + destruct Ho as (Hn & HR' & _). apply fits_one in Hn; [|done]. rewrite Hn in Hp.
      apply Permutation_nil_r in Hp as ->. by eexists _, _, _.
  - destruct Hc as [-> Hc]. assert (length A <> 0)%nat by (rewrite Hp; done).
    rewrite add_u_ok, bind_Ok by (simpl; lia). eexists _, _, _. split; [done|]. split; [done|].
    split; [done|]. exists (l ++ bump_frames fa). split; [done|].
    rewrite Hp in Hnd, Hok. simpl in Hnd, Hok.
    apply NoDup_cons in Hnd as [_ ?]. apply Forall_cons in Hok as [_ ?].
    exists l. repeat split; try done; by apply Hwf.
Qed.

(** The top of the stack is what [alloc] returns next. *)
Lemma alloc_after_push m fa f :
  frame_ok f -> in_use fa + 1 < 2 ^ 64 ->
  exists fa', alloc (fst (push_free m fa f)) (snd (push_free m fa f)) =
    Ok (fst (push_free m fa f), fa', Some f).
Proof.
  intros Hf Hu. unfold push_free, alloc. simpl. rewrite NonNull_new_Some by done.
  rewrite add_u_ok by done. rewrite bind_Ok. eauto.
Qed.

Lemma dealloc_spec m fa A f :
  Repr m fa A -> frame_ok f -> f ∉ A ->
  let '(m', fa') := dealloc m fa f in
  Repr m' fa' (f :: A) /\ in_use fa' = saturating_sub (in_use fa) 1 /\
  mem_agree (fun x => ~ owned [f] x) m m'.
Proof.
  intros (l & Hwf & Hc & Hnd & Hok & Hp) Hf Hn. unfold dealloc. simpl. split; [|split; [done|]].
  - exists (f :: l).
    assert (f ∉ l) as Hnl by (rewrite Hp in Hn; set_solver).
    rewrite Hp in Hok. apply Forall_app in Hok as [Hokl Hokb].
    pose proof (free_chain_push m fa f l Hc Hokl Hf Hnl) as Hc'.
    repeat split; try done; try by apply Hwf.
    + by apply Hc'.
    + by apply Hc'.
    + by apply NoDup_cons.
    + rewrite Hp. constructor; [done|]. by apply Forall_app.
    + by rewrite Hp.
  - eapply mem_agree_mono; [|apply write_FreeFrame_agree]. intros x Hx Hr. apply Hx.
    exists f. set_solver.
Qed.

Lemma contiguous_spec m fa A k :
  Repr m fa A -> 0 <= k -> k * PAGE_SIZE < 2 ^ 64 -> 0 <= in_use fa ->
  in_use fa + Z.of_nat (length A) < 2 ^ 64 ->
  exists m' fa' o, contiguous m fa k = Ok (m', fa', o) /\
    mem_agree (fun x => ~ owned A x) m m' /\
    match o with
    | Some a => fits fa k /\ in_use fa' = in_use fa + k /\
        exists A', A ≡ₚ run_frames a k ++ A' /\ Repr m' fa' A'
    | None => ~ fits fa k /\ in_use fa' = in_use fa /\ Repr m' fa' A
    end.
Proof.
  intros HR Hk Hw H0 Hlen. unfold contiguous.
  destruct (bump_spec m fa A k HR Hk Hw) as (m' & fa' & o & -> & Hin & Hag & Ho).
  rewrite bind_Ok. destruct o as [a|].
  - destruct Ho as (Hf & A' & HA & HR').
    assert (Z.of_nat (length A) = k + Z.of_nat (length A')) as Hl.
    { rewrite HA, length_app, length_run_frames. lia. }
    rewrite add_u_ok, bind_Ok by lia. eexists _, _, _. repeat split; try done; [simpl; lia|].
    by exists A'.
  - destruct Ho as (Hf & HR' & _). by eexists _, _, _.
Qed.

(** ** Initialisation *)

(** Every usable frame of a memory map. *)
Definition usable_frames (regions : list MemoryRegion) : list Z :=
  omap usable_run regions ≫= frames_of.

(** What the firmware's map is: typed fields, spans that do not overlap, and
    no usable run in the topmost page of the 64-bit address space. *)
Definition apart (r r' : MemoryRegion) : Prop :=
  mr_end r <= mr_start r' \/ mr_end r' <= mr_start r.

Fixpoint disjoint_map (regions : list MemoryRegion) : Prop :=
  match regions with
  | [] => True
  | r :: rest => Forall (apart r) rest /\ disjoint_map rest
  end.

Definition below_top (r : MemoryRegion) : Prop :=
  forall run, usable_run r = Some run -> fr_end run + PAGE_SIZE < 2 ^ 64.

Definition map_ok (regions : list MemoryRegion) : Prop :=
  Forall MemoryRegion_ok regions /\ Forall below_top regions /\ disjoint_map regions.

Lemma elem_of_frames_of run f : run_ok run -> f ∈ frames_of run <-> frame_in run f.
Proof.
  intros (H1 & H2 & H3 & H4). unfold frames_of, frame_in, fr_end in *.
  rewrite elem_of_run_frames. split.
  - intros (i & -> & Hi). split; [|unfold PAGE_SIZE in *; lia].
    apply mod_add_multiple; [done|done|]. by apply Z.mod_mul.
  - intros (Hf & Hs & He). exists ((f - fr_start run) / PAGE_SIZE).
    unfold PAGE_SIZE in *. divmod.
Qed.

Lemma usable_frames_cons r regions :
  usable_frames (r :: regions) =
  match usable_run r with Some run => frames_of run | None => [] end ++ usable_frames regions.
Proof. unfold usable_frames. rewrite omap_usable_cons. by destruct (usable_run r). Qed.

(** The usable frames of a map are those of its regions. *)
Lemma elem_of_usable_frames regions f :
  Forall MemoryRegion_ok regions ->
  f ∈ usable_frames regions <-> Exists (fun r => frame_usable r f) regions.
Proof.
  induction 1 as [|r regions Hr Hok IH].
  - unfold usable_frames. simpl. by rewrite elem_of_nil, Exists_nil.
  - rewrite usable_frames_cons, elem_of_app, Exists_cons, IH. f_equiv.
    rewrite (frame_in_usable_run r f Hr). split.
    + destruct (usable_run r) as [run|] eqn:E; [|by intros ?%elem_of_nil].
      intros Hf. exists run. split; [done|]. apply elem_of_frames_of; [|done].
      by eapply usable_run_ok.
    + intros (run & Hrun & Hf). rewrite Hrun. apply elem_of_frames_of; [|done].
      by eapply usable_run_ok.
Qed.

Lemma apart_frames r r' f : apart r r' -> frame_usable r f -> ~ frame_usable r' f.
Proof.
  unfold apart, frame_usable, PAGE_SIZE. intros Ha (_ & _ & _ & _ & ? & ?) (_ & _ & _ & _ & ? & ?).
  lia.
Qed.

Lemma NoDup_usable_frames regions : map_ok regions -> NoDup (usable_frames regions).
Proof.
  intros (Hok & Htop & Hd). induction regions as [|r regions IH]; [apply NoDup_nil_2|].
  apply Forall_cons in Hok as [Hr Hok]. apply Forall_cons in Htop as [_ Htop].
  destruct Hd as [Ha Hd]. rewrite usable_frames_cons. apply NoDup_app. split; [|split; [|auto]].
  - destruct (usable_run r); [apply NoDup_run_frames|apply NoDup_nil_2].
  - intros f Hf Hf'. apply elem_of_usable_frames in Hf'; [|done].
    rewrite Exists_exists in Hf'. destruct Hf' as (r' & Hin & Hf').
    rewrite Forall_forall in Ha. specialize (Ha r' Hin).
    assert (frame_usable r f) as Hu.
    { assert (f ∈ usable_frames [r]) as Hf1.
      { rewrite usable_frames_cons. set_solver. }
      apply elem_of_usable_frames in Hf1; [|by constructor].
      by apply Exists_cons in Hf1 as [|?%Exists_nil]. }
    by apply (apart_frames r r' f).
Qed.

Lemma usable_frames_ok regions : map_ok regions -> Forall frame_ok (usable_frames regions).
Proof.
  intros (Hok & Htop & _). apply Forall_forall. intros f Hf.
  apply elem_of_usable_frames in Hf; [|done]. rewrite Exists_exists in Hf.
  destruct Hf as (r & Hin & Hf). rewrite Forall_forall in Hok, Htop.
  apply frame_in_usable_run in Hf as (run & Hrun & Hf); [|by apply Hok].
  pose proof (Htop r Hin run Hrun) as Ht.
  destruct (usable_run_ok r run (Hok r Hin) Hrun) as (H1 & _).
  destruct Hf as (? & ? & ?). unfold frame_ok. repeat split; [done|lia|unfold PAGE_SIZE in *; lia].
Qed.

(** A duplicate-free set of frames is smaller than the address space. *)
Lemma frames_count A : NoDup A -> Forall frame_ok A -> Z.of_nat (length A) < 2 ^ 64.
Proof.
  intros Hnd Hok. assert (length A <= length (seqZ 1 (2 ^ 64 - 1)))%nat as H.
  { apply submseteq_length, NoDup_submseteq; [done|]. intros f Hf.
    rewrite Forall_forall in Hok. destruct (Hok f Hf) as (_ & ? & ?).
    apply elem_of_seqZ. unfold PAGE_SIZE in *. lia. }
  rewrite length_seqZ in H. lia.
Qed.

(** Their bytes fit the address space. *)
Lemma frames_span A : NoDup A -> Forall frame_ok A -> Z.of_nat (length A) * PAGE_SIZE < 2 ^ 64.
Proof.
  intros Hnd Hok. rewrite Forall_forall in Hok.
  assert (length ((fun f : Z => (f / PAGE_SIZE)%Z) <$> A) <= length (seqZ 1 (2 ^ 52 - 1)))%nat as H.
  { apply submseteq_length, NoDup_submseteq.
    - apply NoDup_fmap_2_strong; [|done]. intros f g Hf Hg Hfg.
      destruct (Hok f Hf) as (Hfm & _), (Hok g Hg) as (Hgm & _). unfold PAGE_SIZE in *. divmod.
    - intros q (f & -> & Hf)%list_elem_of_fmap. destruct (Hok f Hf) as (Hfm & ? & ?).
      apply elem_of_seqZ. unfold PAGE_SIZE in *. divmod. }
  rewrite length_fmap, length_seqZ in H. unfold PAGE_SIZE. lia.
Qed.

Lemma sum_frames_spec fuel u t :
  Forall run_ok (remaining u) -> (length (remaining u) <= fuel)%nat -> 0 <= t ->
  t + Z.of_nat (length (remaining u ≫= frames_of)) < 2 ^ 64 ->
  sum_frames fuel u t = Ok (t + Z.of_nat (length (remaining u ≫= frames_of))).
Proof.
  revert u t. induction fuel as [|fuel IH]; intros u t Hr Hf Ht Hs; cbn [sum_frames];
    destruct (next_spec u) as [Hn _]; destruct (next u) as [[run|] u'];
    destruct Hn as [Hu Hu']; rewrite Hu in Hr, Hf, Hs |- *;
    try (f_equal; simpl; lia); try (simpl in Hf; lia).
  apply Forall_cons in Hr as [(_ & _ & Hp & _) Hr].
  assert (length (frames_of run) = Z.to_nat (fr_frames run)) as Hl by apply length_run_frames.
  rewrite bind_cons, length_app, Hl in Hs |- *. simpl in Hf.
  rewrite add_u_ok, bind_Ok by lia. rewrite IH; [f_equal; lia|done|lia|lia|lia].
Qed.

Lemma length_omap_usable regions : (length (omap usable_run regions) <= length regions)%nat.
Proof.
  induction regions as [|r regions IH]; [done|]. rewrite omap_usable_cons.
  destruct (usable_run r); simpl; lia.
Qed.

Lemma usable_runs_good regions :
  map_ok regions -> Forall run_good (omap usable_run regions).
Proof.
  intros (Hok & Htop & _). apply Forall_forall. intros run Hrun.
  apply list_elem_of_omap in Hrun as (r & Hin & Hr). rewrite Forall_forall in Hok, Htop.
  split; [by eapply usable_run_ok; [apply Hok|]|by eapply Htop].
Qed.

(** [init] owns exactly the usable frames, and reports their number; [None]
    and 0 when there are none. *)
Lemma frame_init_spec m regions :
  map_ok regions ->
  exists o, frame_init regions = Ok (o, Z.of_nat (length (usable_frames regions))) /\
  match o with
  | Some fa => usable_frames regions <> [] /\ Repr m fa (usable_frames regions) /\
      in_use fa = 0 /\ free fa = None
  | None => usable_frames regions = []
  end.
Proof.
  intros Hmap. pose proof (usable_runs_good regions Hmap) as Hg.
  pose proof (usable_frames_ok regions Hmap) as Hfok.
  pose proof (NoDup_usable_frames regions Hmap) as Hnd.
  pose proof (frames_count _ Hnd Hfok) as Hlen.
  set (u := UsableRegions_new regions).
  assert (remaining u = omap usable_run regions) as Hu by done.
  unfold frame_init. fold u. rewrite sum_frames_spec; rewrite ?Hu; try done.
  2: { eapply Forall_impl; [exact Hg|]. by intros ? []. }
  2: apply length_omap_usable.
  rewrite bind_Ok, Z.add_0_l. fold (usable_frames regions).
  case_cmp; [exists None; split; [by f_equal; congruence|]|].
  { apply length_zero_iff_nil. lia. }
  destruct (next_spec u) as [Hn _]; destruct (next u) as [[run|] u']; destruct Hn as [Hn Hn'];
    rewrite Hu in Hn.
  2: { unfold usable_frames in *. by rewrite Hn in *. }
  rewrite Hn in Hg. apply Forall_cons in Hg as [[(Hr1 & Hr2 & Hr3 & Hr4) Hr5] Hg].
  unfold fr_end in *.
  rewrite mul_u_ok, bind_Ok, add_u_ok, bind_Ok by (unfold PAGE_SIZE in *; lia).
  eexists (Some _). split; [done|]. split; [by intros E; rewrite E in *|]. split; [|done].
  exists []. split; [|split; [done|split; [done|split; [done|]]]].
  - repeat split; simpl; try done; try (unfold PAGE_SIZE in *; lia).
    apply mod_add_multiple; [done|done|]. by apply Z.mod_mul.
  - simpl. unfold usable_frames, bump_frames, cur_frames, cur_count. simpl. rewrite Hn. simpl.
    replace ((fr_start run + fr_frames run * PAGE_SIZE - fr_start run) / PAGE_SIZE)
      with (fr_frames run) by (unfold PAGE_SIZE; divmod). done.
Qed.

(** The stretches ahead of a fresh allocator's cursor are the map's runs. *)
Definition has_run (regions : list MemoryRegion) (n : Z) : Prop :=
  Exists (fun run => n <= fr_frames run) (omap usable_run regions).

Lemma frame_init_fits regions fa total n :
  map_ok regions -> frame_init regions = Ok (Some fa, total) -> fits fa n <-> has_run regions n.
Proof.
  intros Hmap Hi. pose proof (usable_runs_good regions Hmap) as Hg. unfold frame_init in Hi. inv_bind Hi.
  destruct (a =? 0); [by simplify_eq|].
  pose proof (next_spec (UsableRegions_new regions)) as [Hn _].
  assert (remaining (UsableRegions_new regions) = omap usable_run regions) as Hu by done.
  destruct (next (UsableRegions_new regions)) as [[run|] u']; [|by simplify_eq]. destruct Hn as [Hn _].
  rewrite Hu in Hn. rewrite Hn in Hg. apply Forall_cons in Hg as [[(Hr1 & Hr2 & Hr3 & Hr4) Hr5] _].
  unfold fr_end in *. rewrite mul_u_ok, bind_Ok, add_u_ok, bind_Ok in Hi by (unfold PAGE_SIZE in *; lia).
  injection Hi as <- _. unfold fits, has_run, cur_count. simpl. rewrite Hn, Exists_cons.
  replace ((fr_start run + fr_frames run * PAGE_SIZE - fr_start run) / PAGE_SIZE)
    with (fr_frames run) by (unfold PAGE_SIZE; divmod). done.
Qed.
