(* ===== verification/Heap.v ===== *)
(** The kernel heap ([kernel/src/heap.rs]): the methods of [Heap] over the
    byte memory, the free list as an address-ordered sequence of blocks, the
    coalescing invariant, and each method's effect on the set of free bytes. *)
From S2P Require Import Prelude Memory BootInfo.

(** ** Data *)

Definition HEAP_FRAMES : Z := 256.
Definition GRAIN : Z := 16.

(** [FreeBlock]: two words in the block's own first sixteen bytes. *)
Definition read_size (m : mem) (b : Z) : Z := load 8 m b.
Definition read_next (m : mem) (b : Z) : Z := load 8 m (b + 8).
Definition set_size (m : mem) (b size : Z) : mem := store 8 m b size.
Definition set_next (m : mem) (b next : Z) : mem := store 8 m (b + 8) next.
Definition write_FreeBlock (m : mem) (b size next : Z) : mem :=
  set_next (set_size m b size) b next.

Record Heap := { head : Z }.

(** [core::alloc::Layout]. *)
Record Layout := { l_size : Z; l_align : Z }.

Definition normalise (layout : Layout) : res (Z * Z) :=
  size ← next_multiple_of 64 (Z.max (l_size layout) GRAIN) GRAIN;
  Ok (size, Z.max (l_align layout) GRAIN).

(** ** Methods *)

Definition heap_init (m : mem) (start size : Z) : mem * Heap :=
  (write_FreeBlock m start size 0, {| head := start |}).

(** [if prev.is_null() { self.head = x } else { ( *prev).next = x }]. *)
Definition link_after (m : mem) (h : Heap) (prev x : Z) : mem * Heap :=
  if prev =? 0 then (m, {| head := x |}) else (set_next m prev x, h).

(** [alloc]'s successful iteration: split [cur] around the payload. *)
Definition carve (m : mem) (h : Heap) (prev cur block_size next payload front size : Z)
    : res (mem * Heap * Z) :=
  rest ← sub_u block_size front;
  tail ← sub_u rest size;
  '(m, remainder) ←
    (if GRAIN <=? tail then
       tail_block ← add_u 64 payload size;
       Ok (write_FreeBlock m tail_block tail next, tail_block)
     else Ok (m, next));
  let '(m, h) :=
    if GRAIN <=? front then (set_next (set_size m cur front) cur remainder, h)
    else link_after m h prev remainder in
  Ok (m, h, payload).

Fixpoint alloc_loop (fuel : nat) (m : mem) (h : Heap) (size align prev cur : Z)
    : res (mem * Heap * Z) :=
  if cur =? 0 then Ok (m, h, 0) else
  let block_size := read_size m cur in
  let next := read_next m cur in
  payload ← next_multiple_of 64 cur align;
  front ← sub_u payload cur;
  need ← add_u 64 front size;
  if need <=? block_size then carve m h prev cur block_size next payload front size
  else match fuel with
       | O => Loop
       | S fuel => alloc_loop fuel m h size align cur next
       end.

Definition heap_alloc (fuel : nat) (m : mem) (h : Heap) (layout : Layout)
    : res (mem * Heap * Z) :=
  '(size, align) ← normalise layout;
  alloc_loop fuel m h size align 0 (head h).

(** [dealloc]'s search for the insertion point. *)
Fixpoint find_loop (fuel : nat) (m : mem) (start prev cur : Z) : res (Z * Z) :=
  if negb (cur =? 0) && (cur <? start) then
    match fuel with
    | O => Loop
    | S fuel => find_loop fuel m start cur (read_next m cur)
    end
  else Ok (prev, cur).

(** The forward merge: the freed block's size and successor. *)
Definition merge_forward (m : mem) (start size cur : Z) : res (Z * Z) :=
  if cur =? 0 then Ok (size, cur) else
  limit ← add_u 64 start size;
  if limit =? cur then
    size ← add_u 64 size (read_size m cur);
    Ok (size, read_next m cur)
  else Ok (size, cur).

(** The backward merge, or the new header. *)
Definition merge_backward (m : mem) (h : Heap) (start size next prev : Z)
    : res (mem * Heap) :=
  if prev =? 0 then Ok (link_after (write_FreeBlock m start size next) h prev start) else
  prev_end ← add_u 64 prev (read_size m prev);
  if prev_end =? start then
    grown ← add_u 64 (read_size m prev) size;
    Ok (set_next (set_size m prev grown) prev next, h)
  else Ok (link_after (write_FreeBlock m start size next) h prev start).

Definition heap_dealloc (fuel : nat) (m : mem) (h : Heap) (ptr : Z) (layout : Layout)
    : res (mem * Heap) :=
  '(size, _) ← normalise layout;
  '(prev, cur) ← find_loop fuel m ptr 0 (head h);
  '(size, next) ← merge_forward m ptr size cur;
  merge_backward m h ptr size next prev.

Fixpoint free_bytes_loop (fuel : nat) (m : mem) (cur total : Z) : res Z :=
  if cur =? 0 then Ok total else
  total ← add_u 64 total (read_size m cur);
  match fuel with
  | O => Loop
  | S fuel => free_bytes_loop fuel m (read_next m cur) total
  end.

Definition heap_free_bytes (fuel : nat) (m : mem) (h : Heap) : res Z :=
  free_bytes_loop fuel m (head h) 0.

Fixpoint free_blocks_loop (fuel : nat) (m : mem) (cur count : Z) : res Z :=
  if cur =? 0 then Ok count else
  count ← add_u 64 count 1;
  match fuel with
  | O => Loop
  | S fuel => free_blocks_loop fuel m (read_next m cur) count
  end.

Definition heap_free_blocks (fuel : nat) (m : mem) (h : Heap) : res Z :=
  free_blocks_loop fuel m (head h) 0.

(** ** The free list *)

(** A block is its start and its size. *)
Abbreviation blocks := (list (Z * Z)).

(** [block_seg m p bl q]: following the headers from [p] visits [bl] and
    arrives at [q]. *)
Fixpoint block_seg (m : mem) (p : Z) (bl : blocks) (q : Z) : Prop :=
  match bl with
  | [] => p = q
  | (a, s) :: bl => p = a /\ read_size m a = s /\ block_seg m (read_next m a) bl q
  end.

(** Address order, the grid, and coalescing: the next block starts strictly
    above the end of this one. *)
Fixpoint wf_blocks (lo : Z) (bl : blocks) (hi : Z) : Prop :=
  match bl with
  | [] => True
  | (a, s) :: bl =>
      lo <= a /\ a mod GRAIN = 0 /\ s mod GRAIN = 0 /\ GRAIN <= s /\ a + s <= hi /\
      wf_blocks (a + s + 1) bl hi
  end.

(** The free bytes. *)
Definition covered (bl : blocks) (x : Z) : Prop :=
  exists a s, (a, s) ∈ bl /\ range a s x.

(** The first address a block after [bl] may start at. *)
Fixpoint after (lo : Z) (bl : blocks) : Z :=
  match bl with
  | [] => lo
  | (a, s) :: bl => after (a + s + 1) bl
  end.

(** The free bytes, counted. *)
Definition total_size (bl : blocks) : Z := foldr (fun b n => snd b + n) 0 bl.

(** The start of the last block, null when there is none. *)
Definition last_start (prev : Z) (bl : blocks) : Z :=
  match last bl with Some (a, _) => a | None => prev end.

(** ** Lists of blocks *)

Lemma total_size_app b1 b2 : total_size (b1 ++ b2) = total_size b1 + total_size b2.
Proof. induction b1 as [|[a s] b1 IH]; simpl; lia. Qed.

Lemma wf_blocks_mono lo lo' bl hi : lo' <= lo -> wf_blocks lo bl hi -> wf_blocks lo' bl hi.
Proof. destruct bl as [|[a s] bl]; simpl; intros; intuition lia. Qed.

Lemma wf_blocks_app lo b1 b2 hi :
  wf_blocks lo (b1 ++ b2) hi <-> wf_blocks lo b1 hi /\ wf_blocks (after lo b1) b2 hi.
Proof.
  revert lo. induction b1 as [|[a s] b1 IH]; intros lo; simpl; [tauto|]. rewrite IH. tauto.
Qed.

Lemma after_app lo b1 b2 : after lo (b1 ++ b2) = after (after lo b1) b2.
Proof. revert lo. induction b1 as [|[a s] b1 IH]; intros lo; simpl; auto. Qed.

Lemma after_ge lo bl hi : wf_blocks lo bl hi -> lo <= after lo bl.
Proof.
  revert lo. induction bl as [|[a s] bl IH]; intros lo; simpl; [lia|].
  intros (? & _ & _ & Hs & _ & H). specialize (IH _ H). unfold GRAIN in Hs. lia.
Qed.

Lemma wf_blocks_elem lo bl hi a s :
  wf_blocks lo bl hi -> (a, s) ∈ bl ->
  lo <= a /\ a mod GRAIN = 0 /\ s mod GRAIN = 0 /\ GRAIN <= s /\ a + s <= hi /\
  a + s < after lo bl.
Proof.
  revert lo. induction bl as [|[b t] bl IH]; intros lo Hwf Hin; [by apply elem_of_nil in Hin|].
  destruct Hwf as (H1 & H2 & H3 & H4 & H5 & Hwf). simpl.
  pose proof (after_ge _ _ _ Hwf). apply elem_of_cons in Hin as [[= -> ->]|Hin].
  - repeat split; try done; lia.
  - destruct (IH _ Hwf Hin) as (? & ? & ? & ? & ? & ?). unfold GRAIN in *.
    repeat split; try done; lia.
Qed.

Lemma covered_cons a s bl x : covered ((a, s) :: bl) x <-> range a s x \/ covered bl x.
Proof.
  unfold covered. split.
  - intros (b & t & Hin & Hx). apply elem_of_cons in Hin as [[= -> ->]|Hin]; eauto.
  - intros [Hx|(b & t & Hin & Hx)]; [exists a, s|exists b, t]; (split; [|done]);
      rewrite elem_of_cons; auto.
Qed.

Lemma covered_nil x : covered [] x <-> False.
Proof. split; [|done]. intros (a & s & Hin & _). by apply elem_of_nil in Hin. Qed.

Lemma covered_app b1 b2 x : covered (b1 ++ b2) x <-> covered b1 x \/ covered b2 x.
Proof.
  induction b1 as [|[a s] b1 IH]; [rewrite covered_nil; tauto|].
  simpl. rewrite !covered_cons, IH. tauto.
Qed.

Lemma covered_bounds lo bl hi x :
  wf_blocks lo bl hi -> covered bl x -> lo <= x < hi /\ x + 1 < after lo bl.
Proof.
  intros Hwf (a & s & Hin & Hx). unfold range in Hx.
  destruct (wf_blocks_elem _ _ _ _ _ Hwf Hin) as (? & _ & _ & _ & ? & ?). lia.
Qed.

(** The free set determines the free list: the coalesced representation is
    canonical. *)
Lemma blocks_canonical lo bl bl' hi :
  wf_blocks lo bl hi -> wf_blocks lo bl' hi -> (forall x, covered bl x <-> covered bl' x) ->
  bl = bl'.
Proof.
  assert (forall a s b t (bl bl' : blocks), GRAIN <= s -> GRAIN <= t ->
    wf_blocks (a + s + 1) bl hi -> wf_blocks (b + t + 1) bl' hi ->
    (forall x, covered ((a, s) :: bl) x -> covered ((b, t) :: bl') x) ->
    b <= a /\ (a = b -> s <= t)) as Hhead.
  { clear. intros a s b t bl bl' Hs Ht Hwf Hwf' Hc. unfold GRAIN in *. split.
    - assert (covered ((b, t) :: bl') a) as Hx.
      { apply Hc, covered_cons. left. unfold range. lia. }
      apply covered_cons in Hx as [Hx|Hx]; [unfold range in Hx; lia|].
      apply (covered_bounds _ _ _ _ Hwf') in Hx. lia.
    - intros <-. destruct (Z.le_gt_cases s t); [done|].
      assert (covered ((a, t) :: bl') (a + t)) as Hx.
      { apply Hc, covered_cons. left. unfold range. lia. }
      apply covered_cons in Hx as [Hx|Hx]; [unfold range in Hx; lia|].
      apply (covered_bounds _ _ _ _ Hwf') in Hx. lia. }
  revert lo bl'. induction bl as [|[a s] bl IH]; intros lo bl' Hwf Hwf' Hc.
  - destruct bl' as [|[b t] bl']; [done|]. exfalso. destruct Hwf' as (_ & _ & _ & Ht & _).
    apply (covered_nil b), Hc, covered_cons. left. unfold range, GRAIN in *. lia.
  - destruct bl' as [|[b t] bl'].
    { exfalso. destruct Hwf as (_ & _ & _ & Ht & _).
      apply (covered_nil a), Hc, covered_cons. left. unfold range, GRAIN in *. lia. }
    destruct Hwf as (H1 & H2 & H3 & H4 & H5 & Hwf).
    destruct Hwf' as (H1' & H2' & H3' & H4' & H5' & Hwf').
    destruct (Hhead a s b t bl bl') as [Hba Hst]; try done; [intros x; apply Hc|].
    destruct (Hhead b t a s bl' bl) as [Hab Hts]; try done; [intros x; apply Hc|].
    assert (a = b) as <- by lia. assert (s = t) as <- by lia. f_equal.
    apply (IH (a + s + 1)); [done|done|]. intros x. specialize (Hc x).
    rewrite !covered_cons in Hc. split; intros Hx.
    + destruct (proj1 Hc (or_intror Hx)); [|done].
      apply (covered_bounds _ _ _ _ Hwf) in Hx. unfold range in *. lia.
    + destruct (proj2 Hc (or_intror Hx)); [|done].
      apply (covered_bounds _ _ _ _ Hwf') in Hx. unfold range in *. lia.
Qed.

(** ** Chains of headers *)

Lemma block_seg_app m p b1 b2 q :
  block_seg m p (b1 ++ b2) q <-> exists r, block_seg m p b1 r /\ block_seg m r b2 q.
Proof.
  revert p. induction b1 as [|[a s] b1 IH]; intros p; simpl.
  - split; [eauto|]. intros (r & -> & H). done.
  - rewrite IH. split.
    + intros (-> & Hs & r & H1 & H2). eauto 6.
    + intros (r & (-> & Hs & H1) & H2). eauto 6.
Qed.

(** The headers determine the list they spell. *)
Lemma block_seg_det m p bl bl' lo hi :
  block_seg m p bl 0 -> block_seg m p bl' 0 -> 0 < lo ->
  wf_blocks lo bl hi -> wf_blocks lo bl' hi -> bl = bl'.
Proof.
  revert p bl' lo. induction bl as [|[a s] bl IH]; intros p bl' lo H H' Hlo Hw Hw';
    destruct bl' as [|[b t] bl']; simpl in *; [done|destruct H', Hw'; lia|destruct H, Hw; lia|].
  destruct H as (-> & Hs & H). destruct H' as (-> & Ht & H'). rewrite Hs in Ht. subst t.
  destruct Hw as (? & _ & _ & Hg & _ & Hw). destruct Hw' as (_ & _ & _ & _ & _ & Hw').
  unfold GRAIN in Hg. f_equal. eapply (IH _ _ (b + s + 1)); [exact H|exact H'|lia|done|done].
Qed.

(** The header bytes of a list of blocks. *)
Definition headers (bl : blocks) (x : Z) : Prop := exists a s, (a, s) ∈ bl /\ range a GRAIN x.

Lemma headers_cons a s bl x : headers ((a, s) :: bl) x <-> range a GRAIN x \/ headers bl x.
Proof.
  unfold headers. split.
  - intros (b & t & Hin & Hx). apply elem_of_cons in Hin as [[= -> ->]|Hin]; eauto.
  - intros [Hx|(b & t & Hin & Hx)]; [exists a, s|exists b, t]; (split; [|done]);
      rewrite elem_of_cons; auto.
Qed.

Lemma headers_covered lo bl hi x : wf_blocks lo bl hi -> headers bl x -> covered bl x.
Proof.
  intros Hwf (a & s & Hin & Hx). exists a, s. split; [done|].
  destruct (wf_blocks_elem _ _ _ _ _ Hwf Hin) as (_ & _ & _ & ? & _). unfold range in *. lia.
Qed.

Lemma block_seg_agree m m' p bl q :
  mem_agree (headers bl) m m' -> block_seg m p bl q -> block_seg m' p bl q.
Proof.
  revert p. induction bl as [|[a s] bl IH]; intros p Hm; [done|]. simpl. intros (-> & Hs & H).
  assert (forall o, 0 <= o <= 8 -> load 8 m (a + o) = load 8 m' (a + o)) as Hl.
  { intros o Ho. eapply load_agree; [exact Hm|]. intros x Hx. apply headers_cons. left.
    unfold range, GRAIN in *. lia. }
  pose proof (Hl 0 ltac:(lia)) as H0. rewrite Z.add_0_r in H0.
  unfold read_size, read_next in *. rewrite <- H0, <- (Hl 8) by lia. repeat split; [done|].
  apply IH; [|done]. eapply mem_agree_mono; [|exact Hm]. intros x Hx. apply headers_cons. auto.
Qed.

(** Reads of a header after writes to it. *)
Lemma read_size_set_next m b v : read_size (set_next m b v) b = read_size m b.
Proof. apply load_store_ne. lia. Qed.
Lemma read_next_set_next m b v : in_u 64 v -> read_next (set_next m b v) b = v.
Proof. apply load_store_u64. Qed.
Lemma read_size_set_size m b v : in_u 64 v -> read_size (set_size m b v) b = v.
Proof. apply load_store_u64. Qed.
Lemma read_next_set_size m b v : read_next (set_size m b v) b = read_next m b.
Proof. apply load_store_ne. lia. Qed.

Lemma set_next_agree m b v : mem_agree (fun x => ~ range b GRAIN x) m (set_next m b v).
Proof. apply mem_agree_store. unfold range, GRAIN. lia. Qed.
Lemma set_size_agree m b v : mem_agree (fun x => ~ range b GRAIN x) m (set_size m b v).
Proof. apply mem_agree_store. unfold range, GRAIN. lia. Qed.
Lemma write_FreeBlock_agree m b s n :
  mem_agree (fun x => ~ range b GRAIN x) m (write_FreeBlock m b s n).
Proof. etrans; [apply set_size_agree|apply set_next_agree]. Qed.

(** A fresh header is a one-block segment. *)
Lemma block_seg_write m b s n :
  in_u 64 s -> in_u 64 n -> block_seg (write_FreeBlock m b s n) b [(b, s)] n.
Proof.
  intros Hs Hn. simpl. unfold write_FreeBlock.
  by rewrite read_size_set_next, read_size_set_size, read_next_set_next by done.
Qed.

(** ** Editing a chain *)

Lemma last_start_snoc prev bl a s : last_start prev (bl ++ [(a, s)]) = a.
Proof. unfold last_start. by rewrite last_snoc. Qed.

(** Header bytes of disjoint parts of a list do not meet. *)
Lemma headers_before lo bl hi a x :
  wf_blocks lo bl hi -> after lo bl <= a -> headers bl x -> ~ range a GRAIN x.
Proof.
  intros Hwf Ha Hx. apply (headers_covered _ _ _ _ Hwf) in Hx.
  apply (covered_bounds _ _ _ _ Hwf) in Hx. unfold range. lia.
Qed.

Lemma headers_above lo bl hi a x :
  wf_blocks lo bl hi -> a + GRAIN <= lo -> headers bl x -> ~ range a GRAIN x.
Proof.
  intros Hwf Ha Hx. apply (headers_covered _ _ _ _ Hwf) in Hx.
  apply (covered_bounds _ _ _ _ Hwf) in Hx. unfold range. lia.
Qed.

(** Rewriting the header of the last block of a segment. *)
Lemma seg_update_last m m' p pre a s s' r q lo hi :
  block_seg m p (pre ++ [(a, s)]) r -> wf_blocks lo pre hi -> after lo pre <= a ->
  mem_agree (fun x => ~ range a GRAIN x) m m' -> read_size m' a = s' -> read_next m' a = q ->
  block_seg m' p (pre ++ [(a, s')]) q.
Proof.
  intros Hseg Hwf Ha Hm Hs Hq. apply block_seg_app in Hseg as (r0 & H1 & -> & _ & _).
  apply block_seg_app. exists a. split; [|done].
  eapply block_seg_agree; [|exact H1]. eapply mem_agree_mono; [|exact Hm].
  intros x Hx. by eapply headers_before.
Qed.

(** Relinking: the prefix now leads to [q]. *)
Lemma link_after_spec m h pre r q lo hi :
  block_seg m (head h) pre r -> wf_blocks lo pre hi -> 0 < lo -> in_u 64 q ->
  let '(m', h') := link_after m h (last_start 0 pre) q in
  block_seg m' (head h') pre q /\ mem_agree (fun x => ~ headers pre x) m m'.
Proof.
  intros Hseg Hwf Hlo Hq. unfold link_after.
  destruct pre as [|[a s] pre _] using rev_ind; [done|]. rewrite last_start_snoc.
  apply wf_blocks_app in Hwf as [Hwf (Ha & _)]. pose proof (after_ge _ _ _ Hwf).
  destruct (Z.eqb_spec a 0); [lia|]. split.
  - eapply seg_update_last; [done|done|lia|apply set_next_agree| |by apply read_next_set_next].
    apply block_seg_app in Hseg as (r0 & _ & -> & Hs & _). by rewrite read_size_set_next.
  - eapply mem_agree_mono; [|apply set_next_agree]. intros x Hx Hr. apply Hx.
    exists a, s. split; [|done]. apply elem_of_app. right. apply list_elem_of_here.
Qed.

(** The address a segment starts from is null or a block of the region. *)
Lemma block_seg_in_u m p bl lo hi :
  block_seg m p bl 0 -> wf_blocks lo bl hi -> 0 < lo -> hi <= 2 ^ 63 -> in_u 64 p.
Proof.
  destruct bl as [|[a s] bl]; simpl; unfold in_u; [intros ->; lia|].
  intros (-> & _) (? & _ & _ & Hs & ? & _). unfold GRAIN in Hs. lia.
Qed.

(** ** Layouts *)

(** What [Layout] guarantees: a power-of-two alignment and a size that stays
    within [isize::MAX] when rounded up to it. *)
Definition Layout_ok (l : Layout) : Prop :=
  (exists k, 0 <= k <= 63 /\ l_align l = 2 ^ k) /\ 0 <= l_size l /\
  l_size l + l_align l <= 2 ^ 63.

(** The request the loops see. *)
Definition n_size (l : Layout) : Z := round_up (Z.max (l_size l) GRAIN) GRAIN.
Definition n_align (l : Layout) : Z := Z.max (l_align l) GRAIN.

Definition size_ok (size : Z) : Prop := size mod GRAIN = 0 /\ GRAIN <= size <= 2 ^ 63.
Definition align_ok (align : Z) : Prop := (GRAIN | align) /\ (align | 2 ^ 63) /\ 0 < align.

Lemma n_size_ok l : Layout_ok l -> size_ok (n_size l) /\ l_size l <= n_size l.
Proof.
  intros ((k & Hk & Ha) & Hs & Hm). unfold size_ok, n_size.
  destruct (round_up_spec (Z.max (l_size l) GRAIN) GRAIN) as [[? ?] ?]; [done|].
  assert (0 < 2 ^ k) by lia.
  assert (round_up (Z.max (l_size l) GRAIN) GRAIN <= 2 ^ 63).
  { apply round_up_least; [done|unfold GRAIN; lia|done]. }
  repeat split; [done|lia..].
Qed.

Lemma n_align_ok l : Layout_ok l -> align_ok (n_align l) /\ (l_align l | n_align l).
Proof.
  intros ((k & Hk & Ha) & _). unfold align_ok, n_align. rewrite Ha.
  assert (Z.max (2 ^ k) GRAIN = 2 ^ Z.max k 4) as ->.
  { change GRAIN with (2 ^ 4). destruct (Z.max_spec k 4) as [[? ->]|[? ->]].
    - apply Z.max_r, Z.pow_le_mono_r; lia.
    - apply Z.max_l, Z.pow_le_mono_r; lia. }
  assert (forall i j, 0 <= i <= j -> (2 ^ i | 2 ^ j)) as Hd.
  { intros i j Hij. exists (2 ^ (j - i)). rewrite <- Z.pow_add_r by lia. f_equal. lia. }
  repeat split; [apply (Hd 4); lia|apply Hd; lia|lia|apply Hd; lia].
Qed.

Lemma normalise_ok l : Layout_ok l -> normalise l = Ok (n_size l, n_align l).
Proof.
  intros Hl. destruct (n_size_ok l Hl) as [(_ & _ & Hs) _]. unfold normalise, next_multiple_of.
  fold (n_size l). case_cmp; [done|lia].
Qed.

(** ** First fit *)

Definition fits_block (size align : Z) (b : Z * Z) : bool :=
  round_up (fst b) align - fst b + size <=? snd b.

Fixpoint first_fit (size align : Z) (bl : blocks) : option (blocks * (Z * Z) * blocks) :=
  match bl with
  | [] => None
  | b :: bl =>
      if fits_block size align b then Some ([], b, bl)
      else match first_fit size align bl with
           | Some (pre, c, suf) => Some (b :: pre, c, suf)
           | None => None
           end
  end.

(** What is left of a block around the payload. *)
Definition carved (size align : Z) (b : Z * Z) : blocks :=
  let payload := round_up (fst b) align in
  let front := payload - fst b in
  let tail := snd b - front - size in
  (if GRAIN <=? front then [(fst b, front)] else []) ++
  (if GRAIN <=? tail then [(payload + size, tail)] else []).

Lemma first_fit_Some size align bl pre b suf :
  first_fit size align bl = Some (pre, b, suf) ->
  bl = pre ++ b :: suf /\ fits_block size align b = true /\
  Forall (fun c => fits_block size align c = false) pre.
Proof.
  revert pre. induction bl as [|c bl IH]; intros pre H; [done|]. cbn [first_fit] in H.
  destruct (fits_block size align c) eqn:E; [by simplify_eq|].
  destruct (first_fit size align bl) as [[[pre' c'] suf']|] eqn:E'; [|done]. simplify_eq.
  destruct (IH pre' eq_refl) as (-> & ? & ?). by repeat constructor.
Qed.

Lemma first_fit_None size align bl :
  first_fit size align bl = None -> Forall (fun c => fits_block size align c = false) bl.
Proof.
  induction bl as [|c bl IH]; intros H; [constructor|]. cbn [first_fit] in H.
  destruct (fits_block size align c) eqn:E; [done|].
  destruct (first_fit size align bl) as [[[? ?] ?]|]; [done|]. constructor; auto.
Qed.

(** The pieces of a carve, on the grid. *)
Lemma carve_grid size align a s :
  a mod GRAIN = 0 -> s mod GRAIN = 0 -> size_ok size -> align_ok align ->
  let front := round_up a align - a in
  0 <= front /\ front mod GRAIN = 0 /\ (round_up a align) mod GRAIN = 0 /\
  (s - front - size) mod GRAIN = 0 /\ round_up a align mod align = 0.
Proof.
  intros Ha Hs (Hz & _) (Hg & Hd & Hp). destruct (round_up_spec a align Hp) as [[? ?] Hm].
  assert (round_up a align mod GRAIN = 0) as Hr by (by eapply mod_divide_trans).
  assert ((round_up a align - a) mod GRAIN = 0) by (by apply mod_sub_multiple).
  repeat split; [lia|done|done| |done]. apply mod_sub_multiple; [done| |done].
  by apply mod_sub_multiple.
Qed.

Lemma wf_carved size align a s rest lo hi :
  wf_blocks lo ((a, s) :: rest) hi -> size_ok size -> align_ok align ->
  fits_block size align (a, s) = true ->
  wf_blocks lo (carved size align (a, s) ++ rest) hi.
Proof.
  intros (H1 & H2 & H3 & H4 & H5 & Hwf) Hsz Hal Hfit.
  destruct (carve_grid size align a s H2 H3 Hsz Hal) as (Hf0 & Hf & Hp & Ht & _).
  destruct Hsz as (Hsz1 & Hsz2 & _). unfold fits_block in Hfit. simpl in Hfit.
  apply Z.leb_le in Hfit. unfold carved. simpl.
  set (p := round_up a align) in *.
  assert ((p + size) mod GRAIN = 0) by (by apply mod_add_multiple).
  unfold GRAIN in *. do 2 case_cmp; simpl; repeat split; try done; try lia.
  all: eapply wf_blocks_mono; [|exact Hwf]; lia.
Qed.

(** The payload's bytes, and nothing else, leave the free set. *)
Lemma covered_carved size align a s x :
  a mod GRAIN = 0 -> s mod GRAIN = 0 -> size_ok size -> align_ok align ->
  fits_block size align (a, s) = true ->
  covered (carved size align (a, s)) x <->
  range a s x /\ ~ range (round_up a align) size x.
Proof.
  intros Ha Hs Hsz Hal Hfit.
  destruct (carve_grid size align a s Ha Hs Hsz Hal) as (Hf0 & Hf & _ & Ht & _).
  destruct Hsz as (_ & Hsz2 & _). unfold fits_block in Hfit. simpl in Hfit.
  apply Z.leb_le in Hfit. unfold carved. rewrite covered_app. simpl.
  set (p := round_up a align) in *. unfold range.
  assert (forall t, 0 <= t -> t mod GRAIN = 0 -> t < GRAIN -> t = 0) as Hz.
  { intros t ? Hm ?. by rewrite Z.mod_small in Hm by lia. }
  assert (p - a < GRAIN -> p = a) by (intros; specialize (Hz (p - a)); lia).
  assert (s - (p - a) - size < GRAIN -> s - (p - a) - size = 0)
    by (intros; apply Hz; [lia|done|lia]).
  clear Hz Hf Ht Hs Ha. unfold GRAIN in *.
  do 2 case_cmp; rewrite ?covered_cons, ?covered_nil; unfold range; lia.
Qed.

Lemma total_size_carved size align a s :
  a mod GRAIN = 0 -> s mod GRAIN = 0 -> size_ok size -> align_ok align ->
  fits_block size align (a, s) = true ->
  total_size (carved size align (a, s)) = s - size.
Proof.
  intros Ha Hs Hsz Hal Hfit.
  destruct (carve_grid size align a s Ha Hs Hsz Hal) as (Hf0 & Hf & _ & Ht & _).
  unfold fits_block in Hfit. simpl in Hfit. apply Z.leb_le in Hfit.
  unfold carved. rewrite total_size_app. simpl. set (p := round_up a align) in *.
  unfold GRAIN in *. do 2 case_cmp; simpl; try lia.
  all: try (rewrite (Z.mod_small (p - a)) in Hf by lia); try lia.
  all: rewrite Z.mod_small in Ht by lia; lia.
Qed.

(** ** The representation invariant *)

(** [Inv base hi m h bl]: in [m], [h] is the coalesced, address-ordered free
    list [bl] of the region from [base] to [hi]. *)
Definition Inv (base hi : Z) (m : mem) (h : Heap) (bl : blocks) : Prop :=
  block_seg m (head h) bl 0 /\ wf_blocks base bl hi.

Section Region.
(** A region of the low half of the address space, off the null page. *)
Context (base hi : Z) (base_pos : 0 < base) (hi_bound : hi <= 2 ^ 63).

Lemma Inv_agree m m' h bl :
  mem_agree (covered bl) m m' -> Inv base hi m h bl -> Inv base hi m' h bl.
Proof.
  intros Hm [Hseg Hwf]. split; [|done]. eapply block_seg_agree; [|exact Hseg].
  eapply mem_agree_mono; [|exact Hm]. intros x. by eapply headers_covered.
Qed.

(** The tail remainder: the segment the payload is followed by. *)
Lemma carve_tail m rest next tb tail lo :
  block_seg m next rest 0 -> wf_blocks lo rest hi -> 0 < lo -> tb + tail + 1 <= lo ->
  in_u 64 tail -> in_u 64 next -> GRAIN <= tail ->
  block_seg (write_FreeBlock m tb tail next) tb ((tb, tail) :: rest) 0.
Proof.
  intros Hseg Hwf Hlo Htb Ht Hn Hg. change ((tb, tail) :: rest) with ([(tb, tail)] ++ rest).
  apply block_seg_app. exists next. split; [by apply block_seg_write|].
  eapply block_seg_agree; [|exact Hseg]. eapply mem_agree_mono; [|apply write_FreeBlock_agree].
  intros x Hx. eapply headers_above; [exact Hwf| |exact Hx]. lia.
Qed.

(** Replacing the block [(a, s)] by what its carve leaves: the header edits
    of [alloc] once the tail segment [tl ++ rest] is in place. *)
Lemma carve_front m m1 h pre a s r front remainder tl :
  block_seg m (head h) (pre ++ [(a, s)]) r -> wf_blocks base (pre ++ [(a, s)]) hi ->
  mem_agree (fun x => ~ range (a + GRAIN) (s - GRAIN) x) m m1 ->
  wf_blocks (a + front + GRAIN) tl hi -> block_seg m1 remainder tl 0 -> in_u 64 remainder ->
  0 <= front <= s ->
  let '(m', h') :=
    if GRAIN <=? front then (set_next (set_size m1 a front) a remainder, h)
    else link_after m1 h (last_start 0 pre) remainder in
  block_seg m' (head h')
    ((pre ++ (if GRAIN <=? front then [(a, front)] else [])) ++ tl) 0 /\
  mem_agree (fun x => ~ headers pre x /\ ~ range a GRAIN x) m1 m'.
Proof.
  intros Hseg Hwf Hm Hwt Htl Hr Hf. apply block_seg_app in Hseg as (r0 & Hpre & -> & Hs & _).
  apply wf_blocks_app in Hwf as [Hwp (Ha & _ & _ & Hg & Hhi & _)]. simpl in Hg.
  pose proof (after_ge _ _ _ Hwp).
  assert (block_seg m1 (head h) pre a) as Hpre1.
  { eapply block_seg_agree; [|exact Hpre]. eapply mem_agree_mono; [|exact Hm].
    intros x Hx. apply (headers_covered _ _ _ _ Hwp) in Hx.
    apply (covered_bounds _ _ _ _ Hwp) in Hx. unfold range, GRAIN. lia. }
  case_cmp.
  - pose proof (write_FreeBlock_agree m1 a front remainder) as Hw. unfold write_FreeBlock in Hw.
    split; [|eapply mem_agree_mono; [|exact Hw]; by intros x []].
    apply block_seg_app. exists remainder. split.
    + apply block_seg_app. exists a. split.
      * eapply block_seg_agree; [|exact Hpre1].
        eapply mem_agree_mono; [|exact Hw].
        intros x Hx. eapply headers_before; [exact Hwp|exact Ha|exact Hx].
      * simpl. rewrite read_size_set_next, read_size_set_size, read_next_set_next by
          (unfold in_u, GRAIN in *; lia || done). done.
    + eapply block_seg_agree; [|exact Htl].
      eapply mem_agree_mono; [|exact Hw].
      intros x Hx. eapply headers_above; [exact Hwt|lia|exact Hx].
  - pose proof (link_after_spec m1 h pre a remainder base hi Hpre1 Hwp base_pos Hr) as Hl.
    destruct (link_after m1 h (last_start 0 pre) remainder) as [m' h'] eqn:E.
    destruct Hl as [Hl Hag]. rewrite app_nil_r. split; [|by eapply mem_agree_mono; [|exact Hag]; intros x []].
    apply block_seg_app. exists remainder. split; [done|].
    eapply block_seg_agree; [|exact Htl]. eapply mem_agree_mono; [|exact Hag].
    intros x Hx Hx'. apply (headers_covered _ _ _ _ Hwt) in Hx.
    apply (covered_bounds _ _ _ _ Hwt) in Hx. apply (headers_covered _ _ _ _ Hwp) in Hx'.
    apply (covered_bounds _ _ _ _ Hwp) in Hx'. unfold GRAIN in *. lia.
Qed.

(** The tail edit: the segment that follows the payload, [m1] holding it. *)
Lemma carve_tail_step m next rest payload size tail lo :
  block_seg m next rest 0 -> wf_blocks lo rest hi -> 0 < lo -> payload + size + tail + 1 <= lo ->
  0 < payload -> 0 <= size -> 0 <= tail -> lo <= 2 ^ 63 + 1 -> in_u 64 next ->
  exists m1 remainder,
    (if GRAIN <=? tail then
       tail_block ← add_u 64 payload size;
       Ok (write_FreeBlock m tail_block tail next, tail_block)
     else Ok (m, next)) = (Ok (m1, remainder) : res (mem * Z)) /\
    block_seg m1 remainder
      ((if GRAIN <=? tail then [(payload + size, tail)] else []) ++ rest) 0 /\
    in_u 64 remainder /\
    mem_agree (fun x => ~ range (payload + size) tail x) m m1.
Proof.
  intros Hseg Hwf Hlo Hlt Hp Hs Ht Hmax Hn. case_cmp.
  - rewrite add_u_ok, bind_Ok by lia. eexists _, _. split; [done|].
    split; [|split; [unfold in_u; lia|]].
    + eapply carve_tail; [done|exact Hwf|done|lia|unfold in_u; lia|done|done].
    + eapply mem_agree_mono; [|apply write_FreeBlock_agree]. intros x. unfold range. lia.
  - exists m, next. split; [done|]. split; [done|]. split; [done|]. reflexivity.
Qed.

Lemma carve_spec m h pre a s rest size align :
  Inv base hi m h (pre ++ (a, s) :: rest) -> size_ok size -> align_ok align ->
  fits_block size align (a, s) = true ->
  let p := round_up a align in
  exists m' h', carve m h (last_start 0 pre) a s (read_next m a) p (p - a) size = Ok (m', h', p) /\
    Inv base hi m' h' (pre ++ carved size align (a, s) ++ rest) /\
    mem_agree (fun x => ~ covered (pre ++ (a, s) :: rest) x) m m'.
Proof.
  intros [Hseg Hwf] Hsz Hal Hfit p.
  pose proof Hwf as Hwf2. apply wf_blocks_app in Hwf2 as [Hwp Hwb].
  pose proof (wf_carved size align a s rest _ hi Hwb Hsz Hal Hfit) as Hwc.
  destruct Hwb as (Ha & Ha16 & Hs16 & Hg & Hhi & Hwr).
  destruct (carve_grid size align a s Ha16 Hs16 Hsz Hal) as (Hf0 & _ & Hp16 & Ht16 & _).
  destruct Hsz as (Hsz0 & Hsz1 & Hsz2). unfold fits_block in Hfit. simpl in Hfit.
  apply Z.leb_le in Hfit. fold p in Hf0, Hp16, Ht16, Hfit.
  pose proof (after_ge _ _ _ Hwp) as Haft.
  change (pre ++ (a, s) :: rest) with (pre ++ [(a, s)] ++ rest) in Hseg, Hwf.
  rewrite app_assoc in Hseg, Hwf. apply block_seg_app in Hseg as (r & Hpre & Hrest).
  pose proof Hpre as Hpre'. apply block_seg_app in Hpre' as (r0 & _ & -> & Hsize & Hnext).
  simpl in Hnext. subst r. set (next := read_next m a) in *.
  assert (in_u 64 next) as Hnu.
  { eapply (block_seg_in_u _ _ rest); [exact Hrest|exact Hwr|unfold GRAIN in *; lia|done]. }
  assert (0 < GRAIN) by done.
  unfold carve. rewrite sub_u_ok, bind_Ok by lia. rewrite sub_u_ok, bind_Ok by lia.
  destruct (carve_tail_step m next rest p size (s - (p - a) - size) (a + s + 1))
    as (m1 & remainder & -> & Htl & Hru & Hag1); try done; try (unfold GRAIN in *; lia).
  rewrite bind_Ok. set (tl := (if GRAIN <=? s - (p - a) - size
    then [(p + size, s - (p - a) - size)] else []) ++ rest) in *.
  assert (wf_blocks (p + GRAIN) tl hi) as Hwt.
  { assert ((p + size) mod GRAIN = 0) by (by apply mod_add_multiple).
    unfold tl. unfold GRAIN in *. case_cmp; simpl; repeat split; try done; try lia;
      (eapply wf_blocks_mono; [|exact Hwr]); lia. }
  apply wf_blocks_app in Hwf as [Hwf1 _].
  assert (mem_agree (fun x => ~ range (a + GRAIN) (s - GRAIN) x) m m1) as Hag1'.
  { eapply mem_agree_mono; [|exact Hag1]. intros x. unfold range, GRAIN in *. lia. }
  assert (wf_blocks (a + (p - a) + GRAIN) tl hi) as Hwt'.
  { eapply wf_blocks_mono; [|exact Hwt]. lia. }
  pose proof (carve_front m m1 h pre a s next (p - a) remainder tl
    Hpre Hwf1 Hag1' Hwt' Htl Hru ltac:(lia)) as Hcf.
  destruct (if GRAIN <=? p - a then _ else _) as [m' h'] eqn:E in Hcf |- *.
  destruct Hcf as [Hseg' Hag2]. exists m', h'. split; [done|]. split; [split|].
  - unfold carved. simpl. fold p. rewrite <- app_assoc. fold tl. by rewrite app_assoc.
  - apply wf_blocks_app. done.
  - etrans; [eapply mem_agree_mono; [|exact Hag1]|eapply mem_agree_mono; [|exact Hag2]].
    + intros x Hx Hr. apply Hx, covered_app. right. apply covered_cons. left.
      unfold range in *. lia.
    + intros x Hx. split; intros Hr; apply Hx, covered_app.
      * left. by eapply headers_covered.
      * right. apply covered_cons. left. unfold range in *. lia.
Qed.

(** Where the block a request is placed in ends up. *)
Lemma round_up_in_region a align s :
  0 < a -> a + s <= hi -> GRAIN <= s -> align_ok align -> round_up a align <= 2 ^ 63.
Proof.
  intros Ha Hs Hg (_ & Hd & Hp). apply round_up_least; [done|unfold GRAIN in *; lia|].
  apply Z.mod_divide; [lia|done].
Qed.

(** What [alloc] does: the first block that fits is carved, or the heap is
    left as it was and the result is null. *)
Definition alloc_post (m : mem) (h : Heap) (bl : blocks) (size align : Z)
    (m' : mem) (h' : Heap) (p : Z) : Prop :=
  match first_fit size align bl with
  | Some (pre, b, suf) =>
      p = round_up (fst b) align /\
      Inv base hi m' h' (pre ++ carved size align b ++ suf) /\
      mem_agree (fun x => ~ covered bl x) m m'
  | None => p = 0 /\ m' = m /\ h' = h
  end.

Lemma alloc_loop_spec fuel m h pre suf size align cur :
  Inv base hi m h (pre ++ suf) -> block_seg m cur suf 0 -> (length suf <= fuel)%nat ->
  size_ok size -> align_ok align ->
  exists m' h' p,
    alloc_loop fuel m h size align (last_start 0 pre) cur = Ok (m', h', p) /\
    match first_fit size align suf with
    | Some (pre', b, rest) =>
        p = round_up (fst b) align /\
        Inv base hi m' h' ((pre ++ pre') ++ carved size align b ++ rest) /\
        mem_agree (fun x => ~ covered (pre ++ suf) x) m m'
    | None => p = 0 /\ m' = m /\ h' = h
    end.
Proof.
  revert fuel pre cur. induction suf as [|[a s] suf IH]; intros fuel pre cur HI Hseg Hf Hsz Hal.
  - simpl in Hseg. subst cur. destruct fuel; simpl; eauto 10.
  - destruct Hseg as (-> & Hs & Hseg). pose proof (proj2 HI) as Hwf.
    apply wf_blocks_app in Hwf as [Hwp (Ha & Ha16 & Hs16 & Hg & Hhi & Hwr)].
    pose proof (after_ge _ _ _ Hwp). pose proof Hsz as (_ & Hsz1 & Hsz2).
    pose proof (round_up_in_region a align s ltac:(lia) Hhi Hg Hal) as Hru.
    destruct (round_up_spec a align) as [[Hr1 _] _]; [by apply Hal|]. cbn [length] in Hf.
    destruct fuel as [|fuel]; [lia|]. cbn [alloc_loop first_fit].
    destruct (Z.eqb_spec a 0); [lia|]. unfold next_multiple_of.
    destruct (Z.ltb_spec (round_up a align) (2 ^ 64)); [|lia].
    rewrite bind_Ok, sub_u_ok, bind_Ok, add_u_ok, bind_Ok by lia. rewrite Hs.
    unfold fits_block at 1. cbn [fst snd].
    destruct (round_up a align - a + size <=? s) eqn:Hfit.
    + destruct (carve_spec m h pre a s suf size align HI Hsz Hal Hfit)
        as (m' & h' & -> & HI' & Hag). exists m', h', (round_up a align).
      rewrite app_nil_r. done.
    + destruct (IH fuel (pre ++ [(a, s)]) (read_next m a)) as (m' & h' & p & Heq & Hpost);
        try done; [by rewrite <- app_assoc|lia|].
      rewrite last_start_snoc in Heq. rewrite Heq. exists m', h', p. split; [done|].
      destruct (first_fit size align suf) as [[[pre' b] rest]|]; [|done].
      revert Hpost. rewrite <- !app_assoc. done.
Qed.

Lemma heap_alloc_spec fuel m h bl l :
  Inv base hi m h bl -> Layout_ok l -> (length bl <= fuel)%nat ->
  exists m' h' p, heap_alloc fuel m h l = Ok (m', h', p) /\
    alloc_post m h bl (n_size l) (n_align l) m' h' p.
Proof.
  intros HI Hl Hf. unfold heap_alloc. rewrite normalise_ok, bind_Ok by done.
  destruct (n_size_ok l Hl) as [Hsz _]. destruct (n_align_ok l Hl) as [Hal _].
  destruct (alloc_loop_spec fuel m h [] bl (n_size l) (n_align l) (head h))
    as (m' & h' & p & Heq & Hpost); try done; [by apply HI|]. eauto.
Qed.

(** The effect on the free set. *)
Lemma alloc_post_covered m h bl size align m' h' p :
  Inv base hi m h bl -> size_ok size -> align_ok align ->
  alloc_post m h bl size align m' h' p -> p <> 0 ->
  exists bl', Inv base hi m' h' bl' /\ p mod align = 0 /\ p mod GRAIN = 0 /\ base <= p /\
    p + size <= hi /\ (forall x, range p size x -> covered bl x) /\
    (forall x, covered bl' x <-> covered bl x /\ ~ range p size x) /\
    total_size bl' = total_size bl - size /\
    mem_agree (fun x => ~ covered bl x) m m'.
Proof.
  intros [_ Hwf] Hsz Hal Hpost Hp0. unfold alloc_post in Hpost.
  destruct (first_fit size align bl) as [[[pre [a s]] suf]|] eqn:E; [|by destruct Hpost].
  destruct Hpost as (-> & HI' & Hag). apply first_fit_Some in E as (-> & Hfit & _).
  simpl in *. exists (pre ++ carved size align (a, s) ++ suf). split; [done|].
  apply wf_blocks_app in Hwf as [Hwp (Ha & Ha16 & Hs16 & Hg & Hhi & Hwr)].
  pose proof (after_ge _ _ _ Hwp).
  destruct (carve_grid size align a s Ha16 Hs16 Hsz Hal) as (Hf0 & _ & Hp16 & _ & Hpa).
  pose proof Hfit as Hfit'. unfold fits_block in Hfit'. simpl in Hfit'. apply Z.leb_le in Hfit'.
  assert (forall x, range (round_up a align) size x -> range a s x) as Hsub
    by (intros x; unfold range; lia).
  repeat split; try done; try lia.
  - intros x Hx. apply covered_app. right. apply covered_cons. left. auto.
  - rename H0 into Hc. revert Hc. rewrite !covered_app, covered_cons, covered_carved by done. tauto.
  - rename H0 into Hc. intros Hr. revert Hc. rewrite !covered_app, covered_carved by done.
    apply Hsub in Hr as Hr'. unfold range in Hr, Hr'. intros [Hc|[[_ Hc]|Hc]].
    + apply (covered_bounds _ _ _ _ Hwp) in Hc. lia.
    + done.
    + apply (covered_bounds _ _ _ _ Hwr) in Hc. lia.
  - intros [Hc Hn]. revert Hc. rewrite !covered_app, covered_cons, covered_carved by done. tauto.
  - rewrite !total_size_app, total_size_carved by done. simpl. lia.
Qed.

(** ** Freeing *)

(** An allocation of [size] bytes at [p], as [dealloc]'s contract has it. *)
Definition allocated (bl : blocks) (p size : Z) : Prop :=
  base <= p /\ p mod GRAIN = 0 /\ p + size <= hi /\ size_ok size /\
  forall x, range p size x -> ~ covered bl x.

(** The search splits the list around the freed address. *)
Lemma find_loop_spec fuel m start suf prev cur lo :
  block_seg m cur suf 0 -> wf_blocks lo suf hi -> 0 < lo -> (length suf <= fuel)%nat ->
  exists s1 s2 cur', suf = s1 ++ s2 /\
    find_loop fuel m start prev cur = Ok (last_start prev s1, cur') /\
    block_seg m cur s1 cur' /\ block_seg m cur' s2 0 /\
    Forall (fun b => fst b < start) s1 /\ Forall (fun b => start <= fst b) s2.
Proof.
  revert fuel prev cur lo. induction suf as [|[a s] suf IH]; intros fuel prev cur lo Hseg Hwf Hlo Hf.
  - simpl in Hseg. subst cur. exists [], [], 0. destruct fuel; by repeat constructor.
  - destruct Hseg as (-> & Hs & Hseg). destruct Hwf as (Ha & _ & _ & Hg & _ & Hwf).
    cbn [length] in Hf. destruct fuel as [|fuel]; [lia|]. cbn [find_loop].
    destruct (Z.eqb_spec a 0); [lia|]. cbn [negb andb].
    destruct (Z.ltb_spec a start).
    + destruct (IH fuel a (read_next m a) (a + s + 1)) as (s1 & s2 & cur' & -> & -> & H1 & H2 & H3 & H4);
        try done; try (unfold GRAIN in *; lia).
      exists ((a, s) :: s1), s2, cur'. repeat split; try done; [|by constructor].
      do 2 f_equal. unfold last_start. destruct s1 as [|b s1]; [done|].
      rewrite last_cons_cons. destruct (last (b :: s1)) eqn:E; [done|]. by apply last_None in E.
    + exists [], ((a, s) :: suf), a. repeat split; try done. constructor; [done|].
      apply Forall_forall. intros [b t] Hin. simpl.
      destruct (wf_blocks_elem _ _ _ _ _ Hwf Hin). unfold GRAIN in *. lia.
Qed.

(** The parts of the list on either side of an allocated range. *)
Lemma allocated_split s1 s2 p size :
  wf_blocks base (s1 ++ s2) hi -> allocated (s1 ++ s2) p size ->
  Forall (fun b => fst b < p) s1 -> Forall (fun b => p <= fst b) s2 ->
  after base s1 <= p + 1 /\
  match s2 with [] => True | (a, _) :: _ => p + size <= a end.
Proof.
  intros Hwf (Hb & _ & _ & (_ & Hg & _) & Hd) H1 H2. apply wf_blocks_app in Hwf as [Hw1 Hw2].
  unfold GRAIN in Hg. split.
  - destruct s1 as [|[a s] s1 _] using rev_ind; [simpl; lia|]. rewrite after_app. simpl.
    apply Forall_app in H1 as [_ Ha]. apply Forall_cons in Ha as [Ha _]. simpl in Ha.
    destruct (Z.le_gt_cases (a + s) p) as [|Hgt]; [lia|]. exfalso.
    apply (Hd p); [unfold range; lia|]. apply covered_app. left.
    exists a, s. rewrite elem_of_app. split; [right; apply list_elem_of_here|unfold range; lia].
  - destruct s2 as [|[a s] s2]; [done|]. apply Forall_cons in H2 as [Ha _]. simpl in Ha.
    destruct Hw2 as (_ & _ & _ & Hs & _). unfold GRAIN in Hs.
    destruct (Z.le_gt_cases (p + size) a) as [|Hgt]; [done|]. exfalso.
    apply (Hd a); [unfold range; lia|]. apply covered_app. right. apply covered_cons. left.
    unfold range. lia.
Qed.

(** The forward merge: the block to insert, and what follows it. *)
Lemma merge_forward_spec m p size cur s2 lo :
  block_seg m cur s2 0 -> wf_blocks lo s2 hi -> 0 < lo -> 0 < p -> size_ok size ->
  p mod GRAIN = 0 -> p + size <= hi ->
  match s2 with [] => True | (a, _) :: _ => p + size <= a end ->
  exists size' next s2', merge_forward m p size cur = Ok (size', next) /\
    block_seg m next s2' 0 /\ wf_blocks (p + size' + 1) s2' hi /\
    size' mod GRAIN = 0 /\ size <= size' /\ p + size' <= hi /\
    size' + total_size s2' = size + total_size s2 /\
    (forall x, range p size' x \/ covered s2' x <-> range p size x \/ covered s2 x) /\
    (forall x, headers s2' x -> headers s2 x).
Proof.
  intros Hseg Hwf Hlo Hp Hsz Hp16 Hhi Hle. destruct Hsz as (Hs16 & Hsz1 & Hsz2).
  unfold merge_forward. destruct s2 as [|[a s] s2].
  - simpl in Hseg. subst cur. exists size, 0, []. by repeat split; auto; lia.
  - destruct Hseg as (-> & Hs & Hseg). destruct Hwf as (Ha & Ha16 & Hsa & Hg & Hahi & Hwf).
    unfold GRAIN in Hg, Hsz1. destruct (Z.eqb_spec a 0); [lia|]. rewrite (add_u_ok 64 p size), bind_Ok by lia.
    destruct (Z.eqb_spec (p + size) a) as [He|Hne]; [subst a|].
    + rewrite Hs, add_u_ok, bind_Ok by lia.
      exists (size + s), (read_next m (p + size)), s2.
      repeat split; try done; try lia; try (simpl; lia).
      * eapply wf_blocks_mono; [|exact Hwf]. lia.
      * by apply mod_add_multiple.
      * rewrite covered_cons. unfold range. intros [?|?]; [|by auto].
        destruct (Z.lt_ge_cases x (p + size)); [left|right; left]; lia.
      * rewrite covered_cons. unfold range. intros [?|[?|?]]; [left; lia|left; lia|by auto].
      * intros x Hx. apply headers_cons. auto.
    + exists size, a, ((a, s) :: s2). repeat split; try done; try lia.
Qed.

(** Linking a new block between [s1] and [s2]. *)
Lemma insert_block m h s1 r p size next s2 :
  block_seg m (head h) s1 r -> wf_blocks base s1 hi -> after base s1 <= p ->
  block_seg m next s2 0 -> wf_blocks (p + size + 1) s2 hi ->
  p mod GRAIN = 0 -> size mod GRAIN = 0 -> GRAIN <= size -> p + size <= hi ->
  let '(m', h') := link_after (write_FreeBlock m p size next) h (last_start 0 s1) p in
  Inv base hi m' h' (s1 ++ (p, size) :: s2) /\
  mem_agree (fun x => ~ covered s1 x /\ ~ range p size x) m m'.
Proof.
  intros H1 Hw1 Hle H2 Hw2 Hp16 Hs16 Hg Hhi. pose proof (after_ge _ _ _ Hw1).
  assert (0 < GRAIN) by done. set (m1 := write_FreeBlock m p size next).
  assert (in_u 64 next) as Hn.
  { eapply block_seg_in_u; [exact H2|exact Hw2|lia|done]. }
  assert (in_u 64 p) as Hp by (unfold in_u; lia).
  assert (block_seg m1 p ((p, size) :: s2) 0) as Hs2.
  { eapply carve_tail; [exact H2|exact Hw2|lia|lia|unfold in_u; lia|done|done]. }
  assert (block_seg m1 (head h) s1 r) as Hs1.
  { eapply block_seg_agree; [|exact H1]. eapply mem_agree_mono; [|apply write_FreeBlock_agree].
    intros x Hx. eapply headers_before; [exact Hw1|done|exact Hx]. }
  pose proof (link_after_spec m1 h s1 r p base hi Hs1 Hw1 base_pos Hp) as Hl.
  destruct (link_after m1 h (last_start 0 s1) p) as [m' h']. destruct Hl as [Hl Hag].
  split; [split|].
  - apply block_seg_app. exists p. split; [done|]. eapply block_seg_agree; [|exact Hs2].
    eapply mem_agree_mono; [|exact Hag]. intros x Hx Hx'.
    apply (headers_covered _ _ _ _ Hw1) in Hx'. apply (covered_bounds _ _ _ _ Hw1) in Hx'.
    apply headers_cons in Hx as [Hx|Hx]; [unfold range in Hx; lia|].
    apply (headers_covered _ _ _ _ Hw2) in Hx. apply (covered_bounds _ _ _ _ Hw2) in Hx. lia.
  - apply wf_blocks_app. by repeat split.
  - etrans; [eapply mem_agree_mono; [|apply write_FreeBlock_agree]|
             eapply mem_agree_mono; [|exact Hag]].
    + intros x [_ Hx]. unfold range in *. lia.
    + intros x [Hx _] Hx'. apply Hx. by eapply headers_covered.
Qed.

Lemma merge_backward_spec m h s1 r p size next s2 :
  block_seg m (head h) s1 r -> wf_blocks base s1 hi -> after base s1 <= p + 1 -> base <= p ->
  block_seg m next s2 0 -> wf_blocks (p + size + 1) s2 hi ->
  p mod GRAIN = 0 -> size mod GRAIN = 0 -> GRAIN <= size -> p + size <= hi ->
  exists m' h' bl', merge_backward m h p size next (last_start 0 s1) = Ok (m', h') /\
    Inv base hi m' h' bl' /\
    (forall x, covered bl' x <-> covered s1 x \/ range p size x \/ covered s2 x) /\
    total_size bl' = total_size s1 + size + total_size s2 /\
    mem_agree (fun x => ~ covered s1 x /\ ~ range p size x) m m'.
Proof.
  intros H1 Hw1 Hle Hbp H2 Hw2 Hp16 Hs16 Hg Hhi. assert (0 < GRAIN) by done.
  pose proof (insert_block m h s1 r p size next s2 H1 Hw1) as Hins.
  assert (forall x, covered (s1 ++ (p, size) :: s2) x <->
    covered s1 x \/ range p size x \/ covered s2 x) as Hcov
    by (intros x; by rewrite covered_app, covered_cons).
  assert (total_size (s1 ++ (p, size) :: s2) = total_size s1 + size + total_size s2) as Htot
    by (rewrite total_size_app; simpl; lia).
  unfold merge_backward. destruct s1 as [|[a s] s1 _] using rev_ind.
  - change (last_start 0 []) with 0 in *. change (after base []) with base in Hins.
    specialize (Hins Hbp H2 Hw2 Hp16 Hs16 Hg Hhi). change (0 =? 0) with true. cbv iota.
    destruct (link_after _ h 0 p) as [m' h']. destruct Hins as [HI Hag].
    exists m', h', ([] ++ (p, size) :: s2). done.
  - rewrite last_start_snoc in Hins |- *. pose proof Hw1 as Hw1'.
    apply wf_blocks_app in Hw1' as [Hwp (Ha & Ha16 & Hsa & Hga & Hahi & _)].
    rewrite after_app in Hle, Hins. simpl in Hle, Hins. pose proof (after_ge _ _ _ Hwp).
    pose proof H1 as H1'. apply block_seg_app in H1' as (r0 & _ & -> & Hs & _).
    destruct (Z.eqb_spec a 0); [lia|]. rewrite Hs, (add_u_ok 64 a s), bind_Ok by lia.
    destruct (Z.eqb_spec (a + s) p) as [He|Hne].
    + rewrite (add_u_ok 64 s size), bind_Ok by lia. subst p.
      assert (in_u 64 next) as Hn.
      { eapply block_seg_in_u; [exact H2|exact Hw2|lia|done]. }
      pose proof (write_FreeBlock_agree m a (s + size) next) as Hag. unfold write_FreeBlock in Hag.
      eexists _, h, (s1 ++ [(a, s + size)] ++ s2). split; [done|]. split; [split|split].
      * rewrite app_assoc. apply block_seg_app. exists next. split.
        -- eapply seg_update_last; [exact H1|exact Hwp|done|exact Hag| |].
           ++ rewrite read_size_set_next, read_size_set_size; [done|unfold in_u; lia].
           ++ by rewrite read_next_set_next.
        -- eapply block_seg_agree; [|exact H2]. eapply mem_agree_mono; [|exact Hag].
           intros x Hx. eapply headers_above; [exact Hw2|lia|exact Hx].
      * apply wf_blocks_app. split; [done|]. simpl. repeat split; try done; try lia.
        -- by apply mod_add_multiple.
        -- eapply wf_blocks_mono; [|exact Hw2]. lia.
      * intros x. rewrite !covered_app, !covered_cons, covered_nil.
        assert (range a (s + size) x <-> range a s x \/ range (a + s) size x) as ->
          by (unfold range, GRAIN in *; lia). tauto.
      * split; [rewrite !total_size_app; simpl; lia|].
        eapply mem_agree_mono; [|exact Hag]. intros x [Hx _] Hx'. apply Hx, covered_app. right.
        apply covered_cons. left. unfold range in *. lia.
    + specialize (Hins ltac:(lia) H2 Hw2 Hp16 Hs16 Hg Hhi).
      destruct (link_after _ h a p) as [m' h']. destruct Hins as [HI Hag].
      exists m', h', ((s1 ++ [(a, s)]) ++ (p, size) :: s2). done.
Qed.

(** [dealloc]: the freed bytes join the free set, and the list is coalesced
    again. *)
Lemma heap_dealloc_spec fuel m h bl p l :
  Inv base hi m h bl -> Layout_ok l -> allocated bl p (n_size l) -> (length bl <= fuel)%nat ->
  exists m' h' bl', heap_dealloc fuel m h p l = Ok (m', h') /\ Inv base hi m' h' bl' /\
    (forall x, covered bl' x <-> covered bl x \/ range p (n_size l) x) /\
    total_size bl' = total_size bl + n_size l /\
    mem_agree (fun x => ~ covered bl x /\ ~ range p (n_size l) x) m m'.
Proof.
  intros [Hseg Hwf] Hl Hall Hf. unfold heap_dealloc. rewrite normalise_ok, bind_Ok by done.
  destruct (find_loop_spec fuel m p bl 0 (head h) base)
    as (s1 & s2 & cur & -> & -> & H1 & H2 & Hb1 & Hb2); try done.
  rewrite bind_Ok. destruct (allocated_split s1 s2 p (n_size l) Hwf Hall Hb1 Hb2) as [Hle Hge].
  destruct (id Hall) as (Hbp & Hp16 & Hhi & Hsz & _).
  pose proof Hwf as Hwf'. apply wf_blocks_app in Hwf' as [Hw1 Hw2]. pose proof (after_ge _ _ _ Hw1).
  destruct (merge_forward_spec m p (n_size l) cur s2 (after base s1))
    as (size' & next & s2' & -> & H2' & Hw2' & Hs16 & Hss & Hhi' & Htot & Hcov & _); try done; try lia.
  rewrite bind_Ok. destruct Hsz as (_ & Hg & _).
  destruct (merge_backward_spec m h s1 cur p size' next s2')
    as (m' & h' & bl' & -> & HI' & Hcov' & Htot' & Hag); try done; try lia.
  exists m', h', bl'. split; [done|]. split; [done|]. split.
  - intros x. rewrite Hcov', Hcov, covered_app. tauto.
  - split; [rewrite total_size_app; lia|].
    eapply mem_agree_mono; [|exact Hag]. intros x [Hx Hr]. split.
    + contradict Hx. apply covered_app. auto.
    + intros Hx'. destruct (proj1 (Hcov x) (or_introl Hx')) as [?|?]; [done|].
      apply Hx, covered_app. auto.
Qed.

(** ** The counters *)

Lemma wf_blocks_above lo bl : wf_blocks lo bl hi -> hi < lo -> bl = [].
Proof.
  destruct bl as [|[a s] bl]; [done|]. intros (? & _ & _ & Hg & ? & _). unfold GRAIN in Hg. lia.
Qed.

Lemma total_size_bound lo bl :
  wf_blocks lo bl hi -> lo <= hi -> 0 <= total_size bl <= hi - lo.
Proof.
  revert lo. induction bl as [|[a s] bl IH]; intros lo; simpl; [lia|].
  intros (Ha & _ & _ & Hg & Hhi & Hwf) _. unfold GRAIN in Hg.
  destruct (Z.le_gt_cases (a + s + 1) hi).
  - specialize (IH _ Hwf ltac:(lia)). lia.
  - apply wf_blocks_above in Hwf as ->; simpl; lia.
Qed.

Lemma free_bytes_loop_spec fuel m p bl lo t :
  block_seg m p bl 0 -> wf_blocks lo bl hi -> 0 < lo -> (length bl <= fuel)%nat ->
  0 <= t -> t + total_size bl < 2 ^ 64 ->
  free_bytes_loop fuel m p t = Ok (t + total_size bl).
Proof.
  revert fuel p lo t. induction bl as [|[a s] bl IH]; intros fuel p lo t Hseg Hwf Hlo Hf Ht Hs.
  - simpl in Hseg. subst p. destruct fuel; simpl; f_equal; lia.
  - destruct Hseg as (-> & Hsz & Hseg). destruct Hwf as (Ha & _ & _ & Hg & Hhi & Hwf).
    unfold GRAIN in Hg. simpl in *. assert (0 <= total_size bl).
    { destruct (Z.le_gt_cases (a + s + 1) hi) as [Hle|Hgt].
      - apply (total_size_bound _ _ Hwf Hle).
      - apply wf_blocks_above in Hwf as ->; simpl; lia. }
    destruct fuel as [|fuel]; [lia|]. cbn [free_bytes_loop].
    destruct (Z.eqb_spec a 0); [lia|]. rewrite Hsz, add_u_ok, bind_Ok by lia.
    rewrite (IH fuel _ (a + s + 1)); [f_equal; lia|done|done|lia|lia|lia|lia].
Qed.

Lemma heap_free_bytes_spec fuel m h bl :
  Inv base hi m h bl -> base <= hi -> (length bl <= fuel)%nat ->
  heap_free_bytes fuel m h = Ok (total_size bl).
Proof.
  intros [Hseg Hwf] Hbh Hf. pose proof (total_size_bound _ _ Hwf Hbh).
  unfold heap_free_bytes. by rewrite (free_bytes_loop_spec fuel m (head h) bl base) by (done || lia).
Qed.

Lemma free_blocks_loop_spec fuel m p bl lo n :
  block_seg m p bl 0 -> wf_blocks lo bl hi -> 0 < lo -> (length bl <= fuel)%nat ->
  n + Z.of_nat (length bl) < 2 ^ 64 ->
  free_blocks_loop fuel m p n = Ok (n + Z.of_nat (length bl)).
Proof.
  revert fuel p lo n. induction bl as [|[a s] bl IH]; intros fuel p lo n Hseg Hwf Hlo Hf Hn.
  - simpl in Hseg. subst p. destruct fuel; simpl; f_equal; lia.
  - destruct Hseg as (-> & Hsz & Hseg). destruct Hwf as (Ha & _ & _ & Hg & Hhi & Hwf).
    unfold GRAIN in Hg. cbn [length] in *.
    destruct fuel as [|fuel]; [lia|]. cbn [free_blocks_loop].
    destruct (Z.eqb_spec a 0); [lia|]. rewrite add_u_ok, bind_Ok by lia.
    rewrite (IH fuel _ (a + s + 1)); [f_equal; lia|done|done|lia|lia|lia].
Qed.

(** Blocks are at least [GRAIN] bytes apart, which bounds every walk. *)
Lemma length_blocks lo bl :
  wf_blocks lo bl hi -> lo <= hi -> GRAIN * Z.of_nat (length bl) <= hi - lo.
Proof.
  revert lo. induction bl as [|[a s] bl IH]; intros lo; simpl; [lia|].
  intros (Ha & _ & _ & Hg & Hhi & Hwf) _. unfold GRAIN in *.
  destruct (Z.le_gt_cases (a + s + 1) hi).
  - specialize (IH _ Hwf ltac:(lia)). lia.
  - apply wf_blocks_above in Hwf as ->; simpl; lia.
Qed.

Lemma heap_free_blocks_spec fuel m h bl :
  Inv base hi m h bl -> base <= hi -> (length bl <= fuel)%nat ->
  heap_free_blocks fuel m h = Ok (Z.of_nat (length bl)).
Proof.
  intros [Hseg Hwf] Hbh Hf. pose proof (length_blocks _ _ Hwf Hbh) as Hl. unfold GRAIN in Hl.
  unfold heap_free_blocks.
  by rewrite (free_blocks_loop_spec fuel m (head h) bl base) by (done || lia).
Qed.

(** [init]: the whole region is one free block. *)
Lemma heap_init_spec m size :
  base mod GRAIN = 0 -> size mod GRAIN = 0 -> GRAIN <= size -> base + size = hi ->
  let '(m', h') := heap_init m base size in
  Inv base hi m' h' [(base, size)] /\ mem_agree (fun x => ~ range base size x) m m'.
Proof.
  intros Hb Hs Hg Hhi. unfold heap_init. simpl. split; [split|].
  - apply block_seg_write; unfold in_u, GRAIN in *; lia.
  - simpl. repeat split; try done; lia.
  - eapply mem_agree_mono; [|apply write_FreeBlock_agree]. intros x. unfold range. lia.
Qed.
End Region.

(** ** Properties *)

(** A backing region: off the null page, in the low half of the address
    space, on the grid. *)
Record heap_region (base hi : Z) : Prop := {
  hr_pos : 0 < base;
  hr_bound : hi <= 2 ^ 63;
  hr_base : base mod GRAIN = 0;
  hr_hi : hi mod GRAIN = 0;
  hr_room : base + GRAIN <= hi;
}.

(** C6: on a well-formed free list [alloc] always returns, without a panic. A
    null result leaves the heap as it was and means that no free block can
    hold the request at its alignment. Any other result is aligned as the
    layout asks, spans at least the layout's size, was free, and is exactly
    what leaves the free set; the list stays ordered and coalesced, and only
    bytes that were free are written. *)
Theorem heap_alloc_sound base hi fuel m h bl l :
  heap_region base hi -> Inv base hi m h bl -> Layout_ok l -> (length bl <= fuel)%nat ->
  exists m' h' p bl', heap_alloc fuel m h l = Ok (m', h', p) /\ Inv base hi m' h' bl' /\
    mem_agree (fun x => ~ covered bl x) m m' /\
    ((p = 0 /\ m' = m /\ bl' = bl /\
      Forall (fun b => round_up (fst b) (n_align l) + n_size l > fst b + snd b) bl) \/
     (p <> 0 /\ p mod l_align l = 0 /\ l_size l <= n_size l /\
      (forall x, range p (n_size l) x -> covered bl x) /\
      (forall x, covered bl' x <-> covered bl x /\ ~ range p (n_size l) x) /\
      total_size bl' = total_size bl - n_size l)).
Proof.
  intros [] HI Hl Hf. destruct (n_size_ok l Hl) as [Hsz Hle].
  destruct (n_align_ok l Hl) as [Hal Hdiv].
  destruct (heap_alloc_spec base hi hr_pos0 hr_bound0 fuel m h bl l HI Hl Hf)
    as (m' & h' & p & Heq & Hpost).
  destruct (Z.eq_dec p 0) as [->|Hp].
  - exists m', h', 0, bl. unfold alloc_post in Hpost.
    destruct (first_fit (n_size l) (n_align l) bl) as [[[pre [a s]] suf]|] eqn:E.
    + exfalso. destruct Hpost as (Hz & _). apply first_fit_Some in E as (-> & _).
      destruct HI as [_ Hwf]. apply wf_blocks_app in Hwf as [Hw (Ha & _)].
      pose proof (after_ge _ _ _ Hw). pose proof (round_up_spec a (n_align l) (proj2 (proj2 Hal))).
      simpl in *. lia.
    + destruct Hpost as (_ & -> & ->). split; [done|]. split; [done|]. split; [reflexivity|].
      left. repeat split. eapply Forall_impl; [by apply first_fit_None|].
      intros [a s]. unfold fits_block. simpl. intros Hn. apply Z.leb_gt in Hn. lia.
  - destruct (alloc_post_covered base hi hr_pos0 _ _ _ _ _ _ _ _ HI Hsz Hal Hpost Hp)
      as (bl' & HI' & Hpa & _ & _ & _ & Hsub & Hcov & Htot & Hag).
    exists m', h', p, bl'. do 3 (split; [done|]). right. repeat (split; [done|]).
    split; [|done]. eapply mod_divide_trans; [| |exact Hdiv|done]; [|by apply Hal].
    destruct Hl as ((k & Hk & ->) & _). lia.
Qed.

(** C22: [alloc] refines first fit over the list of free blocks: the payload
    is the aligned address of the first block that can hold it, that block is
    replaced by the pieces in front of and behind the payload, and every
    other block is untouched. *)
Theorem heap_alloc_first_fit base hi fuel m h bl l :
  heap_region base hi -> Inv base hi m h bl -> Layout_ok l -> (length bl <= fuel)%nat ->
  exists m' h', match first_fit (n_size l) (n_align l) bl with
  | Some (pre, b, suf) =>
      heap_alloc fuel m h l = Ok (m', h', round_up (fst b) (n_align l)) /\
      Inv base hi m' h' (pre ++ carved (n_size l) (n_align l) b ++ suf)
  | None => heap_alloc fuel m h l = Ok (m, h, 0)
  end.
Proof.
  intros [] HI Hl Hf.
  destruct (heap_alloc_spec base hi hr_pos0 hr_bound0 fuel m h bl l HI Hl Hf)
    as (m' & h' & p & Heq & Hpost). exists m', h'. unfold alloc_post in Hpost.
  destruct (first_fit (n_size l) (n_align l) bl) as [[[pre b] suf]|].
  - by destruct Hpost as (-> & ? & _).
  - by destruct Hpost as (-> & -> & ->).
Qed.

(** C7: [dealloc] of an allocation always returns, without a panic; exactly
    its bytes join the free set, the free byte count grows by exactly its
    size, the list comes back address-ordered with no two blocks touching,
    and only free bytes and the freed bytes are written. *)
Theorem heap_dealloc_coalesces base hi fuel m h bl p l :
  heap_region base hi -> Inv base hi m h bl -> Layout_ok l ->
  allocated base hi bl p (n_size l) -> (length bl <= fuel)%nat ->
  exists m' h' bl', heap_dealloc fuel m h p l = Ok (m', h') /\ Inv base hi m' h' bl' /\
    (forall x, covered bl' x <-> covered bl x \/ range p (n_size l) x) /\
    total_size bl' = total_size bl + n_size l /\
    mem_agree (fun x => ~ covered bl x /\ ~ range p (n_size l) x) m m'.
Proof. intros []. by apply heap_dealloc_spec. Qed.

(** Freeing what was just allocated, whatever the client wrote to it in
    between, restores the free list block for block. *)
Theorem heap_dealloc_undoes_alloc base hi fuel m h bl l m1 h1 p m2 :
  heap_region base hi -> Inv base hi m h bl -> Layout_ok l -> (length bl < fuel)%nat ->
  heap_alloc fuel m h l = Ok (m1, h1, p) -> p <> 0 ->
  mem_agree (fun x => ~ range p (n_size l) x) m1 m2 ->
  exists m3 h3, heap_dealloc fuel m2 h1 p l = Ok (m3, h3) /\ Inv base hi m3 h3 bl.
Proof.
  intros [] HI Hl Hf Ha Hp Hag. destruct (n_size_ok l Hl) as [Hsz Hle].
  destruct (n_align_ok l Hl) as [Hal Hdiv].
  destruct (heap_alloc_spec base hi hr_pos0 hr_bound0 fuel m h bl l HI Hl ltac:(lia))
    as (m' & h' & p' & Heq & Hpost). rewrite Heq in Ha. simplify_eq.
  pose proof Hpost as Hff. unfold alloc_post in Hff.
  destruct (first_fit (n_size l) (n_align l) bl) as [[[pre b] suf]|] eqn:E; [|by destruct Hff].
  apply first_fit_Some in E as (Hbl & _).
  destruct Hff as (_ & HIc & _).
  destruct (alloc_post_covered base hi hr_pos0 _ _ _ _ _ _ _ _ HI Hsz Hal Hpost Hp)
    as (bl' & HI1 & Hpa & Hpg & Hpb & Hph & Hsub & Hcov & _ & _).
  assert (bl' = pre ++ carved (n_size l) (n_align l) b ++ suf) as ->.
  { destruct HI1 as [Hs1 Hw1]. destruct HIc as [Hs2 Hw2]. by eapply (block_seg_det m1 (head h1)). }
  assert (Inv base hi m2 h1 (pre ++ carved (n_size l) (n_align l) b ++ suf)) as HI2.
  { eapply Inv_agree; [|exact HI1]. eapply mem_agree_mono; [|exact Hag].
    intros x Hx. by apply Hcov in Hx as [_ ?]. }
  destruct (heap_dealloc_spec base hi hr_pos0 hr_bound0 fuel m2 h1 _ p l HI2 Hl)
    as (m3 & h3 & bl3 & -> & HI3 & Hcov3 & _).
  - repeat split; try done; try apply Hsz. intros x Hx Hc. by apply Hcov in Hc as [_ ?].
  - subst bl. rewrite !length_app in *. simpl in *.
    assert (length (carved (n_size l) (n_align l) b) <= 2)%nat; [|lia].
    unfold carved. do 2 case_cmp; simpl; lia.
  - exists m3, h3. split; [done|]. replace bl with bl3; [done|].
    eapply blocks_canonical; [apply HI3|apply HI|]. intros x. rewrite Hcov3, Hcov.
    split; [intros [[? _]|?]; auto|]. intros Hx.
    destruct (decide (p <= x < p + n_size l)); [by right|by left].
Qed.

(** ** Instances: a one-page heap at 0x1000, as [init] leaves it *)

Definition demo_mem : mem := fst (heap_init ∅ 4096 4096).
Definition demo_heap : Heap := snd (heap_init ∅ 4096 4096).
(** A hundred bytes on a 64-byte boundary. *)
Definition demo_layout : Layout := {| l_size := 100; l_align := 64 |}.
(** The same heap with its first 112 bytes handed out. *)
Definition demo_taken : mem := write_FreeBlock ∅ 4208 3984 0.

Lemma demo_region : heap_region 4096 8192.
Proof. by split; vm_compute. Defined.

Lemma demo_layout_ok : Layout_ok demo_layout.
Proof. split; [by exists 6|by vm_compute]. Defined.

Lemma demo_Inv : Inv 4096 8192 demo_mem demo_heap [(4096, 4096)].
Proof. by repeat split; vm_compute. Defined.

Lemma demo_taken_Inv : Inv 4096 8192 demo_taken {| head := 4208 |} [(4208, 3984)].
Proof. by repeat split; vm_compute. Defined.

Lemma demo_allocated : allocated 4096 8192 [(4208, 3984)] 4096 (n_size demo_layout).
Proof.
  split; [by vm_compute|]. split; [done|]. split; [by vm_compute|].
  split; [by repeat split; vm_compute|].
  intros x Hx Hc. apply covered_cons in Hc as [Hc|Hc]; [|by apply covered_nil in Hc].
  change (n_size demo_layout) with 112 in Hx. unfold range in *. lia.
Defined.

Lemma heap_alloc_sound_witness : exists m' h' p bl',
  heap_alloc 4 demo_mem demo_heap demo_layout = Ok (m', h', p) /\ Inv 4096 8192 m' h' bl'.
Proof.
  destruct (heap_alloc_sound 4096 8192 4 demo_mem demo_heap _ demo_layout
    demo_region demo_Inv demo_layout_ok) as (m' & h' & p & bl' & H1 & H2 & _).
  - simpl. lia.
  - exists m', h', p, bl'. by split.
Defined.

Lemma heap_alloc_first_fit_witness : exists m' h',
  heap_alloc 4 demo_mem demo_heap demo_layout = Ok (m', h', 4096) /\
  Inv 4096 8192 m' h' [(4208, 3984)].
Proof.
  destruct (heap_alloc_first_fit 4096 8192 4 demo_mem demo_heap _ demo_layout
    demo_region demo_Inv demo_layout_ok) as (m' & h' & H).
  - simpl. lia.
  - by exists m', h'.
Defined.

Lemma heap_dealloc_coalesces_witness : exists m' h' bl',
  heap_dealloc 4 demo_taken {| head := 4208 |} 4096 demo_layout = Ok (m', h') /\
  Inv 4096 8192 m' h' bl' /\ total_size bl' = 4096.
Proof.
  destruct (heap_dealloc_coalesces 4096 8192 4 demo_taken {| head := 4208 |} _ 4096 demo_layout
    demo_region demo_taken_Inv demo_layout_ok demo_allocated)
    as (m' & h' & bl' & H1 & H2 & _ & H3 & _).
  - simpl. lia.
  - by exists m', h', bl'.
Defined.

(** The memory after the demo allocation. *)
Definition demo_alloc_mem : mem :=
  match heap_alloc 4 demo_mem demo_heap demo_layout with Ok (m, _, _) => m | _ => ∅ end.

Lemma demo_alloc_run :
  heap_alloc 4 demo_mem demo_heap demo_layout = Ok (demo_alloc_mem, {| head := 4208 |}, 4096).
Proof. vm_compute. reflexivity. Qed.

Lemma heap_dealloc_undoes_alloc_witness : exists m3 h3,
  heap_dealloc 4 demo_alloc_mem {| head := 4208 |} 4096 demo_layout = Ok (m3, h3) /\
  Inv 4096 8192 m3 h3 [(4096, 4096)].
Proof.
  apply (heap_dealloc_undoes_alloc 4096 8192 4 demo_mem demo_heap [(4096, 4096)] demo_layout
    demo_alloc_mem _ _ _ demo_region demo_Inv demo_layout_ok); [simpl; lia|exact demo_alloc_run|done|reflexivity].
Defined.
