(* ===== verification/HeapTrace.v ===== *)
(** The heap in use: sequences of allocations, frees and client writes, from
    the single block [init] creates, and what every reachable state
    satisfies. *)
From stdpp Require Import relations.
From S2P Require Import Prelude Memory Heap.

(** ** States and steps *)

(** The heap, the memory it lives in, and the allocations handed out and not
    returned, by address. *)
Record heap_state := HeapState {
  hs_mem : mem;
  hs_heap : Heap;
  hs_live : gmap Z Layout;
}.

(** The bytes that belong to clients. *)
Definition live_bytes (live : gmap Z Layout) (x : Z) : Prop :=
  exists p l, live !! p = Some l /\ range p (n_size l) x.

Definition live_size (live : gmap Z Layout) : Z := map_fold (fun _ l n => n_size l + n) 0 live.

Section Trace.
(** The region, and a bound on the list walks. *)
Context (base hi : Z) (fuel : nat).

(** What may happen: an allocation that succeeds, one that does not, the
    return of a live allocation with its own layout, and a client's write to
    memory it was given. *)
Inductive heap_step : heap_state -> heap_state -> Prop :=
| step_alloc m h live l m' h' p :
    Layout_ok l -> heap_alloc fuel m h l = Ok (m', h', p) -> p <> 0 ->
    heap_step (HeapState m h live) (HeapState m' h' (<[p := l]> live))
| step_full m h live l m' h' :
    Layout_ok l -> heap_alloc fuel m h l = Ok (m', h', 0) ->
    heap_step (HeapState m h live) (HeapState m' h' live)
| step_dealloc m h live p l m' h' :
    live !! p = Some l -> heap_dealloc fuel m h p l = Ok (m', h') ->
    heap_step (HeapState m h live) (HeapState m' h' (delete p live))
| step_write m h live m' :
    mem_agree (fun x => ~ live_bytes live x) m m' ->
    heap_step (HeapState m h live) (HeapState m' h live).

(** The region is split between the free list and the live allocations. *)
Record HInv (s : heap_state) (bl : blocks) : Prop := {
  hinv_list : Inv base hi (hs_mem s) (hs_heap s) bl;
  hinv_live p l : hs_live s !! p = Some l ->
    Layout_ok l /\ allocated base hi bl p (n_size l) /\ p mod l_align l = 0;
  hinv_apart p q l l' x : hs_live s !! p = Some l -> hs_live s !! q = Some l' ->
    range p (n_size l) x -> range q (n_size l') x -> p = q;
  hinv_cover x : base <= x < hi -> covered bl x \/ live_bytes (hs_live s) x;
  hinv_total : total_size bl + live_size (hs_live s) = hi - base;
}.

(** [KernelHeap] as [init] leaves it. *)
Definition initial_state (m : mem) : heap_state :=
  let '(m, h) := heap_init m base (hi - base) in HeapState m h ∅.

Context (base_pos : 0 < base) (hi_bound : hi <= 2 ^ 63).
Context (base_grid : base mod GRAIN = 0) (hi_grid : hi mod GRAIN = 0) (base_hi : base + GRAIN <= hi).
Context (fuel_ok : hi - base <= GRAIN * Z.of_nat fuel).

Lemma live_size_insert live p l :
  live !! p = None -> live_size (<[p := l]> live) = n_size l + live_size live.
Proof. intros Hp. unfold live_size. rewrite map_fold_insert_L; [done| |done]. intros. lia. Qed.

Lemma live_size_delete live p l :
  live !! p = Some l -> live_size (delete p live) = live_size live - n_size l.
Proof.
  intros Hp. rewrite <- (insert_id live p l) at 2 by done. rewrite <- insert_delete_eq.
  rewrite live_size_insert by apply lookup_delete_eq. lia.
Qed.

Lemma walk_fuel s bl : HInv s bl -> (length bl <= fuel)%nat.
Proof.
  intros HI. assert (0 < GRAIN) by done.
  pose proof (length_blocks hi base bl (proj2 (hinv_list _ _ HI)) ltac:(lia)). unfold GRAIN in *. lia.
Qed.

Lemma HInv_initial m : HInv (initial_state m) [(base, hi - base)].
Proof.
  assert (0 < GRAIN) by done. assert (base mod GRAIN = 0) by done.
  assert ((hi - base) mod GRAIN = 0) as Hm by (by apply mod_sub_multiple).
  pose proof (heap_init_spec base hi base_pos hi_bound m (hi - base) base_grid Hm
    ltac:(lia) ltac:(lia)) as Hi.
  unfold initial_state. destruct (heap_init m base (hi - base)) as [m' h'].
  destruct Hi as [Hi _]. split; simpl.
  - done.
  - intros p l Hp. by rewrite lookup_empty in Hp.
  - intros p q l l' x Hp. by rewrite lookup_empty in Hp.
  - intros x Hx. left. apply covered_cons. left. unfold range. lia.
  - unfold live_size. rewrite map_fold_empty. lia.
Qed.

(** An allocation moves its bytes from the free list to the client. *)
Lemma HInv_alloc m h live l m' h' p bl :
  HInv (HeapState m h live) bl -> Layout_ok l ->
  heap_alloc fuel m h l = Ok (m', h', p) -> p <> 0 ->
  exists bl', HInv (HeapState m' h' (<[p := l]> live)) bl' /\ live !! p = None.
Proof.
  intros HI Hl Ha Hp. pose proof (walk_fuel _ _ HI) as Hf.
  destruct HI as [HL Hlive Hap Hcov Htot]; simpl in *.
  destruct (n_size_ok l Hl) as [Hsz _]. destruct (n_align_ok l Hl) as [Hal Hdiv].
  destruct (heap_alloc_spec base hi base_pos hi_bound fuel m h bl l HL Hl Hf)
    as (m1 & h1 & p1 & Heq & Hpost). rewrite Heq in Ha. simplify_eq.
  destruct (alloc_post_covered base hi base_pos _ _ _ _ _ _ _ _ HL Hsz Hal Hpost Hp)
    as (bl' & HL' & Hpa & Hpg & Hpb & Hph & Hsub & Hcov' & Htot' & Hag).
  assert (0 < n_size l) as Hpos by (destruct Hsz as (_ & ? & _); unfold GRAIN in *; lia).
  assert (forall q l' x, live !! q = Some l' -> range q (n_size l') x ->
    ~ range p (n_size l) x) as Hnew.
  { intros q l' x Hq Hx Hx'. destruct (Hlive q l' Hq) as (_ & (_ & _ & _ & _ & Hd) & _).
    apply (Hd x Hx), Hsub, Hx'. }
  assert (live !! p = None) as Hnone.
  { destruct (live !! p) as [l'|] eqn:E; [|done]. exfalso.
    destruct (Hlive p l' E) as (_ & (_ & _ & _ & (_ & Hg & _) & _) & _). unfold GRAIN in Hg.
    apply (Hnew p l' p E); unfold range; lia. }
  exists bl'. split; [|done]. split; simpl.
  - done.
  - intros q l' Hq. apply lookup_insert_Some in Hq as [[<- <-]|[Hne Hq]].
    + split; [done|]. split; [|].
      * repeat split; try done; try apply Hsz. intros x Hx Hc. by apply Hcov' in Hc as [_ ?].
      * eapply mod_divide_trans; [| |exact Hdiv|exact Hpa]; [|by apply Hal].
        destruct Hl as ((k & Hk & ->) & _). lia.
    + destruct (Hlive q l' Hq) as (Hl' & (H1 & H2 & H3 & H4 & H5) & H6).
      split; [done|]. split; [|done]. repeat split; try done; try apply H4.
      intros x Hx Hc. apply Hcov' in Hc as [Hc _]. by apply (H5 x Hx).
  - intros q r l1 l2 x Hq Hr Hxq Hxr.
    apply lookup_insert_Some in Hq as [[<- <-]|[Hne Hq]];
      apply lookup_insert_Some in Hr as [[<- <-]|[Hne' Hr]]; [done| | |by eapply Hap].
    + by destruct (Hnew r l2 x Hr Hxr).
    + by destruct (Hnew q l1 x Hq Hxq).
  - intros x Hx. destruct (decide (p <= x < p + n_size l)).
    + right. exists p, l. by rewrite lookup_insert_eq.
    + destruct (Hcov x Hx) as [Hc|(q & l' & Hq & Hxq)].
      * left. by apply Hcov'.
      * right. exists q, l'. rewrite lookup_insert_ne; [done|]. intros ->. by rewrite Hq in Hnone.
  - rewrite live_size_insert by done. lia.
Qed.

(** A free gives them back. *)
Lemma HInv_dealloc m h live p l m' h' bl :
  HInv (HeapState m h live) bl -> live !! p = Some l ->
  heap_dealloc fuel m h p l = Ok (m', h') ->
  exists bl', HInv (HeapState m' h' (delete p live)) bl'.
Proof.
  intros HI Hp Hd. pose proof (walk_fuel _ _ HI) as Hf.
  destruct HI as [HL Hlive Hap Hcov Htot]; simpl in *.
  destruct (Hlive p l Hp) as (Hl & Hal & _).
  destruct (heap_dealloc_spec base hi base_pos hi_bound fuel m h bl p l HL Hl Hal Hf)
    as (m1 & h1 & bl' & Heq & HL' & Hcov' & Htot' & Hag). rewrite Heq in Hd. simplify_eq.
  exists bl'. split; simpl.
  - done.
  - intros q l' Hq. apply lookup_delete_Some in Hq as [Hne Hq].
    destruct (Hlive q l' Hq) as (Hl' & (H1 & H2 & H3 & H4 & H5) & H6).
    split; [done|]. split; [|done]. repeat split; try done; try apply H4.
    intros x Hx Hc. apply Hcov' in Hc as [Hc|Hc]; [by apply (H5 x Hx)|].
    apply Hne. by eapply Hap.
  - intros q r l1 l2 x Hq Hr. apply lookup_delete_Some in Hq as [_ Hq].
    apply lookup_delete_Some in Hr as [_ Hr]. by eapply Hap.
  - intros x Hx. rewrite Hcov'. destruct (Hcov x Hx) as [Hc|(q & l' & Hq & Hxq)]; [by auto|].
    destruct (decide (p = q)) as [<-|Hne]; [simplify_eq; by auto|].
    right. exists q, l'. by rewrite lookup_delete_ne.
  - rewrite (live_size_delete _ _ _ Hp). lia.
Qed.

(** Only the free list is in memory, so only its bytes matter. *)
Lemma HInv_agree m m' h live bl :
  HInv (HeapState m h live) bl -> mem_agree (covered bl) m m' -> HInv (HeapState m' h live) bl.
Proof using Type.
  intros [HL Hlive Hap Hcov Htot] Hag; simpl in *. split; simpl; try done. by eapply Inv_agree.
Qed.

(** Free blocks and live allocations lie in the region. *)
Lemma HInv_in_region s bl x :
  HInv s bl -> covered bl x \/ live_bytes (hs_live s) x -> range base (hi - base) x.
Proof using Type.
  clear fuel_ok. clear fuel.
  intros [[_ Hwf] Hlive _ _ _] [Hc|(p & l & Hp & Hx)].
  - apply (covered_bounds _ _ _ _ Hwf) in Hc. unfold range. lia.
  - destruct (Hlive p l Hp) as (_ & (H1 & H2 & H3 & _) & _). unfold range in *. lia.
Qed.

(** Nothing outside the region is written. *)
Lemma heap_step_agree s s' bl :
  HInv s bl -> heap_step s s' -> mem_agree (fun x => ~ range base (hi - base) x) (hs_mem s) (hs_mem s').
Proof.
  intros HI Hs. pose proof (walk_fuel _ _ HI) as Hf. pose proof (hinv_list _ _ HI) as HL.
  pose proof (fun x => HInv_in_region s bl x HI) as Hreg.
  destruct Hs as [m h live l m' h' p Hl Ha Hp|m h live l m' h' Hl Ha|
    m h live p l m' h' Hp Hd|m h live m' Hag]; simpl in *.
  - destruct (heap_alloc_spec base hi base_pos hi_bound fuel m h bl l HL Hl Hf)
      as (m1 & h1 & p1 & Heq & Hpost). rewrite Heq in Ha. simplify_eq.
    destruct (n_size_ok l Hl) as [Hsz _]. destruct (n_align_ok l Hl) as [Hal _].
    destruct (alloc_post_covered base hi base_pos _ _ _ _ _ _ _ _ HL Hsz Hal Hpost Hp)
      as (bl' & _ & _ & _ & _ & _ & _ & _ & _ & Hag).
    eapply mem_agree_mono; [|exact Hag]. naive_solver.
  - destruct (heap_alloc_spec base hi base_pos hi_bound fuel m h bl l HL Hl Hf)
      as (m1 & h1 & p1 & Heq & Hpost). rewrite Heq in Ha. simplify_eq.
    unfold alloc_post in Hpost. destruct (first_fit _ _ bl) as [[[pre b] suf]|].
    + destruct Hpost as (_ & _ & Hag). eapply mem_agree_mono; [|exact Hag]. naive_solver.
    + by destruct Hpost as (_ & -> & _).
  - destruct (hinv_live _ _ HI p l Hp) as (Hl & Hal & _).
    destruct (heap_dealloc_spec base hi base_pos hi_bound fuel m h bl p l HL Hl Hal Hf)
      as (m1 & h1 & bl' & Heq & _ & _ & _ & Hag). rewrite Heq in Hd. simplify_eq.
    eapply mem_agree_mono; [|exact Hag]. intros x Hx. split; [naive_solver|].
    intros Hr. apply Hx, Hreg. right. by exists p, l.
  - eapply mem_agree_mono; [|exact Hag]. naive_solver.
Qed.

(** The invariant is inductive. *)
Lemma HInv_step s s' bl : HInv s bl -> heap_step s s' -> exists bl', HInv s' bl'.
Proof.
  intros HI Hs. destruct Hs as [m h live l m' h' p Hl Ha Hp|m h live l m' h' Hl Ha|
    m h live p l m' h' Hp Hd|m h live m' Hag].
  - destruct (HInv_alloc _ _ _ _ _ _ _ _ HI Hl Ha Hp) as (bl' & ? & _). eauto.
  - pose proof (walk_fuel _ _ HI) as Hf. pose proof (hinv_list _ _ HI) as HL.
    destruct (heap_alloc_spec base hi base_pos hi_bound fuel m h bl l HL Hl Hf)
      as (m1 & h1 & p1 & Heq & Hpost). rewrite Heq in Ha. simplify_eq.
    unfold alloc_post in Hpost.
    destruct (first_fit (n_size l) (n_align l) bl) as [[[pre [a s]] suf]|] eqn:E.
    + destruct Hpost as (Hz & _). apply first_fit_Some in E as (-> & _).
      destruct HL as [_ Hwf]. apply wf_blocks_app in Hwf as [Hw (Ha & _)].
      pose proof (after_ge _ _ _ Hw). destruct (n_align_ok l Hl) as [(_ & _ & Hpos) _].
      pose proof (round_up_spec a (n_align l) Hpos). simpl in *. lia.
    + destruct Hpost as (_ & -> & ->). eauto.
  - by eapply HInv_dealloc.
  - exists bl. destruct HI as [HL Hlive Hap Hcov Htot]; simpl in *. split; simpl; try done.
    eapply Inv_agree; [|exact HL]. eapply mem_agree_mono; [|exact Hag].
    intros x Hx (p & l & Hp & Hr). destruct (Hlive p l Hp) as (_ & (_ & _ & _ & _ & Hd) & _).
    by apply (Hd x Hr).
Qed.

(** With nothing live, the free list is the whole region in one block. *)
Lemma HInv_empty_one_block m h bl :
  HInv (HeapState m h ∅) bl -> bl = [(base, hi - base)].
Proof.
  intros [HL _ _ Hcov _]; simpl in *. pose proof (HInv_initial m) as HI0.
  eapply blocks_canonical; [apply HL|apply HI0|]. intros x.
  rewrite covered_cons, covered_nil. unfold range. split.
  - intros Hx. apply (covered_bounds _ _ _ _ (proj2 HL)) in Hx. lia.
  - intros [Hx|[]]. destruct (Hcov x ltac:(lia)) as [|(p & l & Hp & _)]; [done|].
    by rewrite lookup_empty in Hp.
Qed.

Lemma HInv_reachable m s : rtc heap_step (initial_state m) s -> exists bl, HInv s bl.
Proof.
  intros Hr. assert (exists bl, HInv (initial_state m) bl) as HI by (eexists; apply HInv_initial).
  revert HI. induction Hr as [|s s1 s2 Hs _ IH]; [done|]. intros [bl HI]. apply IH.
  by eapply HInv_step.
Qed.
End Trace.

(** ** Properties *)

(** A walk bound every list in the region stays under. *)
Definition enough_fuel (base hi : Z) (fuel : nat) : Prop := hi - base <= GRAIN * Z.of_nat fuel.

(** Whatever is allocated, freed and written, in any order, two live
    allocations never share a byte, every live allocation is aligned as its
    layout asks and lies inside the region, and none of them overlaps a free
    block, so client writes cannot reach a header. *)
Theorem heap_reachable_disjoint base hi fuel m s :
  heap_region base hi -> enough_fuel base hi fuel ->
  rtc (heap_step fuel) (initial_state base hi m) s ->
  exists bl, Inv base hi (hs_mem s) (hs_heap s) bl /\
    (forall p l, hs_live s !! p = Some l ->
       p mod l_align l = 0 /\ base <= p /\ p + l_size l <= hi /\
       forall x, range p (n_size l) x -> ~ covered bl x) /\
    (forall p q l l' x, hs_live s !! p = Some l -> hs_live s !! q = Some l' -> p <> q ->
       range p (l_size l) x -> ~ range q (l_size l') x).
Proof.
  intros [] Hf Hr. destruct (HInv_reachable base hi fuel hr_pos hr_bound hr_base hr_hi hr_room Hf m s Hr)
    as (bl & [HL Hlive Hap _ _]).
  exists bl. split; [done|]. split.
  - intros p l Hp. destruct (Hlive p l Hp) as (Hl & (H1 & H2 & H3 & H4 & H5) & H6).
    destruct (n_size_ok l Hl). by repeat split; try lia.
  - intros p q l l' x Hp Hq Hne Hx Hx'. destruct (Hlive p l Hp) as (Hl & _).
    destruct (Hlive q l' Hq) as (Hl' & _). destruct (n_size_ok l Hl). destruct (n_size_ok l' Hl').
    apply Hne. eapply (Hap p q l l' x); [done|done| |]; unfold range in *; lia.
Qed.

(** In every reachable state each operation returns: an allocation
    request of any layout gives an address or null, and freeing a live
    allocation succeeds; no arithmetic overflows and no list walk runs on. *)
Theorem heap_reachable_progress base hi fuel m s :
  heap_region base hi -> enough_fuel base hi fuel ->
  rtc (heap_step fuel) (initial_state base hi m) s ->
  (forall l, Layout_ok l ->
     exists m' h' p, heap_alloc fuel (hs_mem s) (hs_heap s) l = Ok (m', h', p)) /\
  (forall p l, hs_live s !! p = Some l ->
     exists m' h', heap_dealloc fuel (hs_mem s) (hs_heap s) p l = Ok (m', h')).
Proof.
  intros [] Hf Hr. destruct (HInv_reachable base hi fuel hr_pos hr_bound hr_base hr_hi hr_room Hf m s Hr)
    as (bl & HI). pose proof (walk_fuel base hi fuel hr_room Hf _ _ HI) as Hw.
  destruct HI as [HL Hlive _ _ _]. split.
  - intros l Hl. destruct (heap_alloc_spec base hi hr_pos hr_bound fuel _ _ bl l HL Hl Hw)
      as (m' & h' & p & Heq & _). eauto.
  - intros p l Hp. destruct (Hlive p l Hp) as (Hl & Hal & _).
    destruct (heap_dealloc_spec base hi hr_pos hr_bound fuel _ _ bl p l HL Hl Hal Hw)
      as (m' & h' & bl' & Heq & _). eauto.
Qed.

(** The two counters are exact in every reachable state: free bytes and
    live bytes add up to the region, and once everything has been freed the
    free list is back to the single block [init] created, which is what the
    boot self-test checks. *)
Theorem heap_reachable_balanced base hi fuel m s :
  heap_region base hi -> enough_fuel base hi fuel ->
  rtc (heap_step fuel) (initial_state base hi m) s ->
  heap_free_bytes fuel (hs_mem s) (hs_heap s) = Ok (hi - base - live_size (hs_live s)) /\
  (hs_live s = ∅ ->
     heap_free_blocks fuel (hs_mem s) (hs_heap s) = Ok 1 /\
     Inv base hi (hs_mem s) (hs_heap s) [(base, hi - base)]).
Proof.
  intros [] Hf Hr. destruct (HInv_reachable base hi fuel hr_pos hr_bound hr_base hr_hi hr_room Hf m s Hr)
    as (bl & HI). pose proof (walk_fuel base hi fuel hr_room Hf _ _ HI) as Hw.
  assert (base <= hi) as Hbh by (unfold GRAIN in *; lia).
  split.
  - rewrite (heap_free_bytes_spec base hi hr_pos hr_bound fuel _ _ bl (hinv_list _ _ _ _ HI) Hbh Hw).
    f_equal. pose proof (hinv_total _ _ _ _ HI). lia.
  - intros He. destruct s as [m1 h1 live]; simpl in *. subst live.
    apply (HInv_empty_one_block base hi fuel hr_pos hr_bound hr_base hr_hi hr_room) in HI as Hbl.
    subst bl. destruct HI as [HL _ _ _ _]; simpl in *. split; [|done].
    by rewrite (heap_free_blocks_spec base hi hr_pos hr_bound fuel _ _ _ HL Hbh Hw).
Qed.

(** ** Instances: the one-page heap, one allocation in *)

Definition demo_state : heap_state :=
  match heap_alloc 257 demo_mem demo_heap demo_layout with
  | Ok (m, h, p) => HeapState m h {[ p := demo_layout ]}
  | _ => HeapState demo_mem demo_heap ∅
  end.

Lemma demo_fuel : enough_fuel 4096 8192 257.
Proof. by vm_compute. Defined.

Lemma demo_reachable : rtc (heap_step 257) (initial_state 4096 8192 ∅) demo_state.
Proof.
  apply rtc_once. apply (step_alloc 257 demo_mem demo_heap ∅ demo_layout _ _ 4096).
  - exact demo_layout_ok.
  - by vm_compute.
  - done.
Defined.

Lemma heap_reachable_disjoint_witness : exists bl,
  Inv 4096 8192 (hs_mem demo_state) (hs_heap demo_state) bl.
Proof.
  destruct (heap_reachable_disjoint 4096 8192 257 ∅ demo_state demo_region demo_fuel
    demo_reachable) as (bl & H & _). by exists bl.
Defined.

Lemma heap_reachable_progress_witness : exists m' h',
  heap_dealloc 257 (hs_mem demo_state) (hs_heap demo_state) 4096 demo_layout = Ok (m', h').
Proof.
  destruct (heap_reachable_progress 4096 8192 257 ∅ demo_state demo_region demo_fuel
    demo_reachable) as [_ H]. by apply H.
Defined.

Lemma heap_reachable_balanced_witness :
  heap_free_bytes 257 (hs_mem demo_state) (hs_heap demo_state) = Ok 3984.
Proof.
  destruct (heap_reachable_balanced 4096 8192 257 ∅ demo_state demo_region demo_fuel
    demo_reachable) as [-> _]. by vm_compute.
Defined.
