(* ===== verification/Interrupts.v ===== *)
(** The interrupt flag and the kernel's one critical-section primitive
    ([kernel/src/interrupts.rs]), first as a function on states, then as a
    sequence of instructions an interrupt may land between. *)
From stdpp Require Import relations.
From S2P Require Import Prelude.

(** ** The flag *)

(** A machine state whose RFLAGS.IF can be read and written, as [pushfq],
    [cli] and [sti] do. *)
Class HasIF (S : Type) := {
  get_if : S -> bool;
  set_if : bool -> S -> S;
  get_set_if b s : get_if (set_if b s) = b;
  set_get_if s : set_if (get_if s) s = s;
  set_set_if b b' s : set_if b (set_if b' s) = set_if b s;
}.

Section Flag.
Context {S : Type} `{HasIF S}.

Definition cli (s : S) : S := set_if false s.
Definition sti (s : S) : S := set_if true s.

Definition without_interrupts {E A} (f : S -> outcome E (S * A)) (s : S) : outcome E (S * A) :=
  let was_enabled := get_if s in
  let s := if was_enabled then cli s else s in
  '(s, result) ← f s;
  let s := if was_enabled then sti s else s in
  Ok (s, result).

(** [interrupts::enable]. *)
Definition enable (s : S) : S := sti s.

(** The closure always starts from a state with interrupts off. *)
Definition masked (s : S) : S := set_if false s.

Lemma without_interrupts_masked {E A} (f : S -> outcome E (S * A)) s :
  without_interrupts f s =
  ('(s', r) ← f (masked s); Ok (if get_if s then sti s' else s', r)).
Proof.
  unfold without_interrupts, masked, cli. destruct (get_if s) eqn:Hs.
  - destruct (f (set_if false s)) as [[]| | |]; done.
  - rewrite <- Hs at 1. rewrite set_get_if. destruct (f s) as [[]| | |]; done.
Qed.

(** A closure that leaves the flag alone, as every critical section does. *)
Definition keeps_if {E A} (f : S -> outcome E (S * A)) : Prop :=
  forall s s' r, f s = Ok (s', r) -> get_if s' = get_if s.

Lemma without_interrupts_Ok {E A} (f : S -> outcome E (S * A)) s s' r :
  keeps_if f -> f (masked s) = Ok (s', r) ->
  without_interrupts f s = Ok (set_if (get_if s) s', r).
Proof.
  intros Hk Hf. rewrite without_interrupts_masked, Hf, bind_Ok.
  unfold sti. destruct (get_if s) eqn:Hs; [done|].
  apply Hk in Hf. unfold masked in Hf. rewrite get_set_if in Hf. by rewrite <- Hf, set_get_if.
Qed.

Lemma without_interrupts_keeps_if {E A} (f : S -> outcome E (S * A)) :
  keeps_if f -> keeps_if (without_interrupts f).
Proof.
  intros Hk s s' r. rewrite without_interrupts_masked. intros Hw. inv_bind Hw.
  destruct a as [s1 r1]. pose proof (Hk _ _ _ H0) as Hif. unfold masked in Hif.
  rewrite get_set_if in Hif. simplify_eq. unfold sti.
  destruct (get_if s); by rewrite ?get_set_if.
Qed.

(** ** The same, with interrupts in between *)

(** An interrupt: entry masks the flag, the handler runs, [iretq] restores
    the flags it interrupted. *)
Context (handler : S -> S -> Prop).

Inductive irq : S -> S -> Prop :=
| irq_taken s s1 : get_if s = true -> handler (cli s) s1 -> irq s (set_if (get_if s) s1).

(** A straight-line program is a list of instructions; before each of them,
    and after the last, an interrupt may be taken when the flag allows it. *)
Inductive machine_step : list (S -> S) * S -> list (S -> S) * S -> Prop :=
| machine_instr i p s : machine_step (i :: p, s) (p, i s)
| machine_irq p s s' : irq s s' -> machine_step (p, s) (p, s').

(** The instructions [without_interrupts] executes around those of [f], once
    [pushfq] has read the flag. *)
Definition critical_section (was_enabled : bool) (body : list (S -> S)) : list (S -> S) :=
  (if was_enabled then [cli] else []) ++ body ++ (if was_enabled then [sti] else []).

Definition run_body (body : list (S -> S)) (s : S) : S := foldl (fun s i => i s) s body.

Lemma irq_keeps_if s s' : irq s s' -> get_if s' = get_if s.
Proof. intros [s0 s1 Hs _]. by rewrite get_set_if. Qed.

Lemma irqs_keep_if s s' : rtc irq s s' -> get_if s' = get_if s.
Proof.
  induction 1 as [|s s1 s2 Hi _ IH]; [done|]. rewrite IH. by apply irq_keeps_if.
Qed.

(** A body none of whose instructions sets the flag. *)
Definition stays_masked (body : list (S -> S)) : Prop :=
  Forall (fun i => forall s, get_if s = false -> get_if (i s) = false) body.

Lemma run_body_masked body s :
  stays_masked body -> get_if s = false -> get_if (run_body body s) = false.
Proof.
  intros Hb. revert s. induction Hb as [|i body Hi _ IH]; intros s Hs; [done|]. by apply IH, Hi.
Qed.

(** With the flag clear no interrupt is taken. *)
Lemma irqs_masked s c : get_if s = false -> rtc irq s c -> c = s.
Proof.
  intros Hs Hr. apply rtc_inv in Hr as [?|(y & Hi & _)]; [done|].
  inversion Hi. congruence.
Qed.

(** With the flag clear, a body that leaves it clear runs alone. *)
Lemma masked_body_runs_alone body rest s c :
  get_if s = false -> stays_masked body ->
  rtc machine_step (body ++ rest, s) ([], c) ->
  rtc machine_step (rest, run_body body s) ([], c).
Proof.
  revert s. induction body as [|i body IH]; intros s Hs Hb Hr; [done|].
  apply Forall_cons in Hb as [Hi Hb]. apply rtc_inv in Hr as [?|(y & Hst & Hr)]; [done|].
  inversion Hst as [j q s0|q s0 s1 [s2 s3 Hif _]]; simplify_eq/=; [|congruence].
  apply IH; auto.
Qed.

(** From a finished program only interrupts remain. *)
Lemma finished_irqs s c : rtc machine_step ([], s) ([], c) -> rtc irq s c.
Proof.
  intros Hr. remember ([], s) as x eqn:Hx. remember ([], c) as y eqn:Hy. revert s Hx.
  induction Hr as [x|x y0 z Hst _ IH]; intros s Hx; simplify_eq; [constructor|].
  inversion Hst; simplify_eq. econstructor; [eassumption|]. by apply IH.
Qed.

(** Before the next instruction, any number of interrupts. *)
Lemma next_instr i p s c :
  rtc machine_step (i :: p, s) ([], c) ->
  exists s', rtc irq s s' /\ rtc machine_step (p, i s') ([], c).
Proof.
  intros Hr. remember (i :: p, s) as x eqn:Hx. remember ([], c) as y eqn:Hy. revert s Hx.
  induction Hr as [x|x y0 z Hst Hr IH]; intros s Hx; simplify_eq.
  inversion Hst; simplify_eq.
  - exists s. by split; [constructor|].
  - destruct (IH eq_refl _ eq_refl) as (s'' & Hi & Hrest). exists s''.
    split; [by econstructor|done].
Qed.
End Flag.

(** ** Properties *)

(** [without_interrupts] is a critical section and restores what it
    found. Whatever the closure does to the rest of the state, it starts with
    interrupts off; when it leaves the flag alone the caller gets back the
    flag it had, on or off, so a nested use never re-enables interrupts; and a
    panic or an endless loop in the closure is not turned into a result. *)
Theorem without_interrupts_restores {S} `{HasIF S} {A} (f : S -> res (S * A)) s :
  keeps_if f ->
  without_interrupts f s =
    match f (set_if false s) with
    | Ok (s', r) => Ok (set_if (get_if s) s', r)
    | Panic => Panic
    | Loop => Loop
    | Err e => Err e
    end /\
  without_interrupts (without_interrupts f) s = without_interrupts f s /\
  (forall s' r, without_interrupts f s = Ok (s', r) -> get_if s' = get_if s).
Proof.
  intros Hk. split; [|split].
  - destruct (f (set_if false s)) as [[s' r]|[]| |] eqn:Hf;
      [by apply without_interrupts_Ok|by rewrite without_interrupts_masked; unfold masked; rewrite Hf..].
  - rewrite (without_interrupts_masked (without_interrupts f)), !without_interrupts_masked.
    unfold masked. rewrite ?get_set_if, ?set_set_if.
    destruct (f (set_if false s)) as [[]| | |]; [|done..]. done.
  - intros s' r. by apply without_interrupts_keeps_if.
Qed.

(** The critical section is complete on one core. However interrupts
    arrive while its instructions execute, none lands inside the body: the
    outcome is some interrupts, then the body run in one piece, then some
    interrupts when the section found interrupts enabled, and exactly the
    body when it found them disabled. *)
Theorem critical_section_atomic {S} `{HasIF S} (handler : S -> S -> Prop) body s c :
  stays_masked body ->
  rtc (machine_step handler) (critical_section (get_if s) body, s) ([], c) ->
  if get_if s
  then exists s0, rtc (irq handler) s s0 /\ rtc (irq handler) (sti (run_body body (cli s0))) c
  else c = run_body body s.
Proof.
  intros Hb Hr. unfold critical_section in Hr. destruct (get_if s) eqn:Hs; simpl in Hr.
  - apply next_instr in Hr as (s0 & Hi0 & Hr). exists s0. split; [done|].
    apply masked_body_runs_alone in Hr; [|apply get_set_if|done].
    apply next_instr in Hr as (s1 & Hi1 & Hr). apply finished_irqs in Hr.
    apply irqs_masked in Hi1 as ->; [done|]. by apply run_body_masked; [|apply get_set_if].
  - apply masked_body_runs_alone in Hr; [|done|done]. apply finished_irqs in Hr.
    apply irqs_masked in Hr; [done|]. by apply run_body_masked.
Qed.

(** ** Instances: a flag and a counter *)

#[export] Instance flag_counter_HasIF : HasIF (bool * Z).
Proof.
  refine {| get_if := fst; set_if b s := (b, snd s) |}.
  - done.
  - by intros [].
  - done.
Defined.

Definition demo_incr (s : bool * Z) : res ((bool * Z) * Z) := Ok ((fst s, snd s + 1), snd s).

Lemma without_interrupts_restores_witness :
  without_interrupts demo_incr (true, 5) = Ok ((true, 6), 5).
Proof.
  destruct (without_interrupts_restores demo_incr (true, 5)) as [-> _]; [|done].
  intros [b n] s' r. unfold demo_incr. by intros [= <- _].
Defined.

Definition demo_tick (s s' : bool * Z) : Prop := s' = (fst s, snd s + 100).

Lemma critical_section_atomic_witness :
  exists s0, rtc (irq demo_tick) (true, 5) s0 /\
    rtc (irq demo_tick) (sti (run_body [fun s => (fst s, snd s + 1)] (cli s0))) (true, 106).
Proof.
  refine (critical_section_atomic demo_tick [fun s => (fst s, snd s + 1)] (true, 5) (true, 106) _ _).
  - by repeat constructor.
  - eapply rtc_l; [apply machine_irq; exact (irq_taken demo_tick (true, 5) (false, 105) eq_refl eq_refl)|].
    do 3 (eapply rtc_l; [constructor|]). constructor.
Defined.
