(* ===== verification/FrameApi.v ===== *)
(** The public entry points of [kernel/src/frame.rs]: the static [FRAMES]
    behind its critical section, initialisation, and the boot self-test. *)
From Stdlib Require Import String.
From S2P Require Import Prelude Memory BootInfo Frame Heap Interrupts.

(** ** The kernel's statics *)

(** The interrupt flag, memory, and the two [static mut] allocators. *)
Record kernel := Kernel {
  k_if : bool;
  k_mem : mem;
  FRAMES : option FrameAllocator;
  HEAP : Heap;
}.

#[export] Instance kernel_HasIF : HasIF kernel.
Proof.
  refine {| get_if := k_if; set_if b k := Kernel b (k_mem k) (FRAMES k) (HEAP k) |}.
  - done.
  - by intros [].
  - done.
Defined.

Definition set_frames (m : mem) (o : option FrameAllocator) (k : kernel) : kernel :=
  Kernel (k_if k) m o (HEAP k).
Definition set_heap (m : mem) (h : Heap) (k : kernel) : kernel :=
  Kernel (k_if k) m (FRAMES k) h.

(** ** Entry points *)

(** [with]: [slot.as_mut().map(f)] in a critical section. *)
Definition with_frames {R} (f : mem -> FrameAllocator -> res (mem * FrameAllocator * R))
    (k : kernel) : res (kernel * option R) :=
  without_interrupts (fun k =>
    match FRAMES k with
    | None => Ok (k, None)
    | Some fa =>
        '(m, fa, r) ← f (k_mem k) fa;
        Ok (set_frames m (Some fa) k, Some r)
    end) k.

Definition flatten {A} (o : option (option A)) : option A := o ≫= id.

Definition alloc_frame (k : kernel) : res (kernel * option Z) :=
  '(k, o) ← with_frames alloc k;
  Ok (k, flatten o).

Definition dealloc_frame (addr : Z) (k : kernel) : res kernel :=
  '(k, _) ← with_frames (fun m fa => Ok (dealloc m fa addr, tt)) k;
  Ok k.

Definition alloc_contiguous (frames : Z) (k : kernel) : res (kernel * option Z) :=
  '(k, o) ← with_frames (fun m fa => contiguous m fa frames) k;
  Ok (k, flatten o).

Definition frames_in_use (k : kernel) : res (kernel * Z) :=
  '(k, o) ← with_frames (fun m fa => Ok (m, fa, in_use fa)) k;
  Ok (k, default 0 o).

(** [init]: the static is written only when there is a run. *)
Definition init_frames (regions : list MemoryRegion) (k : kernel) : res (kernel * Z) :=
  '(o, total) ← frame_init regions;
  match o with
  | None => Ok (k, total)
  | Some allocator =>
      '(k, _) ← without_interrupts (fun k => Ok (set_frames (k_mem k) (Some allocator) k, tt)) k;
      Ok (k, total)
  end.

(** ** The self-test *)

Definition ensure (b : bool) (msg : string) : outcome string unit :=
  if b then Ok tt else Err msg.

Definition frame_selftest (k : kernel) : outcome string kernel :=
  '(k, o) ← lift (alloc_frame k);
  first ← ok_or "alloc_frame returned None on a fresh allocator"%string o;
  _ ← ensure (first mod PAGE_SIZE =? 0) "allocated frame is not page aligned";
  _ ← ensure (negb (first =? 0)) "allocated frame is the null frame";
  k ← lift (dealloc_frame first k);
  '(k, o) ← lift (alloc_frame k);
  again ← ok_or "alloc_frame returned None after a dealloc"%string o;
  _ ← ensure (again =? first) "a freed frame was not the next frame handed out";
  k ← lift (dealloc_frame again k);
  '(k, o) ← lift (alloc_frame k);
  a ← ok_or "alloc_frame returned None for the first of two frames"%string o;
  '(k, o) ← lift (alloc_frame k);
  b ← ok_or "alloc_frame returned None for the second of two frames"%string o;
  _ ← ensure (negb (a =? b)) "two consecutive allocations returned the same frame";
  k ← lift (dealloc_frame b k);
  k ← lift (dealloc_frame a k);
  Ok k.

(** ** Owning frames *)

(** [Owns k A n]: the static allocator owns exactly the frames [A] and has
    [n] of them out. *)
Definition Owns (k : kernel) (A : list Z) (n : Z) : Prop :=
  exists fa, FRAMES k = Some fa /\ Repr (k_mem k) fa A /\ in_use fa = n /\
    0 <= n /\ n + Z.of_nat (length A) < 2 ^ 64.

#[export] Instance Owns_proper : Proper ((=) ==> (≡ₚ) ==> (=) ==> iff) Owns.
Proof. intros k _ <- A B H n _ <-. unfold Owns. by setoid_rewrite H. Qed.

(** What an entry point leaves alone: the flag, the heap, and the memory
    outside the given bytes. *)
Definition only_frames (k k' : kernel) (P : Z -> Prop) : Prop :=
  k_if k' = k_if k /\ HEAP k' = HEAP k /\ mem_agree (fun x => ~ P x) (k_mem k) (k_mem k').

Lemma with_frames_Ok {R} (f : mem -> FrameAllocator -> res (mem * FrameAllocator * R)) k fa m' fa' r :
  FRAMES k = Some fa -> f (k_mem k) fa = Ok (m', fa', r) ->
  with_frames f k = Ok (set_frames m' (Some fa') k, Some r).
Proof.
  intros Hk Hf. unfold with_frames. rewrite without_interrupts_masked. simpl.
  rewrite Hk, Hf, !bind_Ok. unfold sti, set_frames. simpl. by destruct k as [[]].
Qed.

Lemma with_frames_None {R} (f : mem -> FrameAllocator -> res (mem * FrameAllocator * R)) k :
  FRAMES k = None -> with_frames f k = Ok (k, None).
Proof.
  intros Hk. unfold with_frames. rewrite without_interrupts_masked. simpl. rewrite Hk, bind_Ok.
  unfold sti. destruct k as [[]]; simpl in *; by rewrite <- Hk.
Qed.

Lemma alloc_frame_spec k A n :
  Owns k A n ->
  exists k' o, alloc_frame k = Ok (k', o) /\ only_frames k k' (owned A) /\
    match o with
    | Some f => exists A', A ≡ₚ f :: A' /\ Owns k' A' (n + 1)
    | None => A = [] /\ Owns k' [] n
    end.
Proof.
  intros (fa & Hk & HR & Hn & H0 & Hlen). subst n.
  destruct (alloc_spec (k_mem k) fa A HR H0 Hlen) as (m' & fa' & o & Ha & Hag & Ho).
  unfold alloc_frame. erewrite with_frames_Ok by done. rewrite bind_Ok.
  eexists _, o. split; [done|]. split; [done|]. destruct o as [f|].
  - destruct Ho as (Hu & A' & HA & HR'). exists A'. split; [done|].
    exists fa'. rewrite HA in Hlen. simpl in *. repeat split; try done; lia.
  - destruct Ho as (Hu & -> & HR'). split; [done|]. exists fa'. simpl in *.
    repeat split; try done; lia.
Qed.

(** Returning a frame that is out. *)
Lemma dealloc_frame_spec k A n f :
  Owns k A n -> frame_ok f -> f ∉ A -> 0 < n ->
  exists k', dealloc_frame f k = Ok k' /\ Owns k' (f :: A) (n - 1) /\ only_frames k k' (owned [f]).
Proof.
  intros (fa & Hk & HR & Hn & H0 & Hlen) Hf HnA Hpos. subst n.
  pose proof (dealloc_spec (k_mem k) fa A f HR Hf HnA) as Hd.
  destruct (dealloc (k_mem k) fa f) as [m' fa'] eqn:E. destruct Hd as (HR' & Hu & Hag).
  unfold dealloc_frame. erewrite with_frames_Ok; [|exact Hk|by rewrite E]. rewrite bind_Ok.
  eexists. split; [done|]. split; [|done]. exists fa'. unfold saturating_sub in Hu. simpl.
  repeat split; try done; simpl; lia.
Qed.

Lemma Owns_frame_ok k A n f : Owns k A n -> f ∈ A -> frame_ok f.
Proof.
  intros (fa & _ & (l & _ & _ & _ & Hok & _) & _) Hf. rewrite Forall_forall in Hok. auto.
Qed.

Lemma Owns_NoDup k A n : Owns k A n -> NoDup A.
Proof. intros (fa & _ & (l & _ & _ & ? & _) & _). done. Qed.

Lemma Owns_agree k k' A n :
  Owns k A n -> FRAMES k' = FRAMES k -> mem_agree (owned A) (k_mem k) (k_mem k') -> Owns k' A n.
Proof.
  intros (fa & Hk & HR & H) He Hag. exists fa. rewrite He. split; [done|].
  split; [by eapply Repr_agree|done].
Qed.

(** Free then allocate gives the same frame back, in the same state. *)
Lemma realloc_frame k A n f :
  Owns k A n -> frame_ok f -> f ∉ A -> 0 < n ->
  exists k1 k2, dealloc_frame f k = Ok k1 /\ alloc_frame k1 = Ok (k2, Some f) /\
    Owns k2 A n /\ only_frames k k2 (owned [f]) /\ FRAMES k2 = FRAMES k.
Proof.
  intros HO Hf HnA Hpos. destruct (dealloc_frame_spec k A n f HO Hf HnA Hpos) as (k1 & H1 & HO1 & Hof).
  destruct HO as (fa & Hk & HR & Hn & H0 & Hlen). subst n.
  unfold dealloc_frame in H1. erewrite with_frames_Ok in H1; [|exact Hk|reflexivity].
  rewrite bind_Ok in H1. injection H1 as <-.
  set (fa1 := set_in_use (saturating_sub (in_use fa) 1) (set_free (NonNull_new f) fa)) in *.
  set (m1 := write_FreeFrame (k_mem k) f (free fa)) in *.
  assert (read_FreeFrame m1 f = free fa) as Hrd.
  { destruct HR as (l & _ & Hc & _ & Hok & Hp).
    assert (Forall frame_ok l) as Hl by (rewrite Hp in Hok; by apply Forall_app in Hok as [? _]).
    assert (f ∉ l) as Hnl by (rewrite Hp in HnA; set_solver).
    assert (free_chain m1 (read_FreeFrame m1 f) l) as Hc' by (by apply free_chain_push).
    destruct l as [|g l]; cbn [free_chain] in Hc, Hc'; [congruence|].
    destruct Hc as [-> _]. by destruct Hc' as [-> _]. }
  assert (alloc m1 fa1 = Ok (m1, fa, Some f)) as Ha.
  { unfold alloc, fa1. cbn [free set_free set_in_use in_use].
    rewrite NonNull_new_Some by done. rewrite Hrd. cbn [in_use set_free set_in_use].
    unfold saturating_sub. rewrite add_u_ok, bind_Ok by lia. do 3 f_equal.
    destruct fa; unfold set_in_use, set_free; simpl in *. do 2 f_equal. lia. }
  eexists _, _. split; [unfold dealloc_frame; erewrite with_frames_Ok; [|exact Hk|reflexivity]; done|].
  split; [unfold alloc_frame; erewrite with_frames_Ok; [|reflexivity|exact Ha]; done|].
  split; [|split; [done|by rewrite Hk]]. exists fa. simpl. split; [done|]. split; [|done].
  eapply Repr_agree; [|exact HR]. eapply mem_agree_mono; [|apply write_FreeFrame_agree].
  intros x Hx. destruct HR as (l & _ & _ & _ & Hok & _). by eapply owned_apart.
Qed.

(** The gauge reads what the state says. *)
Lemma frames_in_use_spec k A n : Owns k A n -> frames_in_use k = Ok (k, n).
Proof.
  intros (fa & Hk & _ & Hn & _). unfold frames_in_use. erewrite with_frames_Ok by done.
  rewrite bind_Ok, Hn. destruct k; simpl in *. by subst.
Qed.

(** A state determines the frames its allocator owns. *)
Lemma free_chain_det m p l l' : free_chain m p l -> free_chain m p l' -> l = l'.
Proof.
  revert p l'. induction l as [|f l IH]; intros p [|f' l']; simpl; try done.
  - by intros -> [].
  - by intros [-> _].
  - intros [-> Hc] [[= <-] Hc']. f_equal. by eapply IH.
Qed.

Lemma Owns_det k A B n n' : Owns k A n -> Owns k B n' -> A ≡ₚ B /\ n = n'.
Proof.
  intros (fa & Hk & (l & _ & Hc & _ & _ & Hp) & Hn & _) (fa' & Hk' & (l' & _ & Hc' & _ & _ & Hp') & Hn' & _).
  simplify_eq. split; [|done]. rewrite Hp, Hp'. by rewrite (free_chain_det _ _ _ _ Hc Hc').
Qed.

(** The bytes of consecutive frames. *)
Lemma owned_run_frames a n x : owned (run_frames a n) x <-> range a (n * PAGE_SIZE) x.
Proof.
  unfold owned, range. setoid_rewrite elem_of_run_frames. split.
  - intros (f & (i & -> & Hi) & Hx). unfold PAGE_SIZE in *. lia.
  - intros Hx. exists (a + (x - a) / PAGE_SIZE * PAGE_SIZE). unfold PAGE_SIZE in *.
    split; [exists ((x - a) / 4096)|]; divmod.
Qed.

Lemma owned_app A B x : owned (A ++ B) x <-> owned A x \/ owned B x.
Proof.
  unfold owned. setoid_rewrite elem_of_app. split; [|naive_solver].
  intros (f & [Hf|Hf] & Hx); eauto.
Qed.

Lemma owned_cons f A x : owned (f :: A) x <-> range f PAGE_SIZE x \/ owned A x.
Proof.
  unfold owned. setoid_rewrite elem_of_cons. split; [|naive_solver].
  intros (g & [->|Hf] & Hx); eauto.
Qed.

(** Frames listed once share no byte. *)
Lemma owned_disjoint A B x :
  NoDup (A ++ B) -> Forall frame_ok (A ++ B) -> owned A x -> ~ owned B x.
Proof.
  intros (_ & Hd & _)%NoDup_app [HA HB]%Forall_app (f & Hf & Hx) (g & Hg & Hx').
  rewrite Forall_forall in HA, HB. eapply (frames_apart f g x); eauto.
  intros ->. by eapply Hd.
Qed.

Lemma Owns_ok k A n : Owns k A n -> Forall frame_ok A.
Proof. intros (fa & _ & (l & _ & _ & _ & ? & _) & _). done. Qed.

Lemma alloc_contiguous_spec k A n frames :
  Owns k A n -> 0 <= frames -> frames * PAGE_SIZE < 2 ^ 64 ->
  exists k' o, alloc_contiguous frames k = Ok (k', o) /\ only_frames k k' (owned A) /\
    match o with
    | Some a => exists A', A ≡ₚ run_frames a frames ++ A' /\ Owns k' A' (n + frames)
    | None => Owns k' A n
    end.
Proof.
  intros (fa & Hk & HR & Hn & H0 & Hlen) Hf Hw. subst n.
  destruct (contiguous_spec (k_mem k) fa A frames HR Hf Hw H0 Hlen)
    as (m' & fa' & o & Hc & Hag & Ho).
  unfold alloc_contiguous. erewrite with_frames_Ok by done. rewrite bind_Ok.
  eexists _, o. split; [done|]. split; [done|]. destruct o as [a|].
  - destruct Ho as (_ & Hu & A' & HA & HR'). exists A'. split; [done|].
    exists fa'. rewrite HA, length_app, length_run_frames in Hlen. simpl.
    repeat split; try done; lia.
  - destruct Ho as (_ & Hu & HR'). exists fa'. simpl. repeat split; try done; lia.
Qed.

(** [init] makes every usable frame the allocator's. *)
Lemma init_frames_spec regions k :
  map_ok regions ->
  exists k', init_frames regions k = Ok (k', Z.of_nat (length (usable_frames regions))) /\
    k_if k' = k_if k /\ k_mem k' = k_mem k /\ HEAP k' = HEAP k /\
    (usable_frames regions <> [] -> Owns k' (usable_frames regions) 0) /\
    (usable_frames regions = [] -> k' = k).
Proof.
  intros Hmap. destruct (frame_init_spec (k_mem k) regions Hmap) as (o & Hi & Ho).
  unfold init_frames. rewrite Hi, bind_Ok. destruct o as [fa|].
  - destruct Ho as (Hne & HR & Hu & _). rewrite without_interrupts_masked, !bind_Ok.
    eexists. split; [done|]. assert (forall k : kernel, k_if (if k_if k then sti (masked k) else masked k) = k_if k)
      as Hif by (by intros [[]]).
    destruct k as [b m fo h]. unfold sti; simpl. split; [by destruct b|]. split; [by destruct b|].
    split; [by destruct b|]. split; [|done]. intros _. exists fa.
    split; [by destruct b|]. split; [by destruct b|]. split; [done|]. split; [done|].
    pose proof (frames_count _ (NoDup_usable_frames _ Hmap) (usable_frames_ok _ Hmap)). lia.
  - exists k. rewrite Ho. split; [done|]. by repeat split.
Qed.

Lemma only_frames_trans k1 k2 k3 P Q R :
  only_frames k1 k2 P -> only_frames k2 k3 Q -> (forall x, P x \/ Q x -> R x) -> only_frames k1 k3 R.
Proof.
  intros (I1 & H1 & M1) (I2 & H2 & M2) HR. split; [congruence|]. split; [congruence|].
  etrans; (eapply mem_agree_mono; [|eassumption]); intros x Hn Hx; apply Hn, HR; auto.
Qed.

(** A stretch ahead of the cursor holds [n] frames. *)
Definition room (k : kernel) (n : Z) : Prop := exists fa, FRAMES k = Some fa /\ fits fa n.

Lemma room_Some k fa n : FRAMES k = Some fa -> room k n <-> fits fa n.
Proof. intros Hk. unfold room. rewrite Hk. split; [by intros (g & [= <-] & Hg)|by exists fa]. Qed.

Lemma init_frames_room regions k k' total n :
  map_ok regions -> init_frames regions k = Ok (k', total) -> usable_frames regions <> [] ->
  room k' n <-> has_run regions n.
Proof.
  intros Hmap Hi Hne. destruct (frame_init_spec ∅ regions Hmap) as (o & Ho & Hs). unfold init_frames in Hi.
  rewrite Ho, bind_Ok in Hi. destruct o as [fa|]; [|done].
  rewrite without_interrupts_masked, !bind_Ok in Hi. injection Hi as <- _.
  rewrite <- (frame_init_fits _ _ _ n Hmap Ho). apply room_Some. unfold sti. by destruct k as [[]].
Qed.

Lemma alloc_frame_room k A i k' f n :
  Owns k A i -> 0 <= n -> alloc_frame k = Ok (k', Some f) ->
  (room k (n + 1) -> room k' n) /\ (room k' n -> room k n).
Proof.
  intros (fa & Hk & HR & _ & H0 & Hlen) Hn Ha.
  destruct (alloc (k_mem k) fa) as [[[m' fa'] o]|[]| |] eqn:E; unfold alloc_frame, with_frames in Ha;
    rewrite without_interrupts_masked in Ha; simpl in Ha; rewrite Hk, E in Ha; try discriminate Ha.
  rewrite !bind_Ok in Ha. injection Ha as <- Ho. simpl in Ho. subst o.
  destruct (alloc_room _ _ _ _ _ _ n HR Hn E) as [H1 H2].
  rewrite !(room_Some k fa) by done. erewrite room_Some; [by split|]. unfold sti. by destruct k as [[]].
Qed.

Lemma dealloc_frame_room f k A i k' n : Owns k A i -> dealloc_frame f k = Ok k' -> room k' n <-> room k n.
Proof.
  intros (fa & Hk & _) Hd. unfold dealloc_frame in Hd. erewrite with_frames_Ok in Hd; [|exact Hk|reflexivity].
  rewrite bind_Ok in Hd. injection Hd as <-. rewrite (room_Some k fa) by done. erewrite room_Some; [|reflexivity]. done.
Qed.

(** The self-test's steps on the runs ahead of the cursor, and on memory:
    [k1] to [k8] are the states between its calls. *)
Lemma selftest_room k k1 k5 k6 k7 k8 A A1 A2 n f g c :
  Owns k A n -> alloc_frame k = Ok (k1, Some f) -> FRAMES k5 = FRAMES k1 -> Owns k5 A1 (n + 1) ->
  alloc_frame k5 = Ok (k6, Some g) -> Owns k6 A2 (n + 1 + 1) -> dealloc_frame g k6 = Ok k7 ->
  Owns k7 (g :: A2) (n + 1 + 1 - 1) -> dealloc_frame f k7 = Ok k8 -> 0 <= c ->
  (room k (c + 2) -> room k8 c) /\ (room k8 c -> room k c).
Proof.
  intros HO Ha HF HO5 Ha6 HO6 Hd7 HO7 Hd8 Hc. destruct (alloc_frame_room _ _ _ _ _ (c + 1) HO ltac:(lia) Ha) as [R1 _].
  destruct (alloc_frame_room _ _ _ _ _ c HO Hc Ha) as [_ R1'].
  destruct (alloc_frame_room _ _ _ _ _ c HO5 Hc Ha6) as [R6 R6'].
  pose proof (dealloc_frame_room _ _ _ _ _ c HO6 Hd7). pose proof (dealloc_frame_room _ _ _ _ _ c HO7 Hd8).
  assert (forall i, room k5 i <-> room k1 i) as R5 by (intros i; unfold room; by rewrite HF).
  replace (c + 2) with (c + 1 + 1) by lia. specialize (R5 c) as R5c. specialize (R5 (c + 1)). tauto.
Qed.

Lemma selftest_frames k k1 k3 k5 k6 k7 k8 A A1 A2 f g :
  A ≡ₚ f :: A1 -> A1 ≡ₚ g :: A2 -> only_frames k k1 (owned A) -> only_frames k1 k3 (owned [f]) ->
  only_frames k3 k5 (owned [f]) -> only_frames k5 k6 (owned A1) -> only_frames k6 k7 (owned [g]) ->
  only_frames k7 k8 (owned [f]) -> only_frames k k8 (owned A).
Proof.
  intros HA1 HA2 Hf1 Hf3 Hf5 Hf6 Hf7 Hf8.
  assert (forall x, owned [f] x -> owned A x) as HinF.
  { intros x. rewrite HA1, !owned_cons. intros [?|(? & ?%elem_of_nil & _)]; [by left|done]. }
  assert (forall x, owned A1 x -> owned A x) as HinA by (intros x; rewrite HA1, owned_cons; by right).
  assert (forall x, owned [g] x -> owned A x) as HinG.
  { intros x Hx. apply HinA. revert Hx. rewrite HA2, !owned_cons. intros [?|(? & ?%elem_of_nil & _)]; [by left|done]. }
  eapply only_frames_trans; [exact Hf1| |intros x [?|Hx]; [done|exact Hx]].
  eapply only_frames_trans; [exact Hf3| |intros x [?|Hx]; [by apply HinF|exact Hx]].
  eapply only_frames_trans; [exact Hf5| |intros x [?|Hx]; [by apply HinF|exact Hx]].
  eapply only_frames_trans; [exact Hf6| |intros x [?|Hx]; [by apply HinA|exact Hx]].
  eapply only_frames_trans; [exact Hf7|exact Hf8|]. intros x [?|?]; [by apply HinG|by apply HinF].
Qed.

(** The self-test's outcome, by how many frames it has to work with. *)
Lemma frame_selftest_spec k A n :
  Owns k A n ->
  match A with
  | [] => frame_selftest k = Err "alloc_frame returned None on a fresh allocator"%string
  | [_] => frame_selftest k = Err "alloc_frame returned None for the second of two frames"%string
  | _ => exists k' B, frame_selftest k = Ok k' /\ Owns k' B n /\ B ≡ₚ A /\ only_frames k k' (owned A) /\
      forall c, 0 <= c -> (room k (c + 2) -> room k' c) /\ (room k' c -> room k c)
  end.
Proof.
  intros HO. destruct (alloc_frame_spec k A n HO) as (k1 & o & Ha & Hf1 & Ho).
  unfold frame_selftest. rewrite Ha. simpl lift. rewrite bind_Ok.
  destruct o as [f|]; [|destruct Ho as [-> _]; done].
  destruct Ho as (A1 & HA1 & HO1). simpl ok_or. rewrite bind_Ok.
  pose proof (Owns_ok _ _ _ HO) as Hok. pose proof (Owns_NoDup _ _ _ HO) as Hnd.
  rewrite HA1 in Hok, Hnd. apply Forall_cons in Hok as [Hf Hok]. apply NoDup_cons in Hnd as [Hnf Hnd].
  assert ((f mod PAGE_SIZE =? 0) = true) as -> by (apply Z.eqb_eq; apply Hf).
  assert ((f =? 0) = false) as -> by (apply Z.eqb_neq; unfold frame_ok, PAGE_SIZE in Hf; lia).
  simpl ensure. rewrite !bind_Ok.
  assert (0 < n + 1) as Hn by (destruct HO as (? & _ & _ & _ & ? & _); lia).
  destruct (realloc_frame k1 A1 (n + 1) f HO1 Hf Hnf Hn) as (k2 & k3 & -> & Ha2 & HO3 & Hf3 & Hr3).
  simpl lift. rewrite bind_Ok, Ha2. simpl lift. rewrite bind_Ok. simpl ok_or. rewrite bind_Ok, Z.eqb_refl.
  simpl ensure. rewrite bind_Ok.
  destruct (realloc_frame k3 A1 (n + 1) f HO3 Hf Hnf Hn) as (k4 & k5 & -> & Ha4 & HO5 & Hf5 & Hr5).
  simpl lift. rewrite bind_Ok, Ha4. simpl lift. rewrite bind_Ok. simpl ok_or. rewrite bind_Ok.
  destruct (alloc_frame_spec k5 A1 (n + 1) HO5) as (k6 & o & Ha6 & Hf6 & Ho). rewrite Ha6. simpl lift. rewrite bind_Ok.
  destruct o as [g|]; simpl ok_or.
  2: { destruct Ho as [-> _]. apply Permutation_singleton_r in HA1 as ->. done. }
  destruct Ho as (A2 & HA2 & HO6). rewrite bind_Ok. rewrite HA2 in Hnf, Hok, Hnd.
  apply Forall_cons in Hok as [Hg Hok]. apply NoDup_cons in Hnd as [Hng Hnd].
  assert ((f =? g) = false) as -> by (apply Z.eqb_neq; set_solver).
  simpl ensure. rewrite bind_Ok.
  destruct (dealloc_frame_spec k6 A2 _ g HO6 Hg Hng) as (k7 & Hd7 & HO7 & Hf7); [lia|]. rewrite Hd7.
  simpl lift. rewrite bind_Ok.
  destruct (dealloc_frame_spec k7 _ _ f HO7 Hf Hnf) as (k8 & Hd8 & HO8 & Hf8); [lia|]. rewrite Hd8.
  simpl lift. rewrite bind_Ok.
  assert (f :: g :: A2 ≡ₚ A) as HB by (by rewrite HA1, HA2).
  replace (n + 1 + 1 - 1 - 1) with n in HO8 by lia.
  destruct A as [|a [|b A]]; [by apply Permutation_nil_r in HB|by apply Permutation_length in HB|].
  exists k8, (f :: g :: A2). split; [done|]. split; [done|]. split; [done|].
  split; [by apply (selftest_frames k k1 k3 k5 k6 k7 k8 _ A1 A2 f g)|].
  intros c Hc. apply (selftest_room k k1 k5 k6 k7 k8 (a :: b :: A) A1 A2 n f g c); try done. congruence.
Qed.

Lemma frame_selftest_length k A n :
  Owns k A n ->
  match length A with
  | O => frame_selftest k = Err "alloc_frame returned None on a fresh allocator"%string
  | 1%nat => frame_selftest k = Err "alloc_frame returned None for the second of two frames"%string
  | _ => exists k' B, frame_selftest k = Ok k' /\ Owns k' B n /\ B ≡ₚ A /\ only_frames k k' (owned A) /\
      forall c, 0 <= c -> (room k (c + 2) -> room k' c) /\ (room k' c -> room k c)
  end.
Proof. intros HO. pose proof (frame_selftest_spec k A n HO) as H. by destruct A as [|? [|? ?]]. Qed.

(** ** Properties *)

(** [init] on a well-formed memory map makes the allocator the owner of
    exactly the whole, aligned, non-null frames of the CONVENTIONAL regions,
    each once, and returns their number; when there are none it returns 0 and
    leaves the static empty, so that every later request answers [None]. *)
Theorem init_frames_exact regions k :
  map_ok regions ->
  exists k' A, init_frames regions k = Ok (k', Z.of_nat (length A)) /\ k_if k' = k_if k /\
    NoDup A /\ Forall frame_ok A /\
    (forall f, f ∈ A <-> Exists (fun r => frame_usable r f) regions) /\
    (A <> [] -> Owns k' A 0) /\
    (A = [] -> FRAMES k = None -> alloc_frame k' = Ok (k', None) /\
       forall n, alloc_contiguous n k' = Ok (k', None)).
Proof.
  intros Hmap. destruct (init_frames_spec regions k Hmap) as (k' & Hi & Hif & _ & _ & HO & Hk).
  exists k', (usable_frames regions). split; [done|]. split; [done|].
  split; [by apply NoDup_usable_frames|]. split; [by apply usable_frames_ok|].
  split; [intros f; apply elem_of_usable_frames, Hmap|]. split; [done|].
  intros He Hn. rewrite <- (Hk He) in Hn. split.
  - unfold alloc_frame. by rewrite with_frames_None.
  - intros n. unfold alloc_contiguous. by rewrite with_frames_None.
Qed.

(** C23: [alloc_contiguous] loses nothing. When some remaining stretch of the
    map is long enough the answer is [frames] consecutive frames, all of them
    owned before, and every other frame stays allocatable: the tails of the
    runs stepped over are on the free stack. When none is, the answer is
    [None] and the allocator still owns every frame it had. *)
Theorem alloc_contiguous_keeps_tails k A n frames :
  Owns k A n -> 0 <= frames -> frames * PAGE_SIZE < 2 ^ 64 ->
  exists k' o fa, alloc_contiguous frames k = Ok (k', o) /\ FRAMES k = Some fa /\
    only_frames k k' (owned A) /\
    match o with
    | Some a => fits fa frames /\
        exists A', A ≡ₚ run_frames a frames ++ A' /\ Owns k' A' (n + frames)
    | None => ~ fits fa frames /\ Owns k' A n
    end.
Proof.
  intros HO Hf Hw. destruct (alloc_contiguous_spec k A n frames HO Hf Hw) as (k' & o & Ha & Hof & Ho).
  destruct HO as (fa & Hk & HR & Hn & H0 & Hlen). subst n.
  exists k', o, fa. do 3 (split; [done|]).
  destruct (contiguous_spec (k_mem k) fa A frames HR Hf Hw H0 Hlen)
    as (m' & fa' & o' & Hc & _ & Ho').
  unfold alloc_contiguous in Ha. erewrite with_frames_Ok in Ha by done.
  rewrite bind_Ok in Ha. simplify_eq. destruct o as [a|]; simpl in *; by destruct Ho'.
Qed.

(** The free stack is last in, first out through the entry points: a
    frame returned is the next one handed out, and the allocator is then back
    in the abstract state it had. *)
Theorem dealloc_alloc_same_frame k A n f :
  Owns k A n -> frame_ok f -> f ∉ A -> 0 < n ->
  exists k1 k2, dealloc_frame f k = Ok k1 /\ Owns k1 (f :: A) (n - 1) /\
    alloc_frame k1 = Ok (k2, Some f) /\ Owns k2 A n /\ only_frames k k2 (owned [f]).
Proof.
  intros HO Hf HA Hn. destruct (dealloc_frame_spec k A n f HO Hf HA Hn) as (k1 & H1 & HO1 & _).
  destruct (realloc_frame k A n f HO Hf HA Hn) as (k1' & k2 & H1' & H2 & HO2 & Hof & _).
  rewrite H1 in H1'. simplify_eq. by exists k1', k2.
Qed.

(** The boot self-test passes exactly when two frames are available, and
    then leaves every frame with the allocator; with fewer it reports the
    failing request, and in no case panics. *)
Theorem frame_selftest_exact k A n :
  Owns k A n ->
  match length A with
  | O => frame_selftest k = Err "alloc_frame returned None on a fresh allocator"%string
  | 1%nat => frame_selftest k = Err "alloc_frame returned None for the second of two frames"%string
  | _ => exists k' B, frame_selftest k = Ok k' /\ Owns k' B n /\ B ≡ₚ A /\ k_if k' = k_if k
  end.
Proof.
  intros HO. pose proof (frame_selftest_length k A n HO) as H. destruct (length A) as [|[|?]]; [done|done|].
  destruct H as (k' & B & Hr & HO' & HB & Hof & _). exists k', B. by destruct Hof.
Qed.

(** [n] requests for one frame, as long as they are served. *)
Fixpoint take_frames (n : nat) (k : kernel) : res (kernel * list Z) :=
  match n with
  | O => Ok (k, [])
  | S n =>
      '(k, o) ← alloc_frame k;
      match o with
      | None => Ok (k, [])
      | Some f => '(k, fs) ← take_frames n k; Ok (k, f :: fs)
      end
  end.

(** A request served from the current run. *)
Lemma alloc_frame_bump k fa :
  FRAMES k = Some fa -> free fa = None -> 0 <= cursor fa -> cursor fa + PAGE_SIZE <= run_end fa -> run_end fa < 2 ^ 64 ->
  0 <= in_use fa -> in_use fa + 1 < 2 ^ 64 ->
  alloc_frame k = Ok (set_frames (k_mem k) (Some (set_in_use (in_use fa + 1) (set_cursor (cursor fa + PAGE_SIZE) fa))) k,
    Some (cursor fa)).
Proof.
  intros Hk Hfr Hc He Ht Hi Hi1. unfold alloc_frame.
  erewrite with_frames_Ok; [|exact Hk|].
  2: { unfold alloc. rewrite Hfr. unfold bump, checked_mul.
    change (1 * PAGE_SIZE <? 2 ^ 64) with true. cbv iota.
    assert ((1 * PAGE_SIZE <=? saturating_sub (run_end fa) (cursor fa)) = true) as Hw
      by (unfold saturating_sub, PAGE_SIZE in *; lia).
    assert (forall n, bump_loop n (k_mem k) fa (1 * PAGE_SIZE) =
      Ok (k_mem k, set_cursor (cursor fa + PAGE_SIZE) fa, Some (cursor fa))) as ->.
    { intros n. destruct n; cbn [bump_loop]; rewrite Hw, add_u_ok by (unfold PAGE_SIZE in *; lia); reflexivity. }
    rewrite bind_Ok. cbn [in_use set_cursor]. rewrite add_u_ok, bind_Ok by lia. reflexivity. }
  rewrite bind_Ok. reflexivity.
Qed.

(** The next request when that run is used up and ends a page below the top of
    the address space. *)
Lemma alloc_frame_overflows k fa :
  FRAMES k = Some fa -> free fa = None -> cursor fa = run_end fa -> run_end fa = 2 ^ 64 - PAGE_SIZE ->
  alloc_frame k = Panic.
Proof.
  intros Hk Hfr Hc He. unfold alloc_frame, with_frames. rewrite without_interrupts_masked. simpl FRAMES.
  rewrite Hk. simpl k_mem. unfold alloc. rewrite Hfr. unfold bump, checked_mul.
  change (1 * PAGE_SIZE <? 2 ^ 64) with true. cbv iota.
  assert ((1 * PAGE_SIZE <=? saturating_sub (run_end fa) (cursor fa)) = false) as Hw
    by (unfold saturating_sub, PAGE_SIZE in *; lia).
  assert (forall n, strand n (k_mem k) fa = Panic) as Hs.
  { intros n. assert (add_u (E := Empty_set) 64 (cursor fa) PAGE_SIZE = Panic) as Ha
      by (unfold add_u, PAGE_SIZE in *; rewrite Hc, He; reflexivity).
    destruct n; cbn [strand]; by rewrite Ha. }
  assert (forall n, bump_loop n (k_mem k) fa (1 * PAGE_SIZE) = Panic) as ->; [|reflexivity].
  intros n. destruct n; cbn [bump_loop]; rewrite Hw, Hs; reflexivity.
Qed.

(** C39: the bump cursor's limit check overflows at the top of the address
    space. In any state of the allocator with no returned frames, whose current
    run ends a page below the top, every frame left in the run is handed out in
    order, and the request after the last computes [cursor + PAGE_SIZE] at 2^64
    and panics, whatever regions are still to come: where the iterator it walks
    was written to skip what overflows, and [alloc_frame] promises [None] on
    exhaustion. *)
Theorem alloc_frame_top_of_memory_panics k fa n :
  FRAMES k = Some fa -> free fa = None -> run_end fa = 2 ^ 64 - PAGE_SIZE -> 0 <= cursor fa ->
  cursor fa + Z.of_nat n * PAGE_SIZE = run_end fa -> 0 <= in_use fa -> in_use fa + Z.of_nat n < 2 ^ 64 ->
  exists k', take_frames n k = Ok (k', run_frames (cursor fa) (Z.of_nat n)) /\ alloc_frame k' = Panic.
Proof.
  revert k fa. induction n as [|n IH]; intros k fa Hk Hfr He Hc Hn Hi Hi1.
  - exists k. split; [done|]. apply (alloc_frame_overflows k fa); [done|done|lia|done].
  - cbn [take_frames]. rewrite (alloc_frame_bump k fa), bind_Ok by (done || unfold PAGE_SIZE in *; lia).
    set (fa1 := set_in_use (in_use fa + 1) (set_cursor (cursor fa + PAGE_SIZE) fa)).
    destruct (IH (set_frames (k_mem k) (Some fa1) k) fa1) as (k' & Hr & Hp); [reflexivity|..].
    + exact Hfr.
    + exact He.
    + subst fa1. cbn [cursor set_in_use set_cursor]. unfold PAGE_SIZE in *. lia.
    + subst fa1. cbn [cursor run_end set_in_use set_cursor]. unfold PAGE_SIZE in *. lia.
    + subst fa1. cbn [in_use set_in_use]. lia.
    + subst fa1. cbn [in_use set_in_use]. lia.
    + exists k'. rewrite Hr, bind_Ok. split; [|exact Hp]. subst fa1. cbn [cursor set_in_use set_cursor].
      rewrite (run_frames_cons (cursor fa) (Z.of_nat (S n))) by lia. by replace (Z.of_nat (S n) - 1) with (Z.of_nat n) by lia.
Qed.

(** The two frames below the last page of the address space, as [init] takes
    them over from a map that has them. *)
Lemma alloc_frame_top_of_memory_panics_witness : exists k k',
  init_frames [MemoryRegion_new (2 ^ 64 - 12288) 2 CONVENTIONAL] (Kernel false ∅ None {| head := 0 |}) = Ok (k, 2) /\
  take_frames 2 k = Ok (k', [2 ^ 64 - 12288; 2 ^ 64 - 8192]) /\ alloc_frame k' = Panic.
Proof.
  set (fa := {| runs := UsableRegions_new [MemoryRegion_new (2 ^ 64 - 12288) 2 CONVENTIONAL]; cursor := 2 ^ 64 - 12288;
    run_end := 2 ^ 64 - PAGE_SIZE; free := None; in_use := 0 |}).
  set (fa1 := set_run (snd (next (runs fa))) (cursor fa) (run_end fa) fa).
  set (k1 := Kernel false ∅ (Some fa1) {| head := 0 |}).
  destruct (alloc_frame_top_of_memory_panics k1 fa1 2 eq_refl eq_refl eq_refl) as (k' & Hr & Hp).
  1-4: vm_compute; (reflexivity || discriminate).
  exists k1, k'. split; [vm_compute; reflexivity|]. split; [rewrite Hr; reflexivity|exact Hp].
Defined.

(** ** Instances: four usable frames in two runs *)

Definition demo_regions : list MemoryRegion :=
  [MemoryRegion_new 0x1000 1 CONVENTIONAL; MemoryRegion_new 0x5800 4 CONVENTIONAL].

Definition demo_kernel0 : kernel := Kernel true ∅ None {| head := 0 |}.

Definition demo_kernel1 : kernel :=
  match init_frames demo_regions demo_kernel0 with Ok (k, _) => k | _ => demo_kernel0 end.

Lemma demo_regions_ok : map_ok demo_regions.
Proof.
  split; [by repeat constructor; vm_compute|]. split.
  - repeat constructor; intros run [= <-]; by vm_compute.
  - split; [|by repeat constructor]. constructor; [left; by vm_compute|constructor].
Defined.

Lemma demo_kernel1_owns : Owns demo_kernel1 [0x1000; 0x6000; 0x7000; 0x8000] 0.
Proof.
  destruct (init_frames_spec demo_regions demo_kernel0 demo_regions_ok)
    as (k' & Hi & _ & _ & _ & HO & _).
  unfold demo_kernel1. rewrite Hi. by apply HO.
Defined.

Lemma init_frames_exact_witness :
  exists k' (A : list Z), init_frames demo_regions demo_kernel0 = Ok (k', Z.of_nat (length A)) /\ NoDup A.
Proof.
  destruct (init_frames_exact demo_regions demo_kernel0 demo_regions_ok) as (k' & A & H & _ & Hn & _).
  by exists k', A.
Defined.

Lemma alloc_contiguous_keeps_tails_witness :
  exists k' A', alloc_contiguous 2 demo_kernel1 = Ok (k', Some 0x6000) /\ Owns k' A' 2 /\
    0x1000 ∈ A'.
Proof.
  destruct (alloc_contiguous_keeps_tails demo_kernel1 _ 0 2 demo_kernel1_owns)
    as (k' & o & fa & H & _ & _ & Ho); [done|done|].
  assert (o = Some 0x6000) as ->.
  { assert (match alloc_contiguous 2 demo_kernel1 with Ok (_, o) => o | _ => None end = Some 0x6000)
      as E by (vm_compute; reflexivity). by rewrite H in E. }
  destruct Ho as (_ & A' & HA & HO). exists k', A'. split; [done|]. split; [done|].
  assert (0x1000 ∈ run_frames 0x6000 2 ++ A') as Hin by (rewrite <- HA; set_solver).
  apply elem_of_app in Hin as [Hin|]; [|done]. apply elem_of_run_frames in Hin as (i & Hi & ?).
  unfold PAGE_SIZE in Hi. lia.
Defined.

(** The same kernel with its first frame out. *)
Definition demo_kernel2 : kernel :=
  match alloc_frame demo_kernel1 with Ok (k, _) => k | _ => demo_kernel1 end.

Lemma demo_kernel2_owns : exists A, Owns demo_kernel2 A 1 /\ 0x1000 ∉ A.
Proof.
  destruct (alloc_frame_spec _ _ _ demo_kernel1_owns) as (k' & o & H & _ & Ho).
  assert (o = Some 0x1000) as ->.
  { assert (match alloc_frame demo_kernel1 with Ok (_, o) => o | _ => None end = Some 0x1000)
      as E by (vm_compute; reflexivity). by rewrite H in E. }
  destruct Ho as (A' & HA & HO). unfold demo_kernel2. rewrite H. exists A'. split; [done|].
  pose proof (Owns_NoDup _ _ _ demo_kernel1_owns) as Hnd. rewrite HA in Hnd. by apply NoDup_cons in Hnd as [? _].
Defined.

Lemma dealloc_alloc_same_frame_witness : exists k1 k2,
  dealloc_frame 0x1000 demo_kernel2 = Ok k1 /\ alloc_frame k1 = Ok (k2, Some 0x1000).
Proof.
  destruct demo_kernel2_owns as (A & HO & Hn).
  destruct (dealloc_alloc_same_frame demo_kernel2 A 1 0x1000 HO) as (k1 & k2 & H1 & _ & H2 & _);
    [by vm_compute|done|done|]. by exists k1, k2.
Defined.

Lemma frame_selftest_exact_witness : exists k', frame_selftest demo_kernel1 = Ok k'.
Proof.
  destruct (frame_selftest_exact demo_kernel1 _ 0 demo_kernel1_owns) as (k' & _ & H & _).
  by exists k'.
Defined.
