(* ===== verification/HeapApi.v ===== *)
(** The public entry points of [kernel/src/heap.rs] — the global allocator,
    initialisation and the two gauges — behind their critical sections, and
    the interface through which the heap takes its backing memory. *)
From S2P Require Import Prelude Memory BootInfo Frame Heap Interrupts FrameApi.

(** ** Entry points *)

(** [GlobalAlloc::alloc] and [GlobalAlloc::dealloc]; [fuel] bounds the list
    walks. *)
Definition global_alloc (fuel : nat) (layout : Layout) (k : kernel) : res (kernel * Z) :=
  without_interrupts (fun k =>
    '(m, h, p) ← heap_alloc fuel (k_mem k) (HEAP k) layout;
    Ok (set_heap m h k, p)) k.

Definition global_dealloc (fuel : nat) (ptr : Z) (layout : Layout) (k : kernel) : res kernel :=
  '(k, _) ← without_interrupts (fun k =>
    '(m, h) ← heap_dealloc fuel (k_mem k) (HEAP k) ptr layout;
    Ok (set_heap m h k, tt)) k;
  Ok k.

Definition free_bytes (fuel : nat) (k : kernel) : res (kernel * Z) :=
  without_interrupts (fun k =>
    n ← heap_free_bytes fuel (k_mem k) (HEAP k);
    Ok (k, n)) k.

Definition free_blocks (fuel : nat) (k : kernel) : res (kernel * Z) :=
  without_interrupts (fun k =>
    n ← heap_free_blocks fuel (k_mem k) (HEAP k);
    Ok (k, n)) k.

(** What the heap asks of whoever provides its memory: a request either fails
    or yields page-aligned, non-null memory that the provider owned, gives up
    entirely, and never touches again. *)
Class FrameSource := {
  take : Z -> kernel -> res (kernel * option Z);
  source_ok : kernel -> Prop;
  source_owns : kernel -> Z -> Prop;
  take_spec frames k : source_ok k -> 0 < frames -> frames * PAGE_SIZE < 2 ^ 64 ->
    exists k' o, take frames k = Ok (k', o) /\ only_frames k k' (source_owns k) /\
      match o with
      | Some a => a mod PAGE_SIZE = 0 /\ PAGE_SIZE <= a /\ a + frames * PAGE_SIZE < 2 ^ 64 /\
          (forall x, range a (frames * PAGE_SIZE) x -> source_owns k x /\ ~ source_owns k' x)
      | None => True
      end /\ source_ok k' /\ (forall x, source_owns k' x -> source_owns k x);
  source_frame k k' : source_ok k -> FRAMES k' = FRAMES k ->
    mem_agree (source_owns k) (k_mem k) (k_mem k') ->
    source_ok k' /\ (forall x, source_owns k' x <-> source_owns k x);
}.

(** [heap::init]. *)
Definition init_heap `{FrameSource} (k : kernel) : res (kernel * option (Z * Z)) :=
  '(k, o) ← take HEAP_FRAMES k;
  match o with
  | None => Ok (k, None)
  | Some start =>
      size ← mul_u 64 HEAP_FRAMES PAGE_SIZE;
      '(k, _) ← without_interrupts (fun k =>
        let '(m, h) := heap_init (k_mem k) start size in
        Ok (set_heap m h k, tt)) k;
      Ok (k, Some (start, size))
  end.

(** Enough fuel for any list in the heap's 1 MiB: blocks span at least 16
    bytes. *)
Definition HEAP_BYTES : Z := HEAP_FRAMES * PAGE_SIZE.
Definition WALK_FUEL : nat := Z.to_nat (HEAP_BYTES / GRAIN + 1).

(** ** The frame allocator as the provider *)

#[export] Instance frame_source : FrameSource.
Proof.
  refine {| take := alloc_contiguous;
            source_ok k := exists A n, Owns k A n;
            source_owns k x := exists A n, Owns k A n /\ owned A x |}.
  - intros frames k (A & n & HO) Hpos Hw.
    assert (forall x, (exists B n, Owns k B n /\ owned B x) <-> owned A x) as Hown.
    { intros x. split; [|by eauto]. intros (B & n' & HB & Hx).
      destruct (Owns_det _ _ _ _ _ HO HB) as [HAB _]. by rewrite HAB. }
    destruct (alloc_contiguous_spec k A n frames HO ltac:(lia) Hw) as (k' & o & Ha & (H1 & H2 & Hag) & Ho).
    exists k', o. split; [done|]. split; [split; [done|split; [done|]]|].
    { eapply mem_agree_mono; [|exact Hag]. intros x. by rewrite Hown. }
    destruct o as [a|].
    + destruct Ho as (A' & HA & HO').
      assert (forall x, (exists B n, Owns k' B n /\ owned B x) <-> owned A' x) as Hown'.
      { intros x. split; [|by eauto]. intros (B & n' & HB & Hx).
        destruct (Owns_det _ _ _ _ _ HO' HB) as [HAB _]. by rewrite HAB. }
      pose proof (Owns_ok _ _ _ HO) as Hok. pose proof (Owns_NoDup _ _ _ HO) as Hnd.
      rewrite HA in Hok, Hnd. split; [|split; [by eauto|]].
      * assert (forall i, 0 <= i < frames -> frame_ok (a + i * PAGE_SIZE)) as Hfr.
        { intros i Hi. apply Forall_app in Hok as [Hok _]. rewrite Forall_forall in Hok.
          apply Hok, elem_of_run_frames. by exists i. }
        destruct (Hfr 0 ltac:(lia)) as (Hz & Hl & _). destruct (Hfr (frames - 1) ltac:(lia)) as (_ & _ & Hh).
        rewrite Z.mul_0_l, Z.add_0_r in Hz, Hl. split; [done|]. split; [done|].
        split; [unfold PAGE_SIZE in *; lia|]. intros x Hx. rewrite Hown, Hown', HA.
        apply owned_run_frames in Hx. split; [apply owned_app; by left|].
        by eapply owned_disjoint.
      * intros x. rewrite Hown, Hown', HA, owned_app. by right.
    + split; [done|]. split; [by eauto|]. intros x (B & n' & HB & Hx).
      destruct (Owns_det _ _ _ _ _ Ho HB) as [HAB _]. rewrite Hown, HAB. done.
  - intros k k' (A & n & HO) Hfr Hag.
    assert (Owns k' A n) as HO'.
    { eapply Owns_agree; [done|done|]. eapply mem_agree_mono; [|exact Hag]. intros x Hx. by exists A, n. }
    split; [by eauto|]. intros x. split; intros (B & n' & HB & Hx).
    + destruct (Owns_det _ _ _ _ _ HO' HB) as [HAB _]. exists A, n. split; [done|by rewrite HAB].
    + destruct (Owns_det _ _ _ _ _ HO HB) as [HAB _]. exists A, n. split; [done|by rewrite HAB].
Defined.

(** ** The heap against the interface *)

Section Provider.
Context `{FrameSource}.

Lemma HEAP_BYTES_facts : HEAP_BYTES mod GRAIN = 0 /\ GRAIN <= HEAP_BYTES /\ HEAP_BYTES < 2 ^ 64.
Proof. repeat split; vm_compute; congruence. Qed.

(** [init] arms a one-block heap over memory the provider has given up. *)
Lemma init_heap_spec k :
  source_ok k ->
  exists k' o, init_heap k = Ok (k', o) /\ k_if k' = k_if k /\
    mem_agree (fun x => ~ source_owns k x) (k_mem k) (k_mem k') /\ source_ok k' /\
    (forall x, source_owns k' x -> source_owns k x) /\
    match o with
    | Some (start, size) => size = HEAP_BYTES /\ start mod GRAIN = 0 /\ PAGE_SIZE <= start /\
        start + size < 2 ^ 64 /\
        (forall x, range start size x -> source_owns k x /\ ~ source_owns k' x) /\
        (start + size <= 2 ^ 63 ->
         Inv start (start + size) (k_mem k') (HEAP k') [(start, size)])
    | None => HEAP k' = HEAP k
    end.
Proof.
  intros Hok. destruct (take_spec HEAP_FRAMES k Hok) as (k1 & o & Ht & (Hif & Hh & Hag) & Ho & Hok1 & Hsub);
    [done|done|].
  unfold init_heap. rewrite Ht, bind_Ok. destruct o as [start|].
  - destruct Ho as (Hal & Hlo & Hhi & Hown).
    rewrite mul_u_ok, bind_Ok by done. fold HEAP_BYTES in *.
    destruct HEAP_BYTES_facts as (HB1 & HB2 & HB3).
    assert (start mod GRAIN = 0) as Hg.
    { eapply mod_divide_trans; [| |exists 256; reflexivity|exact Hal]; done. }
    rewrite without_interrupts_masked.
    destruct (heap_init (k_mem (masked k1)) start HEAP_BYTES) as [m h] eqn:Hi.
    rewrite !bind_Ok. simpl in Hi.
    set (k2 := if get_if k1 then _ else _).
    assert (k2 = Kernel (k_if k1) m (FRAMES k1) h) as Hk2.
    { unfold k2, sti. by destruct k1 as [[]]. }
    clearbody k2. subst k2. eexists _, _. split; [done|]. simpl. split; [done|].
    assert (mem_agree (fun x => ~ range start HEAP_BYTES x) (k_mem k1) m) as Hm.
    { unfold heap_init in Hi. injection Hi as <- _.
      eapply mem_agree_mono; [|apply write_FreeBlock_agree].
      intros x. unfold range. lia. }
    destruct (source_frame k1 (Kernel (k_if k1) m (FRAMES k1) h) Hok1) as [Hok2 Hown2]; [done| |].
    { eapply mem_agree_mono; [|exact Hm]. intros x Hx Hr. by apply (Hown x Hr). }
    split. { etrans; [exact Hag|]. eapply mem_agree_mono; [|exact Hm]. intros x Hn Hr. by apply Hn, Hown. }
    split; [done|]. split; [intros x Hx; by apply Hsub, Hown2|].
    split; [done|]. split; [done|]. split; [done|]. split; [done|]. split.
    + intros x Hx. rewrite Hown2. by apply Hown.
    + intros H63. pose proof (heap_init_spec start (start + HEAP_BYTES) ltac:(unfold PAGE_SIZE in *; lia)
        H63 (k_mem k1) HEAP_BYTES Hg HB1 HB2 eq_refl) as Hspec.
      rewrite Hi in Hspec. apply Hspec.
  - eexists _, None. split; [done|]. by repeat split.
Qed.
End Provider.

(** ** Properties *)

(** Against any provider that keeps the promises of [FrameSource],
    [heap::init] either reports [None] and leaves the heap unarmed, or returns
    a 1 MiB region of memory the provider owned and has given up, off the null
    page, with the heap's free list holding that region as its only block; it
    never panics, writes nowhere but in that memory, and the interrupt flag
    comes back as it was. *)
Theorem init_heap_arms `{FrameSource} k :
  source_ok k ->
  exists k' o, init_heap k = Ok (k', o) /\ k_if k' = k_if k /\
    mem_agree (fun x => ~ source_owns k x) (k_mem k) (k_mem k') /\ source_ok k' /\
    (forall x, source_owns k' x -> source_owns k x) /\
    match o with
    | Some (start, size) => size = 1048576 /\ start mod GRAIN = 0 /\ PAGE_SIZE <= start /\
        start + size < 2 ^ 64 /\
        (forall x, range start size x -> source_owns k x /\ ~ source_owns k' x) /\
        (start + size <= 2 ^ 63 ->
         Inv start (start + size) (k_mem k') (HEAP k') [(start, size)])
    | None => HEAP k' = HEAP k
    end.
Proof. exact (init_heap_spec k). Qed.

(** ** Instances: three hundred usable frames at 1 MiB *)

Definition demo_ram : list MemoryRegion := [MemoryRegion_new 0x100000 300 CONVENTIONAL].

Definition demo_seeded : kernel :=
  match init_frames demo_ram demo_kernel0 with Ok (k, _) => k | _ => demo_kernel0 end.

Lemma demo_ram_ok : map_ok demo_ram.
Proof.
  split; [by repeat constructor; vm_compute|]. split; [|by repeat constructor].
  repeat constructor. intros run [= <-]. by vm_compute.
Defined.

Lemma demo_seeded_run : init_frames demo_ram demo_kernel0 = Ok (demo_seeded, 300).
Proof. vm_compute. reflexivity. Qed.

Lemma demo_seeded_ok : source_ok demo_seeded.
Proof.
  destruct (init_frames_spec demo_ram demo_kernel0 demo_ram_ok) as (k' & Hi & _ & _ & _ & HO & _).
  rewrite demo_seeded_run in Hi. injection Hi as <-.
  exists (usable_frames demo_ram), 0. apply HO. by vm_compute.
Qed.

Lemma init_heap_arms_witness : exists k' o, init_heap demo_seeded = Ok (k', o).
Proof.
  destruct (init_heap_arms demo_seeded demo_seeded_ok) as (k' & o & H & _). by exists k', o.
Defined.
