(* ===== verification/KernelTrace.v ===== *)
(** Both allocators at work in one memory: any sequence of frame and heap
    requests, returns, client writes and changes of the interrupt flag, from
    the state [frame::init] and [heap::init] leave, and what holds of every
    state it reaches. *)
From stdpp Require Import relations.
From S2P Require Import Prelude Memory BootInfo Frame Heap HeapTrace Interrupts FrameApi HeapApi.

(** ** States and steps *)

(** The kernel, the frames out at its clients (the heap's own apart), and the
    live heap allocations. *)
Record system := System {
  sys_kernel : kernel;
  sys_out : list Z;
  sys_live : gmap Z Layout;
}.

Section Trace.
Context (fuel : nat).

Inductive system_step : system -> system -> Prop :=
| sys_alloc_frame k out live k' f :
    alloc_frame k = Ok (k', Some f) ->
    system_step (System k out live) (System k' (f :: out) live)
| sys_no_frame k out live k' :
    alloc_frame k = Ok (k', None) ->
    system_step (System k out live) (System k' out live)
| sys_alloc_contiguous k out live k' n a :
    0 <= n -> n * PAGE_SIZE < 2 ^ 64 -> alloc_contiguous n k = Ok (k', Some a) ->
    system_step (System k out live) (System k' (run_frames a n ++ out) live)
| sys_no_contiguous k out live k' n :
    0 <= n -> n * PAGE_SIZE < 2 ^ 64 -> alloc_contiguous n k = Ok (k', None) ->
    system_step (System k out live) (System k' out live)
| sys_dealloc_frame k out out' live k' f :
    out ≡ₚ f :: out' -> dealloc_frame f k = Ok k' ->
    system_step (System k out live) (System k' out' live)
| sys_alloc k out live k' l p :
    Layout_ok l -> global_alloc fuel l k = Ok (k', p) -> p <> 0 ->
    system_step (System k out live) (System k' out (<[p := l]> live))
| sys_alloc_null k out live k' l :
    Layout_ok l -> global_alloc fuel l k = Ok (k', 0) ->
    system_step (System k out live) (System k' out live)
| sys_dealloc k out live k' p l :
    live !! p = Some l -> global_dealloc fuel p l k = Ok k' ->
    system_step (System k out live) (System k' out (delete p live))
| sys_write k out live m :
    mem_agree (fun x => ~ (owned out x \/ live_bytes live x)) (k_mem k) m ->
    system_step (System k out live) (System (Kernel (k_if k) m (FRAMES k) (HEAP k)) out live)
| sys_flag k out live b :
    system_step (System k out live) (System (set_if b k) out live).

(** ** The heap's entry points as steps of the heap *)

Lemma masked_set_heap k m h : set_if (k_if k) (set_heap m h (masked k)) = set_heap m h k.
Proof. by destruct k. Qed.

Lemma global_alloc_Ok l k k' p :
  global_alloc fuel l k = Ok (k', p) ->
  exists m h, heap_alloc fuel (k_mem k) (HEAP k) l = Ok (m, h, p) /\ k' = set_heap m h k.
Proof.
  unfold global_alloc. rewrite without_interrupts_masked. simpl.
  destruct (heap_alloc fuel (k_mem k) (HEAP k) l) as [[[m h] q]|[]| |] eqn:Ha; try done.
  rewrite !bind_Ok. intros [= <- <-]. exists m, h. split; [done|]. by destruct k as [[]].
Qed.

Lemma global_alloc_run l k m h p :
  heap_alloc fuel (k_mem k) (HEAP k) l = Ok (m, h, p) ->
  global_alloc fuel l k = Ok (set_heap m h k, p).
Proof.
  intros Ha. unfold global_alloc. rewrite without_interrupts_masked. simpl.
  rewrite Ha, !bind_Ok. by destruct k as [[]].
Qed.

Lemma global_dealloc_run l k p m h :
  heap_dealloc fuel (k_mem k) (HEAP k) p l = Ok (m, h) ->
  global_dealloc fuel p l k = Ok (set_heap m h k).
Proof.
  intros Ha. unfold global_dealloc. rewrite without_interrupts_masked. simpl.
  rewrite Ha, !bind_Ok. by destruct k as [[]].
Qed.

Lemma global_dealloc_Ok l k k' p :
  global_dealloc fuel p l k = Ok k' ->
  exists m h, heap_dealloc fuel (k_mem k) (HEAP k) p l = Ok (m, h) /\ k' = set_heap m h k.
Proof.
  unfold global_dealloc. rewrite without_interrupts_masked. simpl.
  destruct (heap_dealloc fuel (k_mem k) (HEAP k) p l) as [[m h]|[]| |] eqn:Ha; try done.
  rewrite !bind_Ok. intros [= <-]. exists m, h. split; [done|]. by destruct k as [[]].
Qed.

End Trace.

(** ** The invariant *)

Section Invariant.
Context (base hi : Z) (pool : list Z).

(** Every frame of the pool is free or out, once, and off the heap's region;
    the heap's own invariant holds; the gauge counts the heap's frames and
    those out. *)
Record SInv (s : system) (A : list Z) (bl : blocks) : Prop := {
  sinv_frames : Owns (sys_kernel s) A (HEAP_FRAMES + Z.of_nat (length (sys_out s)));
  sinv_pool : A ++ sys_out s ≡ₚ pool;
  sinv_once : NoDup (A ++ sys_out s);
  sinv_ok : Forall frame_ok (A ++ sys_out s);
  sinv_apart x : owned (A ++ sys_out s) x -> ~ range base (hi - base) x;
  sinv_heap : HInv base hi (HeapState (k_mem (sys_kernel s)) (HEAP (sys_kernel s)) (sys_live s)) bl;
}.

(** A frame operation moves frames between the two sides and writes only to
    frames. *)
Lemma SInv_frames k out live A bl k' out' A' :
  SInv (System k out live) A bl -> only_frames k k' (owned (A ++ out)) ->
  Owns k' A' (HEAP_FRAMES + Z.of_nat (length out')) -> A' ++ out' ≡ₚ A ++ out ->
  SInv (System k' out' live) A' bl.
Proof.
  intros [HO Hpl Hnd Hok Hap HH] (Hif & Hh & Hag) HO' HA; simpl in *.
  split; simpl.
  - done.
  - by rewrite HA.
  - by rewrite HA.
  - by rewrite HA.
  - intros x. rewrite HA. apply Hap.
  - rewrite Hh. eapply HInv_agree; [exact HH|]. eapply mem_agree_mono; [|exact Hag].
    intros x Hc Ho. eapply (Hap x Ho), HInv_in_region; [exact HH|by left].
Qed.

(** Frame requests and returns. *)
Lemma SInv_alloc_frame k out live A bl k' o :
  SInv (System k out live) A bl -> alloc_frame k = Ok (k', o) ->
  match o with
  | Some f => exists A', A ≡ₚ f :: A' /\ SInv (System k' (f :: out) live) A' bl
  | None => A = [] /\ SInv (System k' out live) [] bl
  end.
Proof.
  intros HI Ha. destruct (alloc_frame_spec _ _ _ (sinv_frames _ _ _ HI)) as (k1 & o1 & He & Hof & Ho).
  simpl in He. rewrite Ha in He. simplify_eq. simpl in *.
  assert (only_frames k k1 (owned (A ++ out))) as Hof'.
  { destruct Hof as (H1 & H2 & H3). split; [done|]. split; [done|].
    eapply mem_agree_mono; [|exact H3]. intros x. apply not_owned_mono. set_solver. }
  destruct o1 as [f|].
  - destruct Ho as (A' & HA & HO'). exists A'. split; [done|].
    eapply SInv_frames; [exact HI|done| |].
    + simpl. by replace (HEAP_FRAMES + Z.of_nat (S (length out)))
        with (HEAP_FRAMES + Z.of_nat (length out) + 1) by lia.
    + by rewrite HA, <- Permutation_middle.
  - destruct Ho as [-> HO']. split; [done|]. by eapply SInv_frames.
Qed.

Lemma SInv_alloc_contiguous k out live A bl k' n o :
  SInv (System k out live) A bl -> 0 <= n -> n * PAGE_SIZE < 2 ^ 64 ->
  alloc_contiguous n k = Ok (k', o) ->
  match o with
  | Some a => exists A', SInv (System k' (run_frames a n ++ out) live) A' bl
  | None => SInv (System k' out live) A bl
  end.
Proof.
  intros HI Hn Hw Ha.
  destruct (alloc_contiguous_spec _ _ _ n (sinv_frames _ _ _ HI) Hn Hw) as (k1 & o1 & He & Hof & Ho).
  simpl in He. rewrite Ha in He. simplify_eq. simpl in *.
  assert (only_frames k k1 (owned (A ++ out))) as Hof'.
  { destruct Hof as (H1 & H2 & H3). split; [done|]. split; [done|].
    eapply mem_agree_mono; [|exact H3]. intros x. apply not_owned_mono. set_solver. }
  destruct o1 as [a|].
  - destruct Ho as (A' & HA & HO'). exists A'. eapply SInv_frames; [exact HI|done| |].
    + rewrite length_app, length_run_frames.
      by replace (HEAP_FRAMES + Z.of_nat (Z.to_nat n + length out))
        with (HEAP_FRAMES + Z.of_nat (length out) + n) by lia.
    + rewrite HA, <- (app_assoc (run_frames a n)). apply Permutation_app_swap_app.
  - by eapply SInv_frames.
Qed.

Lemma SInv_dealloc_frame k out out' live A bl k' f :
  SInv (System k out live) A bl -> out ≡ₚ f :: out' -> dealloc_frame f k = Ok k' ->
  SInv (System k' out' live) (f :: A) bl.
Proof.
  intros HI Hout Hd. destruct (id HI) as [HO Hpl Hnd Hok _ _]; simpl in *.
  rewrite Hout in Hnd, Hok, HO.
  assert (frame_ok f) as Hf by (rewrite Forall_forall in Hok; apply Hok; set_solver).
  assert (f ∉ A) as HnA.
  { apply NoDup_app in Hnd as (_ & Hd' & _). intros Hin. apply (Hd' f Hin). set_solver. }
  destruct (dealloc_frame_spec _ _ _ f HO Hf HnA) as (k1 & He & HO' & Hof); [simpl; unfold HEAP_FRAMES; lia|].
  rewrite Hd in He. simplify_eq. eapply SInv_frames; [exact HI| | |].
  - destruct Hof as (H1 & H2 & H3). split; [done|]. split; [done|].
    eapply mem_agree_mono; [|exact H3]. intros x. apply not_owned_mono. rewrite Hout. set_solver.
  - simpl in HO'. by replace (HEAP_FRAMES + Z.of_nat (length out'))
      with (HEAP_FRAMES + Z.of_nat (S (length out')) - 1) by lia.
  - rewrite Hout. simpl. apply Permutation_middle.
Qed.

(** Client writes reach neither allocator's bookkeeping. *)
Lemma SInv_write k out live A bl m b :
  SInv (System k out live) A bl ->
  mem_agree (fun x => ~ (owned out x \/ live_bytes live x)) (k_mem k) m ->
  SInv (System (Kernel b m (FRAMES k) (HEAP k)) out live) A bl.
Proof.
  intros [HO Hpl Hnd Hok Hap HH] Hag; simpl in *. split; simpl; try done.
  - eapply Owns_agree; [exact HO|done|]. eapply mem_agree_mono; [|exact Hag].
    intros x Hx [Ho|Hl].
    + by eapply (owned_disjoint A out).
    + apply (Hap x); [apply owned_app; by left|]. eapply HInv_in_region; [exact HH|by right].
  - eapply HInv_agree; [exact HH|]. eapply mem_agree_mono; [|exact Hag].
    intros x Hc [Ho|(p & l & Hp & Hx)].
    + apply (Hap x); [apply owned_app; by right|]. eapply HInv_in_region; [exact HH|by left].
    + destruct (hinv_live _ _ _ _ HH p l Hp) as (_ & (_ & _ & _ & _ & Hd) & _). by apply (Hd x).
Qed.

End Invariant.

Section Preservation.
Context (fuel : nat) (base hi : Z) (pool : list Z) (region : heap_region base hi).
Context (fuel_ok : enough_fuel base hi fuel).

(** A heap operation is a step of the heap; it cannot reach a free frame. *)
Lemma SInv_heap k out live A bl m h live' :
  SInv base hi pool (System k out live) A bl ->
  heap_step fuel (HeapState (k_mem k) (HEAP k) live) (HeapState m h live') ->
  exists bl', SInv base hi pool (System (set_heap m h k) out live') A bl'.
Proof.
  intros [HO Hpl Hnd Hok Hap HH] Hst; simpl in *. destruct region.
  pose proof (heap_step_agree base hi fuel hr_pos hr_bound hr_room fuel_ok _ _ _ HH Hst) as Hag.
  destruct (HInv_step base hi fuel hr_pos hr_bound hr_room fuel_ok _ _ _ HH Hst) as [bl' HH'].
  exists bl'. split; simpl; try done. eapply Owns_agree; [exact HO|done|].
  eapply mem_agree_mono; [|exact Hag]. intros x Hx. apply Hap. apply owned_app. by left.
Qed.

Lemma SInv_step s s' A bl :
  SInv base hi pool s A bl -> system_step fuel s s' -> exists A' bl', SInv base hi pool s' A' bl'.
Proof.
  intros HI Hst. destruct Hst as [k out live k' f Ha|k out live k' Ha|k out live k' n a H0 H1 Ha|
    k out live k' n H0 H1 Ha|k out out' live k' f Ho Hd|k out live k' l p Hl Ha Hp|
    k out live k' l Hl Ha|k out live k' p l Hp Hd|k out live m Hag|k out live b].
  - destruct (SInv_alloc_frame base hi pool _ _ _ _ _ _ _ HI Ha) as (A' & _ & H). eauto.
  - destruct (SInv_alloc_frame base hi pool _ _ _ _ _ _ _ HI Ha) as (_ & H). eauto.
  - destruct (SInv_alloc_contiguous base hi pool _ _ _ _ _ _ _ _ HI H0 H1 Ha) as (A' & H). eauto.
  - exists A, bl. exact (SInv_alloc_contiguous base hi pool _ _ _ _ _ _ _ _ HI H0 H1 Ha).
  - exists (f :: A), bl. exact (SInv_dealloc_frame base hi pool _ _ _ _ _ _ _ _ HI Ho Hd).
  - apply global_alloc_Ok in Ha as (m & h & Ha & ->).
    destruct (SInv_heap _ _ _ _ _ m h _ HI (step_alloc fuel _ _ live l m h p Hl Ha Hp)) as [bl' H]. eauto.
  - apply global_alloc_Ok in Ha as (m & h & Ha & ->).
    destruct (SInv_heap _ _ _ _ _ m h _ HI (step_full fuel _ _ live l m h Hl Ha)) as [bl' H]. eauto.
  - apply global_dealloc_Ok in Hd as (m & h & Hd & ->).
    destruct (SInv_heap _ _ _ _ _ m h _ HI (step_dealloc fuel _ _ live p l m h Hp Hd)) as [bl' H]. eauto.
  - exists A, bl. by apply SInv_write.
  - exists A, bl. by apply (SInv_write base hi pool k).
Qed.

Lemma SInv_reachable s s' A bl :
  SInv base hi pool s A bl -> rtc (system_step fuel) s s' -> exists A' bl', SInv base hi pool s' A' bl'.
Proof.
  intros HI Hr. revert A bl HI. induction Hr as [|s s1 s2 Hst _ IH]; intros A bl HI; [eauto|].
  destruct (SInv_step _ _ _ _ HI Hst) as (A' & bl' & HI'). by eapply IH.
Qed.
End Preservation.

(** ** Boot *)

(** [heap::init] over the frame allocator: it answers exactly when a stretch
    of the map is long enough, and splits the frames between the heap and the
    allocator. *)
Lemma init_heap_run k A n :
  Owns k A n ->
  exists k' o fa, FRAMES k = Some fa /\ init_heap k = Ok (k', o) /\ k_if k' = k_if k /\
    mem_agree (fun x => ~ owned A x) (k_mem k) (k_mem k') /\
    match o with
    | Some (start, size) => fits fa HEAP_FRAMES /\ size = HEAP_BYTES /\ start mod GRAIN = 0 /\ PAGE_SIZE <= start /\
        exists A', A ≡ₚ run_frames start HEAP_FRAMES ++ A' /\ Owns k' A' (n + HEAP_FRAMES) /\
          (start + HEAP_BYTES <= 2 ^ 63 ->
           Inv start (start + HEAP_BYTES) (k_mem k') (HEAP k') [(start, HEAP_BYTES)])
    | None => ~ fits fa HEAP_FRAMES /\ Owns k' A n
    end.
Proof.
  intros HO. destruct (init_heap_spec k) as (k' & o & Hh & Hif & Hag & _ & _ & Ho); [by eexists _, _|].
  destruct (id HO) as (fa & Hk & HR & Hn & H0 & Hlen). subst n.
  exists k', o, fa. do 3 (split; [done|]). split.
  { eapply mem_agree_mono; [|exact Hag]. intros x Hx (B & m & HB & Hxb). destruct (Owns_det _ _ _ _ _ HO HB) as [E _].
    apply Hx. by rewrite E. }
  destruct (contiguous_spec (k_mem k) fa A HEAP_FRAMES HR ltac:(done) ltac:(done) H0 Hlen) as (m' & fa' & o2 & Hc & _ & Ho2).
  assert (alloc_contiguous HEAP_FRAMES k = Ok (set_frames m' (Some fa') k, o2)) as Ha.
  { unfold alloc_contiguous. by erewrite with_frames_Ok. }
  unfold init_heap in Hh. cbn [take frame_source] in Hh. rewrite Ha, bind_Ok in Hh. destruct o2 as [start|].
  - rewrite mul_u_ok, bind_Ok in Hh by done. fold HEAP_BYTES in Hh. rewrite without_interrupts_masked in Hh.
    destruct (heap_init (k_mem (masked (set_frames m' (Some fa') k))) start HEAP_BYTES) as [m h] eqn:Hi.
    rewrite !bind_Ok in Hh. simpl in Hi. injection Hh as Hk' <-.
    destruct Ho as (_ & Hg & Hp & _ & _ & HInv0). destruct Ho2 as (Hf & Hu & A' & HA & HR').
    repeat (split; [done|]). exists A'. split; [done|]. split; [|done].
    exists fa'. assert (FRAMES k' = Some fa' /\ k_mem k' = m) as [-> ->] by (rewrite <- Hk'; unfold sti; by destruct k as [[]]).
    split; [done|]. rewrite HA, length_app, length_run_frames in Hlen.
    split; [|split; [lia|split; [unfold HEAP_FRAMES in *; lia|unfold HEAP_FRAMES in *; lia]]].
    eapply Repr_agree; [|exact HR']. unfold heap_init in Hi. injection Hi as <- _.
    eapply mem_agree_mono; [|apply write_FreeBlock_agree]. intros x Hx Hr.
    pose proof (Owns_NoDup _ _ _ HO) as Hnd. pose proof (Owns_ok _ _ _ HO) as Hok. rewrite HA in Hnd, Hok.
    apply (owned_disjoint (run_frames start HEAP_FRAMES) A' x Hnd Hok); [|done].
    apply owned_run_frames. unfold range, GRAIN, HEAP_FRAMES, PAGE_SIZE in *. lia.
  - injection Hh as <- <-. destruct Ho2 as (Hf & Hu & HR'). split; [done|]. exists fa'. by rewrite Hu.
Qed.

(** A heap with one block has nothing out. *)
Lemma armed_HInv base m h :
  Inv base (base + HEAP_BYTES) m h [(base, HEAP_BYTES)] ->
  HInv base (base + HEAP_BYTES) (HeapState m h ∅) [(base, HEAP_BYTES)].
Proof.
  intros HI. split; simpl; try done.
  - intros x Hx. left. apply covered_cons. left. unfold range. lia.
  - unfold live_size. rewrite map_fold_empty. lia.
Qed.

Lemma region_ok base :
  base mod GRAIN = 0 -> PAGE_SIZE <= base -> base + HEAP_BYTES <= 2 ^ 63 -> heap_region base (base + HEAP_BYTES).
Proof.
  intros Hg Hp Hhi. destruct HEAP_BYTES_facts as (H1 & H2 & H3).
  split; try done; [unfold PAGE_SIZE in *; lia| |unfold GRAIN in *; lia].
  by apply mod_add_multiple.
Qed.

(** [kernel_main]'s memory start-up succeeded: the frame allocator was seeded
    from a well-formed map with usable memory and passed its self-test, and
    the heap got its region in the low half of the address space. *)
Definition booted (regions : list MemoryRegion) (k : kernel) (base : Z) : Prop :=
  map_ok regions /\ base + HEAP_BYTES <= 2 ^ 63 /\
  exists k0 k1 k2 total, init_frames regions k0 = Ok (k1, total) /\ total <> 0 /\
    frame_selftest k1 = Ok k2 /\ init_heap k2 = Ok (k, Some (base, HEAP_BYTES)).

(** The heap is armed by an allocator that owns the whole map. *)
Lemma booted_Owns regions k base :
  booted regions k base ->
  exists k2 A, Owns k2 A 0 /\ A ≡ₚ usable_frames regions /\ init_heap k2 = Ok (k, Some (base, HEAP_BYTES)).
Proof.
  intros (Hmap & _ & k0 & k1 & k2 & total & Hi & Ht & Hs & Hh).
  destruct (init_frames_spec regions k0 Hmap) as (k1' & Hi' & _ & _ & _ & HO & _).
  rewrite Hi in Hi'. simplify_eq.
  assert (usable_frames regions <> []) as Hne by (intros E; by rewrite E in Ht).
  specialize (HO Hne). pose proof (frame_selftest_spec _ _ _ HO) as Hst. rewrite Hs in Hst.
  destruct (usable_frames regions) as [|f [|g A]]; [done|done|].
  destruct Hst as (k2' & B & [= <-] & HB & Hp & _). by exists k2, B.
Qed.

Lemma booted_region regions k base : booted regions k base -> heap_region base (base + HEAP_BYTES).
Proof.
  intros Hb. destruct (booted_Owns _ _ _ Hb) as (k2 & A & HO & _ & Hh). destruct Hb as (_ & Hhi & _).
  destruct (init_heap_run _ _ _ HO) as (k' & o & fa & _ & Hh' & _ & _ & Ho).
  rewrite Hh in Hh'. simplify_eq. destruct Ho as (_ & _ & Hg & Hp & _). by apply region_ok.
Qed.

Lemma walk_fuel_enough base : enough_fuel base (base + HEAP_BYTES) WALK_FUEL.
Proof.
  unfold enough_fuel. replace (base + HEAP_BYTES - base) with HEAP_BYTES by lia. by vm_compute.
Qed.

(** The invariant holds once boot is done, for the frames of the map. *)
Lemma booted_SInv regions k base :
  booted regions k base ->
  exists A, SInv base (base + HEAP_BYTES) A (System k [] ∅) A [(base, HEAP_BYTES)] /\
    usable_frames regions ≡ₚ run_frames base HEAP_FRAMES ++ A.
Proof.
  intros Hb. pose proof (booted_region _ _ _ Hb) as Hreg.
  destruct (booted_Owns _ _ _ Hb) as (k1' & B & HO & HBp & Hh). destruct Hb as (Hmap & Hhi & _).
  destruct (init_heap_run _ _ _ HO) as (k' & o & fa & _ & Hh' & _ & _ & Ho).
  rewrite Hh in Hh'. simplify_eq. destruct Ho as (_ & _ & _ & _ & A & HA & HO2 & HInv0). specialize (HInv0 Hhi).
  rewrite HBp in HA. exists A. split; [|done].
  pose proof (NoDup_usable_frames regions Hmap) as Hnd. pose proof (usable_frames_ok regions Hmap) as Hok.
  rewrite HA in Hnd, Hok. split; simpl; rewrite ?app_nil_r.
  - exact HO2.
  - done.
  - by apply NoDup_app in Hnd as (_ & _ & ?).
  - by apply Forall_app in Hok as [_ ?].
  - intros x Hx Hr. apply (owned_disjoint (run_frames base HEAP_FRAMES) A x Hnd Hok); [|done].
    apply owned_run_frames. unfold HEAP_BYTES, range in *. lia.
  - by apply armed_HInv.
Qed.

Lemma booted_reachable regions k base s :
  booted regions k base -> rtc (system_step WALK_FUEL) (System k [] ∅) s ->
  exists pool A bl, SInv base (base + HEAP_BYTES) pool s A bl /\
    usable_frames regions ≡ₚ run_frames base HEAP_FRAMES ++ pool.
Proof.
  intros Hb Hr. destruct (booted_SInv _ _ _ Hb) as (pool & HI & Hp).
  destruct (SInv_reachable WALK_FUEL base _ pool (booted_region _ _ _ Hb) (walk_fuel_enough base)
    _ _ _ _ HI Hr) as (A & bl & HI'). by exists pool, A, bl.
Qed.

(** ** Properties *)

(** C1: the kernel's memory has one owner per byte. From boot, whatever
    sequence of frame and heap requests, returns, writes by clients to memory
    they hold and changes of the interrupt flag has happened: the frames out
    are distinct whole frames of the firmware's usable memory, none of them
    touches the heap's region; every live heap allocation is aligned, lies in
    that region and shares no byte with another one; and every usable frame is
    still accounted for as the heap's, free, or out. *)
Theorem system_memory_safe regions k base s :
  booted regions k base -> rtc (system_step WALK_FUEL) (System k [] ∅) s ->
  NoDup (sys_out s) /\
  (forall f, f ∈ sys_out s -> Exists (fun r => frame_usable r f) regions /\
     forall x, range f PAGE_SIZE x -> ~ range base HEAP_BYTES x) /\
  (forall p l, sys_live s !! p = Some l ->
     p mod l_align l = 0 /\ base <= p /\ p + l_size l <= base + HEAP_BYTES) /\
  (forall p q l l' x, sys_live s !! p = Some l -> sys_live s !! q = Some l' -> p <> q ->
     range p (l_size l) x -> ~ range q (l_size l') x) /\
  exists A n, Owns (sys_kernel s) A n /\
    usable_frames regions ≡ₚ run_frames base HEAP_FRAMES ++ A ++ sys_out s.
Proof.
  intros Hb Hr. destruct (booted_reachable _ _ _ _ Hb Hr) as (pool & A & bl & HI & Hp).
  destruct Hb as (Hmap & _ & _). destruct HI as [HO Hpl Hnd Hok Hap [HL Hlive Hapt _ _]]; cbn [hs_mem hs_heap hs_live] in *.
  replace (base + HEAP_BYTES - base) with HEAP_BYTES in Hap by lia.
  split; [by apply NoDup_app in Hnd as (_ & _ & ?)|]. split; [|split; [|split]].
  - intros f Hf. split.
    + apply elem_of_usable_frames; [apply Hmap|]. rewrite Hp, <- Hpl.
      apply elem_of_app. right. apply elem_of_app. by right.
    + intros x Hx. apply Hap. exists f. split; [apply elem_of_app; by right|done].
  - intros p l Hpl'. destruct (Hlive p l Hpl') as (Hl & (H1 & _ & H3 & _) & H6).
    destruct (n_size_ok l Hl). repeat split; try done; lia.
  - intros p q l l' x Hpl' Hq Hne Hx Hx'. destruct (Hlive p l Hpl') as (Hl & _).
    destruct (Hlive q l' Hq) as (Hl' & _). destruct (n_size_ok l Hl), (n_size_ok l' Hl').
    apply Hne. eapply (Hapt p q l l' x); [done|done| |]; unfold range in *; lia.
  - eexists A, _. split; [exact HO|]. by rewrite Hp, Hpl.
Qed.

(** C11: in every state the kernel can reach, no allocator entry point panics
    or walks forever: a frame request answers, and answers [None] only when
    every usable frame is the heap's or out; a contiguous request answers;
    returning a frame that is out succeeds; a heap request of any layout
    answers and freeing a live allocation succeeds. *)
Theorem system_progress regions k base s :
  booted regions k base -> rtc (system_step WALK_FUEL) (System k [] ∅) s ->
  (exists k' o, alloc_frame (sys_kernel s) = Ok (k', o) /\
     (o = None <-> Z.of_nat (length (usable_frames regions)) = HEAP_FRAMES + Z.of_nat (length (sys_out s)))) /\
  (forall n, 0 <= n -> n * PAGE_SIZE < 2 ^ 64 ->
     exists k' o, alloc_contiguous n (sys_kernel s) = Ok (k', o)) /\
  (forall f, f ∈ sys_out s -> exists k', dealloc_frame f (sys_kernel s) = Ok k') /\
  (forall l, Layout_ok l -> exists k' p, global_alloc WALK_FUEL l (sys_kernel s) = Ok (k', p)) /\
  (forall p l, sys_live s !! p = Some l ->
     exists k', global_dealloc WALK_FUEL p l (sys_kernel s) = Ok k').
Proof.
  intros Hb Hr. destruct (booted_reachable _ _ _ _ Hb Hr) as (pool & A & bl & HI & Hp).
  destruct (booted_region _ _ _ Hb). destruct (id HI) as [HO Hpl Hnd Hok _ HH]; cbn [hs_mem hs_heap hs_live] in *.
  pose proof (walk_fuel _ _ WALK_FUEL hr_room (walk_fuel_enough base) _ _ HH) as Hw.
  destruct HH as [HL Hlive _ _ _]; cbn [hs_mem hs_heap hs_live] in *.
  split; [|split; [|split; [|split]]].
  - destruct (alloc_frame_spec _ _ _ HO) as (k' & o & Ha & _ & Ho). exists k', o. split; [done|].
    assert (length (usable_frames regions) = Z.to_nat HEAP_FRAMES + (length A + length (sys_out s)))%nat as Hlen.
    { by rewrite Hp, <- Hpl, !length_app, length_run_frames. }
    rewrite Hlen. unfold HEAP_FRAMES. destruct o as [f|].
    + destruct Ho as (A' & HA & _). rewrite HA. simpl. split; [done|lia].
    + destruct Ho as [-> _]. simpl. split; [lia|done].
  - intros n Hn Hwn. destruct (alloc_contiguous_spec _ _ _ n HO Hn Hwn) as (k' & o & -> & _). eauto.
  - intros f Hf. rewrite Forall_forall in Hok.
    destruct (dealloc_frame_spec _ _ _ f HO) as (k' & -> & _); [apply Hok, elem_of_app; by right| | |by eauto].
    + apply NoDup_app in Hnd as (_ & Hd & _). intros Hin. by apply (Hd f Hin).
    + unfold HEAP_FRAMES. lia.
  - intros l Hl. destruct (heap_alloc_spec base _ hr_pos hr_bound WALK_FUEL _ _ bl l HL Hl Hw)
      as (m & h & p & Ha & _). eexists _, p. by apply global_alloc_run.
  - intros p l Hpl'. destruct (Hlive p l Hpl') as (Hl & Hal & _).
    destruct (heap_dealloc_spec base _ hr_pos hr_bound WALK_FUEL _ _ bl p l HL Hl Hal Hw)
      as (m & h & bl' & Hd & _). eexists. by apply global_dealloc_run.
Qed.

(** C37: the gauges the boot trace prints are exact in every reachable state:
    [frames_in_use] is the heap's 256 frames plus those out, [free_bytes] is
    the region less the live allocations, and [free_blocks] is the number of
    blocks on the heap's list, which in address order, none touching the next,
    hold exactly the bytes of the region no live allocation has; once every
    allocation is returned it is 1, and the last check of the heap's self-test
    passes. *)
Theorem system_gauges regions k base s :
  booted regions k base -> rtc (system_step WALK_FUEL) (System k [] ∅) s ->
  (exists k', frames_in_use (sys_kernel s) = Ok (k', HEAP_FRAMES + Z.of_nat (length (sys_out s)))) /\
  (exists k', free_bytes WALK_FUEL (sys_kernel s) = Ok (k', HEAP_BYTES - live_size (sys_live s))) /\
  (exists bl, Inv base (base + HEAP_BYTES) (k_mem (sys_kernel s)) (HEAP (sys_kernel s)) bl /\
     (forall x, range base HEAP_BYTES x -> covered bl x <-> ~ live_bytes (sys_live s) x) /\
     exists k', free_blocks WALK_FUEL (sys_kernel s) = Ok (k', Z.of_nat (length bl))) /\
  (sys_live s = ∅ -> exists k', free_blocks WALK_FUEL (sys_kernel s) = Ok (k', 1)).
Proof.
  intros Hb Hr. destruct (booted_reachable _ _ _ _ Hb Hr) as (pool & A & bl & HI & Hp).
  destruct (booted_region _ _ _ Hb). destruct (id HI) as [HO Hpl Hnd Hok _ HH]; cbn [hs_mem hs_heap hs_live] in *.
  pose proof (walk_fuel _ _ WALK_FUEL hr_room (walk_fuel_enough base) _ _ HH) as Hw.
  assert (base <= base + HEAP_BYTES) as Hbh by (pose proof HEAP_BYTES_facts; unfold GRAIN in *; lia).
  pose proof (hinv_list _ _ _ _ HH) as Hlist. cbn [hs_mem hs_heap] in Hlist.
  assert (exists k', free_blocks WALK_FUEL (sys_kernel s) = Ok (k', Z.of_nat (length bl))) as Hbl.
  { unfold free_blocks. rewrite without_interrupts_masked. simpl.
    rewrite (heap_free_blocks_spec base _ hr_pos hr_bound WALK_FUEL _ _ _ Hlist Hbh Hw).
    rewrite !bind_Ok. by eexists. }
  split; [|split; [|split]].
  - destruct HO as (fa & Hk & _ & Hn & _). unfold frames_in_use.
    erewrite with_frames_Ok by done. rewrite bind_Ok, Hn. by eexists.
  - unfold free_bytes. rewrite without_interrupts_masked. simpl.
    destruct HH as [HL _ _ _ Htot]; cbn [hs_mem hs_heap hs_live] in *.
    rewrite (heap_free_bytes_spec base _ hr_pos hr_bound WALK_FUEL _ _ bl HL Hbh Hw).
    rewrite !bind_Ok. eexists. do 2 f_equal. lia.
  - exists bl. split; [exact (hinv_list _ _ _ _ HH)|]. split; [|exact Hbl].
    intros x Hx. split.
    + intros Hc (p & l & Hp' & Hx'). destruct (hinv_live _ _ _ _ HH p l Hp') as (_ & (_ & _ & _ & _ & Hno) & _).
      by apply (Hno x).
    + intros Hno. destruct (hinv_cover _ _ _ _ HH x) as [?|?]; [unfold range in Hx; lia|done|done].
  - intros He. rewrite He in HH.
    apply (HInv_empty_one_block base (base + HEAP_BYTES) WALK_FUEL hr_pos hr_bound hr_base hr_hi hr_room) in HH as ->.
    exact Hbl.
Qed.

(** ** Instances *)

Definition demo_tested : kernel :=
  match frame_selftest demo_seeded with Ok k => k | _ => demo_seeded end.

Definition demo_booted : kernel :=
  match init_heap demo_tested with Ok (k, _) => k | _ => demo_tested end.

Lemma demo_booted_run : init_heap demo_tested = Ok (demo_booted, Some (0x102000, HEAP_BYTES)).
Proof. vm_compute. reflexivity. Qed.

Lemma demo_booted_ok : booted demo_ram demo_booted 0x102000.
Proof.
  split; [exact demo_ram_ok|]. split; [by vm_compute|].
  exists demo_kernel0, demo_seeded, demo_tested, 300. split; [exact demo_seeded_run|].
  split; [done|]. split; [vm_compute; reflexivity|exact demo_booted_run].
Qed.

(** One frame and one heap allocation out. *)
Definition demo_booted1 : kernel :=
  match alloc_frame demo_booted with Ok (k, _) => k | _ => demo_booted end.
Definition demo_booted2 : kernel :=
  match global_alloc WALK_FUEL demo_layout demo_booted1 with Ok (k, _) => k | _ => demo_booted1 end.
Definition demo_system : system :=
  System demo_booted2 [0x100000] {[ 0x102000 := demo_layout ]}.

Lemma demo_system_reachable : rtc (system_step WALK_FUEL) (System demo_booted [] ∅) demo_system.
Proof.
  eapply rtc_l; [apply (sys_alloc_frame _ _ _ _ demo_booted1 0x100000); vm_compute; reflexivity|].
  eapply rtc_once, (sys_alloc _ _ _ _ demo_booted2 demo_layout 0x102000); [exact demo_layout_ok| |done].
  vm_compute. reflexivity.
Qed.

Lemma demo_system_live : sys_live demo_system !! 0x102000 = Some demo_layout.
Proof. reflexivity. Qed.

Lemma system_memory_safe_witness :
  range 0x100000 PAGE_SIZE 0x100123 /\ ~ range 0x102000 HEAP_BYTES 0x100123.
Proof.
  assert (range 0x100000 PAGE_SIZE 0x100123) as Hx by (by vm_compute).
  destruct (system_memory_safe demo_ram demo_booted 0x102000 demo_system demo_booted_ok
    demo_system_reachable) as (_ & H & _).
  split; [done|]. exact (proj2 (H 0x100000 (list_elem_of_here _ _)) _ Hx).
Defined.

Lemma system_progress_witness : exists k',
  global_dealloc WALK_FUEL 0x102000 demo_layout (sys_kernel demo_system) = Ok k'.
Proof.
  destruct (system_progress demo_ram demo_booted 0x102000 demo_system demo_booted_ok
    demo_system_reachable) as (_ & _ & _ & _ & H).
  exact (H 0x102000 demo_layout demo_system_live).
Defined.

Lemma system_gauges_witness : exists k', frames_in_use (sys_kernel demo_system) = Ok (k', HEAP_FRAMES + 1).
Proof.
  destruct (system_gauges demo_ram demo_booted 0x102000 demo_system demo_booted_ok
    demo_system_reachable) as (H & _). exact H.
Defined.
