(* ===== verification/HeapTest.v ===== *)
(** The heap's boot self-test ([selftest] in [kernel/src/heap.rs]): what it
    uses of [alloc]'s [Box], [Vec] and [String], over the kernel's global
    allocator, and that it passes on a fresh heap. *)
From Stdlib Require Import String.
From S2P Require Import Prelude Memory BootInfo Frame Heap HeapTrace Interrupts FrameApi HeapApi KernelTrace.

(** ** The collections *)

(** [GlobalAlloc::realloc], which the kernel's allocator does not override:
    a new allocation, the bytes both sizes share, the old one freed. *)
Definition global_realloc (fuel : nat) (ptr : Z) (layout : Layout) (new_size : Z) (k : kernel)
    : res (kernel * Z) :=
  let new_layout := {| l_size := new_size; l_align := l_align layout |} in
  '(k, new_ptr) ← global_alloc fuel new_layout k;
  if new_ptr =? 0 then Ok (k, 0) else
  let bs := read_bytes (k_mem k) ptr (Z.to_nat (Z.min (l_size layout) new_size)) in
  let k := Kernel (k_if k) (write_bytes (k_mem k) new_ptr bs) (FRAMES k) (HEAP k) in
  k ← global_dealloc fuel ptr layout k;
  Ok (k, new_ptr).

(** [handle_alloc_error], which panics without [std]. *)
Definition or_alloc_error (r : res (kernel * Z)) : res (kernel * Z) :=
  '(k, p) ← r; if p =? 0 then Panic else Ok (k, p).

Definition store_at (n : nat) (a v : Z) (k : kernel) : kernel :=
  Kernel (k_if k) (store n (k_mem k) a v) (FRAMES k) (HEAP k).

(** A [Vec] of elements of [sz] bytes, aligned to their size: pointer,
    capacity, length. An empty one owns nothing. *)
Record vec := Vec { v_ptr : Z; v_cap : Z; v_len : Z }.

Section Collections.
Context (fuel : nat).

Definition u64_layout : Layout := {| l_size := 8; l_align := 8 |}.

(** [Box::new] of a [u64], and its drop. *)
Definition box_new (v : Z) (k : kernel) : res (kernel * Z) :=
  '(k, p) ← or_alloc_error (global_alloc fuel u64_layout k);
  Ok (store_at 8 p v k, p).
Definition box_drop (p : Z) (k : kernel) : res kernel := global_dealloc fuel p u64_layout k.

Definition array_layout (sz cap : Z) : Layout := {| l_size := cap * sz; l_align := sz |}.

Definition vec_new (sz : Z) : vec := Vec sz 0 0.

(** [RawVec]'s smallest allocation. *)
Definition min_non_zero_cap (sz : Z) : Z := if sz =? 1 then 8 else if sz <=? 1024 then 4 else 1.

(** [RawVec::grow_amortized]: at least double. *)
Definition grow (sz additional : Z) (v : vec) (k : kernel) : res (kernel * vec) :=
  required ← add_u 64 (v_len v) additional;
  let cap := Z.max (min_non_zero_cap sz) (Z.max (v_cap v * 2) required) in
  if negb (cap * sz <=? 2 ^ 63 - sz) then Panic else
  '(k, p) ← or_alloc_error
    (if v_cap v =? 0 then global_alloc fuel (array_layout sz cap) k
     else global_realloc fuel (v_ptr v) (array_layout sz (v_cap v)) (cap * sz) k);
  Ok (k, Vec p cap (v_len v)).

Definition reserve (sz additional : Z) (v : vec) (k : kernel) : res (kernel * vec) :=
  if v_cap v - v_len v <? additional then grow sz additional v k else Ok (k, v).

Definition vec_with_capacity (sz cap : Z) (k : kernel) : res (kernel * vec) :=
  if cap =? 0 then Ok (k, vec_new sz) else
  '(k, p) ← or_alloc_error (global_alloc fuel (array_layout sz cap) k);
  Ok (k, Vec p cap 0).

Definition vec_drop (sz : Z) (v : vec) (k : kernel) : res kernel :=
  if v_cap v =? 0 then Ok k else global_dealloc fuel (v_ptr v) (array_layout sz (v_cap v)) k.

(** [Vec::push] of a [u64]. *)
Definition push (value : Z) (v : vec) (k : kernel) : res (kernel * vec) :=
  '(k, v) ← (if v_len v =? v_cap v then grow 8 1 v k else Ok (k, v));
  Ok (store_at 8 (v_ptr v + 8 * v_len v) value k, Vec (v_ptr v) (v_cap v) (v_len v + 1)).

(** [v[i]]. *)
Definition vec_index (v : vec) (i : Z) (k : kernel) : res Z :=
  if i <? v_len v then Ok (load 8 (k_mem k) (v_ptr v + 8 * i)) else Panic.

(** [String::push_str]: a [String] is a [Vec] of bytes. *)
Definition push_str (s : list Z) (v : vec) (k : kernel) : res (kernel * vec) :=
  '(k, v) ← reserve 1 (Z.of_nat (length s)) v k;
  Ok (Kernel (k_if k) (write_bytes (k_mem k) (v_ptr v + v_len v) s) (FRAMES k) (HEAP k),
      Vec (v_ptr v) (v_cap v) (v_len v + Z.of_nat (length s))).

(** ** [heap::selftest] *)

Definition heap_selftest (k : kernel) : outcome string kernel :=
  '(k, before) ← lift (free_bytes fuel k);
  '(k, boxed) ← lift (box_new 0xdeadbeef k);
  _ ← ensure (load 8 (k_mem k) boxed =? 0xdeadbeef) "Box did not round-trip its value";
  k ← lift (box_drop boxed k);
  '(k, values) ← lift (for_range 0 1024 (fun i '(k, v) => push i v k) (k, vec_new 8));
  _ ← ensure (v_len values =? 1024) "Vec length is wrong after growth";
  first ← lift (vec_index values 0 k);
  _ ← (if negb (first =? 0) then Err "Vec contents are wrong after reallocation"%string
       else last ← lift (vec_index values 1023 k);
            ensure (last =? 1023) "Vec contents are wrong after reallocation");
  k ← lift (vec_drop 8 values k);
  '(k, s) ← lift (for_range 0 100 (fun _ '(k, v) => push_str [114; 117; 115; 116] v k) (k, vec_new 1));
  _ ← ensure (v_len s =? 400) "String length is wrong after growth";
  k ← lift (vec_drop 1 s k);
  '(k, first) ← lift (vec_with_capacity 1 64 k);
  '(k, middle) ← lift (vec_with_capacity 1 64 k);
  '(k, last) ← lift (vec_with_capacity 1 64 k);
  k ← lift (vec_drop 1 first k);
  k ← lift (vec_drop 1 last k);
  k ← lift (vec_drop 1 middle k);
  '(k, after) ← lift (free_bytes fuel k);
  _ ← ensure (after =? before) "heap did not return to its starting free-byte count";
  '(k, blocks) ← lift (free_blocks fuel k);
  _ ← ensure (blocks =? 1) "free list did not coalesce back to a single block";
  Ok k.
End Collections.

(** ** Bytes read in pieces *)

Lemma read_bytes_take m a n N : (n <= N)%nat -> read_bytes m a n = firstn n (read_bytes m a N).
Proof.
  revert a N. induction n as [|n IH]; intros a [|N] Hn; [done|done|lia|]. simpl. f_equal. apply IH. lia.
Qed.

Lemma read_bytes_drop m a n N :
  (n <= N)%nat -> read_bytes m (a + Z.of_nat n) (N - n)%nat = drop n (read_bytes m a N).
Proof.
  revert a N. induction n as [|n IH]; intros a N Hn.
  - rewrite Z.add_0_r, Nat.sub_0_r. done.
  - destruct N as [|N]; [lia|]. simpl. rewrite <- IH by lia. f_equal. lia.
Qed.

(** Writing at the end of what is there appends. *)
Lemma read_bytes_append m a bs bs' n :
  read_bytes m a n = bs ->
  read_bytes (write_bytes m (a + Z.of_nat n) bs') a (n + length bs')%nat = bs ++ bs'.
Proof.
  intros <-. set (m' := write_bytes _ _ _).
  rewrite <- (take_drop n (read_bytes m' a (n + length bs')%nat)).
  rewrite <- read_bytes_take by lia. rewrite <- read_bytes_drop by lia. f_equal.
  - apply read_bytes_ext. intros x Hx. apply peek_write_bytes_out. lia.
  - replace (n + length bs' - n)%nat with (length bs') by lia. apply read_write_bytes.
Qed.

(** A [u64] of an array. *)
Lemma le_bytes_concat (vs : list Z) (i : nat) v :
  vs !! i = Some v -> firstn 8 (drop (8 * i) (concat (le_bytes 8 <$> vs))) = le_bytes 8 v.
Proof.
  revert i. induction vs as [|w vs IH]; intros [|i]; [done|done| |].
  - intros [= ->]. cbn [fmap list_fmap concat]. apply take_app_length'. by rewrite length_le_bytes.
  - intros Hv. cbn [fmap list_fmap concat]. rewrite drop_app_ge by (rewrite length_le_bytes; lia).
    rewrite length_le_bytes. replace (8 * S i - 8)%nat with (8 * i)%nat by lia. by apply IH.
Qed.

Lemma length_le_concat (vs : list Z) : length (concat (le_bytes 8 <$> vs)) = (8 * length vs)%nat.
Proof.
  induction vs as [|v vs IH]; [done|]. rewrite fmap_cons. cbn [concat length].
  rewrite length_app, length_le_bytes, IH. lia.
Qed.

(** ** Few allocations leave few free blocks *)

(** Right after every free block but the last, something live starts. *)
Lemma HInv_live_after base hi s pre a z suf :
  HInv base hi s (pre ++ (a, z) :: suf) -> suf <> [] -> is_Some (hs_live s !! (a + z)).
Proof.
  intros [[_ Hwf] Hlive _ Hcov _] Hne. pose proof (wf_blocks_app base pre ((a, z) :: suf) hi) as Happ.
  destruct (proj1 Happ Hwf) as [Hpre Hsuf]. clear Happ. pose proof (after_ge _ _ _ Hpre) as Haf.
  destruct Hsuf as (Ha & Hga & _ & Hz & Hhi & Hrest). unfold GRAIN in *.
  destruct suf as [|[a' z'] suf]; [done|]. pose proof Hrest as (Ha' & _ & _ & Hz' & Hhi' & _). unfold GRAIN in *.
  destruct (Hcov (a + z) ltac:(lia)) as [Hc|(p & l & Hp & Hr)].
  - exfalso. apply covered_app in Hc as [Hc|Hc]; [apply (covered_bounds _ _ _ _ Hpre) in Hc; lia|].
    apply covered_cons in Hc as [Hc|Hc]; [unfold range in Hc; lia|].
    apply (covered_bounds _ _ _ _ Hrest) in Hc. lia.
  - destruct (Hlive p l Hp) as (_ & (_ & _ & _ & _ & Hd) & _). unfold range in Hr.
    destruct (Z.lt_ge_cases p (a + z)) as [Hlt|Hge]; [|replace (a + z) with p by lia; by exists l].
    exfalso. apply (Hd (a + z - 1)); [unfold range; lia|].
    apply covered_app. right. apply covered_cons. left. unfold range. lia.
Qed.

(** So there is at most one free block more than there are allocations. *)
Lemma HInv_blocks_le base hi s bl :
  HInv base hi s bl -> (length bl <= S (size (hs_live s)))%nat.
Proof.
  intros HI. destruct bl as [|[a z] bl]; [simpl; lia|].
  assert (forall suf pre a z,
    HInv base hi s (pre ++ (a, z) :: suf) -> exists X : gset Z, size X = length suf /\
      X ⊆ dom (hs_live s) /\ forall x, x ∈ X -> a < x) as Hgap.
  { clear. induction suf as [|[a' z'] suf IH]; intros pre a z HI.
    - exists ∅. split; [done|]. split; [apply empty_subseteq|]. intros x Hx. by apply not_elem_of_empty in Hx.
    - destruct (HInv_live_after _ _ _ _ _ _ _ HI ltac:(done)) as [l Hl].
      assert (a + z < a' /\ a < a + z) as [Haa Haz].
      { destruct (hinv_list _ _ _ _ HI) as [_ Hwf]. apply wf_blocks_app in Hwf as [_ (_ & _ & _ & Hz & _ & (H & _))].
        unfold GRAIN in Hz. lia. }
      destruct (IH (pre ++ [(a, z)]) a' z') as (X & Hs & Hsub & Hx).
      { by rewrite <- app_assoc. }
      exists ({[a + z]} ∪ X). split; [|split].
      + rewrite size_union, size_singleton, Hs; [done|]. apply disjoint_singleton_l. intros Hin.
        apply Hx in Hin. lia.
      + apply union_subseteq. split; [|done]. apply singleton_subseteq_l, elem_of_dom. by exists l.
      + intros x Hin. apply elem_of_union in Hin as [Hin|Hin]; [apply elem_of_singleton in Hin; lia|].
        apply Hx in Hin. lia. }
  destruct (Hgap bl [] a z HI) as (X & Hs & Hsub & _).
  apply subseteq_size in Hsub. rewrite size_dom in Hsub. simpl. lia.
Qed.

(** ** The allocator's calls, for a client that holds [live] *)

Section Calls.
Context (base : Z) (Hreg : heap_region base (base + HEAP_BYTES)).

Abbreviation hi := (base + HEAP_BYTES).

(** The kernel's heap, with [live] allocated from it. *)
Definition holds (live : gmap Z Layout) (k : kernel) : Prop :=
  exists bl, HInv base hi (HeapState (k_mem k) (HEAP k) live) bl.

(** What a call may change: the heap's own state, and memory of the region
    outside the allocations [keep]. *)
Record heap_only (keep : gmap Z Layout) (k k' : kernel) : Prop := {
  ho_if : k_if k' = k_if k;
  ho_frames : FRAMES k' = FRAMES k;
  ho_out : mem_agree (fun x => ~ range base HEAP_BYTES x) (k_mem k) (k_mem k');
  ho_keep : mem_agree (live_bytes keep) (k_mem k) (k_mem k');
}.

Lemma heap_only_trans live k1 k2 k3 : heap_only live k1 k2 -> heap_only live k2 k3 -> heap_only live k1 k3.
Proof. intros [] []. split; [congruence|congruence|by etrans|by etrans]. Qed.

Lemma heap_only_mono keep keep' k k' :
  (forall p l, keep' !! p = Some l -> keep !! p = Some l) -> heap_only keep k k' -> heap_only keep' k k'.
Proof.
  intros Hsub []. split; try done. eapply mem_agree_mono; [|done].
  intros x (p & l & Hp & Hx). exists p, l. eauto.
Qed.

Lemma live_not_covered s bl x : HInv base hi s bl -> covered bl x -> ~ live_bytes (hs_live s) x.
Proof.
  intros [_ Hlive _ _ _] Hc (p & l & Hp & Hx). destruct (Hlive p l Hp) as (_ & (_ & _ & _ & _ & Hd) & _).
  by apply (Hd x Hx).
Qed.

(** A small request succeeds while little is allocated. *)
Lemma alloc_ok l live k :
  holds live k -> Layout_ok l -> l_align l <= 16 -> l_size l <= 16384 ->
  (size live <= 3)%nat -> live_size live <= 65536 ->
  exists k' p, global_alloc WALK_FUEL l k = Ok (k', p) /\ p <> 0 /\ live !! p = None /\
    holds (<[p := l]> live) k' /\ heap_only live k k'.
Proof.
  intros [bl HI] Hl Hal Hsz Hn Htot. destruct Hreg as [Hb Hh Hg Hgh Hr].
  pose proof (walk_fuel base hi WALK_FUEL Hr (walk_fuel_enough base) _ _ HI) as Hw.
  pose proof (HInv_blocks_le _ _ _ _ HI) as Hbl. cbn [hs_live] in Hbl.
  pose proof (hinv_total _ _ _ _ HI) as Htt. cbn [hs_live] in Htt.
  destruct (heap_alloc_spec base hi Hb Hh WALK_FUEL _ _ bl l (hinv_list _ _ _ _ HI) Hl Hw) as (m & h & p & Ha & Hpost).
  cbn [hs_mem hs_heap] in *.
  assert (p <> 0) as Hp.
  { intros ->. unfold alloc_post in Hpost. destruct (first_fit (n_size l) (n_align l) bl) as [[[pre b] suf]|] eqn:E.
    - destruct Hpost as (Hz & _). apply first_fit_Some in E as (-> & _).
      destruct (hinv_list _ _ _ _ HI) as [_ Hwf]. apply wf_blocks_app in Hwf as [Hw1 Hw2]. destruct b as [a z].
      destruct Hw2 as (Ha1 & _). pose proof (after_ge _ _ _ Hw1). destruct (n_align_ok l Hl) as [(_ & _ & Hpos) _].
      pose proof (round_up_spec a (n_align l) Hpos). simpl in *. lia.
    - apply first_fit_None in E.
      assert (n_size l <= 16384) as Hns.
      { unfold n_size. apply round_up_least; [done|unfold GRAIN; lia|reflexivity]. }
      assert (n_align l = 16) as Hna by (unfold n_align, GRAIN; lia).
      assert (forall lo b, wf_blocks lo b hi -> Forall (fun c => fits_block (n_size l) (n_align l) c = false) b ->
        total_size b <= 16384 * Z.of_nat (length b)) as Hsum.
      { clear -Hns Hna. intros lo b. revert lo. induction b as [|[a z] b IH]; intros lo Hwf Hf; [simpl; lia|].
        destruct Hwf as (_ & Hga & _ & _ & _ & Hwf). apply Forall_cons in Hf as [Hc Hf].
        specialize (IH _ Hwf Hf). simpl total_size. simpl length.
        unfold fits_block in Hc. simpl in Hc. rewrite Hna, round_up_id in Hc by exact Hga.
        apply Z.leb_gt in Hc. unfold total_size in *. simpl in *. lia. }
      destruct (hinv_list _ _ _ _ HI) as [_ Hwf]. specialize (Hsum _ _ Hwf E).
      unfold HEAP_BYTES, HEAP_FRAMES, PAGE_SIZE in Htt. lia. }
  exists (set_heap m h k), p. split; [by apply global_alloc_run|]. split; [done|].
  destruct (HInv_alloc base hi WALK_FUEL Hb Hh Hr (walk_fuel_enough base) _ _ _ _ _ _ _ _ HI Hl Ha Hp) as (bl' & HI' & Hnone).
  split; [done|]. split; [by exists bl'|]. destruct (n_size_ok l Hl) as [Hszok _]. destruct (n_align_ok l Hl) as [Hala _].
  destruct (alloc_post_covered base hi Hb _ _ _ _ _ _ _ _ (hinv_list _ _ _ _ HI) Hszok Hala Hpost Hp)
    as (_ & _ & _ & _ & _ & _ & _ & _ & _ & Hag). cbn [hs_mem] in Hag.
  split; try done; simpl; (eapply mem_agree_mono; [|exact Hag]).
  - intros x Hx Hc. apply Hx. destruct (hinv_list _ _ _ _ HI) as [_ Hwf].
    apply (covered_bounds _ _ _ _ Hwf) in Hc. unfold range. lia.
  - intros x Hx Hc. by apply (live_not_covered _ _ _ HI Hc).
Qed.

Lemma dealloc_ok p l live k :
  holds live k -> live !! p = Some l ->
  exists k', global_dealloc WALK_FUEL p l k = Ok k' /\ holds (delete p live) k' /\ heap_only (delete p live) k k'.
Proof.
  intros [bl HI] Hp. destruct Hreg as [Hb Hh Hg Hgh Hr].
  pose proof (walk_fuel base hi WALK_FUEL Hr (walk_fuel_enough base) _ _ HI) as Hw.
  destruct (hinv_live _ _ _ _ HI p l Hp) as (Hl & Hal & _).
  destruct (heap_dealloc_spec base hi Hb Hh WALK_FUEL _ _ bl p l (hinv_list _ _ _ _ HI) Hl Hal Hw)
    as (m & h & bl1 & Hd & _ & _ & _ & Hag). cbn [hs_mem hs_heap] in *.
  destruct (HInv_dealloc base hi WALK_FUEL Hb Hh Hr (walk_fuel_enough base) _ _ _ _ _ _ _ _ HI Hp Hd) as (bl' & HI').
  exists (set_heap m h k). split; [by apply global_dealloc_run|]. split; [by exists bl'|].
  split; try done; simpl; (eapply mem_agree_mono; [|exact Hag]).
  - intros x Hx. split.
    + intros Hc. apply Hx. destruct (hinv_list _ _ _ _ HI) as [_ Hwf].
      apply (covered_bounds _ _ _ _ Hwf) in Hc. unfold range. lia.
    + intros Hr'. apply Hx. destruct Hal as (H1 & _ & H3 & _). unfold range in *. lia.
  - intros x (q & l' & Hq & Hx). apply lookup_delete_Some in Hq as [Hne Hq]. split.
    + intros Hc. apply (live_not_covered _ _ _ HI Hc). by exists q, l'.
    + intros Hr'. apply Hne. by apply (hinv_apart _ _ _ _ HI p q l l' x).
Qed.

(** A write inside an allocation. *)
Lemma write_ok p l live k a bs keep :
  holds live k -> live !! p = Some l -> keep !! p = None ->
  (forall q l', keep !! q = Some l' -> live !! q = Some l') ->
  p <= a -> a + Z.of_nat (length bs) <= p + n_size l ->
  let k' := Kernel (k_if k) (write_bytes (k_mem k) a bs) (FRAMES k) (HEAP k) in
  holds live k' /\ heap_only keep k k'.
Proof.
  intros [bl HI] Hp Hk Hsub Ha Hb. cbv zeta.
  assert (forall x, range a (Z.of_nat (length bs)) x -> range p (n_size l) x) as Hin by (unfold range; lia).
  destruct (hinv_live _ _ _ _ HI p l Hp) as (Hl & Hal & _).
  split; [|split; try done; simpl; apply mem_agree_write].
  - exists bl. apply (HInv_agree base hi (k_mem k)); [exact HI|]. apply mem_agree_write.
    intros x Hc Hx. destruct Hal as (_ & _ & _ & _ & Hd). by apply (Hd x (Hin x Hx)).
  - intros x Hn Hx. apply Hin in Hx. apply Hn. destruct Hal as (H1 & _ & H3 & _). unfold range in *. lia.
  - intros x (q & l' & Hq & Hxq) Hx. apply Hin in Hx. pose proof (Hsub q l' Hq) as Hq'.
    assert (p = q) as -> by (by apply (hinv_apart _ _ _ _ HI p q l l' x)). by rewrite Hk in Hq.
Qed.

(** ** Vectors *)

(** What a vector owns, and the bytes of the elements it holds. *)
Definition vec_live (sz : Z) (v : vec) : gmap Z Layout :=
  if v_cap v =? 0 then ∅ else {[ v_ptr v := array_layout sz (v_cap v) ]}.

Record vec_model (sz : Z) (v : vec) (bs : list Z) (k : kernel) : Prop := {
  vm_holds : holds (vec_live sz v) k;
  vm_len : Z.of_nat (length bs) = sz * v_len v;
  vm_cap : 0 <= v_len v <= v_cap v;
  vm_bytes : read_bytes (k_mem k) (v_ptr v) (length bs) = bs;
}.

(** The element types in use. *)
Definition elem_size (sz : Z) : Prop := sz = 1 \/ sz = 8.

Lemma array_layout_ok sz cap :
  elem_size sz -> 0 <= cap * sz <= 16384 ->
  Layout_ok (array_layout sz cap) /\ l_align (array_layout sz cap) <= 16 /\
  cap * sz <= n_size (array_layout sz cap) <= 16384.
Proof.
  intros Hsz Hc. assert (Layout_ok (array_layout sz cap)) as Hok.
  { destruct Hsz as [-> | ->]; (split; [|simpl; lia]); [by exists 0|by exists 3]. }
  split; [done|]. split; [destruct Hsz; simpl; lia|]. split; [by apply (n_size_ok _ Hok)|].
  unfold n_size. simpl. apply round_up_least; [done|unfold GRAIN; lia|done].
Qed.

Lemma vec_live_size sz v :
  elem_size sz -> 0 <= v_cap v * sz <= 16384 ->
  (size (vec_live sz v) <= 1)%nat /\ live_size (vec_live sz v) <= 16384.
Proof.
  intros Hsz Hc. unfold vec_live. destruct (_ =? _).
  - split; [rewrite map_size_empty; lia|]. by vm_compute.
  - split; [rewrite map_size_singleton; lia|].
    unfold live_size. rewrite map_fold_singleton. destruct (array_layout_ok sz (v_cap v) Hsz Hc). lia.
Qed.

Lemma vec_new_model sz k : holds ∅ k -> vec_model sz (vec_new sz) [] k.
Proof. intros H. by split; simpl; try lia. Qed.

(** The memory of what is kept reads the same. *)
Lemma keep_reads live p l n k k' :
  live !! p = Some l -> Z.of_nat n <= n_size l -> heap_only live k k' ->
  read_bytes (k_mem k') p n = read_bytes (k_mem k) p n.
Proof.
  intros Hp Hn [_ _ _ H]. symmetry. apply read_bytes_ext. intros x Hx. apply H. exists p, l.
  split; [done|]. unfold range. lia.
Qed.

(** [realloc] moves the bytes to the new allocation. *)
Lemma realloc_ok sz cap cap' p k :
  elem_size sz -> 0 < cap <= cap' -> cap' * sz <= 16384 ->
  holds {[ p := array_layout sz cap ]} k ->
  exists k' q, global_realloc WALK_FUEL p (array_layout sz cap) (cap' * sz) k = Ok (k', q) /\ q <> 0 /\
    holds {[ q := array_layout sz cap' ]} k' /\ heap_only ∅ k k' /\
    forall n, Z.of_nat n <= cap * sz -> read_bytes (k_mem k') q n = read_bytes (k_mem k) p n.
Proof.
  intros Hsz Hc Hc' Hh. set (l := array_layout sz cap) in *. set (l' := array_layout sz cap').
  assert (0 < sz) as Hpos by (destruct Hsz; lia).
  destruct (array_layout_ok sz cap Hsz ltac:(nia)) as (Hl & _ & Hn).
  destruct (array_layout_ok sz cap' Hsz ltac:(nia)) as (Hl' & Hal & Hn'). fold l l' in Hl, Hn, Hl', Hal, Hn'.
  destruct (alloc_ok l' {[ p := l ]} k Hh Hl' Hal Hc') as (k1 & q & Ha & Hq & Hnone & Hh1 & Ho1).
  { rewrite map_size_singleton. lia. } { unfold live_size. rewrite map_fold_singleton. lia. }
  apply lookup_singleton_None in Hnone as Hpq.
  set (bs := read_bytes (k_mem k1) p (Z.to_nat (Z.min (cap * sz) (cap' * sz)))).
  assert (Z.of_nat (length bs) = cap * sz) as Hlb by (unfold bs; rewrite length_read_bytes; nia).
  destruct (write_ok q l' _ k1 q bs {[ p := l ]} Hh1 (lookup_insert_eq _ _ _) Hnone) as [Hh2 Ho2].
  { intros r l2 Hr. apply lookup_singleton_Some in Hr as [<- <-].
    rewrite lookup_insert_ne by done. apply lookup_singleton_eq. }
  { lia. } { nia. }
  set (k2 := Kernel _ _ _ _) in Hh2, Ho2.
  destruct (dealloc_ok p l (<[q := l']> {[ p := l ]}) k2 Hh2) as (k3 & Hd & Hh3 & Ho3).
  { rewrite lookup_insert_ne by done. apply lookup_singleton_eq. }
  assert (delete p (<[q := l']> {[ p := l ]}) = ({[ q := l' ]} : gmap Z Layout)) as Hdel.
  { rewrite delete_insert_ne by done. by rewrite delete_singleton_eq. }
  rewrite Hdel in Hh3, Ho3. exists k3, q. split.
  { unfold global_realloc. change {| l_size := cap' * sz; l_align := l_align l |} with l'.
    rewrite Ha, bind_Ok. destruct (Z.eqb_spec q 0); [done|]. fold bs.
    change (l_size l) with (cap * sz). fold bs. fold k2. by rewrite Hd, bind_Ok. }
  split; [done|]. split; [done|]. split.
  - apply (heap_only_trans _ _ k2); [apply (heap_only_trans _ _ k1)|];
      (eapply heap_only_mono; [|eassumption]); intros ? ? Hr; by rewrite lookup_empty in Hr.
  - intros n Hn0. rewrite (keep_reads _ q l' n _ _ (lookup_singleton_eq _ _) ltac:(nia) Ho3).
    unfold k2. cbn [k_mem]. rewrite (read_bytes_take _ _ n (length bs)), read_write_bytes by lia.
    unfold bs. rewrite <- read_bytes_take by (unfold bs in Hlb; rewrite length_read_bytes in Hlb; lia).
    by apply (keep_reads _ p l n _ _ (lookup_singleton_eq _ _) ltac:(lia) Ho1).
Qed.

(** Growing keeps the contents, and gives the doubled capacity. *)
Lemma grow_ok sz additional v bs k :
  let cap := Z.max (min_non_zero_cap sz) (Z.max (v_cap v * 2) (v_len v + additional)) in
  elem_size sz -> 0 < additional -> cap * sz <= 16384 -> vec_model sz v bs k ->
  exists k' p, grow WALK_FUEL sz additional v k = Ok (k', Vec p cap (v_len v)) /\
    vec_model sz (Vec p cap (v_len v)) bs k' /\ heap_only ∅ k k'.
Proof.
  intros cap Hsz Hadd Hc [Hh Hl Hv Hb]. assert (0 < sz) as Hpos by (destruct Hsz; lia).
  assert (0 < cap) as Hcap by (unfold cap, min_non_zero_cap; destruct Hsz as [-> | ->]; simpl; lia).
  assert (v_len v <= cap) as Hlen by lia.
  assert (v_cap v <= cap) as Hcc by lia.
  assert (exists k' p, (if v_cap v =? 0 then global_alloc WALK_FUEL (array_layout sz cap) k
     else global_realloc WALK_FUEL (v_ptr v) (array_layout sz (v_cap v)) (cap * sz) k) = Ok (k', p) /\ p <> 0 /\
     vec_model sz (Vec p cap (v_len v)) bs k' /\ heap_only ∅ k k') as (k' & p & Hr & Hp & Hm & Ho).
  - destruct (array_layout_ok sz cap Hsz ltac:(nia)) as (Hlo & Hal & Hn). unfold vec_live in Hh.
    destruct (Z.eqb_spec (v_cap v) 0) as [E|E].
    + destruct (alloc_ok _ ∅ k Hh Hlo Hal Hc) as (k' & p & Ha & Hp & _ & Hh' & Ho); [by vm_compute; lia|by vm_compute|].
      exists k', p. split; [done|]. split; [done|]. split; [|done].
      assert (bs = []) as -> by (apply length_zero_iff_nil; nia).
      split; simpl; [|done|lia|done]. unfold vec_live. simpl. by destruct (Z.eqb_spec cap 0); [lia|].
    + destruct (realloc_ok sz (v_cap v) cap (v_ptr v) k Hsz ltac:(lia) Hc Hh) as (k' & p & Ha & Hp & Hh' & Ho & Hrd).
      exists k', p. split; [done|]. split; [done|]. split; [|done].
      split; simpl; [|done|lia|by rewrite Hrd by nia].
      unfold vec_live. simpl. by destruct (Z.eqb_spec cap 0); [lia|].
  - exists k', p. split; [|done]. unfold grow. rewrite add_u_ok by nia. rewrite bind_Ok. fold cap.
    destruct (Z.leb_spec (cap * sz) (2 ^ 63 - sz)); [|nia]. simpl negb. cbv iota.
    unfold or_alloc_error. rewrite Hr, bind_Ok. by destruct (Z.eqb_spec p 0).
Qed.

(** Writing past the last element, within the capacity, appends. *)
Lemma append_ok sz n v bs bs' k :
  elem_size sz -> v_cap v * sz <= 16384 -> Z.of_nat (length bs') = sz * n -> 0 < n -> v_len v + n <= v_cap v ->
  vec_model sz v bs k ->
  let k' := Kernel (k_if k) (write_bytes (k_mem k) (v_ptr v + sz * v_len v) bs') (FRAMES k) (HEAP k) in
  vec_model sz (Vec (v_ptr v) (v_cap v) (v_len v + n)) (bs ++ bs') k' /\ heap_only ∅ k k'.
Proof.
  intros Hsz Hc Hl' Hn Hroom [Hh Hl Hv Hb] k'. assert (0 < sz) as Hpos by (destruct Hsz; lia).
  destruct (array_layout_ok sz (v_cap v) Hsz ltac:(nia)) as (_ & _ & Hns).
  assert (vec_live sz v = {[ v_ptr v := array_layout sz (v_cap v) ]}) as Hvl.
  { unfold vec_live. by destruct (Z.eqb_spec (v_cap v) 0); [lia|]. }
  rewrite Hvl in Hh.
  destruct (write_ok (v_ptr v) _ _ k (v_ptr v + sz * v_len v) bs' ∅ Hh (lookup_singleton_eq _ _) (lookup_empty _))
    as [Hh' Ho]; [by intros q l' Hq; rewrite lookup_empty in Hq|lia|nia|].
  split; [|exact Ho]. split; simpl.
  - unfold vec_live in *. simpl. by rewrite Hvl.
  - rewrite length_app. lia.
  - lia.
  - rewrite length_app, <- Hl. by apply read_bytes_append.
Qed.

(** [Vec<u64>::push] appends its value. *)
Definition u64_vec (v : vec) (vs : list Z) (k : kernel) : Prop :=
  vec_model 8 v (concat (le_bytes 8 <$> vs)) k.

Lemma push_ok x v vs k :
  u64_vec v vs k -> v_cap v * 8 <= 16384 -> (v_len v = v_cap v -> Z.max 4 (v_cap v * 2) * 8 <= 16384) ->
  exists k' p cap, push WALK_FUEL x v k = Ok (k', Vec p cap (v_len v + 1)) /\
    u64_vec (Vec p cap (v_len v + 1)) (vs ++ [x]) k' /\ heap_only ∅ k k' /\
    (cap = v_cap v \/ v_len v = v_cap v /\ cap = Z.max 4 (Z.max (v_cap v * 2) (v_len v + 1))).
Proof.
  intros Hm Hc Hg. assert (elem_size 8) as Hsz by (by right). pose proof (vm_cap _ _ _ _ Hm) as Hv.
  assert (exists k1 p cap, (if v_len v =? v_cap v then grow WALK_FUEL 8 1 v k else Ok (k, v)) = Ok (k1, Vec p cap (v_len v)) /\
    u64_vec (Vec p cap (v_len v)) vs k1 /\ heap_only ∅ k k1 /\ v_len v < cap /\ cap * 8 <= 16384 /\
    (cap = v_cap v \/ v_len v = v_cap v /\ cap = Z.max 4 (Z.max (v_cap v * 2) (v_len v + 1))))
    as (k1 & p & cap & Hr & Hm1 & Ho1 & Hroom & Hcap & Hd).
  - destruct (Z.eqb_spec (v_len v) (v_cap v)) as [E|E].
    + specialize (Hg E). destruct (grow_ok 8 1 v _ k Hsz ltac:(lia) ltac:(change (min_non_zero_cap 8) with 4; lia) Hm)
        as (k1 & p & Hr & Hm1 & Ho1). change (min_non_zero_cap 8) with 4 in *.
      eexists k1, p, _. split; [exact Hr|]. split; [done|]. split; [done|]. split; [lia|]. split; [lia|]. by right.
    + exists k, (v_ptr v), (v_cap v). destruct v as [p cap n]. simpl in *. do 2 (split; [done|]).
      split; [by split|]. repeat split; try lia.
  - destruct (append_ok 8 1 (Vec p cap (v_len v)) _ (le_bytes 8 x) k1 Hsz Hcap
      ltac:(done) ltac:(lia) ltac:(simpl; lia) Hm1) as [Hm2 Ho2].
    eexists _, p, cap. unfold push. rewrite Hr, bind_Ok. split; [done|].
    split; [|by split; [eapply heap_only_trans|]].
    unfold u64_vec. rewrite fmap_app, concat_app. cbn [fmap list_fmap concat]. rewrite app_nil_r. exact Hm2.
Qed.

(** [v[i]] reads the element. *)
Lemma vec_index_ok v vs (i : nat) x k :
  u64_vec v vs k -> vs !! i = Some x -> vec_index v (Z.of_nat i) k = Ok (x mod 2 ^ 64).
Proof.
  intros [_ Hl Hv Hb] Hx. pose proof (lookup_lt_Some _ _ _ Hx) as Hi. rewrite length_le_concat in *.
  unfold vec_index. destruct (Z.ltb_spec (Z.of_nat i) (v_len v)); [|lia]. f_equal.
  change (2 ^ 64) with (256 ^ Z.of_nat 8). rewrite <- le_value_le_bytes, <- (le_bytes_concat _ _ _ Hx). unfold load. f_equal.
  rewrite <- Hb. replace (8 * Z.of_nat i) with (Z.of_nat (8 * i)) by lia.
  rewrite <- read_bytes_drop by lia. apply read_bytes_take. lia.
Qed.

(** [String::push_str] appends its bytes. *)
Lemma push_str_ok s v bs k :
  let n := Z.of_nat (length s) in
  vec_model 1 v bs k -> 0 < n -> v_cap v <= 16384 -> Z.max 8 (Z.max (v_cap v * 2) (v_len v + n)) <= 16384 ->
  exists k' p cap, push_str WALK_FUEL s v k = Ok (k', Vec p cap (v_len v + n)) /\
    vec_model 1 (Vec p cap (v_len v + n)) (bs ++ s) k' /\ heap_only ∅ k k' /\
    (cap = v_cap v \/ v_cap v - v_len v < n /\ cap = Z.max 8 (Z.max (v_cap v * 2) (v_len v + n))).
Proof.
  intros n Hm Hn Hc Hg. assert (elem_size 1) as Hsz by (by left). pose proof (vm_cap _ _ _ _ Hm) as Hv.
  assert (exists k1 p cap, reserve WALK_FUEL 1 n v k = Ok (k1, Vec p cap (v_len v)) /\
    vec_model 1 (Vec p cap (v_len v)) bs k1 /\ heap_only ∅ k k1 /\ v_len v + n <= cap /\ cap <= 16384 /\
    (cap = v_cap v \/ v_cap v - v_len v < n /\ cap = Z.max 8 (Z.max (v_cap v * 2) (v_len v + n))))
    as (k1 & p & cap & Hr & Hm1 & Ho1 & Hroom & Hcap & Hd).
  - unfold reserve. destruct (Z.ltb_spec (v_cap v - v_len v) n) as [E|E].
    + destruct (grow_ok 1 n v _ k Hsz Hn ltac:(change (min_non_zero_cap 1) with 8; lia) Hm)
        as (k1 & p & Hr & Hm1 & Ho1). change (min_non_zero_cap 1) with 8 in *.
      eexists k1, p, _. split; [exact Hr|]. split; [done|]. split; [done|]. split; [lia|]. split; [lia|]. by right.
    + exists k, (v_ptr v), (v_cap v). destruct v as [p cap m]. simpl in *. do 2 (split; [done|]).
      split; [by split|]. repeat split; try lia.
  - destruct (append_ok 1 n (Vec p cap (v_len v)) _ s k1 Hsz
      ltac:(simpl; lia) ltac:(lia) Hn ltac:(simpl; lia) Hm1) as [Hm2 Ho2].
    eexists _, p, cap. unfold push_str. fold n. rewrite Hr, bind_Ok. cbn [v_ptr v_len v_cap] in *.
    rewrite Z.mul_1_l in Hm2, Ho2. split; [done|]. split; [done|]. by split; [eapply heap_only_trans|].
Qed.

Lemma vec_drop_ok sz v bs k :
  vec_model sz v bs k -> exists k', vec_drop WALK_FUEL sz v k = Ok k' /\ holds ∅ k' /\ heap_only ∅ k k'.
Proof.
  intros [Hh _ _ _]. unfold vec_drop. unfold vec_live in Hh. destruct (v_cap v =? 0).
  - exists k. by split; [|split; [|split]].
  - destruct (dealloc_ok _ _ _ k Hh (lookup_singleton_eq _ _)) as (k' & Hd & Hh' & Ho).
    rewrite delete_singleton_eq in Hh', Ho. eauto.
Qed.

(** ** The phases of the self-test *)

Lemma heap_only_refl keep k : heap_only keep k k.
Proof. by split. Qed.

(** A box holds what was put in it, and goes back. *)
Lemma box_ok v k :
  in_u 64 v -> holds ∅ k ->
  exists k1 p k2, box_new WALK_FUEL v k = Ok (k1, p) /\ load 8 (k_mem k1) p = v /\
    box_drop WALK_FUEL p k1 = Ok k2 /\ holds ∅ k2 /\ heap_only ∅ k k2.
Proof.
  intros Hv Hh. change u64_layout with (array_layout 8 1).
  destruct (array_layout_ok 8 1 ltac:(by right) ltac:(lia)) as (Hl & Hal & Hn).
  destruct (alloc_ok _ ∅ k Hh Hl Hal ltac:(simpl; lia) ltac:(by vm_compute; lia) ltac:(by vm_compute))
    as (k1 & p & Ha & Hp & _ & Hh1 & Ho1).
  destruct (write_ok p _ _ k1 p (le_bytes 8 v) ∅ Hh1 (lookup_insert_eq _ _ _) (lookup_empty _)) as [Hh2 Ho2].
  { intros q l' Hq. by rewrite lookup_empty in Hq. } { lia. } { rewrite length_le_bytes. lia. }
  change (Kernel _ _ _ _) with (store_at 8 p v k1) in Hh2, Ho2.
  destruct (dealloc_ok p _ _ _ Hh2 (lookup_insert_eq _ _ _)) as (k3 & Hd & Hh3 & Ho3).
  rewrite delete_insert_id in Hh3, Ho3 by apply lookup_empty.
  exists (store_at 8 p v k1), p, k3. split.
  { unfold box_new, or_alloc_error. change u64_layout with (array_layout 8 1). rewrite Ha, !bind_Ok.
    by destruct (Z.eqb_spec p 0). }
  split. { simpl. rewrite load_store_eq. by apply Z.mod_small. }
  split; [exact Hd|]. split; [done|]. by eapply heap_only_trans, heap_only_trans.
Qed.

(** The pushes of [0..1024]: every element is there, in order. *)
Lemma pushes_ok k :
  holds ∅ k ->
  exists k' v, for_range 0 1024 (fun i '(k, v) => push WALK_FUEL i v k) (k, vec_new 8) = Ok (k', v) /\
    u64_vec v (seqZ 0 1024) k' /\ v_len v = 1024 /\ heap_only ∅ k k'.
Proof.
  intros Hh. set (body := fun (i : Z) '(k, v) => push WALK_FUEL i v k).
  destruct (for_range_inv (fun i '(k', v) => u64_vec v (seqZ 0 i) k' /\ v_len v = i /\
    v_cap v <= Z.max 4 (2 * i) /\ heap_only ∅ k k') 0 1024 body (k, vec_new 8))
    as ([k' v] & Hr & Hm & Hl & _ & Ho); [lia| | |by exists k', v].
  - split; [by apply vec_new_model|]. split; [done|]. split; [done|]. apply heap_only_refl.
  - intros i [k1 v] Hi (Hm & Hl & Hc & Ho).
    destruct (push_ok i v _ k1 Hm ltac:(lia) ltac:(lia)) as (k2 & p & cap & Hr & Hm2 & Ho2 & Hcap).
    exists (k2, Vec p cap (v_len v + 1)). split; [exact Hr|]. simpl. split; [|split; [lia|split; [lia|]]].
    + replace (i + 1) with (Z.of_nat (S (Z.to_nat i))) by lia. rewrite seqZ_S.
      by rewrite Z2Nat.id, Z.add_0_l by lia.
    + by eapply heap_only_trans.
Qed.

(** The hundred [push_str]s. *)
Lemma push_strs_ok s k :
  length s = 4%nat -> holds ∅ k ->
  exists k' v bs, for_range 0 100 (fun _ '(k, v) => push_str WALK_FUEL s v k) (k, vec_new 1) = Ok (k', v) /\
    vec_model 1 v bs k' /\ v_len v = 400 /\ heap_only ∅ k k'.
Proof.
  intros Hs Hh. set (body := fun (_ : Z) '(k, v) => push_str WALK_FUEL s v k).
  destruct (for_range_inv (fun i '(k', v) => (exists bs, vec_model 1 v bs k') /\ v_len v = 4 * i /\
    v_cap v <= Z.max 8 (8 * i) /\ heap_only ∅ k k') 0 100 body (k, vec_new 1))
    as ([k' v] & Hr & [bs Hm] & Hl & _ & Ho); [lia| | |by exists k', v, bs].
  - split; [exists []; by apply vec_new_model|]. split; [done|]. split; [done|]. apply heap_only_refl.
  - intros i [k1 v] Hi ([bs Hm] & Hl & Hc & Ho).
    destruct (push_str_ok s v bs k1 Hm ltac:(lia) ltac:(lia) ltac:(lia)) as (k2 & p & cap & Hr & Hm2 & Ho2 & Hcap).
    eexists. split; [exact Hr|]. simpl. split; [eauto|]. split; [lia|]. split; [lia|].
    by eapply heap_only_trans.
Qed.

(** Three vectors, dropped middle last. *)
Lemma with_capacity_ok live k :
  holds live k -> (size live <= 3)%nat -> live_size live <= 65536 ->
  exists k' p, vec_with_capacity WALK_FUEL 1 64 k = Ok (k', Vec p 64 0) /\ live !! p = None /\
    holds (<[p := array_layout 1 64]> live) k' /\ heap_only ∅ k k'.
Proof.
  intros Hh Hn Hs. destruct (array_layout_ok 1 64 ltac:(by left) ltac:(lia)) as (Hl & Hal & _).
  destruct (alloc_ok _ live k Hh Hl Hal ltac:(simpl; lia) Hn Hs) as (k' & p & Ha & Hp & Hnone & Hh' & Ho).
  exists k', p. split; [|split; [done|split; [done|]]].
  - unfold vec_with_capacity, or_alloc_error. simpl. rewrite Ha, bind_Ok. by destruct (Z.eqb_spec p 0).
  - eapply heap_only_mono; [|done]. intros q l Hq. by rewrite lookup_empty in Hq.
Qed.

Lemma three_vectors_ok k :
  holds ∅ k ->
  exists k1 k2 k3 k4 k5 k6 p q r,
    vec_with_capacity WALK_FUEL 1 64 k = Ok (k1, Vec p 64 0) /\
    vec_with_capacity WALK_FUEL 1 64 k1 = Ok (k2, Vec q 64 0) /\
    vec_with_capacity WALK_FUEL 1 64 k2 = Ok (k3, Vec r 64 0) /\
    vec_drop WALK_FUEL 1 (Vec p 64 0) k3 = Ok k4 /\ vec_drop WALK_FUEL 1 (Vec r 64 0) k4 = Ok k5 /\
    vec_drop WALK_FUEL 1 (Vec q 64 0) k5 = Ok k6 /\ holds ∅ k6 /\ heap_only ∅ k k6.
Proof.
  intros Hh. set (l := array_layout 1 64). assert (n_size l = 64) as Hl by done.
  assert (live_size ∅ = 0) as H0 by done.
  destruct (with_capacity_ok ∅ k Hh) as (k1 & p & Hr1 & Hp & Hh1 & Ho1); [rewrite map_size_empty; lia|lia|].
  destruct (with_capacity_ok _ k1 Hh1) as (k2 & q & Hr2 & Hq & Hh2 & Ho2).
  { rewrite map_size_insert, Hp, map_size_empty. lia. }
  { rewrite (live_size_insert 0) by done. fold l. lia. }
  destruct (with_capacity_ok _ k2 Hh2) as (k3 & r & Hr3 & Hr & Hh3 & Ho3).
  { rewrite map_size_insert, Hq, map_size_insert, Hp, map_size_empty. lia. }
  { rewrite !(live_size_insert 0) by done. fold l. lia. }
  fold l in Hh1, Hh2, Hh3, Hq, Hr. apply lookup_insert_None in Hq as [_ Hpq]. apply lookup_insert_None in Hr as [Hr Hqr].
  apply lookup_insert_None in Hr as [_ Hpr].
  destruct (dealloc_ok p l _ k3 Hh3) as (k4 & Hd4 & Hh4 & Ho4).
  { rewrite !lookup_insert_ne by done. apply lookup_insert_eq. }
  destruct (dealloc_ok r l _ k4 Hh4) as (k5 & Hd5 & Hh5 & Ho5).
  { rewrite lookup_delete_ne by done. apply lookup_insert_eq. }
  destruct (dealloc_ok q l _ k5 Hh5) as (k6 & Hd6 & Hh6 & Ho6).
  { rewrite !lookup_delete_ne, lookup_insert_ne by done. apply lookup_insert_eq. }
  exists k1, k2, k3, k4, k5, k6, p, q, r. repeat (split; [done|]).
  assert (delete q (delete r (delete p (<[r:=l]> (<[q:=l]> (<[p:=l]> ∅))))) = (∅ : gmap Z Layout)) as He.
  { apply map_eq. intros x. rewrite lookup_empty. destruct (decide (x = p)), (decide (x = q)), (decide (x = r)); subst;
      by simplify_map_eq. }
  rewrite He in Hh6. split; [done|].
  assert (forall keep a b, heap_only keep a b -> heap_only ∅ a b) as Hw.
  { intros keep a b. apply heap_only_mono. intros x y Hx. by rewrite lookup_empty in Hx. }
  apply Hw in Ho4, Ho5, Ho6. repeat (eapply heap_only_trans; [eassumption|]). apply heap_only_refl.
Qed.

(** The two gauges of a heap with nothing out. *)
Lemma gauges_ok k :
  holds ∅ k -> free_bytes WALK_FUEL k = Ok (k, HEAP_BYTES) /\ free_blocks WALK_FUEL k = Ok (k, 1) /\
    Inv base hi (k_mem k) (HEAP k) [(base, HEAP_BYTES)].
Proof.
  intros [bl HI]. destruct Hreg as [Hb Hh Hg Hgh Hr].
  rewrite (HInv_empty_one_block base hi WALK_FUEL Hb Hh Hg Hgh Hr _ _ _ HI) in HI.
  replace (hi - base) with HEAP_BYTES in HI by lia.
  pose proof (walk_fuel base hi WALK_FUEL Hr (walk_fuel_enough base) _ _ HI) as Hw. destruct HI as [HL _ _ _ _]; cbn [hs_mem hs_heap] in HL.
  assert (base <= hi) as Hbh by (pose proof HEAP_BYTES_facts; unfold GRAIN in *; lia).
  unfold free_bytes, free_blocks. rewrite !without_interrupts_masked.
  change (k_mem (masked k)) with (k_mem k). change (HEAP (masked k)) with (HEAP k).
  rewrite (heap_free_bytes_spec base hi Hb Hh WALK_FUEL _ _ _ HL Hbh Hw),
    (heap_free_blocks_spec base hi Hb Hh WALK_FUEL _ _ _ HL Hbh Hw), !bind_Ok.
  assert ((if get_if k then sti (masked k) else masked k) = k) as -> by (by destruct k as [[] ? ? ?]).
  by split; [|split].
Qed.

Lemma ensure_true b msg : b = true -> ensure b msg = Ok tt.
Proof. by intros ->. Qed.

(** A call of the self-test, whose result is known. *)
Ltac run_call H := rewrite H; cbn [lift Z.eqb negb]; rewrite ?bind_Ok.

(** The self-test passes on a heap with nothing out, and leaves it so. *)
Lemma heap_selftest_spec k :
  holds ∅ k -> exists k', heap_selftest WALK_FUEL k = Ok k' /\ holds ∅ k' /\ heap_only ∅ k k'.
Proof.
  intros Hh. destruct (gauges_ok k Hh) as [Hfb _].
  destruct (box_ok 0xdeadbeef k ltac:(by vm_compute) Hh) as (k1 & p & k2 & Hr1 & Hld & Hr2 & Hh2 & Ho2).
  destruct (pushes_ok k2 Hh2) as (k3 & v & Hr3 & Hm3 & Hl3 & Ho3).
  destruct (vec_drop_ok 8 v _ k3 Hm3) as (k4 & Hr4 & Hh4 & Ho4).
  destruct (push_strs_ok [114; 117; 115; 116] k4 eq_refl Hh4) as (k5 & w & bs & Hr5 & Hm5 & Hl5 & Ho5).
  destruct (vec_drop_ok 1 w _ k5 Hm5) as (k6 & Hr6 & Hh6 & Ho6).
  destruct (three_vectors_ok k6 Hh6) as (k7 & k8 & k9 & k10 & k11 & k12 & a & b & c & Ha & Hb & Hc & Hd & He & Hf & Hh12 & Ho12).
  destruct (gauges_ok k12 Hh12) as (Hfb' & Hbk & _).
  assert (vec_index v 0 k3 = Ok 0) as Hi0 by (apply (vec_index_ok v _ 0 0 k3 Hm3); reflexivity).
  assert (vec_index v 1023 k3 = Ok 1023) as Hi1 by (apply (vec_index_ok v _ 1023 1023 k3 Hm3); reflexivity).
  exists k12. split.
  2: { split; [done|]. repeat (eapply heap_only_trans; [eassumption|]). apply heap_only_refl. }
  unfold heap_selftest.
  run_call Hfb. run_call Hr1. rewrite Hld, ensure_true, bind_Ok by done. run_call Hr2.
  run_call Hr3. rewrite Hl3, ensure_true, bind_Ok by done. run_call Hi0. run_call Hi1.
  rewrite ensure_true, bind_Ok by done. run_call Hr4.
  run_call Hr5. rewrite Hl5, ensure_true, bind_Ok by done. run_call Hr6.
  run_call Ha. run_call Hb. run_call Hc. run_call Hd. run_call He. run_call Hf.
  run_call Hfb'. rewrite ensure_true, bind_Ok by apply Z.eqb_refl. by run_call Hbk.
Qed.
End Calls.

(** ** The self-test after boot *)

Lemma booted_holds regions k base : booted regions k base -> holds base ∅ k.
Proof. intros Hb. destruct (booted_SInv _ _ _ Hb) as (A & HI & _). exists [(base, HEAP_BYTES)]. apply HI. Qed.

(** The heap's boot self-test passes. On the heap [kernel_main] has just
    armed, with the 1 MiB region wherever the frame allocator put it, every
    allocation succeeds, the box reads back its value, the 1024 elements
    survive the reallocations, and the frees, the three middle-last ones
    included, coalesce the free list back to the single block [init]
    created, so [selftest] returns [Ok]. The frame allocator, the interrupt
    flag and memory outside the heap's region are as before. *)
Theorem heap_selftest_passes regions k base :
  booted regions k base ->
  exists k', heap_selftest WALK_FUEL k = Ok k' /\ k_if k' = k_if k /\ FRAMES k' = FRAMES k /\
    Inv base (base + HEAP_BYTES) (k_mem k') (HEAP k') [(base, HEAP_BYTES)] /\
    mem_agree (fun x => ~ range base HEAP_BYTES x) (k_mem k) (k_mem k').
Proof.
  intros Hb. pose proof (booted_region _ _ _ Hb) as Hreg.
  destruct (heap_selftest_spec base Hreg k (booted_holds _ _ _ Hb)) as (k' & Hr & Hh & []).
  exists k'. repeat (split; [done|]). split; [|done]. by apply gauges_ok.
Qed.

Lemma heap_selftest_passes_witness : exists k',
  heap_selftest WALK_FUEL demo_booted = Ok k' /\ FRAMES k' = FRAMES demo_booted.
Proof.
  destruct (heap_selftest_passes demo_ram demo_booted 0x102000 demo_booted_ok) as (k' & Hr & _ & Hf & _).
  exists k'. exact (conj Hr Hf).
Defined.
