(* ===== verification/Uefi.v ===== *)
(** What the bootloader relies on of the firmware's boot services, as an
    interface: page allocation as the UEFI specification documents it, and the
    pool its global allocator asks. *)
From S2P Require Import Prelude Memory BootInfo.

(** [AllocateType], the two requests the bootloader makes. *)
Inductive AllocateType :=
| AnyPages
| Address (a : Z).

Definition LOADER_DATA : Z := 2.

(** Physical addresses are at most 52 bits wide on x86-64. *)
Definition PHYS_BITS : Z := 52.

(** [boot::allocate_pages ty kind pages]: the address of fresh pages, or a
    status. Granted pages belong to the caller: whole, in the physical address
    space, at the address asked for if one was, never granted twice. Whether
    [boot::allocate_pool] serves a buffer of some bytes is up to the firmware;
    the buffer itself is a value of the program that asked for it. *)
Class Firmware (F : Type) := {
  allocate_pool : Z -> F -> bool;
  allocate_pages : AllocateType -> Z -> Z -> F -> F * (Z + Z);
  granted : F -> Z -> Prop;
  allocate_ok ty kind pages f f' a : 0 <= pages ->
    allocate_pages ty kind pages f = (f', inl a) ->
    0 < pages /\ 0 <= a /\ a mod PAGE_SIZE = 0 /\ a + pages * PAGE_SIZE <= 2 ^ PHYS_BITS /\
    (forall p, ty = Address p -> a = p) /\ (ty = AnyPages -> a <> 0) /\
    (forall x, range a (pages * PAGE_SIZE) x -> ~ granted f x) /\
    (forall x, granted f' x <-> granted f x \/ range a (pages * PAGE_SIZE) x);
  allocate_err ty kind pages f f' st :
    allocate_pages ty kind pages f = (f', inr st) -> forall x, granted f' x <-> granted f x;
}.

(** [allocate_pages(...).map_err(e)?] in code with error type [E]. *)
Definition allocate_or {F} `{Firmware F} {E} (e : Z -> E) (ty : AllocateType) (pages : Z) (f : F)
    : outcome E (F * Z) :=
  match allocate_pages ty LOADER_DATA pages f with
  | (f, inl a) => Ok (f, a)
  | (_, inr st) => Err (e st)
  end.

(** ** An instance: firmware with a list of granted page runs *)

Definition OUT_OF_RESOURCES : Z := 9.

(** Free pages from 16 MiB up for requests without an address; a request for
    given pages succeeds unless it touches granted ones. *)
Record simple_firmware := SimpleFirmware { sf_next : Z; sf_granted : list (Z * Z) }.

Definition sf_touches (a n : Z) (g : Z * Z) : bool :=
  (0 <? snd g) && (a <? fst g + snd g) && (fst g <? a + n).

Definition sf_allocate (ty : AllocateType) (_ pages : Z) (f : simple_firmware)
    : simple_firmware * (Z + Z) :=
  let a := match ty with AnyPages => sf_next f | Address p => p end in
  let n := pages * PAGE_SIZE in
  if (0 <? pages) && (0 <=? a) && (a mod PAGE_SIZE =? 0) && (a + n <=? 2 ^ PHYS_BITS) &&
     (match ty with AnyPages => negb (a =? 0) | Address _ => true end) &&
     negb (existsb (sf_touches a n) (sf_granted f))
  then (SimpleFirmware (match ty with AnyPages => a + n | Address _ => sf_next f end)
          ((a, n) :: sf_granted f), inl a)
  else (f, inr OUT_OF_RESOURCES).

Lemma sf_touches_at a n g x : range a n x -> range (fst g) (snd g) x -> sf_touches a n g = true.
Proof. unfold sf_touches, range. rewrite !andb_true_iff, !Z.ltb_lt. lia. Qed.

#[export] Instance simple_Firmware : Firmware simple_firmware.
Proof.
  refine {| allocate_pool size _ := size <=? 2 ^ 30; allocate_pages := sf_allocate;
            granted f x := exists g, In g (sf_granted f) /\ range (fst g) (snd g) x |}.
  - intros ty kind pages f f' a Hp. unfold sf_allocate.
    set (a0 := match ty with AnyPages => sf_next f | Address p => p end). intros Ha.
    destruct ((0 <? pages) && _ && _ && _ && _ && _) eqn:E; [|done]. injection Ha as <- <-.
    repeat rewrite andb_true_iff in E. destruct E as (((((E1 & E2) & E3) & E4) & E5) & E6).
    apply Z.ltb_lt in E1. apply Z.leb_le in E2. apply Z.eqb_eq in E3. apply Z.leb_le in E4.
    apply negb_true_iff in E6.
    split; [done|]. split; [done|]. split; [done|]. split; [done|].
    split; [intros p ->; done|].
    split; [intros ->; by apply negb_true_iff, Z.eqb_neq in E5|]. split.
    + intros x Hx (g & Hg & Hxg).
      pose proof (sf_touches_at _ _ _ _ Hx Hxg) as Ht.
      assert (existsb (sf_touches a0 (pages * PAGE_SIZE)) (sf_granted f) = true) as He
        by (apply existsb_exists; eauto). congruence.
    + intros x. simpl. split.
      * intros (g & [<-|Hg] & Hx); [by right|left; eauto].
      * intros [(g & Hg & Hx)|Hx]; [eauto|]. exists (a0, pages * PAGE_SIZE). by split; [left|].
  - intros ty kind pages f f' st. unfold sf_allocate.
    destruct (_ && _ && _ && _ && _ && _); [done|]. by intros [= <- _].
Defined.

Definition demo_firmware : simple_firmware := SimpleFirmware 0x1000000 [].
