(* ===== verification/Elf.v ===== *)
(** The bootloader's ELF64 loader ([bootloader/src/elf.rs]). *)
From S2P Require Import Prelude Memory BootInfo Uefi.

(** ** Constants and data *)

Definition EI_CLASS : nat := 4.
Definition EI_DATA : nat := 5.
Definition ELF_MAGIC : list Z := [0x7f; 69; 76; 70].
Definition ELFCLASS64 : Z := 2.
Definition ELFDATA2LSB : Z := 1.
Definition ET_EXEC : Z := 2.
Definition EM_X86_64 : Z := 0x3e.
Definition PT_LOAD : Z := 1.
Definition EHDR_SIZE : Z := 64.
Definition PHDR_SIZE : Z := 56.

Inductive ElfError :=
| TooSmall
| BadMagic
| Not64Bit
| NotLittleEndian
| NotExecutable
| WrongArchitecture
| BadProgramHeaders
| SegmentOutOfBounds
| SegmentTooLarge
| NoLoadableSegments
| AllocationFailed
| EntryOutOfRange.

#[export] Instance ElfError_eq_dec : EqDecision ElfError.
Proof. solve_decision. Defined.

Record LoadedKernel := { lk_entry : Z; lk_base : Z; lk_size : Z }.

Record LoadSegment := { sg_offset : Z; sg_vaddr : Z; sg_filesz : Z; sg_memsz : Z }.

(** ** Bounded reads *)

Abbreviation bytes := (list Z).

Definition len (b : bytes) : Z := Z.of_nat (length b).

(** [bytes.get(start..end)]. *)
Definition get_range (b : bytes) (start end_ : Z) : option bytes :=
  if (start <=? end_) && (end_ <=? len b)
  then Some (take (Z.to_nat (end_ - start)) (drop (Z.to_nat start) b)) else None.

(** [read_u16], [read_u32] and [read_u64] are this at 2, 4 and 8. *)
Definition read_le (n : Z) (b : bytes) (offset : Z) : option Z :=
  end_ ← checked_add 64 offset n;
  slice ← get_range b offset end_;
  Some (le_value slice).

Definition read_u16 : bytes -> Z -> option Z := read_le 2.
Definition read_u32 : bytes -> Z -> option Z := read_le 4.
Definition read_u64 : bytes -> Z -> option Z := read_le 8.

(** [image[i]]: an index out of range panics. *)
Definition index {E} (b : bytes) (i : nat) : outcome E Z :=
  match b !! i with Some v => Ok v | None => Panic end.

(** [image[0..4]]. *)
Definition slice {E} (b : bytes) (start end_ : Z) : outcome E bytes :=
  match get_range b start end_ with Some s => Ok s | None => Panic end.

Definition bytes_eqb (a b : bytes) : bool := bool_decide (a = b).

(** ** The header *)

Definition parse_header (image : bytes) : outcome ElfError (Z * Z * Z * Z) :=
  if len image <? EHDR_SIZE then Err TooSmall else
  magic ← slice image 0 4;
  if negb (bytes_eqb magic ELF_MAGIC) then Err BadMagic else
  class ← index image EI_CLASS;
  if negb (class =? ELFCLASS64) then Err Not64Bit else
  data ← index image EI_DATA;
  if negb (data =? ELFDATA2LSB) then Err NotLittleEndian else
  e_type ← ok_or TooSmall (read_u16 image 16);
  if negb (e_type =? ET_EXEC) then Err NotExecutable else
  e_machine ← ok_or TooSmall (read_u16 image 18);
  if negb (e_machine =? EM_X86_64) then Err WrongArchitecture else
  e_entry ← ok_or TooSmall (read_u64 image 24);
  e_phoff ← ok_or TooSmall (read_u64 image 32);
  e_phentsize ← ok_or TooSmall (read_u16 image 54);
  e_phnum ← ok_or TooSmall (read_u16 image 56);
  if negb (e_phentsize =? PHDR_SIZE) then Err BadProgramHeaders else
  Ok (e_entry, e_phoff, e_phentsize, e_phnum).

(** ** Segments *)

Definition align_down (value : Z) : Z := Z.land value (not_u 64 (PAGE_SIZE - 1)).

Definition align_up {E} (value : Z) : outcome E Z :=
  v ← add_u 64 value (PAGE_SIZE - 1);
  Ok (Z.land v (not_u 64 (PAGE_SIZE - 1))).

(** [load_kernel]'s loop body up to the decision to load: program header
    [index] is skipped ([None]), or describes a segment whose file and memory
    ranges are in bounds, with its memory end. *)
Definition parse_segment (image : bytes) (phoff phentsize index : Z)
    : outcome ElfError (option (LoadSegment * Z)) :=
  scaled ← ok_or BadProgramHeaders (checked_mul 64 index phentsize);
  base ← ok_or BadProgramHeaders (checked_add 64 phoff scaled);
  header_end ← ok_or BadProgramHeaders (checked_add 64 base PHDR_SIZE);
  if len image <? header_end then Err BadProgramHeaders else
  p_type ← ok_or BadProgramHeaders (read_u32 image base);
  if negb (p_type =? PT_LOAD) then Ok None else
  o8 ← add_u 64 base 8;
  offset ← ok_or BadProgramHeaders (read_u64 image o8);
  o16 ← add_u 64 base 16;
  vaddr ← ok_or BadProgramHeaders (read_u64 image o16);
  o32 ← add_u 64 base 32;
  filesz ← ok_or BadProgramHeaders (read_u64 image o32);
  o40 ← add_u 64 base 40;
  memsz ← ok_or BadProgramHeaders (read_u64 image o40);
  if memsz <? filesz then Err SegmentTooLarge else
  file_end ← ok_or SegmentOutOfBounds (checked_add 64 offset filesz);
  if len image <? file_end then Err SegmentOutOfBounds else
  seg_end ← ok_or SegmentOutOfBounds (checked_add 64 vaddr memsz);
  Ok (Some ({| sg_offset := offset; sg_vaddr := vaddr; sg_filesz := filesz; sg_memsz := memsz |},
            seg_end)).

Section Loader.
Context {F : Type} `{Firmware F}.

Definition load_segment (image : bytes) (segment : LoadSegment) (f : F) (m : mem)
    : outcome ElfError (F * mem) :=
  let page_start := align_down (sg_vaddr segment) in
  padding ← sub_u (sg_vaddr segment) page_start;
  total ← ok_or SegmentOutOfBounds (checked_add 64 padding (sg_memsz segment));
  if total =? 0 then Ok (f, m) else
  let pages := div_ceil total PAGE_SIZE in
  '(f, _) ← allocate_or (fun _ => AllocationFailed) (Address page_start) pages f;
  n ← mul_u 64 pages PAGE_SIZE;
  let m := fill m page_start (Z.to_nat n) 0 in
  let src := take (Z.to_nat (sg_filesz segment)) (drop (Z.to_nat (sg_offset segment)) image) in
  Ok (f, write_bytes m (sg_vaddr segment) src).

(** The loop's variables. *)
Record load_acc := LoadAcc { lowest : Z; highest : Z; loaded_any : bool }.

(** [for index in 0..phnum], from [index] on. *)
Fixpoint load_segments (n : nat) (image : bytes) (phoff phentsize index : Z) (acc : load_acc)
    (f : F) (m : mem) : outcome ElfError (load_acc * F * mem) :=
  match n with
  | O => Ok (acc, f, m)
  | S n =>
      o ← parse_segment image phoff phentsize index;
      match o with
      | None => load_segments n image phoff phentsize (index + 1) acc f m
      | Some (segment, seg_end) =>
          let seg_start := align_down (sg_vaddr segment) in
          '(f, m) ← load_segment image segment f m;
          load_segments n image phoff phentsize (index + 1)
            {| lowest := Z.min (lowest acc) seg_start;
               highest := Z.max (highest acc) seg_end;
               loaded_any := true |} f m
      end
  end.

Definition load_kernel (image : bytes) (f : F) (m : mem) : outcome ElfError (LoadedKernel * F * mem) :=
  '(entry, phoff, phentsize, phnum) ← parse_header image;
  '(acc, f, m) ← load_segments (Z.to_nat phnum) image phoff phentsize 0
                   {| lowest := 2 ^ 64 - 1; highest := 0; loaded_any := false |} f m;
  if negb (loaded_any acc) then Err NoLoadableSegments else
  if (entry <? lowest acc) || (highest acc <=? entry) then Err EntryOutOfRange else
  highest ← align_up (highest acc);
  size ← sub_u highest (lowest acc);
  Ok ({| lk_entry := entry; lk_base := lowest acc; lk_size := size |}, f, m).
End Loader.

(** ** Reads *)

(** What any [Vec<u8>] is. *)
Definition image_ok (image : bytes) : Prop := Forall is_byte image /\ len image < 2 ^ 63.

Lemma get_range_Some b s e x :
  get_range b s e = Some x <->
  s <= e /\ e <= len b /\ x = take (Z.to_nat (e - s)) (drop (Z.to_nat s) b).
Proof.
  unfold get_range. destruct (Z.leb_spec s e); simpl; [|split; [done|lia]].
  destruct (Z.leb_spec e (len b)); [|split; [done|lia]]. naive_solver.
Qed.

(** A bounded read succeeds exactly inside the slice. *)
Lemma read_le_Some n b o v :
  0 <= o -> 0 <= n -> len b < 2 ^ 63 ->
  read_le n b o = Some v <->
  o + n <= len b /\ v = le_value (take (Z.to_nat n) (drop (Z.to_nat o) b)).
Proof.
  intros Ho Hn Hl. unfold read_le, checked_add. destruct (Z.ltb_spec (o + n) (2 ^ 64)); simpl mbind.
  - unfold get_range. destruct (Z.leb_spec o (o + n)); [|lia].
    destruct (Z.leb_spec (o + n) (len b)); simpl mbind.
    + replace (o + n - o) with n by lia. naive_solver.
    + split; [done|lia].
  - split; [done|lia].
Qed.

Lemma read_le_in b o (n : Z) :
  0 <= o -> 0 <= n -> len b < 2 ^ 63 -> o + n <= len b ->
  read_le n b o = Some (le_value (take (Z.to_nat n) (drop (Z.to_nat o) b))).
Proof. intros. apply read_le_Some; auto. Qed.

Lemma read_le_bound b o n v :
  0 <= o -> 0 <= n -> image_ok b -> read_le n b o = Some v -> 0 <= v < 256 ^ n.
Proof.
  intros Ho Hn [Hb Hl] Hr. apply read_le_Some in Hr as [Hin ->]; [|done..].
  assert (length (take (Z.to_nat n) (drop (Z.to_nat o) b)) = Z.to_nat n) as Hlen.
  { rewrite length_take, length_drop. unfold len in *. lia. }
  pose proof (le_value_bound (take (Z.to_nat n) (drop (Z.to_nat o) b))
    (Forall_take _ _ _ (Forall_drop _ _ _ Hb))) as H. rewrite Hlen, Z2Nat.id in H by done. done.
Qed.

Lemma align_down_spec v : in_u 64 v -> align_down v = v - v mod PAGE_SIZE.
Proof. intros Hv. unfold align_down. exact (land_not_ones v 12 Hv ltac:(lia)). Qed.

Lemma align_down_page v :
  in_u 64 v -> align_down v mod PAGE_SIZE = 0 /\ 0 <= align_down v <= v /\ v < align_down v + PAGE_SIZE.
Proof. intros Hv. rewrite align_down_spec by done. unfold in_u, PAGE_SIZE in *. divmod. Qed.

Lemma align_up_spec {E} v :
  0 <= v -> v + PAGE_SIZE <= 2 ^ 64 -> align_up (E:=E) v = Ok (round_up v PAGE_SIZE).
Proof.
  intros H0 Hv. unfold align_up. rewrite add_u_ok by (unfold PAGE_SIZE in *; lia).
  rewrite bind_Ok. f_equal. fold (align_down (v + (PAGE_SIZE - 1))).
  rewrite align_down_spec by (unfold in_u, PAGE_SIZE in *; lia).
  unfold round_up, PAGE_SIZE in *. destruct (Z.eqb_spec (v mod 4096) 0); divmod.
Qed.

(** ** Headers *)

(** A run that ends in a value or an error. *)
Definition answers {E A} (o : outcome E A) : Prop := match o with Ok _ | Err _ => True | _ => False end.

Lemma answers_bind {E A B} (x : outcome E A) (f : A -> outcome E B) :
  answers x -> (forall a, x = Ok a -> answers (f a)) -> answers (mbind f x).
Proof. destruct x; simpl; auto. Qed.

Lemma answers_ok_or {E A} (e : E) (o : option A) : answers (ok_or e o).
Proof. by destruct o. Qed.

Lemma ok_or_Ok {E A} (e : E) (o : option A) a : ok_or e o = Ok a -> o = Some a.
Proof. destruct o; naive_solver. Qed.

#[local] Hint Resolve answers_ok_or : core.

Lemma index_in {E} b i : (i < length b)%nat -> exists v, index (E:=E) b i = Ok v.
Proof. intros Hi. unfold index. destruct (lookup_lt_is_Some_2 b i Hi) as [v ->]. eauto. Qed.

(** The header's checks never index out of range. *)
Lemma parse_header_answers image : answers (parse_header image).
Proof.
  unfold parse_header. case_cmp; [done|]. unfold len, EHDR_SIZE in *.
  apply answers_bind.
  { unfold slice. destruct (get_range image 0 4) eqn:E; [done|].
    unfold get_range, len in E. destruct (Z.leb_spec 4 (Z.of_nat (length image))); [done|lia]. }
  intros magic _. destruct (negb _); [done|].
  destruct (index_in (E:=ElfError) image EI_CLASS) as [class ->]; [unfold EI_CLASS; lia|].
  rewrite bind_Ok. destruct (negb _); [done|].
  destruct (index_in (E:=ElfError) image EI_DATA) as [data ->]; [unfold EI_DATA; lia|].
  rewrite bind_Ok. destruct (negb _); [done|].
  repeat (apply answers_bind; [done|intros ? _]; try (destruct (negb _); [done|])). done.
Qed.

(** The segment's file bytes are in the image and its memory range in the
    address space. *)
Definition seg_ok (image : bytes) (s : LoadSegment) : Prop :=
  0 <= sg_filesz s <= sg_memsz s /\ 0 <= sg_offset s /\ sg_offset s + sg_filesz s <= len image /\
  0 <= sg_vaddr s /\ sg_vaddr s + sg_memsz s < 2 ^ 64.

Lemma parse_segment_answers image phoff phentsize i :
  image_ok image -> 0 <= i -> 0 <= phoff -> 0 <= phentsize ->
  answers (parse_segment image phoff phentsize i).
Proof.
  intros [_ Hl] Hi Hp He. unfold parse_segment.
  apply answers_bind; [done|intros scaled Hs%ok_or_Ok]. apply checked_mul_Some in Hs as [-> Hs].
  apply answers_bind; [done|intros base Hb%ok_or_Ok]. apply checked_add_Some in Hb as [-> Hb].
  apply answers_bind; [done|intros he Hh%ok_or_Ok]. apply checked_add_Some in Hh as [-> Hh].
  case_cmp; [done|]. unfold PHDR_SIZE in *.
  apply answers_bind; [done|intros ty _]. destruct (negb _); [done|].
  run_arith.
  do 4 (apply answers_bind; [done|intros ? _]; run_arith).
  case_cmp; [done|]. apply answers_bind; [done|intros ? _]. case_cmp; [done|].
  by apply answers_bind.
Qed.

(** The next [ok_or] of a successful run. *)
Ltac inv_ok_or H v Hv := apply bind_Ok_inv in H as (v & Hv & H); apply ok_or_Ok in Hv.

Lemma parse_segment_ok image phoff phentsize i s e :
  image_ok image -> 0 <= i -> 0 <= phoff -> 0 <= phentsize ->
  parse_segment image phoff phentsize i = Ok (Some (s, e)) ->
  seg_ok image s /\ e = sg_vaddr s + sg_memsz s.
Proof.
  intros Hok Hi Hp He Hr. pose proof (proj2 Hok) as Hl. unfold parse_segment in Hr.
  inv_ok_or Hr scaled Hs. apply checked_mul_Some in Hs as [-> Hs].
  inv_ok_or Hr base Hb. apply checked_add_Some in Hb as [-> Hb].
  inv_ok_or Hr hend Hh. apply checked_add_Some in Hh as [-> Hh].
  set (base := phoff + i * phentsize) in *. assert (0 <= base) by (unfold base; nia).
  case_cmp_in Hr; [done|]. unfold PHDR_SIZE in *.
  inv_ok_or Hr ty Hty. destruct (negb _); [done|].
  rewrite !add_u_ok in Hr by lia.
  rewrite bind_Ok in Hr. inv_ok_or Hr offset Ho. rewrite bind_Ok in Hr. inv_ok_or Hr vaddr Hv.
  rewrite bind_Ok in Hr. inv_ok_or Hr filesz Hf. rewrite bind_Ok in Hr. inv_ok_or Hr memsz Hm.
  apply read_le_bound in Ho, Hv, Hf, Hm; try done; try lia.
  case_cmp_in Hr; [done|]. inv_ok_or Hr fend Hfe. apply checked_add_Some in Hfe as [-> Hfe].
  case_cmp_in Hr; [done|]. inv_ok_or Hr send Hse. apply checked_add_Some in Hse as [-> Hse].
  injection Hr as <- <-. unfold seg_ok; simpl. repeat split; lia.
Qed.

(** ** Segments in memory *)

(** The bytes of the pages a segment takes: none for an empty segment at a
    page boundary. *)
Definition seg_total (s : LoadSegment) : Z := sg_vaddr s - align_down (sg_vaddr s) + sg_memsz s.
Definition seg_span (s : LoadSegment) : Z :=
  if seg_total s =? 0 then 0 else div_ceil (seg_total s) PAGE_SIZE * PAGE_SIZE.
Definition seg_pages (s : LoadSegment) (x : Z) : Prop :=
  range (align_down (sg_vaddr s)) (seg_span s) x.

(** What a loaded segment's pages hold: the file's bytes where the segment
    has them, zero everywhere else. *)
Definition seg_byte (image : bytes) (s : LoadSegment) (x : Z) : Z :=
  if bool_decide (range (sg_vaddr s) (sg_filesz s) x)
  then default 0 (image !! Z.to_nat (sg_offset s + (x - sg_vaddr s))) else 0.

Definition seg_loaded (image : bytes) (m : mem) (s : LoadSegment) : Prop :=
  forall x, seg_pages s x -> peek m x = seg_byte image s x.

Lemma seg_vaddr_u64 image s : seg_ok image s -> in_u 64 (sg_vaddr s).
Proof. unfold seg_ok, in_u. lia. Qed.

(** The used bytes lie in the pages. *)
Lemma seg_used_in_pages image s x :
  seg_ok image s -> range (sg_vaddr s) (sg_memsz s) x -> seg_pages s x.
Proof.
  intros Hok Hx. pose proof (align_down_page _ (seg_vaddr_u64 _ _ Hok)) as (_ & Ha & _).
  unfold seg_pages, seg_span, seg_total, range in *.
  destruct (Z.eqb_spec (sg_vaddr s - align_down (sg_vaddr s) + sg_memsz s) 0); [lia|].
  pose proof (div_ceil_spec (sg_vaddr s - align_down (sg_vaddr s) + sg_memsz s) PAGE_SIZE eq_refl).
  lia.
Qed.

Lemma peek_fill m a n x :
  0 <= n -> peek (fill m a (Z.to_nat n) 0) x = if bool_decide (range a n x) then 0 else peek m x.
Proof.
  intros Hn. unfold fill. rewrite peek_write_bytes, length_replicate, Z2Nat.id by done.
  unfold range. destruct (decide (a <= x < a + n)).
  - rewrite !bool_decide_true by done.
    by rewrite lookup_replicate_2 by lia.
  - by rewrite !bool_decide_false by done.
Qed.

(** The copy over the zeroed pages. *)
Lemma segment_image_bytes image s m x :
  seg_ok image s ->
  peek (write_bytes m (sg_vaddr s)
    (take (Z.to_nat (sg_filesz s)) (drop (Z.to_nat (sg_offset s)) image))) x =
  if bool_decide (range (sg_vaddr s) (sg_filesz s) x)
  then default 0 (image !! Z.to_nat (sg_offset s + (x - sg_vaddr s))) else peek m x.
Proof.
  intros (Hf & Ho & Hin & _). unfold len in Hin.
  rewrite peek_write_bytes, length_take, length_drop.
  replace (Z.of_nat (Nat.min (Z.to_nat (sg_filesz s)) (length image - Z.to_nat (sg_offset s))))
    with (sg_filesz s) by lia.
  unfold range. destruct (decide (sg_vaddr s <= x < sg_vaddr s + sg_filesz s)).
  - rewrite !bool_decide_true by done. rewrite lookup_take_lt, lookup_drop by lia.
    do 2 f_equal. lia.
  - by rewrite !bool_decide_false by done.
Qed.

Section LoaderSpec.
Context {F : Type} `{Firmware F}.

(** Loading one segment: the firmware refuses, or the segment's pages, all
    fresh, hold its bytes and nothing else changed. *)
Lemma load_segment_spec image s f m :
  seg_ok image s ->
  load_segment image s f m = Err AllocationFailed \/
  exists f' m', load_segment image s f m = Ok (f', m') /\
    (forall x, granted f' x <-> granted f x \/ seg_pages s x) /\
    (forall x, seg_pages s x -> ~ granted f x) /\
    mem_agree (fun x => ~ seg_pages s x) m m' /\ seg_loaded image m' s /\
    (0 < seg_span s -> align_down (sg_vaddr s) + seg_span s <= 2 ^ PHYS_BITS).
Proof.
  intros Hok. pose proof (seg_vaddr_u64 _ _ Hok) as Hv.
  pose proof (align_down_page _ Hv) as (_ & Ha & Hb). destruct (id Hok) as (Hf & Ho & Hin & _ & Hm).
  unfold load_segment. rewrite sub_u_ok, bind_Ok by lia. fold (seg_total s).
  assert (0 <= seg_total s < 2 ^ 64) as Ht by (unfold seg_total; lia).
  unfold checked_add. fold (seg_total s).
  destruct (Z.ltb_spec (seg_total s) (2 ^ 64)); [|lia]. simpl ok_or. rewrite bind_Ok.
  unfold seg_loaded, seg_pages, seg_span. destruct (Z.eqb_spec (seg_total s) 0) as [Hz|Hnz].
  - right. exists f, m. split; [done|]. unfold range.
    split; [intros x; split; [by left|intros [|]; [done|lia]]|].
    split; [lia|]. split; [done|]. split; lia.
  - pose proof (div_ceil_spec (seg_total s) PAGE_SIZE eq_refl ltac:(lia)) as Hdc.
    set (pages := div_ceil (seg_total s) PAGE_SIZE) in *.
    assert (0 <= pages) as Hpg by (unfold PAGE_SIZE in *; lia).
    unfold allocate_or.
    destruct (allocate_pages (Address (align_down (sg_vaddr s))) LOADER_DATA pages f) as [f' [a|st]] eqn:E;
      [|by left].
    apply allocate_ok in E as (H1 & H2 & H3 & H4 & H5 & _ & H6 & H7); [|done].
    rewrite (H5 _ eq_refl) in *. rewrite bind_Ok.
    rewrite mul_u_ok, bind_Ok by (unfold PHYS_BITS in *; lia).
    right. eexists _, _. split; [done|]. split; [done|]. split; [done|].
    assert (forall x, peek (write_bytes (fill m (align_down (sg_vaddr s)) (Z.to_nat (pages * PAGE_SIZE)) 0)
      (sg_vaddr s) (take (Z.to_nat (sg_filesz s)) (drop (Z.to_nat (sg_offset s)) image))) x =
      if bool_decide (range (align_down (sg_vaddr s)) (pages * PAGE_SIZE) x)
      then seg_byte image s x else peek m x) as Hpk.
    { intros x. rewrite segment_image_bytes by done. unfold seg_byte.
      rewrite peek_fill by (unfold PAGE_SIZE in *; lia). unfold range.
      destruct (decide (sg_vaddr s <= x < sg_vaddr s + sg_filesz s)).
      - rewrite bool_decide_true by done. rewrite bool_decide_true; [done|].
        unfold seg_total in *. lia.
      - by rewrite bool_decide_false by done. }
    split; [|split; [|done]].
    + intros x Hx. by rewrite Hpk, bool_decide_false by done.
    + intros x Hx. by rewrite Hpk, bool_decide_true by done.
Qed.

(** ** The loop *)

(** What the loop has done by header [i]: every loadable header before it is
    in memory, on pages no other segment and nobody before the loop had. *)
Record loop_inv (image : bytes) (f0 : F) (m0 : mem) (segs : list LoadSegment)
    (acc : load_acc) (f : F) (m : mem) : Prop := {
  li_ok : Forall (seg_ok image) segs;
  li_lowest : lowest acc = foldr Z.min (2 ^ 64 - 1) ((fun s => align_down (sg_vaddr s)) <$> segs);
  li_highest : highest acc = foldr Z.max 0 ((fun s => sg_vaddr s + sg_memsz s) <$> segs);
  li_any : loaded_any acc = negb (bool_decide (segs = []));
  li_granted x : granted f x <-> granted f0 x \/ Exists (fun s => seg_pages s x) segs;
  li_fresh s x : s ∈ segs -> seg_pages s x -> ~ granted f0 x;
  li_loaded : Forall (seg_loaded image m) segs;
  li_rest : mem_agree (fun x => ~ Exists (fun s => seg_pages s x) segs) m0 m;
  li_phys : Forall (fun s => 0 < seg_span s -> align_down (sg_vaddr s) + seg_span s <= 2 ^ PHYS_BITS) segs;
}.

(** The segments of headers [i], [i + 1], ... that are loadable. *)
Fixpoint segments_of (n : nat) (image : bytes) (phoff phentsize i : Z) : list LoadSegment :=
  match n with
  | O => []
  | S n =>
      match parse_segment image phoff phentsize i with
      | Ok (Some (s, _)) => [s]
      | _ => []
      end ++ segments_of n image phoff phentsize (i + 1)
  end.

Lemma loop_inv_step image f0 m0 segs acc f m s f' m' :
  loop_inv image f0 m0 segs acc f m -> seg_ok image s ->
  (forall x, granted f' x <-> granted f x \/ seg_pages s x) ->
  (forall x, seg_pages s x -> ~ granted f x) ->
  mem_agree (fun x => ~ seg_pages s x) m m' -> seg_loaded image m' s ->
  (0 < seg_span s -> align_down (sg_vaddr s) + seg_span s <= 2 ^ PHYS_BITS) ->
  loop_inv image f0 m0 (s :: segs)
    {| lowest := Z.min (lowest acc) (align_down (sg_vaddr s));
       highest := Z.max (highest acc) (sg_vaddr s + sg_memsz s); loaded_any := true |} f' m'.
Proof.
  intros [H1 H2 H3 H4 H5 H6 H7 H8 H9] Hok Hg Hfr Hag Hld Hph.
  split; cbn [lowest highest loaded_any fmap list_fmap foldr]; try done; try (by constructor).
  - rewrite H2. lia.
  - rewrite H3. lia.
  - intros x. rewrite Hg, H5, Exists_cons. tauto.
  - intros s' x [->|Hs']%elem_of_cons Hx; [|by eapply H6].
    intros Hx0. apply (Hfr x Hx), H5. by left.
  - constructor; [done|]. apply Forall_forall. intros s' Hs' x Hx.
    rewrite Forall_forall in H7. rewrite <- (Hag x); [by apply H7|].
    intros Hxs. apply (Hfr x Hxs), H5. right. apply Exists_exists. eauto.
  - etrans; [eapply mem_agree_mono; [|exact H8]|eapply mem_agree_mono; [|exact Hag]];
      intros x; rewrite Exists_cons; tauto.
Qed.

(** The loop answers; when it succeeds, exactly the loadable headers are in
    memory. *)
Lemma load_segments_spec n image phoff phentsize i f0 m0 segs acc f m :
  image_ok image -> 0 <= i -> 0 <= phoff -> 0 <= phentsize ->
  loop_inv image f0 m0 segs acc f m ->
  (exists e, load_segments n image phoff phentsize i acc f m = Err e) \/
  exists acc' f' m' segs', load_segments n image phoff phentsize i acc f m = Ok (acc', f', m') /\
    loop_inv image f0 m0 segs' acc' f' m' /\
    segs' ≡ₚ segments_of n image phoff phentsize i ++ segs /\
    (forall j, i <= j < i + Z.of_nat n -> exists o, parse_segment image phoff phentsize j = Ok o).
Proof.
  intros Him Hi Hp He. revert i segs acc f m Hi.
  induction n as [|n IH]; intros i segs acc f m Hi Hinv; cbn [load_segments segments_of].
  - right. exists acc, f, m, segs. split; [done|]. split; [done|]. split; [done|]. lia.
  - pose proof (parse_segment_answers image phoff phentsize i Him Hi Hp He) as Han.
    destruct (parse_segment image phoff phentsize i) as [o|e| |] eqn:Ho; try done; [|left; by eexists].
    rewrite bind_Ok.
    assert (forall o', i <= o' < i + Z.of_nat (S n) -> o' = i \/ i + 1 <= o' < i + 1 + Z.of_nat n) as Hj by lia.
    destruct o as [[s e]|].
    + destruct (parse_segment_ok image phoff phentsize i s e Him Hi Hp He Ho) as [Hok ->].
      destruct (load_segment_spec image s f m Hok) as [->|(f1 & m1 & -> & G1 & G2 & G3 & G4 & G5)];
        [left; by eexists|]. rewrite bind_Ok.
      destruct (IH (i + 1) (s :: segs) _ f1 m1 ltac:(lia)
        (loop_inv_step _ _ _ _ _ _ _ s f1 m1 Hinv Hok G1 G2 G3 G4 G5))
        as [Herr|(acc' & f' & m' & segs' & Hrun & Hinv' & Hp' & Hall)]; [by left|].
      right. exists acc', f', m', segs'. split; [done|]. split; [done|]. split.
      * rewrite Hp'. simpl. symmetry. apply Permutation_middle.
      * intros j [->|Hjj]%Hj; eauto.
    + destruct (IH (i + 1) segs acc f m ltac:(lia) Hinv)
        as [Herr|(acc' & f' & m' & segs' & Hrun & Hinv' & Hp' & Hall)]; [by left|].
      right. exists acc', f', m', segs'. split; [done|]. split; [done|]. split; [done|].
      intros j [->|Hjj]%Hj; eauto.
Qed.
End LoaderSpec.

(** ** The whole loader *)

(** The little-endian field of [n] bytes at [o]. *)
Definition field (image : bytes) (o n : nat) : Z := le_value (take n (drop o image)).

(** A check that failed: nothing is returned, and the condition is false. *)
Ltac reject := split; [discriminate|intros; destruct_and?; congruence].

Lemma parse_header_Ok image entry phoff phentsize phnum :
  image_ok image ->
  parse_header image = Ok (entry, phoff, phentsize, phnum) <->
  EHDR_SIZE <= len image /\ take 4 image = ELF_MAGIC /\
  image !! EI_CLASS = Some ELFCLASS64 /\ image !! EI_DATA = Some ELFDATA2LSB /\
  field image 16 2 = ET_EXEC /\ field image 18 2 = EM_X86_64 /\ field image 54 2 = PHDR_SIZE /\
  entry = field image 24 8 /\ phoff = field image 32 8 /\ phentsize = PHDR_SIZE /\
  phnum = field image 56 2.
Proof.
  intros [_ Hl]. unfold parse_header. destruct (Z.ltb_spec (len image) EHDR_SIZE); [split; [done|lia]|].
  unfold EHDR_SIZE in *.
  assert (slice (E:=ElfError) image 0 4 = Ok (take 4 image)) as ->.
  { unfold slice. assert (get_range image 0 4 = Some (take 4 image)) as ->; [|done].
    apply get_range_Some. by repeat split; lia. }
  rewrite bind_Ok. unfold bytes_eqb. destruct (decide (take 4 image = ELF_MAGIC)) as [Hm|Hm];
    [rewrite bool_decide_true by done|rewrite bool_decide_false by done; simpl negb; cbv iota; reject].
  simpl negb. cbv iota. unfold index, len in *.
  destruct (lookup_lt_is_Some_2 image EI_CLASS) as [c Hc]; [unfold EI_CLASS; lia|]. rewrite Hc, bind_Ok.
  destruct (Z.eqb_spec c ELFCLASS64); simpl negb; cbv iota; [subst c|reject].
  destruct (lookup_lt_is_Some_2 image EI_DATA) as [d Hd]; [unfold EI_DATA; lia|]. rewrite Hd, bind_Ok.
  destruct (Z.eqb_spec d ELFDATA2LSB); simpl negb; cbv iota; [subst d|reject].
  assert (forall o n : nat, (o + n <= 64)%nat ->
    read_le (Z.of_nat n) image (Z.of_nat o) = Some (field image o n)) as Hrd.
  { intros o n Hon. rewrite read_le_in by (unfold len; lia). by rewrite !Nat2Z.id. }
  rewrite (Hrd 16%nat 2%nat ltac:(lia) : read_u16 image 16 = Some (field image 16 2)). simpl ok_or. rewrite bind_Ok.
  destruct (Z.eqb_spec (field image 16 2) ET_EXEC); simpl negb; cbv iota; [|reject].
  rewrite (Hrd 18%nat 2%nat ltac:(lia) : read_u16 image 18 = Some (field image 18 2)). simpl ok_or. rewrite bind_Ok.
  destruct (Z.eqb_spec (field image 18 2) EM_X86_64); simpl negb; cbv iota; [|reject].
  rewrite (Hrd 24%nat 8%nat ltac:(lia) : read_u64 image 24 = Some (field image 24 8)).
  rewrite (Hrd 32%nat 8%nat ltac:(lia) : read_u64 image 32 = Some (field image 32 8)).
  rewrite (Hrd 54%nat 2%nat ltac:(lia) : read_u16 image 54 = Some (field image 54 2)).
  rewrite (Hrd 56%nat 2%nat ltac:(lia) : read_u16 image 56 = Some (field image 56 2)). simpl ok_or. rewrite !bind_Ok.
  destruct (Z.eqb_spec (field image 54 2) PHDR_SIZE) as [H54|H54]; simpl negb; cbv iota; [|reject].
  rewrite H54. split; [by intros [= <- <- <- <-]|].
  intros (_ & _ & _ & _ & _ & _ & _ & -> & -> & -> & ->). done.
Qed.

Lemma field_bound image o n :
  Forall is_byte image -> 0 <= field image o n < 256 ^ Z.of_nat n.
Proof.
  intros Hb. pose proof (le_value_bound (take n (drop o image)) (Forall_take _ _ _ (Forall_drop _ _ _ Hb))) as H.
  rewrite length_take in H. unfold field.
  assert (256 ^ Z.of_nat (n `min` length (drop o image)) <= 256 ^ Z.of_nat n); [|lia].
  apply Z.pow_le_mono_r; lia.
Qed.

Lemma foldr_min_le x l s : s ∈ l -> foldr Z.min x l <= s.
Proof. induction l as [|y l IH]; [by intros ?%elem_of_nil|]. intros [->|Hs]%elem_of_cons; simpl; [lia|]. specialize (IH Hs). lia. Qed.

Lemma foldr_max_ge x l s : s ∈ l -> s <= foldr Z.max x l.
Proof. induction l as [|y l IH]; [by intros ?%elem_of_nil|]. intros [->|Hs]%elem_of_cons; simpl; [lia|]. specialize (IH Hs). lia. Qed.

Lemma foldr_max_base x l : x <= foldr Z.max x l.
Proof. induction l; simpl; lia. Qed.

Lemma foldr_max_le x l b : x <= b -> Forall (fun y => y <= b) l -> foldr Z.max x l <= b.
Proof. intros Hx. induction 1; simpl; lia. Qed.

Lemma foldr_max_in x l : foldr Z.max x l = x \/ foldr Z.max x l ∈ l.
Proof.
  induction l as [|y l IH]; [by left|]. cbn [foldr].
  destruct (Z.max_spec y (foldr Z.max x l)) as [[_ ->]|[_ ->]].
  - destruct IH as [->|IH]; [by left|right; set_solver].
  - right. set_solver.
Qed.

Lemma foldr_min_in x l : foldr Z.min x l = x \/ foldr Z.min x l ∈ l.
Proof.
  induction l as [|y l IH]; [by left|]. cbn [foldr].
  destruct (Z.min_spec y (foldr Z.min x l)) as [[_ ->]|[_ ->]].
  - right. set_solver.
  - destruct IH as [->|IH]; [by left|right; set_solver].
Qed.

Section KernelSpec.
Context {F : Type} `{Firmware F}.

(** Segment ends leave room for the rounding in [align_up]. *)
Lemma seg_end_bound image s :
  seg_ok image s -> (0 < seg_span s -> align_down (sg_vaddr s) + seg_span s <= 2 ^ PHYS_BITS) ->
  sg_vaddr s + sg_memsz s <= 2 ^ 64 - PAGE_SIZE.
Proof.
  intros Hok Hph. pose proof (seg_vaddr_u64 _ _ Hok) as Hv.
  pose proof (align_down_page _ Hv) as (Hal & Ha & Hb). unfold seg_span, seg_total in Hph.
  destruct Hok as (? & _ & _ & ? & ?).
  destruct (Z.eqb_spec (sg_vaddr s - align_down (sg_vaddr s) + sg_memsz s) 0) as [Hz|Hnz].
  - unfold PAGE_SIZE, in_u in *. divmod.
  - pose proof (div_ceil_spec (sg_vaddr s - align_down (sg_vaddr s) + sg_memsz s) PAGE_SIZE eq_refl).
    unfold PHYS_BITS, PAGE_SIZE in *. lia.
Qed.

Lemma highest_bound image f0 m0 segs acc (f : F) m :
  loop_inv image f0 m0 segs acc f m -> 0 <= highest acc <= 2 ^ 64 - PAGE_SIZE.
Proof.
  intros Hinv. rewrite (li_highest _ _ _ _ _ _ _ Hinv). split; [apply foldr_max_base|].
  apply foldr_max_le; [done|]. apply Forall_fmap, Forall_forall. intros s Hs. simpl.
  pose proof (li_ok _ _ _ _ _ _ _ Hinv) as Hok. pose proof (li_phys _ _ _ _ _ _ _ Hinv) as Hph.
  rewrite Forall_forall in Hok, Hph. by eapply seg_end_bound; [apply Hok|apply Hph].
Qed.

(** The loop's start. *)
Lemma loop_inv_start image (f : F) m :
  loop_inv image f m [] {| lowest := 2 ^ 64 - 1; highest := 0; loaded_any := false |} f m.
Proof.
  split; try done; try (by constructor).
  - intros x. rewrite Exists_nil. tauto.
  - intros s x Hs. by apply elem_of_nil in Hs.
Qed.

Lemma load_kernel_spec image f m :
  image_ok image ->
  (exists e, load_kernel image f m = Err e) \/
  exists k f' m' phoff phnum segs acc,
    load_kernel image f m = Ok (k, f', m') /\
    parse_header image = Ok (lk_entry k, phoff, PHDR_SIZE, phnum) /\
    loop_inv image f m segs acc f' m' /\ segs <> [] /\
    segs ≡ₚ segments_of (Z.to_nat phnum) image phoff PHDR_SIZE 0 /\
    lowest acc <= lk_entry k < highest acc /\
    lk_base k = lowest acc /\ lk_base k + lk_size k = round_up (highest acc) PAGE_SIZE.
Proof.
  intros Him. unfold load_kernel. pose proof (parse_header_answers image) as Hans.
  destruct (parse_header image) as [[[[entry phoff] phentsize] phnum]|e| |] eqn:Hh; try done; [|left; by eexists].
  rewrite bind_Ok. apply parse_header_Ok in Hh as Hh'; [|done].
  destruct Hh' as (_ & _ & _ & _ & _ & _ & _ & _ & Hpo & -> & Hpn).
  pose proof (field_bound image 32 8 (proj1 Him)). pose proof (field_bound image 56 2 (proj1 Him)).
  set (acc0 := {| lowest := 2 ^ 64 - 1; highest := 0; loaded_any := false |}).
  destruct (load_segments_spec (Z.to_nat phnum) image phoff PHDR_SIZE 0 f m [] acc0 f m
    Him ltac:(lia) ltac:(lia) ltac:(done) (loop_inv_start image f m)) as [[e ->]|(acc & f' & m' & segs & -> & Hinv & Hp & _)];
    [left; by eexists|].
  rewrite bind_Ok. rewrite app_nil_r in Hp. pose proof (li_any _ _ _ _ _ _ _ Hinv) as Hany.
  destruct (loaded_any acc); simpl negb; cbv iota; [|left; by eexists].
  assert (segs <> []) as Hne by (intros ->; done).
  destruct (Z.ltb_spec entry (lowest acc)); simpl orb; cbv iota; [left; by eexists|].
  destruct (Z.leb_spec (highest acc) entry); cbv iota; [left; by eexists|].
  pose proof (highest_bound _ _ _ _ _ _ _ Hinv) as Hhi.
  rewrite align_up_spec, bind_Ok by lia.
  pose proof (round_up_spec (highest acc) PAGE_SIZE eq_refl).
  rewrite sub_u_ok, bind_Ok by lia. right.
  eexists _, f', m', phoff, phnum, segs, acc. split; [done|]. simpl.
  repeat (split; [done|]). lia.
Qed.

(** The segments of a loaded image are in memory as the file has them, on
    fresh pages inside the reported span. *)
Definition kernel_placed (image : bytes) (f : F) (m : mem) (k : LoadedKernel) (f' : F) (m' : mem) : Prop :=
  exists phoff phnum, parse_header image = Ok (lk_entry k, phoff, PHDR_SIZE, phnum) /\
    segments_of (Z.to_nat phnum) image phoff PHDR_SIZE 0 <> [] /\
    (forall s, s ∈ segments_of (Z.to_nat phnum) image phoff PHDR_SIZE 0 ->
       (forall i, 0 <= i < sg_memsz s -> peek m' (sg_vaddr s + i) =
          if i <? sg_filesz s then default 0 (image !! Z.to_nat (sg_offset s + i)) else 0) /\
       lk_base k <= sg_vaddr s /\ sg_vaddr s + sg_memsz s <= lk_base k + lk_size k /\
       (forall x, range (sg_vaddr s) (sg_memsz s) x -> granted f' x /\ ~ granted f x)) /\
    0 <= lk_base k /\ lk_base k mod PAGE_SIZE = 0 /\ lk_size k mod PAGE_SIZE = 0 /\
    lk_base k <= lk_entry k < lk_base k + lk_size k /\ lk_base k + lk_size k < 2 ^ 64 /\
    (forall x, granted f x \/ ~ granted f' x -> peek m' x = peek m x).

Lemma load_kernel_placed image f m k f' m' :
  image_ok image -> load_kernel image f m = Ok (k, f', m') -> kernel_placed image f m k f' m'.
Proof.
  intros Him Hrun. unfold kernel_placed. destruct (load_kernel_spec image f m Him)
    as [[e He]|(k1 & f1 & m1 & phoff & phnum & segs & acc & Hr & Hh & Hinv & Hne & Hp & He & Hb & Hs)];
    [congruence|]. rewrite Hrun in Hr. simplify_eq. rewrite Hb in *.
  destruct Hinv as [H1 H2 H3 _ H5 H6 H7 H8 H9]. rewrite Forall_forall in H1, H7, H9.
  pose proof (round_up_spec (highest acc) PAGE_SIZE eq_refl) as [Hru Hrm].
  assert (forall s, s ∈ segs -> lowest acc <= align_down (sg_vaddr s) /\
    sg_vaddr s + sg_memsz s <= highest acc) as Hin.
  { intros s Hs'. rewrite H2, H3. split; [apply foldr_min_le|apply foldr_max_ge];
      apply list_elem_of_fmap; eauto. }
  assert (lowest acc mod PAGE_SIZE = 0) as Hlow.
  { rewrite H2. destruct (foldr_min_in (2 ^ 64 - 1) ((fun s => align_down (sg_vaddr s)) <$> segs))
      as [Hmax|(s & -> & Hs')%list_elem_of_fmap].
    - exfalso. destruct segs as [|s segs]; [done|]. destruct (Hin s) as [Hl _]; [set_solver|].
      rewrite <- H2 in Hmax. pose proof (seg_end_bound image s (H1 s ltac:(set_solver)) (H9 s ltac:(set_solver))).
      pose proof (align_down_page _ (seg_vaddr_u64 _ _ (H1 s ltac:(set_solver)))) as (_ & ? & _).
      destruct (H1 s ltac:(set_solver)) as (? & _). unfold PAGE_SIZE in *. lia.
    - apply align_down_page. by eapply seg_vaddr_u64, H1. }
  exists phoff, phnum. split; [done|]. split; [intros E; rewrite E in Hp; by apply Permutation_nil_r in Hp|].
  split; [|split; [|split; [done|split; [|split; [lia|split]]]]].
  - intros s Hs'. rewrite <- Hp in Hs'. pose proof (H1 s Hs') as Hok. destruct (Hin s Hs').
    pose proof (align_down_page _ (seg_vaddr_u64 _ _ Hok)) as (_ & ? & _). split; [|split; [lia|split; [lia|]]].
    + intros i Hi. rewrite (H7 s Hs') by (eapply seg_used_in_pages; [exact Hok|unfold range; lia]).
      unfold seg_byte, range. destruct (Z.ltb_spec i (sg_filesz s)).
      * rewrite bool_decide_true by lia. do 3 f_equal. lia.
      * by rewrite bool_decide_false by lia.
    + intros x Hx. eapply seg_used_in_pages in Hx; [|exact Hok].
      split; [apply H5; right; apply Exists_exists; eauto|by eapply H6].
  - rewrite H2. destruct (foldr_min_in (2 ^ 64 - 1) ((fun s => align_down (sg_vaddr s)) <$> segs))
      as [->|(s & -> & Hs')%list_elem_of_fmap]; [lia|].
    apply align_down_page. by eapply seg_vaddr_u64, H1.
  - replace (lk_size k1) with (round_up (highest acc) PAGE_SIZE - lowest acc) by lia.
    by apply mod_sub_multiple.
  - rewrite Hs. apply Z.le_lt_trans with (2 ^ 64 - PAGE_SIZE); [|done].
    apply round_up_least; [done| |done]. rewrite H3.
    apply foldr_max_le; [done|]. apply Forall_fmap, Forall_forall. intros s Hs'. simpl.
    exact (seg_end_bound image s (H1 s Hs') (H9 s Hs')).
  - intros x Hx. symmetry. apply H8. intros Hex. pose proof (proj2 (H5 x) (or_intror Hex)).
    destruct Hx as [Hx|]; [|done]. apply Exists_exists in Hex as (s & Hs' & Hxs). by eapply H6.
Qed.

(** The reported span is the hull of the segments' pages, no larger: its base
    is the first page of one, its end the end of one rounded up. *)
Lemma load_hull image f m segs acc f' m' :
  loop_inv image f m segs acc f' m' -> segs <> [] ->
  (forall s, s ∈ segs -> lowest acc <= align_down (sg_vaddr s) /\ sg_vaddr s + sg_memsz s <= highest acc) /\
  (exists s, s ∈ segs /\ lowest acc = align_down (sg_vaddr s)) /\
  (exists s, s ∈ segs /\ highest acc = sg_vaddr s + sg_memsz s).
Proof.
  intros [H1 H2 H3 _ _ _ _ _ H9] Hne. rewrite Forall_forall in H1, H9.
  assert (forall s, s ∈ segs -> lowest acc <= align_down (sg_vaddr s) /\ sg_vaddr s + sg_memsz s <= highest acc) as Hin.
  { intros s Hs. rewrite H2, H3. split; [apply foldr_min_le|apply foldr_max_ge]; apply list_elem_of_fmap; eauto. }
  destruct segs as [|s0 segs]; [done|]. assert (s0 ∈ s0 :: segs) as Hs0 by set_solver.
  destruct (Hin s0 Hs0) as [Hl0 Hh0]. destruct (id (H1 s0 Hs0)) as (? & _ & _ & ? & _).
  pose proof (align_down_page _ (seg_vaddr_u64 _ _ (H1 s0 Hs0))) as (_ & ? & _).
  pose proof (seg_end_bound image s0 (H1 s0 Hs0) (H9 s0 Hs0)).
  split; [done|]. split.
  - destruct (foldr_min_in (2 ^ 64 - 1) ((fun s => align_down (sg_vaddr s)) <$> s0 :: segs))
      as [Hx|(s & Hx & Hs)%list_elem_of_fmap]; rewrite <- H2 in Hx; [unfold PAGE_SIZE in *; lia|by exists s].
  - destruct (foldr_max_in 0 ((fun s => sg_vaddr s + sg_memsz s) <$> s0 :: segs))
      as [Hx|(s & Hx & Hs)%list_elem_of_fmap]; rewrite <- H3 in Hx; [exists s0; split; [done|lia]|by exists s].
Qed.

(** ** Properties *)

(** C24: whatever bytes the file holds, and whatever the firmware refuses, the
    loader answers: no input makes it index out of range, overflow or run on. *)
Theorem load_kernel_never_panics image f m :
  image_ok image -> answers (load_kernel image f m).
Proof. intros Him. by destruct (load_kernel_spec image f m Him) as [[e ->]|(k & f' & m' & ? & ? & ? & ? & -> & _)]. Qed.

(** C12: when the loader succeeds, every [PT_LOAD] header of the image is in
    memory as the ELF format asks: each page of each segment, all of them pages
    nobody held before, holds the file's bytes where the segment has them and
    zeros everywhere else, before the segment, after its file bytes and in the
    rest of its last page. Nothing else has been granted and no other byte of
    memory has changed. The base reported is the first page of the lowest
    segment, the size reaches to the last page of the highest one, and the entry
    point, the header's own, lies between them. *)
Theorem load_kernel_places_segments image f m k f' m' :
  image_ok image -> load_kernel image f m = Ok (k, f', m') ->
  exists phoff phnum, parse_header image = Ok (lk_entry k, phoff, PHDR_SIZE, phnum) /\
    let segs := segments_of (Z.to_nat phnum) image phoff PHDR_SIZE 0 in
    (forall s x, s ∈ segs -> seg_pages s x -> peek m' x = seg_byte image s x /\ ~ granted f x) /\
    (forall x, granted f' x <-> granted f x \/ Exists (fun s => seg_pages s x) segs) /\
    mem_agree (fun x => ~ Exists (fun s => seg_pages s x) segs) m m' /\
    (forall s x, s ∈ segs -> range (sg_vaddr s) (sg_memsz s) x -> seg_pages s x) /\
    (forall s, s ∈ segs -> lk_base k <= align_down (sg_vaddr s) /\
       round_up (sg_vaddr s + sg_memsz s) PAGE_SIZE <= lk_base k + lk_size k) /\
    (exists s, s ∈ segs /\ lk_base k = align_down (sg_vaddr s)) /\
    (exists s, s ∈ segs /\ lk_base k + lk_size k = round_up (sg_vaddr s + sg_memsz s) PAGE_SIZE) /\
    lk_base k mod PAGE_SIZE = 0 /\ lk_size k mod PAGE_SIZE = 0 /\
    lk_base k <= lk_entry k < lk_base k + lk_size k /\ lk_base k + lk_size k < 2 ^ 64.
Proof.
  intros Him Hrun. pose proof (load_kernel_placed image f m k f' m' Him Hrun) as
    (_ & _ & _ & _ & _ & _ & Hb0 & Hs0 & He0 & Ht & _).
  destruct (load_kernel_spec image f m Him)
    as [[e He]|(k1 & f1 & m1 & phoff & phnum & segs & acc & Hr & Hh & Hinv & Hne & Hp & He & Hb & Hs)];
    [congruence|]. rewrite Hrun in Hr. simplify_eq.
  exists phoff, phnum. split; [exact Hh|]. cbv zeta.
  set (segs' := segments_of (Z.to_nat phnum) image phoff PHDR_SIZE 0) in *.
  assert (forall s, s ∈ segs' <-> s ∈ segs) as HE by (intros s; by rewrite Hp).
  assert (forall P, Exists P segs' <-> Exists P segs) as HX by (intros P; rewrite !Exists_exists; by setoid_rewrite HE).
  destruct (load_hull _ _ _ _ _ _ _ Hinv Hne) as (Hin & (s1 & Hs1 & Hl1) & s2 & Hs2 & Hh2).
  destruct Hinv as [H1 _ _ _ H5 H6 H7 H8 _]. rewrite Forall_forall in H1, H7.
  split; [intros s x Hs'%HE Hx; split; [by apply H7|by eapply H6]|]. split; [intros x; by rewrite HX, H5|].
  split; [eapply mem_agree_mono; [|exact H8]; intros x; by rewrite HX|].
  split; [intros s x Hs'%HE Hx; eapply seg_used_in_pages; [by apply H1|exact Hx]|].
  split; [intros s Hs'%HE; rewrite Hs, Hb; destruct (Hin s Hs'); split; [done|by apply round_up_mono]|].
  split; [exists s1; by rewrite HE, Hb|]. split; [exists s2; by rewrite HE, Hs, Hh2|].
  by repeat (split; [done|]).
Qed.

(** The segments a successful load put in memory never share a page with
    one another; an image whose segments do is refused with
    [AllocationFailed]. *)
Theorem load_segment_refuses_shared_pages image s s' f m f1 m1 x :
  seg_ok image s -> seg_ok image s' -> seg_pages s x -> seg_pages s' x ->
  load_segment image s f m = Ok (f1, m1) ->
  load_segment image s' f1 m1 = Err AllocationFailed.
Proof.
  intros Hok Hok' Hx Hx' Hl. destruct (load_segment_spec image s f m Hok)
    as [?|(f2 & m2 & Hl2 & Hg & _)]; [congruence|]. rewrite Hl in Hl2. simplify_eq.
  destruct (load_segment_spec image s' f2 m2 Hok') as [?|(f3 & m3 & _ & _ & Hfr & _)]; [done|].
  exfalso. apply (Hfr x Hx'), Hg. by right.
Qed.
End KernelSpec.

(** The header is accepted exactly when it is that of a 64-bit
    little-endian x86-64 executable with program headers of the ELF64 size,
    and the values returned are the little-endian fields of the file. *)
Theorem parse_header_accepts image entry phoff phentsize phnum :
  image_ok image ->
  parse_header image = Ok (entry, phoff, phentsize, phnum) <->
  64 <= len image /\ take 4 image = [0x7f; 69; 76; 70] /\
  image !! 4%nat = Some 2 /\ image !! 5%nat = Some 1 /\
  field image 16 2 = 2 /\ field image 18 2 = 0x3e /\ field image 54 2 = 56 /\
  entry = field image 24 8 /\ phoff = field image 32 8 /\ phentsize = 56 /\
  phnum = field image 56 2.
Proof. apply parse_header_Ok. Qed.

(** ** Instances: a two-segment executable *)

Definition demo_ehdr (entry phnum : Z) : bytes :=
  ELF_MAGIC ++ [2; 1] ++ replicate 10 0 ++ le_bytes 2 2 ++ le_bytes 2 0x3e ++ le_bytes 4 1 ++
  le_bytes 8 entry ++ le_bytes 8 64 ++ le_bytes 8 0 ++ le_bytes 4 0 ++ le_bytes 2 64 ++
  le_bytes 2 56 ++ le_bytes 2 phnum ++ le_bytes 2 0 ++ le_bytes 2 0 ++ le_bytes 2 0.

Definition demo_phdr (ty offset vaddr filesz memsz : Z) : bytes :=
  le_bytes 4 ty ++ le_bytes 4 5 ++ le_bytes 8 offset ++ le_bytes 8 vaddr ++ le_bytes 8 vaddr ++
  le_bytes 8 filesz ++ le_bytes 8 memsz ++ le_bytes 8 4096.

(** Four bytes of code and four of zeros at 0x200010, sixteen bytes of zeros
    at 0x300000. *)
Definition demo_elf (entry : Z) : bytes :=
  demo_ehdr entry 2 ++ demo_phdr PT_LOAD 176 0x200010 4 8 ++ demo_phdr PT_LOAD 176 0x300000 0 16 ++
  [0xeb; 0xfe; 0x90; 0x90].

Lemma is_bytes_ok b : forallb (fun x => (0 <=? x) && (x <? 256)) b = true -> Forall is_byte b.
Proof.
  induction b as [|x b IH]; [constructor|]. cbn [forallb]. intros H. apply andb_true_iff in H as [Hx H].
  constructor; [unfold is_byte; lia|auto].
Qed.

Lemma demo_elf_ok : image_ok (demo_elf 0x200010).
Proof. split; [apply is_bytes_ok; vm_compute; reflexivity|vm_compute; reflexivity]. Qed.

(** C40: the entry check is the hull of the segments, not their union: an
    image whose entry point lies between two segments, in memory the loader
    never allocated, is loaded and reported as runnable. *)
Theorem load_kernel_accepts_entry_in_gap :
  exists k f' m', load_kernel (demo_elf 0x280000) demo_firmware ∅ = Ok (k, f', m') /\
    lk_entry k = 0x280000 /\ ~ granted f' 0x280000 /\
    Forall (fun s => ~ range (sg_vaddr s) (sg_memsz s) 0x280000)
      (segments_of 2 (demo_elf 0x280000) 64 PHDR_SIZE 0).
Proof.
  assert (match load_kernel (demo_elf 0x280000) demo_firmware ∅ with
    | Ok (k, f', _) => bool_decide (lk_entry k = 0x280000 /\
        sf_granted f' = [(0x300000, 4096); (0x200000, 4096)])
    | _ => false end = true) as H by (vm_compute; reflexivity).
  destruct (load_kernel (demo_elf 0x280000) demo_firmware ∅) as [[[k f'] m']| | |] eqn:E; [|discriminate H..].
  apply bool_decide_eq_true in H as [He Hg]. exists k, f', m'. split; [reflexivity|]. split; [exact He|]. split.
  - intros (g & Hin & Hr). rewrite Hg in Hin. unfold range in Hr.
    destruct Hin as [<-|[<-|[]]]; simpl in Hr; lia.
  - assert (segments_of 2 (demo_elf 0x280000) 64 PHDR_SIZE 0 =
      [{| sg_offset := 176; sg_vaddr := 0x200010; sg_filesz := 4; sg_memsz := 8 |};
       {| sg_offset := 176; sg_vaddr := 0x300000; sg_filesz := 0; sg_memsz := 16 |}]) as ->
      by (vm_compute; reflexivity).
    repeat constructor; unfold range; simpl; lia.
Qed.

(** A header that promises two program headers and stops there. *)
Lemma demo_truncated_ok : image_ok (demo_ehdr 0x200010 2).
Proof. split; [apply is_bytes_ok; vm_compute; reflexivity|vm_compute; reflexivity]. Qed.

Lemma load_kernel_never_panics_witness : answers (load_kernel (demo_ehdr 0x200010 2) demo_firmware ∅).
Proof. exact (load_kernel_never_panics (demo_ehdr 0x200010 2) demo_firmware ∅ demo_truncated_ok). Defined.

Lemma load_kernel_places_segments_witness : exists k f' m',
  load_kernel (demo_elf 0x200010) demo_firmware ∅ = Ok (k, f', m') /\
  lk_base k mod PAGE_SIZE = 0 /\ lk_base k <= lk_entry k.
Proof.
  assert (match load_kernel (demo_elf 0x200010) demo_firmware ∅ with Ok _ => true | _ => false end = true)
    as H by (vm_compute; reflexivity).
  destruct (load_kernel (demo_elf 0x200010) demo_firmware ∅) as [[[k f'] m']| | |] eqn:E; [|discriminate H..].
  destruct (load_kernel_places_segments _ demo_firmware ∅ k f' m' demo_elf_ok E)
    as (_ & _ & _ & _ & _ & _ & _ & _ & _ & _ & H1 & _ & H2 & _).
  exists k, f', m'. split; [reflexivity|]. split; [exact H1|exact (proj1 H2)].
Defined.

Definition demo_segment : LoadSegment :=
  {| sg_offset := 176; sg_vaddr := 0x200010; sg_filesz := 4; sg_memsz := 8 |}.
Definition demo_segment2 : LoadSegment :=
  {| sg_offset := 176; sg_vaddr := 0x200800; sg_filesz := 4; sg_memsz := 8 |}.

Lemma load_segment_refuses_shared_pages_witness : exists f1 m1,
  load_segment (demo_elf 0x200010) demo_segment demo_firmware ∅ = Ok (f1, m1) /\
  load_segment (demo_elf 0x200010) demo_segment2 f1 m1 = Err AllocationFailed.
Proof.
  assert (match load_segment (demo_elf 0x200010) demo_segment demo_firmware ∅ with Ok _ => true | _ => false end = true)
    as H by (vm_compute; reflexivity).
  destruct (load_segment (demo_elf 0x200010) demo_segment demo_firmware ∅) as [[f1 m1]| | |] eqn:E; [|discriminate H..].
  exists f1, m1. split; [reflexivity|].
  refine (load_segment_refuses_shared_pages (demo_elf 0x200010) demo_segment demo_segment2
    demo_firmware ∅ f1 m1 0x200900 _ _ _ _ E); by repeat split; vm_compute.
Defined.

Lemma parse_header_accepts_witness :
  image_ok (demo_elf 0x200010) /\ parse_header (demo_elf 0x200010) = Ok (0x200010, 64, 56, 2).
Proof.
  split; [exact demo_elf_ok|].
  apply (parse_header_accepts (demo_elf 0x200010) 0x200010 64 56 2 demo_elf_ok).
  by repeat split; vm_compute.
Defined.
