(* ===== verification/Load.v ===== *)
(** Which kernel files the bootloader's loader accepts ([load_kernel] in
    [bootloader/src/elf.rs]): the conditions under which it succeeds, all of
    them and no others. *)
From Stdlib Require Import Sorted.
From S2P Require Import Prelude Memory BootInfo Uefi Elf.

(** Segments with no page in common. *)
Definition apart (s s' : LoadSegment) : Prop := forall x, seg_pages s x -> ~ seg_pages s' x.

(** A page-aligned start, and pages up to it. *)
Lemma seg_pages_start s x : seg_pages s x -> 0 < seg_span s /\ align_down (sg_vaddr s) <= x.
Proof. unfold seg_pages, range. lia. Qed.

Section Load.
Context {F : Type} `{Firmware F}.

(** Firmware that refuses a request for given pages only for a reason: they
    are not whole free pages of the physical address space. *)
Definition obliging : Prop :=
  forall p pages (f : F), 0 < pages -> 0 <= p -> p mod PAGE_SIZE = 0 -> p + pages * PAGE_SIZE <= 2 ^ PHYS_BITS ->
    (forall x, range p (pages * PAGE_SIZE) x -> ~ granted f x) ->
    exists f', allocate_pages (Address p) LOADER_DATA pages f = (f', inl p).

(** The pages are there to be had. *)
Definition obtainable (f : F) (s : LoadSegment) : Prop :=
  (forall x, seg_pages s x -> ~ granted f x) /\
  (0 < seg_span s -> align_down (sg_vaddr s) + seg_span s <= 2 ^ PHYS_BITS).

Lemma load_segment_obtains image s f m :
  obliging -> seg_ok image s -> obtainable f s -> exists r, load_segment image s f m = Ok r.
Proof.
  intros Hob Hok [Hfree Hph].
  pose proof (seg_vaddr_u64 _ _ Hok) as Hv. pose proof (align_down_page _ Hv) as (Hal & Ha & Hb).
  destruct (id Hok) as (Hf & Ho & Hin & _ & Hm).
  unfold load_segment. rewrite sub_u_ok, bind_Ok by lia. fold (seg_total s).
  assert (0 <= seg_total s < 2 ^ 64) as Ht by (unfold seg_total; lia).
  unfold checked_add. fold (seg_total s). destruct (Z.ltb_spec (seg_total s) (2 ^ 64)); [|lia].
  simpl ok_or. rewrite bind_Ok. destruct (Z.eqb_spec (seg_total s) 0) as [Hz|Hnz]; [by eexists|].
  pose proof (div_ceil_spec (seg_total s) PAGE_SIZE eq_refl ltac:(lia)) as Hdc.
  assert (seg_span s = div_ceil (seg_total s) PAGE_SIZE * PAGE_SIZE) as Hsp.
  { unfold seg_span. by destruct (Z.eqb_spec (seg_total s) 0). }
  set (pages := div_ceil (seg_total s) PAGE_SIZE) in *.
  assert (0 < pages) as Hpg by (unfold PAGE_SIZE in *; lia).
  destruct (Hob (align_down (sg_vaddr s)) pages f) as [f' Hal']; [done|lia|done| | |].
  { rewrite <- Hsp. apply Hph. unfold PAGE_SIZE in *. lia. }
  { intros x Hx. apply Hfree. unfold seg_pages. by rewrite Hsp. }
  unfold allocate_or. rewrite Hal', bind_Ok, mul_u_ok, bind_Ok; [by eexists|].
  rewrite <- Hsp. assert (align_down (sg_vaddr s) + seg_span s <= 2 ^ PHYS_BITS); [|unfold PHYS_BITS in *; lia].
  apply Hph. unfold PAGE_SIZE in *. lia.
Qed.

(** The loop over headers that parse to segments on pages of their own. *)
Lemma load_segments_obtain n image phoff phentsize i acc f m :
  obliging -> image_ok image -> 0 <= i -> 0 <= phoff -> 0 <= phentsize ->
  (forall j, i <= j < i + Z.of_nat n -> exists o, parse_segment image phoff phentsize j = Ok o) ->
  ForallOrdPairs apart (segments_of n image phoff phentsize i) ->
  Forall (obtainable f) (segments_of n image phoff phentsize i) ->
  exists r, load_segments n image phoff phentsize i acc f m = Ok r.
Proof.
  intros Hob Him Hi Hp He. revert i acc f m Hi. induction n as [|n IH]; intros i acc f m Hi Hall Hap Hfr;
    cbn [load_segments segments_of] in *; [by eexists|].
  assert (forall j, i + 1 <= j < i + 1 + Z.of_nat n -> exists o, parse_segment image phoff phentsize j = Ok o) as Hall'
    by (intros j Hj; apply Hall; lia).
  destruct (Hall i ltac:(lia)) as [o Ho]. rewrite Ho in Hap, Hfr |- *. rewrite bind_Ok.
  destruct o as [[s e]|]; [|by apply IH; [lia|..]].
  inversion_clear Hap as [|? ? Hs Hap1]. apply Forall_cons in Hfr as [Hf Hfr].
  destruct (parse_segment_ok image phoff phentsize i s e Him Hi Hp He Ho) as [Hok _].
  destruct (load_segment_obtains image s f m Hob Hok Hf) as [[f1 m1] Hl].
  destruct (load_segment_spec image s f m Hok) as [Hx|(f2 & m2 & Hx & G & _)]; rewrite Hl in Hx; [done|].
  injection Hx as <- <-. rewrite Hl, bind_Ok. apply IH; [lia|done|done|].
  rewrite Forall_forall in Hs, Hfr |- *. intros s' Hs'. destruct (Hfr s' Hs') as [Hfree Hph]. split; [|done].
  intros x Hx [Hg|Hg]%G; [by apply (Hfree x)|by apply (Hs s' Hs' x)].
Qed.

(** And conversely, a loop that succeeds found them so. *)
Lemma load_segments_obtained n image phoff phentsize i acc f m r :
  image_ok image -> 0 <= i -> 0 <= phoff -> 0 <= phentsize ->
  load_segments n image phoff phentsize i acc f m = Ok r ->
  ForallOrdPairs apart (segments_of n image phoff phentsize i) /\
  Forall (obtainable f) (segments_of n image phoff phentsize i).
Proof.
  intros Him Hi Hp He. revert i acc f m Hi. induction n as [|n IH]; intros i acc f m Hi Hr;
    cbn [load_segments segments_of] in *; [by repeat constructor|].
  destruct (parse_segment image phoff phentsize i) as [o| | |] eqn:Ho; try done. rewrite bind_Ok in Hr.
  destruct o as [[s e]|]; [|by eapply IH; [lia|]].
  destruct (parse_segment_ok image phoff phentsize i s e Him Hi Hp He Ho) as [Hok _].
  destruct (load_segment_spec image s f m Hok) as [Hx|(f1 & m1 & Hx & G & Hfree & _ & _ & Hph)]; rewrite Hx in Hr; [done|].
  rewrite bind_Ok in Hr. apply IH in Hr as [Hap Hfr]; [|lia]. rewrite Forall_forall in Hfr. simpl. split.
  - constructor; [|done]. apply Forall_forall. intros s' Hs' x Hx1 Hx2. apply (proj1 (Hfr s' Hs') x Hx2), G. by right.
  - constructor; [done|]. apply Forall_forall. intros s' Hs'. destruct (Hfr s' Hs') as [Hf' Hp']. split; [|done].
    intros x Hx1 Hg. apply (Hf' x Hx1), G. by left.
Qed.

(** With headers that all parse, the loop's one error is a request for pages
    refused. *)
Lemma load_segments_fails n image phoff phentsize i acc f m :
  image_ok image -> 0 <= i -> 0 <= phoff -> 0 <= phentsize ->
  (forall j, i <= j < i + Z.of_nat n -> exists o, parse_segment image phoff phentsize j = Ok o) ->
  load_segments n image phoff phentsize i acc f m = Err AllocationFailed \/
  exists r, load_segments n image phoff phentsize i acc f m = Ok r.
Proof.
  intros Him Hi Hp He. revert i acc f m Hi. induction n as [|n IH]; intros i acc f m Hi Hall;
    cbn [load_segments]; [right; by eexists|].
  assert (forall j, i + 1 <= j < i + 1 + Z.of_nat n -> exists o, parse_segment image phoff phentsize j = Ok o) as Hall'
    by (intros j Hj; apply Hall; lia).
  destruct (Hall i ltac:(lia)) as [o Ho]. rewrite Ho, bind_Ok. destruct o as [[s e]|]; [|apply IH; [lia|done]].
  destruct (parse_segment_ok image phoff phentsize i s e Him Hi Hp He Ho) as [Hok _].
  destruct (load_segment_spec image s f m Hok) as [->|(f1 & m1 & -> & _)]; [by left|].
  rewrite bind_Ok. apply IH; [lia|done].
Qed.

(** The segments of a file are in its bounds. *)
Lemma segments_of_ok n image phoff phentsize i :
  image_ok image -> 0 <= i -> 0 <= phoff -> 0 <= phentsize ->
  Forall (seg_ok image) (segments_of n image phoff phentsize i).
Proof.
  intros Him Hi Hp He. revert i Hi. induction n as [|n IH]; intros i Hi; cbn [segments_of]; [constructor|].
  apply Forall_app. split; [|apply IH; lia].
  destruct (parse_segment image phoff phentsize i) as [[[s e]|]| | |] eqn:Ho; [|constructor..].
  constructor; [|constructor]. by apply (parse_segment_ok image phoff phentsize i s e).
Qed.

(** The header's fields, as far as the loader needs them bounded. *)
Lemma header_bounds image entry phoff phentsize phnum :
  image_ok image -> parse_header image = Ok (entry, phoff, phentsize, phnum) ->
  phentsize = PHDR_SIZE /\ 0 <= entry < 2 ^ 64 /\ 0 <= phoff /\ 0 <= phnum.
Proof.
  intros Him Hh. apply parse_header_Ok in Hh as (_ & _ & _ & _ & _ & _ & _ & -> & -> & -> & ->); [|done].
  pose proof (field_bound image 24 8 (proj1 Him)). pose proof (field_bound image 32 8 (proj1 Him)).
  pose proof (field_bound image 56 2 (proj1 Him)). split; [done|lia].
Qed.

(** Two segments on one page: no firmware can be talked into it. *)
Lemma load_kernel_shared image entry phoff phnum f m :
  image_ok image -> parse_header image = Ok (entry, phoff, PHDR_SIZE, phnum) ->
  (forall j, 0 <= j < phnum -> exists o, parse_segment image phoff PHDR_SIZE j = Ok o) ->
  ~ ForallOrdPairs apart (segments_of (Z.to_nat phnum) image phoff PHDR_SIZE 0) ->
  load_kernel image f m = Err AllocationFailed.
Proof.
  intros Him Hh Hall Hap. destruct (header_bounds _ _ _ _ _ Him Hh) as (_ & _ & Hpo & Hpn).
  unfold load_kernel. rewrite Hh, bind_Ok.
  match goal with |- context [load_segments ?n _ _ _ _ ?acc _ _] =>
    destruct (load_segments_fails n image phoff PHDR_SIZE 0 acc f m Him ltac:(lia) Hpo ltac:(done)
      ltac:(intros j Hj; apply Hall; lia)) as [->|[r Hr]]; [done|] end.
  destruct Hap. by apply load_segments_obtained in Hr as [? _].
Qed.

(** ** The hull of the segments *)

Lemma foldr_min_bound x l e : foldr Z.min x l <= e <-> x <= e \/ Exists (fun y => y <= e) l.
Proof using. induction l as [|y l IH]; simpl; [rewrite Exists_nil; tauto|]. rewrite Exists_cons, Z.min_le_iff, IH. tauto. Qed.

Lemma foldr_max_bound x l e : e < foldr Z.max x l <-> e < x \/ Exists (fun y => e < y) l.
Proof using. induction l as [|y l IH]; simpl; [rewrite Exists_nil; tauto|]. rewrite Exists_cons, Z.max_lt_iff, IH. tauto. Qed.

(** Some segment starts at or below the entry point, page-aligned, and some
    segment ends above it. *)
Definition in_hull (segs : list LoadSegment) (entry : Z) : Prop :=
  Exists (fun s => align_down (sg_vaddr s) <= entry) segs /\ Exists (fun s => entry < sg_vaddr s + sg_memsz s) segs.

Lemma in_hull_acc (image : bytes) f0 m0 segs (acc : load_acc) (f : F) m entry :
  loop_inv image f0 m0 segs acc f m -> segs <> [] -> 0 <= entry < 2 ^ 64 ->
  lowest acc <= entry < highest acc <-> in_hull segs entry.
Proof using.
  intros Hinv Hne He. unfold in_hull. rewrite (li_lowest _ _ _ _ _ _ _ Hinv), (li_highest _ _ _ _ _ _ _ Hinv).
  rewrite foldr_min_bound, foldr_max_bound, !Exists_fmap.
  pose proof (li_ok _ _ _ _ _ _ _ Hinv) as Hok.
  split; [intros [[Hm|Hl] [Hx|Hh]]|intros [Hl Hh]; split; by right]; try lia; [|by split].
  split; [|done]. destruct segs as [|s segs]; [done|]. apply Forall_cons in Hok as [Hs _].
  left. pose proof (align_down_page _ (seg_vaddr_u64 _ _ Hs)) as (_ & Ha & _). destruct Hs as (? & _ & _ & _ & Hend). lia.
Qed.

(** Everything the loader asks of a file. *)
Definition loadable (image : bytes) (f : F) : Prop :=
  exists entry phoff phnum, let segs := segments_of (Z.to_nat phnum) image phoff PHDR_SIZE 0 in
    parse_header image = Ok (entry, phoff, PHDR_SIZE, phnum) /\
    (forall j, 0 <= j < phnum -> exists o, parse_segment image phoff PHDR_SIZE j = Ok o) /\
    segs <> [] /\ ForallOrdPairs apart segs /\ Forall (obtainable f) segs /\ in_hull segs entry.

#[local] Definition start : load_acc := {| lowest := 2 ^ 64 - 1; highest := 0; loaded_any := false |}.

(** The loader past its loop: the two checks on the whole. *)
Lemma load_kernel_checks image f m entry phoff phnum acc f' m' segs :
  parse_header image = Ok (entry, phoff, PHDR_SIZE, phnum) ->
  load_segments (Z.to_nat phnum) image phoff PHDR_SIZE 0 start f m = Ok (acc, f', m') ->
  loop_inv image f m segs acc f' m' -> 0 <= entry < 2 ^ 64 ->
  (exists r, load_kernel image f m = Ok r) <-> segs <> [] /\ in_hull segs entry.
Proof using.
  intros Hh Hl Hinv He. unfold load_kernel. rewrite Hh, bind_Ok. fold start. rewrite Hl, bind_Ok.
  pose proof (li_any _ _ _ _ _ _ _ Hinv) as Hany. destruct (decide (segs = [])) as [->|Hne].
  { rewrite Hany. simpl. split; [by intros [r Hr]|by intros [? _]]. }
  rewrite Hany, bool_decide_false by done. cbn [negb]. cbv iota.
  rewrite <- (in_hull_acc _ _ _ _ _ _ _ entry Hinv Hne He). pose proof (highest_bound _ _ _ _ _ _ _ Hinv) as Hhi.
  destruct (Z.ltb_spec entry (lowest acc)); simpl orb; cbv iota; [split; [by intros [r Hr]|lia]|].
  destruct (Z.leb_spec (highest acc) entry); cbv iota; [split; [by intros [r Hr]|lia]|].
  rewrite align_up_spec, bind_Ok by lia. pose proof (round_up_spec (highest acc) PAGE_SIZE eq_refl).
  rewrite sub_u_ok, bind_Ok by lia. split; [by split|by eexists].
Qed.

Lemma in_hull_perm segs segs' entry : segs ≡ₚ segs' -> in_hull segs entry -> in_hull segs' entry.
Proof using.
  intros Hp [Hl Hh]. split; apply Exists_exists; [apply Exists_exists in Hl as (s & Hs & Hx)|apply Exists_exists in Hh as (s & Hs & Hx)];
    exists s; by rewrite <- Hp.
Qed.

Lemma load_kernel_loadable image f m :
  obliging -> image_ok image -> (exists r, load_kernel image f m = Ok r) <-> loadable image f.
Proof using.
  intros Hob Him.
  assert (0 <= PHDR_SIZE) as Hps by done.
  split.
  - intros [r Hr]. pose proof Hr as Hr'. unfold load_kernel in Hr'.
    destruct (parse_header image) as [[[[entry phoff] phentsize] phnum]| | |] eqn:Hh; try done.
    destruct (header_bounds _ _ _ _ _ Him Hh) as (-> & He & Hpo & Hpn). rewrite bind_Ok in Hr'. fold start in Hr'.
    destruct (load_segments_spec (Z.to_nat phnum) image phoff PHDR_SIZE 0 f m [] start f m Him ltac:(lia) Hpo Hps
      (loop_inv_start image f m)) as [[e Hl]|(acc & f' & m' & segs & Hl & Hinv & Hp & Hall)]; [by rewrite Hl in Hr'|].
    rewrite app_nil_r in Hp. destruct (proj1 (load_kernel_checks _ _ _ _ _ _ _ _ _ _ Hh Hl Hinv He) (ex_intro _ r Hr)) as [Hne Hin].
    destruct (load_segments_obtained (Z.to_nat phnum) image phoff PHDR_SIZE 0 _ _ _ _ Him ltac:(lia) Hpo Hps Hl) as [Hap Hfr].
    exists entry, phoff, phnum. cbv zeta. split; [done|]. split; [intros j Hj; apply Hall; lia|].
    split; [intros E; apply Hne; rewrite E in Hp; by apply Permutation_nil_r in Hp|].
    split; [done|]. split; [done|by apply (in_hull_perm segs)].
  - intros (entry & phoff & phnum & Hh & Hall & Hne & Hap & Hfr & Hin).
    destruct (header_bounds _ _ _ _ _ Him Hh) as (_ & He & Hpo & Hpn).
    destruct (load_segments_obtain (Z.to_nat phnum) image phoff PHDR_SIZE 0 start f m Hob Him ltac:(lia) Hpo Hps
      ltac:(intros j Hj; apply Hall; lia) Hap Hfr) as [[[acc f'] m'] Hl].
    destruct (load_segments_spec (Z.to_nat phnum) image phoff PHDR_SIZE 0 f m [] start f m Him ltac:(lia) Hpo Hps
      (loop_inv_start image f m)) as [[e Hl']|(acc' & f1 & m1 & segs & Hl' & Hinv & Hp & _)]; rewrite Hl in Hl'; [done|].
    injection Hl' as <- <- <-. rewrite app_nil_r in Hp.
    apply (load_kernel_checks _ _ _ _ _ _ _ _ _ _ Hh Hl Hinv He). split; [|by apply (in_hull_perm _ segs) in Hin].
    intros ->. apply Hne. by apply Permutation_nil_l in Hp.
Qed.

(** C13: [load_kernel] accepts exactly the files that can be loaded. Let the
    firmware refuse a request for given pages only when they are not whole free
    pages of the physical address space. Then the loader succeeds if and only
    if the ELF header is the one it asks for; every program header parses;
    there is at least one loadable segment; no two loadable segments have a
    page in common; each one's pages are free and in the address space; and the
    entry point lies between the page the lowest segment starts in and the end
    of the highest. It never refuses a kernel for any other reason. *)
Theorem load_kernel_accepts_exactly image f m :
  obliging -> image_ok image ->
  (exists k f' m', load_kernel image f m = Ok (k, f', m')) <->
  exists entry phoff phnum, let segs := segments_of (Z.to_nat phnum) image phoff PHDR_SIZE 0 in
    parse_header image = Ok (entry, phoff, PHDR_SIZE, phnum) /\
    (forall j, 0 <= j < phnum -> exists o, parse_segment image phoff PHDR_SIZE j = Ok o) /\
    segs <> [] /\
    ForallOrdPairs (fun s s' => forall x, seg_pages s x -> ~ seg_pages s' x) segs /\
    Forall (fun s => (forall x, seg_pages s x -> ~ granted f x) /\
      (0 < seg_span s -> align_down (sg_vaddr s) + seg_span s <= 2 ^ PHYS_BITS)) segs /\
    Exists (fun s => align_down (sg_vaddr s) <= entry) segs /\
    Exists (fun s => entry < sg_vaddr s + sg_memsz s) segs.
Proof using.
  intros Hob Him. destruct (load_kernel_loadable image f m Hob Him) as [H1 H2]. split.
  - intros (k & f' & m' & Hk). apply H1. by exists (k, f', m').
  - intros Hl. destruct (H2 Hl) as [[[k f'] m'] Hk]. by exists k, f', m'.
Qed.
End Load.

(** The firmware of the examples is such. *)
Lemma simple_obliging : obliging (F := simple_firmware).
Proof.
  intros p pages f Hn Hp Hm Hb Hfree. simpl. unfold sf_allocate.
  assert (existsb (sf_touches p (pages * PAGE_SIZE)) (sf_granted f) = false) as ->.
  { apply not_true_iff_false. intros (g & Hg & Ht)%existsb_exists. unfold sf_touches in Ht.
    rewrite !andb_true_iff, !Z.ltb_lt in Ht. unfold PAGE_SIZE in *. apply (Hfree (Z.max p (fst g))); [unfold range; lia|].
    exists g. split; [done|unfold range; lia]. }
  rewrite (proj2 (Z.ltb_lt _ _)), (proj2 (Z.leb_le 0 p)), (proj2 (Z.eqb_eq _ 0)), (proj2 (Z.leb_le (p + _) _)) by done.
  by eexists.
Qed.

(** A two-segment file is accepted, so its segments share no page; and a file
    whose entry point is outside them, or whose pages the firmware has given
    away, is not. *)
Lemma load_kernel_accepts_exactly_witness :
  ForallOrdPairs (fun s s' => forall x, seg_pages s x -> ~ seg_pages s' x)
    (segments_of 2 (demo_elf 0x200010) 64 PHDR_SIZE 0).
Proof.
  assert (match load_kernel (demo_elf 0x200010) demo_firmware ∅ with Ok _ => true | _ => false end = true)
    as Hok by (vm_compute; reflexivity).
  destruct (load_kernel (demo_elf 0x200010) demo_firmware ∅) as [[[k f'] m']| | |] eqn:E; [|discriminate Hok..].
  destruct (proj1 (load_kernel_accepts_exactly (demo_elf 0x200010) demo_firmware ∅ simple_obliging demo_elf_ok)
    (ex_intro _ k (ex_intro _ f' (ex_intro _ m' E)))) as (entry & phoff & phnum & Hh & _ & _ & Hap & _).
  assert (parse_header (demo_elf 0x200010) = Ok (0x200010, 64, PHDR_SIZE, 2)) as Hh' by (vm_compute; reflexivity).
  rewrite Hh' in Hh. injection Hh as <- <- <-. exact Hap.
Defined.
