(* ===== verification/Link.v ===== *)
(** The kernel's build ([kernel/build.rs]) and its linker script
    ([kernel/kernel.ld]), and what they have to do with the loader: which
    layouts of the kernel file [bootloader/src/elf.rs] can load. *)
From Stdlib Require Import Sorted String.
From S2P Require Import Prelude Memory BootInfo Uefi Elf Load.

(** ** The build script *)

(** [main] of [build.rs]: the lines it prints for cargo, or a panic when the
    variable is not set ([var] is [std::env::var] with its error dropped). *)
Definition build_main (var : string -> option string) : res (list string) :=
  match var "CARGO_MANIFEST_DIR"%string with
  | None => Panic
  | Some manifest_dir =>
      Ok ["cargo:rustc-link-arg=-T" ++ manifest_dir ++ "/kernel.ld";
          "cargo:rustc-link-arg=-znorelro";
          "cargo:rerun-if-changed=kernel.ld";
          "cargo:rerun-if-changed=build.rs"]%string
  end.

(** What cargo makes of such lines: every [cargo:rustc-link-arg=] line is an
    argument of the linker. *)
Fixpoint strip_prefix (p s : string) : option string :=
  match p, s with
  | EmptyString, _ => Some s
  | String a p, String b s => if bool_decide (a = b) then strip_prefix p s else None
  | String _ _, EmptyString => None
  end.

Definition link_args (lines : list string) : list string := omap (strip_prefix "cargo:rustc-link-arg=") lines.

(** ** The linker script *)

(** A pattern of an input section description: a name, or the names below one
    ([.text.*]). *)
Inductive Pattern :=
| Name (n : string)
| Below (n : string).

Definition matches (p : Pattern) (n : string) : bool :=
  match p with
  | Name m => bool_decide (n = m)
  | Below m => match strip_prefix (m ++ ".") n with Some _ => true | None => false end
  end.

(** [name : ALIGN(align) { ... }]. *)
Record OutputSection := { os_name : string; os_align : Z; os_inputs : list Pattern }.

Record Script := { sc_entry : string; sc_start : Z; sc_sections : list OutputSection; sc_discard : list Pattern }.

Definition kernel_ld : Script := {|
  sc_entry := "_start";
  sc_start := 2 * 2 ^ 20;
  sc_sections := [
    {| os_name := ".text"; os_align := 4 * 2 ^ 10; os_inputs := [Name ".text"; Below ".text"] |};
    {| os_name := ".rodata"; os_align := 4 * 2 ^ 10; os_inputs := [Name ".rodata"; Below ".rodata"] |};
    {| os_name := ".data"; os_align := 4 * 2 ^ 10; os_inputs := [Name ".data"; Below ".data"] |};
    {| os_name := ".bss"; os_align := 4 * 2 ^ 10; os_inputs := [Name ".bss"; Below ".bss"; Name "COMMON"] |}];
  sc_discard := [Name ".eh_frame"; Name ".note"; Below ".note"; Name ".comment"] |}.

(** Where the script puts an input section: in an output section, nowhere, or
    wherever the linker likes (an orphan). *)
Inductive Place := Into (os : OutputSection) | Discarded | Orphan.

Definition place_input (sc : Script) (n : string) : Place :=
  match find (fun os => existsb (fun p => matches p n) (os_inputs os)) (sc_sections sc) with
  | Some os => Into os
  | None => if existsb (fun p => matches p n) (sc_discard sc) then Discarded else Orphan
  end.

(** The script's statement about an output section, if it has one. *)
Definition scripted (sc : Script) (n : string) : option OutputSection :=
  find (fun os => bool_decide (os_name os = n)) (sc_sections sc).

(** ** The layout *)

(** An output section as the linker has it: its contents' size, and the
    alignment it has when the script says nothing. *)
Record Output := { o_name : string; o_align : Z; o_size : Z }.

Definition start_align (sc : Script) (o : Output) : Z :=
  match scripted sc (o_name o) with Some os => os_align os | None => o_align o end.

(** The location counter: aligned before a section, moved past it after. *)
Fixpoint place (sc : Script) (dot : Z) (os : list Output) : list (Output * Z) :=
  match os with
  | [] => []
  | o :: os => let a := round_up dot (start_align sc o) in (o, a) :: place sc (a + o_size o) os
  end.

Fixpoint dot_after (sc : Script) (dot : Z) (os : list Output) : Z :=
  match os with
  | [] => dot
  | o :: os => dot_after sc (round_up dot (start_align sc o) + o_size o) os
  end.

Definition group_start (sc : Script) (dot : Z) (g : list Output) : Z :=
  match g with [] => dot | o :: _ => round_up dot (start_align sc o) end.

(** The extents of the segments made of consecutive groups of sections. *)
Fixpoint extents (sc : Script) (dot : Z) (gs : list (list Output)) : list (Z * Z) :=
  match gs with
  | [] => []
  | g :: gs => (group_start sc dot g, dot_after sc dot g) :: extents sc (dot_after sc dot g) gs
  end.

Definition output_ok (o : Output) : Prop := 0 < o_align o /\ 0 <= o_size o.

(** ** The linker *)

(** What a link makes: the output sections of each loadable segment, the file,
    and the addresses of symbols. *)
Record Linked := { l_groups : list (list Output); l_image : bytes; l_symbol : string -> Z }.

(** The file has the segments of the layout and no others. *)
Definition written (image : bytes) (entry : Z) (layout : list (Z * Z)) : Prop :=
  exists phoff phnum, parse_header image = Ok (entry, phoff, PHDR_SIZE, phnum) /\
    (forall j, 0 <= j < phnum -> exists o, parse_segment image phoff PHDR_SIZE j = Ok o) /\
    Forall2 (fun s e => sg_vaddr s = fst e /\ sg_vaddr s + sg_memsz s = snd e)
      (segments_of (Z.to_nat phnum) image phoff PHDR_SIZE 0) layout.

(** Linkers, with what the build relies on: given the script, the file is laid
    out by it, with the entry symbol inside the section the script puts
    [_start]'s code in; and [-znorelro] leaves no segment that begins with a
    section the script does not place ([build.rs]'s comment). *)
Class Linker (O : Type) := {
  link : list string -> O -> Linked;
  link_ok args o : image_ok (l_image (link args o)) /\ Forall (fun g => g <> [] /\ Forall output_ok g) (l_groups (link args o));
  link_script args o dir : In ("-T" ++ dir ++ "/kernel.ld")%string args ->
    let l := link args o in
    written (l_image l) (l_symbol l (sc_entry kernel_ld)) (extents kernel_ld (sc_start kernel_ld) (l_groups l)) /\
    exists os out a, place_input kernel_ld (".text." ++ sc_entry kernel_ld) = Into os /\ o_name out = os_name os /\
      In (out, a) (place kernel_ld (sc_start kernel_ld) (concat (l_groups l))) /\
      a <= l_symbol l (sc_entry kernel_ld) < a + o_size out;
  link_norelro args o : In "-znorelro"%string args ->
    Forall (fun g => exists out os, head g = Some out /\ scripted kernel_ld (o_name out) = Some os) (l_groups (link args o));
}.

(** ** The location counter only moves up *)

Definition group_ok (g : list Output) : Prop := g <> [] /\ Forall output_ok g.

Lemma kernel_ld_pages n os : scripted kernel_ld n = Some os -> os_align os = PAGE_SIZE.
Proof. unfold scripted. cbn. repeat case_bool_decide; try done; by intros [= <-]. Qed.

Lemma start_align_pos o : output_ok o -> 0 < start_align kernel_ld o.
Proof.
  intros [Ho _]. unfold start_align. destruct (scripted kernel_ld (o_name o)) eqn:E; [|done].
  by rewrite (kernel_ld_pages _ _ E).
Qed.

Lemma dot_after_ge os dot : Forall output_ok os -> dot <= dot_after kernel_ld dot os.
Proof.
  intros Hok. revert dot. induction Hok as [|o os Ho _ IH]; intros dot; cbn [dot_after]; [lia|].
  pose proof (round_up_spec dot _ (start_align_pos o Ho)). destruct Ho.
  specialize (IH (round_up dot (start_align kernel_ld o) + o_size o)). lia.
Qed.

Lemma dot_after_nonneg gs : Forall group_ok gs -> 0 <= dot_after kernel_ld (sc_start kernel_ld) (concat gs).
Proof.
  intros Hok. etrans; [|apply dot_after_ge, Forall_concat; eapply Forall_impl; [exact Hok|by intros ? []]]. done.
Qed.

Lemma group_start_between g dot :
  Forall output_ok g -> dot <= group_start kernel_ld dot g <= dot_after kernel_ld dot g.
Proof.
  intros Hok. destruct g as [|o g]; [cbn; lia|]. apply Forall_cons in Hok as [Ho Hg]. cbn [group_start dot_after].
  pose proof (round_up_spec dot _ (start_align_pos o Ho)).
  pose proof (dot_after_ge g (round_up dot (start_align kernel_ld o) + o_size o) Hg). destruct Ho. lia.
Qed.

Lemma placed_between os dot out a :
  Forall output_ok os -> In (out, a) (place kernel_ld dot os) ->
  dot <= a /\ a + o_size out <= dot_after kernel_ld dot os.
Proof.
  intros Hok. revert dot. induction Hok as [|o os Ho Hos IH]; intros dot; cbn [place dot_after In]; [done|].
  pose proof (round_up_spec dot _ (start_align_pos o Ho)).
  pose proof (dot_after_ge os (round_up dot (start_align kernel_ld o) + o_size o) Hos). destruct Ho.
  intros [[= <- <-]|Hin%IH]; lia.
Qed.

Lemma dot_after_app os os' dot : dot_after kernel_ld dot (os ++ os') = dot_after kernel_ld (dot_after kernel_ld dot os) os'.
Proof. revert dot. induction os; intros dot; cbn [app dot_after]; [done|apply IHos]. Qed.

Lemma extents_bounds gs dot s e :
  Forall group_ok gs -> (s, e) ∈ extents kernel_ld dot gs ->
  dot <= s /\ s <= e /\ e <= dot_after kernel_ld dot (concat gs).
Proof.
  intros Hok. revert dot. induction Hok as [|g gs [_ Hg] Hgs IH]; intros dot; cbn [extents concat]; [by intros ?%elem_of_nil|].
  pose proof (group_start_between g dot Hg). rewrite dot_after_app.
  assert (Forall output_ok (concat gs)) as Hc by (apply Forall_concat; eapply Forall_impl; [exact Hgs|by intros ? []]).
  pose proof (dot_after_ge _ (dot_after kernel_ld dot g) Hc).
  intros [[= -> ->]|Hin%IH]%elem_of_cons; lia.
Qed.

(** ** Segments that begin on a page of their own *)

Lemma paged_apart image s s' :
  seg_ok image s -> seg_ok image s' -> sg_vaddr s' mod PAGE_SIZE = 0 -> sg_vaddr s + sg_memsz s <= sg_vaddr s' -> apart s s'.
Proof.
  intros Hs Hs' Hm Hle x Hx Hx'.
  pose proof (align_down_page _ (seg_vaddr_u64 _ _ Hs)) as (Hal & Ha & _).
  pose proof (align_down_spec _ (seg_vaddr_u64 _ _ Hs')) as Ha'. rewrite Hm, Z.sub_0_r in Ha'.
  unfold seg_pages, range in Hx, Hx'. rewrite Ha' in Hx'. unfold seg_span in Hx. fold (seg_total s) in Hx.
  destruct (Z.eqb_spec (seg_total s) 0); [lia|].
  assert (seg_total s = sg_vaddr s - align_down (sg_vaddr s) + sg_memsz s) as Ht by done.
  destruct Hs as (? & _).
  pose proof (div_ceil_spec (seg_total s) PAGE_SIZE eq_refl ltac:(lia)).
  unfold PAGE_SIZE in *. divmod.
Qed.

Definition paged (g : list Output) : Prop :=
  exists out os, head g = Some out /\ scripted kernel_ld (o_name out) = Some os.

Lemma paged_start g dot : paged g -> group_start kernel_ld dot g = round_up dot PAGE_SIZE.
Proof.
  intros (out & os & Hh & Hs). destruct g as [|o g]; [done|]. injection Hh as ->. cbn. unfold start_align.
  by rewrite Hs, (kernel_ld_pages _ _ Hs).
Qed.

Definition seg_extent (s : LoadSegment) (e : Z * Z) : Prop := sg_vaddr s = fst e /\ sg_vaddr s + sg_memsz s = snd e.

Lemma extents_apart image segs gs dot :
  Forall (seg_ok image) segs -> Forall group_ok gs -> Forall paged gs ->
  Forall2 seg_extent segs (extents kernel_ld dot gs) -> ForallOrdPairs apart segs.
Proof.
  intros Hok Hgs Hp. revert segs dot Hok. induction Hgs as [|g gs Hg Hgs IH]; intros segs dot Hok HF; cbn [extents] in HF.
  { apply Forall2_nil_inv_r in HF as ->. constructor. }
  apply Forall2_cons_inv_r in HF as (s & segs' & [Hs1 Hs2] & HF & ->). cbn [fst snd] in Hs1, Hs2.
  apply Forall_cons in Hok as [Hs Hok]. apply Forall_cons in Hp as [_ Hp]. constructor; [|by eapply IH].
  apply Forall_forall. intros s' Hs'. apply list_elem_of_lookup in Hs' as [i Hi].
  destruct (Forall2_lookup_l _ _ _ _ _ HF Hi) as ([a e] & He & [Ha _]). cbn [fst] in Ha.
  apply (paged_apart image); [done|by eapply Forall_lookup_1|..]; rewrite ?Ha.
  - clear -Hgs Hp He. revert i He. generalize (dot_after kernel_ld dot g) as d.
    induction Hgs as [|g' gs _ _ IH]; intros d i; [done|]. apply Forall_cons in Hp as [Hg' Hp]. cbn [extents].
    destruct i as [|i]; [|by apply IH]. intros [= <- _]. rewrite (paged_start _ _ Hg'). by apply round_up_spec.
  - rewrite Hs2. apply (extents_bounds gs _ a e Hgs). by eapply list_elem_of_lookup_2.
Qed.

(** ** The kernel the build makes is loaded *)

Lemma adjacent_apart l s s' l' : ForallOrdPairs apart (l ++ s :: s' :: l') -> apart s s'.
Proof.
  induction l as [|t l IH]; cbn [app]; inversion_clear 1 as [|? ? Hs Hl]; [|by apply IH].
  by apply Forall_cons in Hs as [? _].
Qed.

Section Build.
Context {F : Type} `{Firmware F} {O : Type} `{Linker O}.

(** The end of the layout's pages. *)
Definition image_end (gs : list (list Output)) : Z :=
  round_up (dot_after kernel_ld (sc_start kernel_ld) (concat gs)) PAGE_SIZE.

(** A segment within page-aligned bounds has its pages within them. *)
Lemma seg_pages_within image s b e :
  seg_ok image s -> b <= sg_vaddr s -> sg_vaddr s + sg_memsz s <= e -> b mod PAGE_SIZE = 0 -> e mod PAGE_SIZE = 0 ->
  b <= align_down (sg_vaddr s) /\ (0 < seg_span s -> align_down (sg_vaddr s) + seg_span s <= e).
Proof using.
  intros Hs Hb He Hbm Hem. pose proof (align_down_page _ (seg_vaddr_u64 _ _ Hs)) as (Hal & Ha & Hlt).
  split; [clear He Hem; unfold PAGE_SIZE in *; divmod|].
  unfold seg_span. destruct (Z.eqb_spec (seg_total s) 0); [lia|]. intros _.
  assert (seg_total s = sg_vaddr s - align_down (sg_vaddr s) + sg_memsz s) as Ht by done. destruct Hs as (? & _).
  pose proof (div_ceil_spec (seg_total s) PAGE_SIZE eq_refl ltac:(lia)).
  clear Hb Hbm. unfold PAGE_SIZE in *. divmod.
Qed.

Lemma build_args var dir lines :
  var "CARGO_MANIFEST_DIR"%string = Some dir -> build_main var = Ok lines ->
  link_args lines = ["-T" ++ dir ++ "/kernel.ld"; "-znorelro"]%string.
Proof. unfold build_main. intros ->. by intros [= <-]. Qed.

Lemma extents_hull gs dot :
  gs <> [] -> Forall group_ok gs -> Forall paged gs -> 0 <= dot -> dot mod PAGE_SIZE = 0 ->
  (exists e, (dot, e) ∈ extents kernel_ld dot gs) /\
  (exists s, (s, dot_after kernel_ld dot (concat gs)) ∈ extents kernel_ld dot gs).
Proof.
  intros Hne Hok Hp Hd Hm. split.
  - destruct gs as [|g gs]; [done|]. apply Forall_cons in Hp as [Hg _]. cbn [extents].
    rewrite (paged_start _ _ Hg), round_up_id by done. eexists. by left.
  - clear Hd Hm. revert dot. induction Hok as [|g gs Hg Hgs IH]; intros dot; [done|]. cbn [extents concat].
    rewrite dot_after_app. apply Forall_cons in Hp as [_ Hp].
    destruct gs as [|g' gs]; [eexists; by left|]. destruct (IH ltac:(done) Hp (dot_after kernel_ld dot g)) as [s Hs].
    exists s. by right.
Qed.

(** A written file whose groups all begin with a scripted section is what the
    loader asks for. *)
Lemma paged_loadable image entry gs (f : F) :
  image_ok image -> gs <> [] -> Forall group_ok gs -> Forall paged gs ->
  written image entry (extents kernel_ld (sc_start kernel_ld) gs) ->
  sc_start kernel_ld <= entry < dot_after kernel_ld (sc_start kernel_ld) (concat gs) ->
  image_end gs <= 2 ^ PHYS_BITS -> (forall x, sc_start kernel_ld <= x < image_end gs -> ~ granted f x) ->
  loadable image f.
Proof using.
  intros Him Hne Hok Hp (phoff & phnum & Hh & Hall & HF) He Hph Hfree. unfold image_end in *.
  destruct (header_bounds _ _ _ _ _ Him Hh) as (_ & _ & Hpo & Hpn).
  pose proof (segments_of_ok (Z.to_nat phnum) image phoff PHDR_SIZE 0 Him ltac:(lia) Hpo ltac:(done)) as Hseg.
  destruct (extents_hull gs (sc_start kernel_ld) Hne Hok Hp ltac:(done) eq_refl) as [[e0 Hfirst] [s0 Hlast]].
  exists entry, phoff, phnum. cbv zeta. split; [done|]. split; [done|].
  set (segs := segments_of _ _ _ _ _) in *.
  apply list_elem_of_lookup in Hfirst as [i Hi]. apply list_elem_of_lookup in Hlast as [j Hj].
  destruct (Forall2_lookup_r _ _ _ _ _ HF Hi) as (s & Hsi & [Hs _]).
  destruct (Forall2_lookup_r _ _ _ _ _ HF Hj) as (s' & Hsj & [_ Hs']). cbn [fst snd] in *.
  split; [intros E; by rewrite E in Hsi|]. split; [by eapply extents_apart|]. split.
  - apply Forall_forall. intros t Ht. pose proof (proj1 (Forall_forall _ _) Hseg t Ht) as Hto.
    apply list_elem_of_lookup in Ht as [n Hn]. destruct (Forall2_lookup_l _ _ _ _ _ HF Hn) as ([a e] & Hae & [Ha Hb]).
    cbn [fst snd] in *. apply list_elem_of_lookup_2, (extents_bounds _ _ _ _ Hok) in Hae.
    pose proof (round_up_spec (dot_after kernel_ld (sc_start kernel_ld) (concat gs)) PAGE_SIZE eq_refl) as [Hr Hrm].
    set (stop := round_up _ _) in *.
    destruct (seg_pages_within image t (sc_start kernel_ld) stop Hto ltac:(lia) ltac:(lia) eq_refl Hrm) as [Hlow Hhigh].
    split; [|lia]. intros x Hx. apply Hfree. destruct (seg_pages_start _ _ Hx) as [Hsp _].
    unfold seg_pages, range in Hx. specialize (Hhigh Hsp). lia.
  - split; apply Exists_exists; [exists s|exists s']; (split; [by eapply list_elem_of_lookup_2|]); cbv beta; [|rewrite Hs'; lia].
    pose proof (align_down_page _ (seg_vaddr_u64 _ _ (Forall_lookup_1 _ _ _ _ Hseg Hsi))). lia.
Qed.

(** And where it is loaded: from the script's start to the layout's end. *)
Lemma paged_span image entry gs (f : F) m k f' m' :
  image_ok image -> gs <> [] -> Forall group_ok gs -> Forall paged gs ->
  written image entry (extents kernel_ld (sc_start kernel_ld) gs) ->
  load_kernel image f m = Ok (k, f', m') ->
  lk_entry k = entry /\ lk_base k = sc_start kernel_ld /\ lk_base k + lk_size k = image_end gs.
Proof using.
  intros Him Hne Hok Hp (phoff & phnum & Hh & _ & HF) Hr.
  destruct (load_kernel_spec image f m Him) as [[e He]|(k1 & f1 & m1 & phoff1 & phnum1 & segs & acc & Hr1 & Hh1 &
    Hinv & _ & Hperm & _ & Hb & Hs)]; [congruence|].
  rewrite Hr in Hr1. injection Hr1 as <- <- <-. rewrite Hh in Hh1. injection Hh1 as -> <- <-.
  split; [done|]. rewrite Hs, Hb. unfold image_end.
  destruct (extents_hull gs (sc_start kernel_ld) Hne Hok Hp ltac:(done) eq_refl) as [[e0 Hfirst] [s0 Hlast]].
  assert (forall t, t ∈ segs -> in_u 64 (sg_vaddr t) /\ sc_start kernel_ld <= sg_vaddr t /\
    sg_vaddr t + sg_memsz t <= dot_after kernel_ld (sc_start kernel_ld) (concat gs)) as Hin.
  { intros t Ht. split; [eapply seg_vaddr_u64, (proj1 (Forall_forall _ _) (li_ok _ _ _ _ _ _ _ Hinv) t Ht)|].
    rewrite Hperm in Ht. apply list_elem_of_lookup in Ht as [n Hn].
    destruct (Forall2_lookup_l _ _ _ _ _ HF Hn) as ([a e] & Hae & [Ha Hbe]). cbn [fst snd] in *.
    apply list_elem_of_lookup_2, (extents_bounds _ _ _ _ Hok) in Hae. lia. }
  assert (forall a e, (a, e) ∈ extents kernel_ld (sc_start kernel_ld) gs -> exists t, t ∈ segs /\ sg_vaddr t = a /\
    sg_vaddr t + sg_memsz t = e) as Hex.
  { intros a e Hae. apply list_elem_of_lookup in Hae as [n Hn].
    destruct (Forall2_lookup_r _ _ _ _ _ HF Hn) as (t & Ht & Hx). exists t. split; [|exact Hx].
    rewrite Hperm. by eapply list_elem_of_lookup_2. }
  destruct (Hex _ _ Hfirst) as (t0 & Ht0 & Ha0 & _). destruct (Hex _ _ Hlast) as (t1 & Ht1 & _ & He1).
  split; [|f_equal].
  - rewrite (li_lowest _ _ _ _ _ _ _ Hinv). apply Z.le_antisymm.
    + etrans; [apply foldr_min_le, list_elem_of_fmap_2, Ht0|]. destruct (Hin t0 Ht0) as [Hu _].
      pose proof (align_down_page _ Hu). lia.
    + destruct (foldr_min_in (2 ^ 64 - 1) ((fun s => align_down (sg_vaddr s)) <$> segs))
        as [->|(t & -> & Ht)%list_elem_of_fmap]; [done|]. destruct (Hin t Ht) as (Hu & Hlo & _).
      rewrite (align_down_spec _ Hu). unfold PAGE_SIZE. cbn in Hlo |- *. divmod.
  - rewrite (li_highest _ _ _ _ _ _ _ Hinv). apply Z.le_antisymm.
    + apply foldr_max_le; [by apply dot_after_nonneg|]. apply Forall_fmap, Forall_forall. intros t Ht.
      by destruct (Hin t Ht) as (_ & _ & ?).
    + rewrite <- He1. apply foldr_max_ge. apply list_elem_of_fmap. by exists t1.
Qed.

(** C14: The kernel this build makes is one this bootloader loads. Take any
    linker that lays files out by the script it is given and whose [-znorelro]
    leaves no segment beginning with a section the script does not place. Run
    it with the arguments cargo takes from the build script's output. The file
    it writes is loaded, whatever the sizes of its sections, the other
    sections among them, and their grouping into segments, provided only that
    the pages from 2 MiB to the end of the image are free memory: the build
    script's flags and the linker script's alignments leave no two segments on
    one page. The loader reports [_start] as the entry point, 2 MiB as the
    base, and the whole image as the size. *)
Theorem built_kernel_loads var dir lines (o : O) (f : F) m :
  obliging (F := F) -> var "CARGO_MANIFEST_DIR"%string = Some dir -> build_main var = Ok lines ->
  let l := link (link_args lines) o in
  let stop := round_up (dot_after kernel_ld 0x200000 (concat (l_groups l))) PAGE_SIZE in
  stop <= 2 ^ PHYS_BITS -> (forall x, 0x200000 <= x < stop -> ~ granted f x) ->
  exists k f' m', load_kernel (l_image l) f m = Ok (k, f', m') /\
    lk_entry k = l_symbol l "_start" /\ lk_base k = 0x200000 /\ lk_base k + lk_size k = stop.
Proof.
  intros Hob Hv Hb l stop Hph Hfree. pose proof (build_args _ _ _ Hv Hb) as Hargs.
  destruct (link_ok (link_args lines) o) as [Him Hgs]. fold l in Him, Hgs.
  destruct (link_script (link_args lines) o dir) as [Hw (os & out & a & _ & _ & Hin & Hent)]; [rewrite Hargs; by left|].
  fold l in Hw, Hin, Hent.
  assert (Forall paged (l_groups l)) as Hp by (apply link_norelro; rewrite Hargs; right; by left).
  assert (Forall output_ok (concat (l_groups l))) as Hc by (apply Forall_concat; eapply Forall_impl; [exact Hgs|by intros ? []]).
  assert (l_groups l <> []) as Hne by (intros E; by rewrite E in Hin).
  destruct (placed_between _ _ _ _ Hc Hin).
  destruct (proj2 (load_kernel_loadable (l_image l) f m Hob Him)) as [[[k f'] m'] Hr].
  { by apply (paged_loadable _ (l_symbol l (sc_entry kernel_ld)) (l_groups l)); [..|lia| |]. }
  exists k, f', m'. split; [done|]. by apply (paged_span _ _ _ _ _ _ _ _ Him Hne Hgs Hp Hw Hr).
Qed.

(** C31: Why the build script passes [-znorelro]. Let some segment begin on
    the page its predecessor ends on, as a [.got] placed after [.rodata] and
    given a segment of its own does, both of them with contents. Then the
    loader refuses the file with [AllocationFailed], whatever the firmware. *)
Theorem shared_page_refused gs pre post a e a' e' image entry (f : F) m :
  image_ok image -> written image entry (extents kernel_ld (sc_start kernel_ld) gs) ->
  extents kernel_ld (sc_start kernel_ld) gs = pre ++ (a, e) :: (a', e') :: post ->
  a < e -> e <= a' -> a' < e' -> a' - a' mod PAGE_SIZE < e ->
  load_kernel image f m = Err AllocationFailed.
Proof using.
  intros Him (phoff & phnum & Hh & Hall & HF) Hext Hae Hle Hae' Hpage.
  apply (load_kernel_shared _ entry phoff phnum); [done..|]. intros Hap.
  destruct (header_bounds _ _ _ _ _ Him Hh) as (_ & _ & Hpo & _).
  pose proof (segments_of_ok (Z.to_nat phnum) image phoff PHDR_SIZE 0 Him ltac:(lia) Hpo ltac:(done)) as Hseg.
  rewrite Hext in HF. set (segs := segments_of _ _ _ _ _) in *.
  apply Forall2_app_inv_r in HF as (l1 & l2 & _ & HF & Hl). rewrite Hl in Hap, Hseg.
  apply Forall2_cons_inv_r in HF as (s & l3 & [Hs1 Hs2] & HF & ->).
  apply Forall2_cons_inv_r in HF as (s' & l4 & [Hs1' Hs2'] & _ & ->). cbn [fst snd] in *.
  apply Forall_app in Hseg as [_ Hseg]. apply Forall_cons in Hseg as [Hs Hseg]. apply Forall_cons in Hseg as [Hs' _].
  pose proof (align_down_page _ (seg_vaddr_u64 _ _ Hs')) as (_ & Hb & _).
  pose proof (align_down_spec _ (seg_vaddr_u64 _ _ Hs')) as Ha'. rewrite Hs1' in Ha', Hb.
  apply (adjacent_apart _ _ _ _ Hap (Z.max a (a' - a' mod PAGE_SIZE))).
  - apply (seg_used_in_pages image); [done|unfold range; lia].
  - pose proof (seg_used_in_pages image s' a' Hs' ltac:(unfold range; lia)) as Hu.
    unfold seg_pages, range in Hu |- *. rewrite Hs1', Ha' in Hu |- *. lia.
Qed.
End Build.

(** ** An instance: a linker for one set of objects *)

(** With [-znorelro], [.got] is in [.data]'s segment; without, in one of its
    own. *)
Definition demo_groups (norelro : bool) : list (list Output) :=
  let text := {| o_name := ".text"; o_align := 16; o_size := 24 |} in
  let rodata := {| o_name := ".rodata"; o_align := 8; o_size := 12 |} in
  let got := {| o_name := ".got"; o_align := 8; o_size := 8 |} in
  let data := {| o_name := ".data"; o_align := 8; o_size := 20 |} in
  let bss := {| o_name := ".bss"; o_align := 16; o_size := 40 |} in
  if norelro then [[text; rodata]; [data; got; bss]] else [[text; rodata]; [got]; [data; bss]].

(** A file with the given extents for segments, four bytes of each from the
    file. *)
Definition demo_image (layout : list (Z * Z)) : bytes :=
  demo_ehdr 0x200004 (Z.of_nat (length layout)) ++
  concat ((fun e => demo_phdr PT_LOAD 64 (fst e) 4 (snd e - fst e)) <$> layout).

Definition demo_link (args : list string) (_ : unit) : Linked :=
  let gs := demo_groups (existsb (String.eqb "-znorelro") args) in
  {| l_groups := gs; l_image := demo_image (extents kernel_ld (sc_start kernel_ld) gs); l_symbol := fun _ => 0x200004 |}.

Lemma demo_image_ok b : image_ok (demo_image (extents kernel_ld (sc_start kernel_ld) (demo_groups b))).
Proof. destruct b; (split; [apply is_bytes_ok; vm_compute; reflexivity|vm_compute; reflexivity]). Qed.

Lemma demo_written b :
  let layout := extents kernel_ld (sc_start kernel_ld) (demo_groups b) in written (demo_image layout) 0x200004 layout.
Proof.
  destruct b; [exists 64, 2|exists 64, 3]; (split; [vm_compute; reflexivity|split]).
  - intros j Hj. assert (j = 0 \/ j = 1) as [-> | ->] by lia; eexists; vm_compute; reflexivity.
  - match goal with |- Forall2 _ ?s _ => let v := eval vm_compute in s in change s with v end.
    repeat constructor.
  - intros j Hj. assert (j = 0 \/ j = 1 \/ j = 2) as [-> |[-> | ->]] by lia; eexists; vm_compute; reflexivity.
  - match goal with |- Forall2 _ ?s _ => let v := eval vm_compute in s in change s with v end.
    repeat constructor.
Qed.

#[export] Instance demo_Linker : Linker unit.
Proof.
  refine {| link := demo_link |}.
  - intros args []. unfold demo_link. cbn. split; [apply demo_image_ok|]. destruct (existsb _ args); repeat constructor; done.
  - intros args [] dir _ l. split; [apply demo_written|].
    exists {| os_name := ".text"; os_align := 4 * 2 ^ 10; os_inputs := [Name ".text"; Below ".text"] |},
      {| o_name := ".text"; o_align := 16; o_size := 24 |}, 0x200000.
    split; [reflexivity|]. split; [reflexivity|]. split; [|done].
    unfold l, demo_link, demo_groups. cbn [l_groups]. destruct (existsb _ args); left; reflexivity.
  - intros args [] Hin. unfold demo_link. cbn [l_groups].
    assert (existsb (String.eqb "-znorelro") args = true) as ->
      by (apply existsb_exists; exists "-znorelro"%string; split; [done|reflexivity]).
    repeat constructor; do 2 eexists; (split; [reflexivity|vm_compute; reflexivity]).
Defined.

Definition demo_var (n : string) : option string :=
  if String.eqb n "CARGO_MANIFEST_DIR" then Some "/src/kernel"%string else None.

Lemma built_kernel_loads_witness : exists k f' m',
  load_kernel (l_image (link ["-T/src/kernel/kernel.ld"; "-znorelro"]%string ())) demo_firmware ∅ = Ok (k, f', m') /\
  lk_entry k = 0x200004 /\ lk_base k = 0x200000 /\ lk_base k + lk_size k = 0x204000.
Proof.
  destruct (built_kernel_loads demo_var "/src/kernel" _ () demo_firmware ∅ simple_obliging eq_refl eq_refl)
    as (k & f' & m' & Hr & He & Hb & Hs); [vm_compute; discriminate|by intros x _ (g & [] & _)|].
  exists k, f', m'. split; [exact Hr|]. split; [exact He|]. split; [exact Hb|]. rewrite Hs. vm_compute. reflexivity.
Defined.

(** The same objects linked without the flag are refused. *)
Lemma shared_page_refused_witness :
  load_kernel (l_image (link ["-T/src/kernel/kernel.ld"]%string ())) demo_firmware ∅ = Err AllocationFailed.
Proof.
  apply (shared_page_refused (demo_groups false) [] [(0x202000, 0x203028)] 0x200000 0x20100c 0x201010 0x201018 _ 0x200004);
    [exact (demo_image_ok false)|exact (demo_written false)|reflexivity|lia|lia|lia|reflexivity].
Defined.
