(* ===== verification/File.v ===== *)
(** Reading a whole file from the EFI system partition
    ([bootloader/src/file.rs]). The firmware's file protocol is an interface:
    an open file is a position in fixed contents, and a read returns some of
    the bytes that follow, none only at the end. *)
From S2P Require Import Prelude Memory Uefi Elf.

(** ** Status codes the bootloader produces itself *)

Definition error_status (code : Z) : Z := 2 ^ 63 + code.
Definition INVALID_PARAMETER : Z := error_status 2.
Definition UNSUPPORTED : Z := error_status 3.
Definition END_OF_FILE : Z := error_status 31.

(** [r.map_err(|e| e.status())?] on a firmware call's result. *)
Definition status_or {A} (r : A + Z) : outcome Z A :=
  match r with inl a => Ok a | inr st => Err st end.

(** ** The file protocol *)

Class FileProtocol (H : Type) := {
  file_read : Z -> H -> H * (bytes + Z);
  contents : H -> bytes;
  position : H -> nat;
  file_read_ok max h h' d : 0 < max -> file_read max h = (h', inl d) ->
    contents h' = contents h /\ position h' = (position h + length d)%nat /\ len d <= max /\
    (exists rest, drop (position h) (contents h) = d ++ rest) /\
    (d = [] -> drop (position h) (contents h) = []);
}.

(** What [open] may hand back. *)
Inductive handle (H : Type) :=
| Regular (h : H)
| Directory.
Arguments Regular {H} h.
Arguments Directory {H}.

Section Read.
Context {H : Type} `{FileProtocol H} {F : Type} `{Firmware F}.

(** [buffer[offset..]] receiving the bytes read. *)
Definition write_at (buffer : bytes) (offset : Z) (d : bytes) : bytes :=
  take (Z.to_nat offset) buffer ++ d ++ drop (Z.to_nat offset + length d) buffer.

Fixpoint read_loop (fuel : nat) (size filled : Z) (buffer : bytes) (h : H) : outcome Z bytes :=
  if filled <? size then
    match file_read (size - filled) h with
    | (_, inr st) => Err st
    | (h, inl d) =>
        let read := len d in
        if read =? 0 then Err END_OF_FILE else
        filled' ← add_u 64 filled read;
        match fuel with
        | O => Loop
        | S fuel => read_loop fuel size filled' (write_at buffer filled d) h
        end
    end
  else Ok buffer.

(** [vec![0u8; size]]: a capacity above [isize::MAX] panics, and so does a
    buffer the global allocator does not get; an empty one asks for nothing. *)
Definition vec_zeroed {E} (size : Z) (f : F) : outcome E bytes :=
  if 2 ^ 63 <=? size then Panic else
  if (size =? 0) || allocate_pool size f then Ok (replicate (Z.to_nat size) 0) else Panic.

(** [read_file], given what the volume, the lookup and the metadata query
    answered. *)
Definition read_file (file_system open_volume : unit + Z) (open : handle H + Z)
    (file_size : H -> Z + Z) (f : F) : outcome Z bytes :=
  _ ← status_or file_system;
  _ ← status_or open_volume;
  hd ← status_or open;
  match hd with
  | Directory => Err INVALID_PARAMETER
  | Regular file =>
      size ← status_or (file_size file);
      buffer ← vec_zeroed size f;
      read_loop (Z.to_nat size) size 0 buffer file
  end.

(** ** The loop *)

(** [c] is what the file still holds past the bytes already read. *)
Lemma read_loop_spec fuel size filled buffer h :
  0 <= filled <= size -> size < 2 ^ 64 -> len buffer = size -> size - filled <= Z.of_nat fuel ->
  let c := drop (position h) (contents h) in
  match read_loop fuel size filled buffer h with
  | Ok b => len c >= size - filled /\
      b = take (Z.to_nat filled) buffer ++ take (Z.to_nat (size - filled)) c
  | Err st => (st = END_OF_FILE /\ len c < size - filled) \/
      (exists max h' h'', file_read max h' = (h'', inr st))
  | _ => False
  end.
Proof.
  revert filled buffer h. induction fuel as [|fuel IH]; intros filled buffer h Hf Hs Hb Hfu c;
    cbn [read_loop]; unfold len in *; (destruct (Z.ltb_spec filled size);
    [|split; [lia|]; replace (size - filled) with 0 by lia; rewrite take_ge by lia;
      by rewrite app_nil_r]); [lia|].
  destruct (file_read (size - filled) h) as [h' [d|st]] eqn:Er; [|right; eauto].
  apply file_read_ok in Er as (Hc & Hp & Hmax & (rest & Hrest) & Hnil); [|lia].
  unfold len in Hmax. destruct (Z.eqb_spec (Z.of_nat (length d)) 0) as [Hz|Hnz].
  - left. split; [done|]. fold c in Hnil. rewrite Hnil; [simpl; lia|].
    apply length_zero_iff_nil. lia.
  - rewrite add_u_ok, bind_Ok by lia.
    assert (length (write_at buffer filled d) = length buffer) as Hlw.
    { unfold write_at. rewrite !length_app, length_take, length_drop. lia. }
    assert (drop (position h') (contents h') = rest) as Hrest'.
    { rewrite Hc, Hp, <- drop_drop, Hrest. by rewrite drop_app_length. }
    specialize (IH (filled + Z.of_nat (length d)) (write_at buffer filled d) h').
    unfold len in IH. rewrite Hlw in IH. specialize (IH ltac:(lia) Hs Hb ltac:(lia)).
    cbv zeta in IH. rewrite Hrest' in IH. fold c in Hrest.
    destruct (read_loop fuel size _ _ h') as [b|st| |]; [|destruct IH as [[-> Hl]|IH]; [left|by right]|done..].
    + destruct IH as [Hl ->]. rewrite Hrest, length_app. split; [lia|].
      unfold write_at. rewrite take_app, length_take, take_take.
      replace (Z.to_nat (filled + Z.of_nat (length d)) `min` Z.to_nat filled)%nat with (Z.to_nat filled) by lia.
      rewrite <- app_assoc. f_equal.
      replace (Z.to_nat (filled + Z.of_nat (length d)) - Z.to_nat filled `min` length buffer)%nat
        with (length d) by lia.
      rewrite take_app_length.
      rewrite take_app. f_equal; [by rewrite take_ge by lia|]. f_equal. lia.
    + rewrite Hrest, length_app. split; [done|]. lia.
Qed.
End Read.

(** A buffer of [size] bytes can be had. *)
Definition served {F} `{Firmware F} (f : F) (size : Z) : Prop :=
  size < 2 ^ 63 /\ (size = 0 \/ allocate_pool size f = true).

Lemma vec_zeroed_served {F} `{Firmware F} {E} (f : F) size :
  (served f size /\ vec_zeroed (E := E) size f = Ok (replicate (Z.to_nat size) 0)) \/
  (~ served f size /\ vec_zeroed (E := E) size f = Panic).
Proof.
  unfold vec_zeroed, served. destruct (Z.leb_spec (2 ^ 63) size); [right; split; [lia|done]|].
  destruct (Z.eqb_spec size 0); simpl orb; cbv iota; [left; split; [lia|done]|].
  destruct (allocate_pool size f); [left; by split; [split; [|right]|]|right; split; [naive_solver|done]].
Qed.

(** What a result of [read_file] means. *)
Definition read_file_post {H} `{FileProtocol H} {F} `{Firmware F} (fsr vol : unit + Z) (open : handle H + Z)
    (file_size : H -> Z + Z) (f : F) (r : outcome Z bytes) : Prop :=
  match r with
  | Ok b => exists h size, open = inl (Regular h) /\ file_size h = inl size /\ served f size /\
      size <= len (contents h) /\ b = take (Z.to_nat size) (contents h)
  | Err st =>
      (exists h size, open = inl (Regular h) /\ file_size h = inl size /\ served f size /\ st = END_OF_FILE /\
         len (contents h) < size) \/
      (open = inl Directory /\ st = INVALID_PARAMETER) \/
      fsr = inr st \/ vol = inr st \/ open = inr st \/
      (exists h, file_size h = inr st) \/
      (exists max h h', file_read max h = (h', inr st))
  | Panic => exists h size, open = inl (Regular h) /\ file_size h = inl size /\ ~ served f size
  | Loop => False
  end.

(** The metadata of an open file: read from its start, and a 64-bit size. *)
Definition metadata_ok {H} `{FileProtocol H} (open : handle H + Z) (file_size : H -> Z + Z) : Prop :=
  forall h, open = inl (Regular h) -> position h = 0%nat /\
    forall size, file_size h = inl size -> in_u 64 size.

Lemma read_file_spec {H} `{FileProtocol H} {F} `{Firmware F} fsr vol open file_size (f : F) :
  metadata_ok open file_size ->
  read_file_post fsr vol open file_size f (read_file fsr vol open file_size f).
Proof.
  intros Hopen. unfold read_file_post, read_file. destruct fsr as [[]|st]; simpl; [|by auto].
  destruct vol as [[]|st]; simpl; [|by auto]. destruct open as [[h|]|st]; simpl; [|by auto|by auto 10].
  destruct (Hopen h eq_refl) as [Hpos Hsz].
  destruct (file_size h) as [size|st] eqn:Es; simpl; [|by eauto 10].
  specialize (Hsz size eq_refl). unfold in_u in Hsz.
  destruct (vec_zeroed_served (E := Z) f size) as [[Hs ->]|[Hs ->]]; [|by exists h, size]. rewrite bind_Ok.
  pose proof (read_loop_spec (Z.to_nat size) size 0 (replicate (Z.to_nat size) 0) h) as Hl.
  unfold len in Hl. rewrite length_replicate, Z.sub_0_r, Hpos, drop_0 in Hl.
  specialize (Hl ltac:(lia) ltac:(lia) ltac:(lia) ltac:(lia)). cbv zeta in Hl.
  destruct (read_loop _ size 0 _ h) as [b|st| |]; try done.
  - destruct Hl as [Hge ->]. exists h, size. unfold len. split; [done|]. split; [done|]. split; [done|]. split; [lia|done].
  - destruct Hl as [[-> Hlt]|Hl]; [left; exists h, size; by unfold len|by auto 10].
Qed.

(** ** Properties *)

(** C38: reading a file answers within one read per byte whatever sizes the
    firmware's reads come in. A success is exactly the first [size] bytes of
    the file; a file shorter than its own metadata says gives [END_OF_FILE],
    never a short buffer; a directory gives [INVALID_PARAMETER]; any other
    error is one a firmware call returned. The one thing that is no answer is
    the buffer: it is asked for whole before the first read, and when it cannot
    be had, for a size no [Vec] has or one the firmware does not serve, the
    function panics. *)
Theorem read_file_exact {H} `{FileProtocol H} {F} `{Firmware F} fsr vol open file_size (f : F) :
  metadata_ok open file_size ->
  match read_file fsr vol open file_size f with
  | Ok b => exists h size, open = inl (Regular h) /\ file_size h = inl size /\ served f size /\
      size <= len (contents h) /\ b = take (Z.to_nat size) (contents h)
  | Err st =>
      (exists h size, open = inl (Regular h) /\ file_size h = inl size /\ served f size /\ st = END_OF_FILE /\
         len (contents h) < size) \/
      (open = inl Directory /\ st = INVALID_PARAMETER) \/
      fsr = inr st \/ vol = inr st \/ open = inr st \/
      (exists h, file_size h = inr st) \/
      (exists max h h', file_read max h = (h', inr st))
  | Panic => exists h size, open = inl (Regular h) /\ file_size h = inl size /\ ~ served f size
  | Loop => False
  end.
Proof. exact (read_file_spec fsr vol open file_size f). Qed.

(** ** An instance: a file read a few bytes at a time *)

Record chunked := Chunked { ch_bytes : bytes; ch_pos : nat; ch_step : nat }.

Definition chunked_read (max : Z) (h : chunked) : chunked * (bytes + Z) :=
  let d := take (Z.to_nat max `min` S (ch_step h)) (drop (ch_pos h) (ch_bytes h)) in
  (Chunked (ch_bytes h) (ch_pos h + length d) (ch_step h), inl d).

#[export] Instance chunked_FileProtocol : FileProtocol chunked.
Proof.
  refine {| file_read := chunked_read; contents := ch_bytes; position := ch_pos |}.
  intros max h h' d Hmax. unfold chunked_read. intros [= <- <-]. simpl.
  split; [done|]. split; [done|]. split.
  - unfold len. rewrite length_take. lia.
  - split; [eexists; symmetry; apply take_drop|]. intros Hd.
    apply (f_equal length) in Hd. rewrite length_take in Hd. simpl in Hd.
    apply length_zero_iff_nil. lia.
Defined.

Definition demo_file : chunked := Chunked [1; 2; 3; 4; 5] 0 1.

Lemma read_file_exact_witness : exists b,
  read_file (inl tt) (inl tt) (inl (Regular demo_file)) (fun _ => inl 5) demo_firmware = Ok b /\ len b = 5.
Proof.
  assert (metadata_ok (inl (Regular demo_file)) (fun _ => inl 5)) as Hopen.
  { intros h [= <-]. split; [reflexivity|]. by intros size [= <-]. }
  pose proof (read_file_exact (inl tt) (inl tt) (inl (Regular demo_file)) (fun _ => inl 5) demo_firmware Hopen) as Hr.
  destruct (read_file _ _ _ _ _) as [b|st| |] eqn:E; [|vm_compute in E; discriminate E..].
  exists b. split; [reflexivity|]. destruct Hr as (h & size & [= <-] & [= <-] & _ & _ & ->). reflexivity.
Defined.

(** A size the firmware does not serve. *)
Example read_file_panics :
  read_file (inl tt) (inl tt) (inl (Regular demo_file)) (fun _ => inl (2 ^ 40)) demo_firmware = Panic.
Proof. vm_compute. reflexivity. Qed.
