(* ===== verification/QemuExit.v ===== *)
(** The [isa-debug-exit] contract, the same in both binaries
    ([bootloader/src/qemu_exit.rs], [kernel/src/qemu_exit.rs]): the code a
    binary writes to the port and what QEMU's process exits with. *)
From S2P Require Import Prelude.

Definition ISA_DEBUG_EXIT_PORT : Z := 0xf4.

Inductive QemuExitCode := Success | Failed.

#[export] Instance QemuExitCode_eq_dec : EqDecision QemuExitCode.
Proof. solve_decision. Defined.

(** [code as u32]. *)
Definition QemuExitCode_as_u32 (c : QemuExitCode) : Z :=
  match c with Success => 0x10 | Failed => 0x11 end.

(** What the device does with a written value. *)
Definition process_exit_code (value : Z) : Z := Z.lor (Z.shiftl value 1) 1.
