(* ===== verification/Handoff.v ===== *)
(** The bootloader between loading the kernel and entering it: the framebuffer
    query ([graphics.rs]), the memory-region array ([memory.rs]), the kernel
    stack, [ExitBootServices], the copied memory map and the jump
    ([handoff.rs]). *)
From S2P Require Import Prelude Memory Layout BootInfo Uefi Elf File.

(** ** [graphics.rs] *)

(** The firmware's pixel formats. *)
Inductive PixelFormat := PixelFormat_Rgb | PixelFormat_Bgr | PixelFormat_Bitmask | PixelFormat_BltOnly.

(** What the Graphics Output Protocol reports of the current mode. *)
Record GraphicsOutput := {
  gop_width : Z;
  gop_height : Z;
  gop_stride : Z;
  gop_pixel_format : PixelFormat;
  gop_fb_addr : Z;
  gop_fb_size : Z;
}.

Definition open_framebuffer (get_handle : unit + Z) (open_protocol : GraphicsOutput + Z)
    : outcome Z FrameBufferInfo :=
  _ ← status_or get_handle;
  gop ← status_or open_protocol;
  pixel_format ← match gop_pixel_format gop with
                 | PixelFormat_Rgb => Ok Rgb
                 | PixelFormat_Bgr => Ok Bgr
                 | PixelFormat_Bitmask | PixelFormat_BltOnly => Err UNSUPPORTED
                 end;
  Ok (FrameBufferInfo_new (gop_fb_addr gop) (gop_fb_size gop) (as_u 32 (gop_width gop))
        (as_u 32 (gop_height gop)) (as_u 32 (gop_stride gop)) 4 pixel_format).

(** ** [memory.rs] *)

Definition REGION_CAPACITY : Z := 256.

Section Boot.
Context {F : Type} `{Firmware F}.

Definition allocate_region_array (capacity : Z) (f : F) : outcome Z (F * (Z * Z)) :=
  let entry_size := size_of_MemoryRegion in
  bytes ← mul_u 64 capacity entry_size;
  let pages := div_ceil bytes PAGE_SIZE in
  '(f, ptr) ← allocate_or id AnyPages pages f;
  total ← mul_u 64 pages PAGE_SIZE;
  Ok (f, (ptr, total / entry_size)).

(** ** [handoff.rs] *)

Definition KERNEL_STACK_PAGES : Z := 16.

Definition allocate_kernel_stack (f : F) : outcome Z (F * Z) :=
  '(f, bottom) ← allocate_or id AnyPages KERNEL_STACK_PAGES f;
  size ← mul_u 64 KERNEL_STACK_PAGES PAGE_SIZE;
  top ← add_u 64 bottom size;
  rsp ← sub_u (Z.land top (not_u 64 0xf)) 8;
  Ok (f, rsp).
End Boot.

(** A descriptor of the final memory map. *)
Record Descriptor := { d_phys_start : Z; d_page_count : Z; d_ty : Z }.

Definition region_of (d : Descriptor) : MemoryRegion :=
  MemoryRegion_new (d_phys_start d) (d_page_count d) (d_ty d).

(** [boot::exit_boot_services]: the final map. Memory granted to the loader
    keeps its contents and is not reported as conventional. [None]: the call
    does not return; the [uefi] crate resets the machine when the firmware
    refuses twice, and panics when it has no memory for the map. *)
Class ExitServices (F : Type) `{Firmware F} := {
  exit_boot_services : F -> mem -> option (list Descriptor * mem);
  exit_keeps f m ds m' : exit_boot_services f m = Some (ds, m') -> mem_agree (granted f) m m';
  exit_typed f m ds m' : exit_boot_services f m = Some (ds, m') ->
    Forall (fun d => MemoryRegion_ok (region_of d)) ds;
  exit_reserves f m ds m' d x : exit_boot_services f m = Some (ds, m') -> d ∈ ds -> d_ty d = CONVENTIONAL ->
    range (d_phys_start d) (d_page_count d * PAGE_SIZE) x -> ~ granted f x;
}.

(** The loop over [memory_map.entries()]. *)
Fixpoint copy_regions (descriptors : list Descriptor) (regions_ptr regions_capacity count : Z) (m : mem)
    : res (mem * Z) :=
  match descriptors with
  | [] => Ok (m, count)
  | descriptor :: rest =>
      if regions_capacity <=? count then Ok (m, count) else
      let m := write_MemoryRegion m (regions_ptr + count * size_of_MemoryRegion) (region_of descriptor) in
      count ← add_u 64 count 1;
      copy_regions rest regions_ptr regions_capacity count m
  end.

(** The processor as the [asm!] block leaves it. *)
Record cpu := Cpu { c_if : bool; c_rsp : Z; c_rbp : Z; c_rdi : Z; c_rip : Z }.

Definition exit_and_jump {F} `{ExitServices F} (boot_info_ptr regions_ptr regions_capacity entry stack_top : Z)
    (f : F) (m : mem) : res (option (cpu * mem)) :=
  match exit_boot_services f m with
  | None => Ok None
  | Some (memory_map, m) =>
      '(m, count) ← copy_regions memory_map regions_ptr regions_capacity 0 m;
      let m := store 8 m (boot_info_ptr + offset BootInfo_fields 5) count in
      Ok (Some (Cpu false stack_top 0 boot_info_ptr entry, m))
  end.

(** ** Specifications *)

(** The copied entries: as many as fit, in order, nothing else written. *)
Lemma copy_regions_spec ds ptr capacity count m :
  Forall (fun d => MemoryRegion_ok (region_of d)) ds -> 0 <= count <= capacity -> capacity < 2 ^ 64 ->
  exists m' n, copy_regions ds ptr capacity count m = Ok (m', count + Z.of_nat n) /\
    n = Nat.min (length ds) (Z.to_nat (capacity - count)) /\
    (forall i d, (i < n)%nat -> ds !! i = Some d ->
       read_MemoryRegion m' (region_slot (ptr + count * size_of_MemoryRegion) i) = region_of d) /\
    mem_agree (fun x => ~ range (ptr + count * size_of_MemoryRegion) (Z.of_nat n * size_of_MemoryRegion) x) m m'.
Proof.
  intros Hds. revert count m. induction Hds as [|d ds Hd _ IH]; intros count m Hc Hcap; cbn [copy_regions].
  - exists m, 0%nat. split; [by rewrite Z.add_0_r|]. split; [done|]. split; [lia|done].
  - case_cmp.
    + exists m, 0%nat. split; [by rewrite Z.add_0_r|]. split; [cbn [length]; lia|]. split; [lia|done].
    + rewrite add_u_ok, bind_Ok by lia.
      destruct (IH (count + 1) (write_MemoryRegion m (ptr + count * size_of_MemoryRegion) (region_of d))
        ltac:(lia) Hcap) as (m' & n & -> & Hn & Hrd & Hag).
      assert (size_of_MemoryRegion = 24) as Hsz by reflexivity.
      exists m', (S n). split; [by replace (count + Z.of_nat (S n)) with (count + 1 + Z.of_nat n) by lia|]. split; [cbn [length]; lia|]. split.
      * intros [|i] d' Hi Hl; simpl in Hl.
        -- injection Hl as <-. rewrite <- (read_MemoryRegion_agree (write_MemoryRegion m
             (ptr + count * size_of_MemoryRegion) (region_of d))).
           ++ unfold region_slot. rewrite Z.mul_0_l, Z.add_0_r. by apply read_write_MemoryRegion.
           ++ eapply mem_agree_mono; [|exact Hag]. intros x. unfold range, region_slot. lia.
        -- rewrite <- (Hrd i d') by (done || lia). f_equal. unfold region_slot. lia.
      * etrans; [eapply mem_agree_mono; [|apply write_MemoryRegion_agree]|
                 eapply mem_agree_mono; [|exact Hag]]; intros x; unfold range; lia.
Qed.

(** The kernel reads back the array it was given. *)
Lemma copy_regions_read ds ptr capacity m :
  Forall (fun d => MemoryRegion_ok (region_of d)) ds -> 0 <= capacity < 2 ^ 64 ->
  exists m' n, copy_regions ds ptr capacity 0 m = Ok (m', Z.of_nat n) /\
    n = Nat.min (length ds) (Z.to_nat capacity) /\
    read_regions m' ptr n = region_of <$> take n ds /\
    mem_agree (fun x => ~ range ptr (Z.of_nat n * size_of_MemoryRegion) x) m m'.
Proof.
  intros Hds Hcap. destruct (copy_regions_spec ds ptr capacity 0 m Hds ltac:(lia) ltac:(lia))
    as (m' & n & Hr & Hn & Hrd & Hag).
  rewrite Z.mul_0_l, Z.add_0_r in *. rewrite Z.sub_0_r in Hn.
  exists m', n. split; [done|]. split; [done|]. split; [|done].
  apply list_eq. intros i. unfold read_regions. rewrite !list_lookup_fmap.
  destruct (decide (i < n)%nat).
  - rewrite lookup_seq_lt by lia. rewrite lookup_take_lt by lia.
    destruct (lookup_lt_is_Some_2 ds i ltac:(lia)) as [d Hd]. rewrite Hd. simpl.
    f_equal. by apply Hrd.
  - rewrite lookup_seq_ge by lia. rewrite lookup_take_ge by lia. done.
Qed.

Section BootSpec.
Context {F : Type} `{Firmware F}.

Lemma allocate_or_spec (ty : AllocateType) pages f :
  0 <= pages ->
  (exists st, allocate_or (E := Z) id ty pages f = Err st) \/
  exists f' a, allocate_or (E := Z) id ty pages f = Ok (f', a) /\
    a mod PAGE_SIZE = 0 /\ 0 <= a /\ a + pages * PAGE_SIZE <= 2 ^ PHYS_BITS /\ (ty = AnyPages -> a <> 0) /\
    (forall x, range a (pages * PAGE_SIZE) x -> ~ granted f x) /\
    (forall x, granted f' x <-> granted f x \/ range a (pages * PAGE_SIZE) x).
Proof.
  intros Hp. unfold allocate_or. destruct (allocate_pages ty LOADER_DATA pages f) as [f' [a|st]] eqn:E.
  - right. exists f', a. apply allocate_ok in E as (H1 & H2 & H3 & H4 & _ & H5 & H6 & H7); [|done].
    by repeat (split; [done|]).
  - left. by exists st.
Qed.

(** The array has room for the capacity it reports, all of it granted. *)
Lemma allocate_region_array_spec f :
  (exists st, allocate_region_array REGION_CAPACITY f = Err st) \/
  exists f' ptr, allocate_region_array REGION_CAPACITY f = Ok (f', (ptr, 341)) /\
    ptr <> 0 /\ 0 <= ptr /\ ptr + 8192 <= 2 ^ PHYS_BITS /\
    (forall x, range ptr 8192 x -> ~ granted f x) /\
    (forall x, granted f' x <-> granted f x \/ range ptr 8192 x).
Proof.
  unfold allocate_region_array.
  change (mul_u 64 REGION_CAPACITY size_of_MemoryRegion) with (Ok (E := Z) 6144). rewrite bind_Ok.
  change (div_ceil 6144 PAGE_SIZE) with 2.
  destruct (allocate_or_spec AnyPages 2 f ltac:(lia)) as [[st ->]|(f' & a & -> & _ & Ha & Hb & Hc & Hd & He)];
    [left; by eexists|]. rewrite bind_Ok. right. exists f', a. split; [reflexivity|].
  split; [by apply Hc|]. by repeat (split; [done|]).
Qed.

(** The stack pointer is 8 below the 16-byte aligned top of fresh pages. *)
Lemma allocate_kernel_stack_spec f :
  (exists st, allocate_kernel_stack f = Err st) \/
  exists f' bottom, allocate_kernel_stack f = Ok (f', bottom + 65536 - 8) /\
    bottom mod PAGE_SIZE = 0 /\ 0 <= bottom /\ bottom + 65536 <= 2 ^ PHYS_BITS /\
    (forall x, range bottom 65536 x -> ~ granted f x) /\
    (forall x, granted f' x <-> granted f x \/ range bottom 65536 x).
Proof.
  unfold allocate_kernel_stack.
  destruct (allocate_or_spec AnyPages KERNEL_STACK_PAGES f ltac:(done))
    as [[st ->]|(f' & a & -> & Hm & Ha & Hb & _ & Hd & He)]; [left; by eexists|].
  rewrite bind_Ok. change (KERNEL_STACK_PAGES * PAGE_SIZE) with 65536 in *.
  change (mul_u 64 KERNEL_STACK_PAGES PAGE_SIZE) with (Ok (E := Z) 65536). rewrite bind_Ok.
  unfold PHYS_BITS in Hb. rewrite add_u_ok, bind_Ok by lia.
  change (not_u 64 0xf) with (not_u 64 (2 ^ 4 - 1)).
  rewrite land_not_ones by (unfold in_u; lia).
  assert ((a + 65536) mod 2 ^ 4 = 0) as Hz by (unfold PAGE_SIZE in Hm; divmod).
  rewrite Hz, sub_u_ok, bind_Ok by lia. right. exists f', a. rewrite Z.sub_0_r.
  split; [done|]. by repeat (split; [done|]).
Qed.
End BootSpec.

(** Overwriting the length leaves the other fields. *)
Definition set_regions_len (b : BootInfo) (n : Z) : BootInfo :=
  {| bi_magic := bi_magic b; bi_version := bi_version b; bi_pad := bi_pad b;
     bi_framebuffer := bi_framebuffer b; bi_memory_regions_ptr := bi_memory_regions_ptr b;
     bi_memory_regions_len := n; bi_kernel_base := bi_kernel_base b;
     bi_kernel_size := bi_kernel_size b |}.

Lemma read_BootInfo_store_len m a n :
  in_u 64 n ->
  read_BootInfo (store 8 m (a + offset BootInfo_fields 5) n) a = set_regions_len (read_BootInfo m a) n.
Proof.
  intros Hn. unfold read_BootInfo, read_FrameBufferInfo, set_regions_len; simpl. f_equal.
  - apply load_store_ne. vm_compute offset. lia.
  - apply load_store_ne. vm_compute offset. lia.
  - apply load_store_ne. vm_compute offset. lia.
  - f_equal; apply load_store_ne; vm_compute offset; lia.
  - apply load_store_ne. vm_compute offset. lia.
  - by apply load_store_u64.
  - apply load_store_ne. vm_compute offset. lia.
  - apply load_store_ne. vm_compute offset. lia.
Qed.

Lemma read_regions_agree m m' ptr n :
  mem_agree (range ptr (Z.of_nat n * size_of_MemoryRegion)) m m' ->
  read_regions m ptr n = read_regions m' ptr n.
Proof.
  intros Hag. unfold read_regions. apply list_fmap_ext. intros i j Hi.
  apply lookup_seq in Hi as [-> Hi]. apply read_MemoryRegion_agree.
  eapply mem_agree_mono; [|exact Hag]. intros x. unfold range, region_slot.
  change size_of_MemoryRegion with 24. lia.
Qed.

(** ** The whole exit *)

Section ExitSpec.
Context {F : Type} `{ExitServices F}.

(** A handoff struct and an array of granted memory, apart, come out of
    [exit_and_jump] as the kernel is to read them. *)
Lemma exit_and_jump_spec bip ptr cap entry sp f m b ds m1 :
  exit_boot_services f m = Some (ds, m1) -> 0 <= cap < 2 ^ 63 -> read_BootInfo m bip = b -> bi_memory_regions_ptr b = ptr ->
  (forall x, range bip size_of_BootInfo x -> granted f x) ->
  (forall x, range ptr (cap * size_of_MemoryRegion) x -> granted f x) ->
  (forall x, range bip size_of_BootInfo x -> ~ range ptr (cap * size_of_MemoryRegion) x) ->
  exists m' n, exit_and_jump bip ptr cap entry sp f m = Ok (Some (Cpu false sp 0 bip entry, m')) /\
    n = Nat.min (length ds) (Z.to_nat cap) /\
    read_BootInfo m' bip = set_regions_len b (Z.of_nat n) /\
    memory_regions m' (read_BootInfo m' bip) = region_of <$> take n ds /\
    (forall x, granted f x -> ~ range bip size_of_BootInfo x ->
       ~ range ptr (cap * size_of_MemoryRegion) x -> peek m' x = peek m x).
Proof.
  intros Ex Hcap Hb Hptr Hgb Hgr Hapart. unfold exit_and_jump.
  pose proof (exit_keeps f m ds m1 Ex) as Hk. pose proof (exit_typed f m ds m1 Ex) as Hty. rewrite Ex.
  destruct (copy_regions_read ds ptr cap m1 Hty ltac:(lia)) as (m2 & n & -> & Hn & Hrd & Hag).
  rewrite bind_Ok. assert (size_of_MemoryRegion = 24) as H24 by reflexivity.
  assert (size_of_BootInfo = 88) as H88 by reflexivity.
  assert (Z.of_nat n <= cap) as Hncap by lia.
  set (m3 := store 8 m2 (bip + offset BootInfo_fields 5) (Z.of_nat n)).
  assert (mem_agree (fun x => ~ range bip size_of_BootInfo x) m2 m3) as Hag3.
  { apply mem_agree_store. intros x Hx Hr. apply Hx. unfold range in *. revert Hr. vm_compute offset. lia. }
  assert (read_BootInfo m2 bip = b) as Hb2.
  { rewrite <- Hb. apply read_BootInfo_agree. intros x Hx. rewrite (Hk x (Hgb x Hx)). symmetry.
    apply Hag. intros Hr. apply (Hapart x Hx). unfold range in *. lia. }
  exists m3, n. split; [done|]. split; [done|].
  assert (read_BootInfo m3 bip = set_regions_len b (Z.of_nat n)) as Hb3.
  { unfold m3. rewrite read_BootInfo_store_len by (unfold in_u; lia). by rewrite Hb2. }
  split; [done|]. split.
  - rewrite Hb3. unfold memory_regions. simpl. rewrite Nat2Z.id, Hptr, <- Hrd.
    symmetry. apply read_regions_agree. eapply mem_agree_mono; [|exact Hag3].
    intros x Hx Hr. apply (Hapart x Hr). unfold range in *. lia.
  - intros x Hg Hnb Hnr. rewrite <- (Hag3 x Hnb), <- (Hag x); [symmetry; by apply Hk|].
    intros Hr. apply Hnr. unfold range in *. lia.
Qed.
End ExitSpec.

(** ** The framebuffer *)

(** What the protocol reports is typed. *)
Definition gop_ok (gop : GraphicsOutput) : Prop :=
  in_u 64 (gop_fb_addr gop) /\ in_u 64 (gop_fb_size gop).

Lemma open_framebuffer_ok gh op fb :
  (forall gop, op = inl gop -> gop_ok gop) -> open_framebuffer gh op = Ok fb ->
  FrameBufferInfo_ok fb /\ is_Some (pixel_format fb).
Proof.
  intros Hop. unfold open_framebuffer. destruct gh as [[]|]; [|done]. destruct op as [gop|]; [|done].
  destruct (Hop gop eq_refl) as [Ha Hs].
  simpl. destruct (gop_pixel_format gop) eqn:Ef; simpl; try done; intros [= <-];
    (split; [unfold FrameBufferInfo_ok; simpl; repeat split; try apply Ha; try apply Hs;
             try (apply as_u_in_u; lia); try (unfold in_u; lia)|by eexists]);
    unfold as_u; try (apply Z.mod_pos_bound; lia).
Qed.

Lemma open_framebuffer_answers gh op : answers (open_framebuffer gh op).
Proof.
  unfold open_framebuffer. destruct gh as [[]|]; [|done]. destruct op as [gop|]; [|done].
  simpl. by destruct (gop_pixel_format gop).
Qed.
