(* ===== verification/Bootloader.v ===== *)
(** The bootloader from its entry point to the jump
    ([bootloader/src/main.rs]). *)
From S2P Require Import Prelude Memory Layout BootInfo Uefi Elf File Handoff QemuExit.

(** How a run ends: through [qemu_exit::exit], in the kernel, or in a call of
    the [uefi] crate that does not return but resets the machine (or else in a
    panic, an [outcome] of its own). *)
Inductive boot_end :=
| Exited (code : QemuExitCode)
| Reset_in_exit
| Jumped (c : cpu) (m : mem).

(** [match r { Ok(v) => v, Err(_) => qemu_exit::exit(Failed) }]. *)
Definition or_exit {E A} (r : outcome E A) (k : A -> res boot_end) : res boot_end :=
  match r with
  | Ok a => k a
  | Err _ => Ok (Exited Failed)
  | Panic => Panic
  | Loop => Loop
  end.

(** [main], given what [uefi::helpers::init], [file::read_file] and
    [graphics::open_framebuffer] answer. *)
Definition boot_main {F} `{ExitServices F} (init : unit + Z) (kernel_file : outcome Z bytes)
    (open_fb : outcome Z FrameBufferInfo) (f : F) (m : mem) : res boot_end :=
  or_exit (status_or init) (fun _ =>
  or_exit kernel_file (fun kernel_image =>
  or_exit (load_kernel kernel_image f m) (fun '(loaded, f, m) =>
  or_exit open_fb (fun framebuffer =>
  or_exit (allocate_region_array REGION_CAPACITY f) (fun '(f, (regions_ptr, regions_capacity)) =>
  or_exit (allocate_kernel_stack f) (fun '(f, stack_top) =>
  or_exit (allocate_or (E := Z) id AnyPages 1 f) (fun '(f, boot_info_ptr) =>
  let m := write_BootInfo m boot_info_ptr
             (BootInfo_new framebuffer regions_ptr 0 (lk_base loaded) (lk_size loaded)) in
  o ← exit_and_jump boot_info_ptr regions_ptr regions_capacity (lk_entry loaded) stack_top f m;
  Ok (match o with Some (c, m) => Jumped c m | None => Reset_in_exit end)))))))).

(** ** What the kernel is promised *)

(** Memory the kernel stands on: its segments, its stack, the handoff struct
    and the array it points to. *)
Definition boot_reserved (segs : list LoadSegment) (c : cpu) (b : BootInfo) (x : Z) : Prop :=
  Exists (fun s => range (sg_vaddr s) (sg_memsz s) x) segs \/
  range (c_rsp c + 8 - 65536) 65536 x \/
  range (c_rdi c) size_of_BootInfo x \/
  range (bi_memory_regions_ptr b) (bi_memory_regions_len b * size_of_MemoryRegion) x.

(** The kernel's entry conditions: the ABI of its entry point, a valid struct
    in [rdi], the firmware's map, the image in memory, and a map none of whose
    usable frames touch any of it. *)
Definition delivered {F} `{ExitServices F} (image : bytes) (fb : FrameBufferInfo) (c : cpu) (m' : mem) : Prop :=
  exists entry phoff phnum (f1 : F) m1 ds m2,
    let segs := segments_of (Z.to_nat phnum) image phoff PHDR_SIZE 0 in
    let b := read_BootInfo m' (c_rdi c) in
    exit_boot_services f1 m1 = Some (ds, m2) /\
    parse_header image = Ok (entry, phoff, PHDR_SIZE, phnum) /\
    c_if c = false /\ c_rsp c mod 16 = 8 /\ c_rbp c = 0 /\ c_rip c = entry /\
    bi_kernel_base b <= entry < bi_kernel_base b + bi_kernel_size b /\
    c_rdi c <> 0 /\ BootInfo_ok b /\ is_valid b = true /\ bi_framebuffer b = fb /\
    memory_regions m' b = region_of <$> take 341 ds /\
    Forall MemoryRegion_ok (memory_regions m' b) /\
    (forall s i, s ∈ segs -> 0 <= i < sg_memsz s -> peek m' (sg_vaddr s + i) =
       if i <? sg_filesz s then default 0 (image !! Z.to_nat (sg_offset s + i)) else 0) /\
    (forall fr x, Exists (fun r => frame_usable r fr) (memory_regions m' b) ->
       range fr PAGE_SIZE x -> ~ boot_reserved segs c b x) /\
    (forall x, range (c_rdi c) size_of_BootInfo x \/
       range (bi_memory_regions_ptr b) (bi_memory_regions_len b * size_of_MemoryRegion) x ->
       ~ Exists (fun s => range (sg_vaddr s) (sg_memsz s) x) segs).

Section Main.
Context {F : Type} `{ExitServices F}.

(** No frame the firmware's final map calls usable touches granted memory. *)
Lemma map_clear n (f : F) m ds m2 fr x :
  exit_boot_services f m = Some (ds, m2) ->
  Exists (fun r => frame_usable r fr) (region_of <$> take n ds) ->
  range fr PAGE_SIZE x -> ~ granted f x.
Proof.
  intros Hex Hfr Hx. apply Exists_exists in Hfr as (r & Hr & Hfr).
  apply list_elem_of_fmap in Hr as (d & -> & Hd). apply elem_of_take in Hd as (j & Hd & _).
  apply list_elem_of_lookup_2 in Hd. destruct Hfr as (Hty & _ & _ & _ & Hlo & Hhi). unfold mr_end in Hhi. simpl in *.
  apply (exit_reserves f m ds m2 d x Hex Hd Hty). unfold range in *. lia.
Qed.

(** Where the array, the stack and the struct are, and that they overlap
    neither each other where it matters nor anything granted before. *)
Record laid_out (f f3 : F) (ptr bot bip : Z) : Prop := {
  lo_array : 0 <= ptr /\ ptr + 8192 <= 2 ^ 52;
  lo_stack : bot mod PAGE_SIZE = 0 /\ 0 <= bot /\ bot + 65536 <= 2 ^ 52;
  lo_struct : bip <> 0 /\ 0 <= bip /\ bip + 4096 <= 2 ^ 52;
  lo_kept x : granted f x -> granted f3 x;
  lo_array_granted x : range ptr 8192 x -> granted f3 x;
  lo_stack_granted x : range bot 65536 x -> granted f3 x;
  lo_struct_granted x : range bip 4096 x -> granted f3 x;
  lo_array_fresh x : range ptr 8192 x -> ~ granted f x;
  lo_struct_fresh x : range bip 4096 x -> ~ granted f x /\ ~ range ptr 8192 x;
}.

(** [main]'s three allocations. *)
Lemma allocations_spec f (rest : F -> Z -> Z -> Z -> Z -> res boot_end) (Q : res boot_end -> Prop) :
  Q (Ok (Exited Failed)) -> (forall f3 ptr bot bip, laid_out f f3 ptr bot bip -> Q (rest f3 ptr 341 (bot + 65536 - 8) bip)) ->
  Q (or_exit (allocate_region_array REGION_CAPACITY f) (fun '(f, (regions_ptr, regions_capacity)) =>
     or_exit (allocate_kernel_stack f) (fun '(f, stack_top) =>
     or_exit (allocate_or (E := Z) id AnyPages 1 f) (fun '(f, boot_info_ptr) =>
     rest f regions_ptr regions_capacity stack_top boot_info_ptr)))).
Proof.
  intros Hexit Hrest.
  destruct (allocate_region_array_spec f) as [[st ->]|(f1 & ptr & -> & _ & Hp0 & Hp1 & Hpf1 & Hpg)]; [done|].
  cbn [or_exit].
  destruct (allocate_kernel_stack_spec f1) as [[st ->]|(f2 & bot & -> & Hbm & Hb0 & Hb1 & Hbf & Hbg)]; [done|].
  cbn [or_exit].
  destruct (allocate_or_spec AnyPages 1 f2 ltac:(lia)) as [[st ->]|(f3 & bip & -> & Him & Hi0 & Hi1 & Hi2 & Hif & Hig)]; [done|].
  cbn [or_exit]. change (1 * PAGE_SIZE) with 4096 in *. apply Hrest.
  split; try done; try (intros x; rewrite ?Hig, ?Hbg, ?Hpg; tauto); [by split; [apply Hi2|]|].
  intros x Hx. apply Hif in Hx. rewrite Hbg, Hpg in Hx. tauto.
Qed.

(** Nothing the kernel stands on is on a frame its map calls usable. *)
Lemma reserved_clear image f f3 m1 ds m2 ptr bot bip n phoff phnum cap fr x :
  let segs := segments_of (Z.to_nat phnum) image phoff PHDR_SIZE 0 in
  exit_boot_services f3 m1 = Some (ds, m2) -> laid_out f f3 ptr bot bip -> 0 <= cap <= 341 ->
  (forall s, s ∈ segs -> forall y, range (sg_vaddr s) (sg_memsz s) y -> granted f y) ->
  Exists (fun r => frame_usable r fr) (region_of <$> take n ds) -> range fr PAGE_SIZE x ->
  ~ (Exists (fun s => range (sg_vaddr s) (sg_memsz s) x) segs \/ range (bot + 65536 - 8 + 8 - 65536) 65536 x \/
     range bip size_of_BootInfo x \/ range ptr (cap * size_of_MemoryRegion) x).
Proof.
  intros segs Hex [_ _ _ Gk Ga Gs Gi _ _] Hcap Hsegs Hfr Hx Hb. apply (map_clear n f3 m1 ds m2 fr x Hex Hfr Hx).
  assert (size_of_BootInfo = 88) as H88 by reflexivity. assert (size_of_MemoryRegion = 24) as H24 by reflexivity.
  destruct Hb as [Hb|[Hb|[Hb|Hb]]].
  - apply Exists_exists in Hb as (s & Hs & Hb). by apply Gk, (Hsegs s Hs).
  - apply Gs. unfold range in *. lia.
  - apply Gi. unfold range in *. lia.
  - apply Ga. unfold range in *. lia.
Qed.

(** The loaded segments survive the struct's write and the exit. *)
Lemma segments_kept f f3 ptr bot bip (m m2 : mem) b y :
  laid_out f f3 ptr bot bip -> granted f y ->
  (forall x, granted f3 x -> ~ range bip size_of_BootInfo x -> ~ range ptr (341 * size_of_MemoryRegion) x ->
     peek m2 x = peek (write_BootInfo m bip b) x) ->
  peek m2 y = peek m y.
Proof using.
  intros [_ _ _ Gk _ _ _ Fa Fi] Hg Hrest. assert (size_of_BootInfo = 88) as H88 by reflexivity.
  assert (size_of_MemoryRegion = 24) as H24 by reflexivity.
  assert (~ range bip size_of_BootInfo y) as Hni.
  { intros Hy. by destruct (Fi y) as [? _]; [unfold range in *; lia|]. }
  assert (~ range ptr 8192 y) as Hnp by (intros Hy; by apply (Fa y)).
  rewrite Hrest; [|by apply Gk|done|unfold range in *; lia]. symmetry. by apply write_BootInfo_agree.
Qed.

(** From the allocations on, if the firmware lets go, the kernel is entered
    with what it is promised. *)
Lemma jump_delivers image fb f0 m0 k f m f3 ptr bot bip ds mx :
  let m1 := write_BootInfo m bip (BootInfo_new fb ptr 0 (lk_base k) (lk_size k)) in
  exit_boot_services f3 m1 = Some (ds, mx) -> kernel_placed image f0 m0 k f m -> FrameBufferInfo_ok fb -> is_Some (pixel_format fb) ->
  laid_out f f3 ptr bot bip ->
  exists c m', exit_and_jump bip ptr 341 (lk_entry k) (bot + 65536 - 8) f3 m1 = Ok (Some (c, m')) /\
    delivered (F := F) image fb c m'.
Proof.
  intros m1 Hex (phoff & phnum & Hh & Hne & Hsegs & Hk0 & Hkb & Hks & Hen & Htop & _) Hfb [pf Hpf] L. pose proof L as [La Ls Li Gk Ga Gs Gi Fa Fi].
  set (b := BootInfo_new fb ptr 0 (lk_base k) (lk_size k)) in *.
  assert (BootInfo_ok b) as Hbok.
  { unfold BootInfo_ok, b; simpl. unfold in_u in *. repeat split; try done; try apply Hfb; lia. }
  assert (size_of_BootInfo = 88) as H88 by reflexivity. assert (size_of_MemoryRegion = 24) as H24 by reflexivity.
  destruct (exit_and_jump_spec bip ptr 341 (lk_entry k) (bot + 65536 - 8) f3 m1 b ds mx Hex) as (m2 & n & Hej & Hn & Hbi & Hmr & Hrest);
    [lia|by apply read_write_BootInfo|done|intros x Hx; apply Gi; unfold range in *; lia|
     intros x Hx; apply Ga; unfold range in *; lia|intros x Hx; destruct (Fi x); unfold range in *; lia|].
  exists (Cpu false (bot + 65536 - 8) 0 bip (lk_entry k)), m2. split; [exact Hej|].
  assert (Forall MemoryRegion_ok (region_of <$> take n ds)) as Hok
    by (eapply Forall_fmap, Forall_take, exit_typed, Hex).
  assert (take n ds = take 341 ds) as Htk.
  { rewrite Hn. change (Z.to_nat 341) with 341%nat. destruct (decide (length ds <= 341)%nat).
    - by rewrite !take_ge by lia.
    - f_equal. lia. }
  exists (lk_entry k), phoff, phnum, f3, m1, ds, mx. cbv zeta. cbn [c_rdi c_if c_rsp c_rbp c_rip].
  rewrite Hmr, Htk in *. rewrite Hbi. unfold set_regions_len.
  cbn [bi_kernel_base bi_kernel_size bi_framebuffer bi_memory_regions_ptr bi_memory_regions_len].
  split; [done|]. split; [done|]. split; [done|]. split; [destruct Ls as [Hbm _]; unfold PAGE_SIZE in Hbm; divmod|]. split; [done|].
  split; [done|]. split; [exact Hen|]. split; [apply Li|].
  split; [destruct Hbok as (? & ? & ? & ? & ? & _ & ? & ?); repeat (split; [done|]); simpl; split; [unfold in_u; lia|done]|].
  split; [unfold is_valid; simpl; by rewrite Hpf|]. split; [done|]. split; [done|]. split; [done|].
  split; [|split].
  - intros s i Hs Hi. destruct (Hsegs s Hs) as (Hby & _ & _ & Hgr). rewrite <- (Hby i Hi).
    apply (segments_kept _ _ _ _ _ m m2 b _ L); [apply Hgr; unfold range; lia|exact Hrest].
  - intros fr x Hfr Hx. apply (reserved_clear image f f3 m1 ds mx ptr bot bip 341 phoff phnum (Z.of_nat n) fr x Hex L); [lia| |done|done].
    intros s Hs y Hy. by apply (Hsegs s Hs).
  - intros x Hx Hs. apply Exists_exists in Hs as (s & Hs & Hxs).
    assert (granted f x) as Hg by (by apply (Hsegs s Hs)). destruct Hx as [Hx|Hx].
    + destruct (Fi x) as [Hng _]; [unfold range in *; lia|by apply Hng].
    + apply (Fa x); [|done]. cbn [bi_memory_regions_ptr b BootInfo_new] in Hx. unfold range in *. lia.
Qed.

(** How a run that loaded the kernel ends: in the failure exit, in the reset
    of a firmware that does not let go, or in the kernel with everything
    delivered. *)
Definition ended (image : bytes) (fb : FrameBufferInfo) (r : res boot_end) : Prop :=
  match r with
  | Ok (Exited code) => code = Failed
  | Ok Reset_in_exit => exists (f1 : F) m1, exit_boot_services f1 m1 = None
  | Ok (Jumped c m') => delivered (F := F) image fb c m'
  | _ => False
  end.

(** The part of [main] that allocates, from a loaded kernel on. *)
Lemma boot_tail_spec image fb f0 m0 k f m :
  kernel_placed image f0 m0 k f m -> FrameBufferInfo_ok fb -> is_Some (pixel_format fb) ->
  let rest := or_exit (allocate_region_array REGION_CAPACITY f) (fun '(f, (regions_ptr, regions_capacity)) =>
    or_exit (allocate_kernel_stack f) (fun '(f, stack_top) =>
    or_exit (allocate_or (E := Z) id AnyPages 1 f) (fun '(f, boot_info_ptr) =>
    let m := write_BootInfo m boot_info_ptr
               (BootInfo_new fb regions_ptr 0 (lk_base k) (lk_size k)) in
    o ← exit_and_jump boot_info_ptr regions_ptr regions_capacity (lk_entry k) stack_top f m;
    Ok (match o with Some (c, m) => Jumped c m | None => Reset_in_exit end)))) in
  ended image fb rest.
Proof.
  intros Hk Hfb Hpf. cbv zeta.
  apply (allocations_spec f (fun f regions_ptr regions_capacity stack_top boot_info_ptr =>
    o ← exit_and_jump boot_info_ptr regions_ptr regions_capacity (lk_entry k) stack_top f
      (write_BootInfo m boot_info_ptr (BootInfo_new fb regions_ptr 0 (lk_base k) (lk_size k)));
    Ok (match o with Some (c, m) => Jumped c m | None => Reset_in_exit end)) (ended image fb)); [done|].
  intros f3 ptr bot bip L.
  set (m1 := write_BootInfo m bip (BootInfo_new fb ptr 0 (lk_base k) (lk_size k))).
  destruct (exit_boot_services f3 m1) as [[ds mx]|] eqn:Hex.
  - destruct (jump_delivers image fb f0 m0 k f m f3 ptr bot bip ds mx Hex Hk Hfb Hpf L) as (c & m' & Hj & Hd).
    fold m1 in Hj. rewrite Hj, bind_Ok. exact Hd.
  - unfold exit_and_jump. rewrite Hex, bind_Ok. by exists f3, m1.
Qed.

Lemma boot_main_spec init kernel_file open_fb f m :
  (forall image, kernel_file = Ok image -> image_ok image) -> kernel_file <> Loop ->
  (forall fb, open_fb = Ok fb -> FrameBufferInfo_ok fb /\ is_Some (pixel_format fb)) -> answers open_fb ->
  match boot_main init kernel_file open_fb f m with
  | Ok (Exited code) => code = Failed
  | Panic => kernel_file = Panic
  | r => exists image fb, kernel_file = Ok image /\ open_fb = Ok fb /\ ended image fb r
  end.
Proof.
  intros Him Hka Hfb Hfa. unfold boot_main.
  destruct init as [[]|st]; cbn [status_or or_exit]; [|done].
  destruct kernel_file as [image|st| |]; try done; cbn [or_exit].
  specialize (Him image eq_refl).
  destruct (load_kernel_spec image f m Him) as [[e Hl]|(k & f1 & m1 & ? & ? & ? & ? & Hl & _)];
    [by rewrite Hl|].
  pose proof (load_kernel_placed image f m k f1 m1 Him Hl) as Hk. rewrite Hl. cbn [or_exit].
  destruct open_fb as [fb|st| |]; try done; cbn [or_exit].
  destruct (Hfb fb eq_refl) as [Hok Hpf].
  pose proof (boot_tail_spec image fb f m k f1 m1 Hk Hok Hpf) as Ht. cbv zeta in Ht.
  destruct (or_exit (allocate_region_array REGION_CAPACITY f1) _) as [[code| |c m']|[]| |] eqn:Er; try done;
    by exists image, fb.
Qed.
End Main.

(** ** The firmware's answers *)

(** What the bootloader is entitled to assume of them: files are bytes, their
    sizes and the framebuffer's address and size are 64-bit. *)
Record answers_ok {H} `{FileProtocol H} (open : handle H + Z) (file_size : H -> Z + Z)
    (op : GraphicsOutput + Z) : Prop := {
  ao_metadata : metadata_ok open file_size;
  ao_bytes h : open = inl (Regular h) -> Forall is_byte (contents h);
  ao_gop gop : op = inl gop -> gop_ok gop;
}.

Section Whole.
Context {F H : Type} `{ExitServices F} `{!FileProtocol H}.
Context (init fsr vol : unit + Z) (open : handle H + Z) (file_size : H -> Z + Z).
Context (gh : unit + Z) (op : GraphicsOutput + Z) (f : F) (m : mem).

(** The whole program. *)
Definition bootloader : res boot_end :=
  boot_main init (read_file fsr vol open file_size f) (open_framebuffer gh op) f m.

Lemma bootloader_spec :
  answers_ok open file_size op ->
  match bootloader with
  | Ok (Exited code) => code = Failed
  | Ok Reset_in_exit => exists (f1 : F) m1, exit_boot_services f1 m1 = None
  | Ok (Jumped c m') => exists h size fb, open = inl (Regular h) /\ file_size h = inl size /\
      size <= len (contents h) /\ open_framebuffer gh op = Ok fb /\
      delivered (F := F) (take (Z.to_nat size) (contents h)) fb c m'
  | Panic => exists h size, open = inl (Regular h) /\ file_size h = inl size /\ ~ served f size
  | _ => False
  end.
Proof.
  intros [Hmeta Hbytes Hgop]. unfold bootloader.
  pose proof (read_file_spec fsr vol open file_size f Hmeta) as Hrf. unfold read_file_post in Hrf.
  pose proof (boot_main_spec init (read_file fsr vol open file_size f) (open_framebuffer gh op) f m) as Hbm.
  assert (forall image, read_file fsr vol open file_size f = Ok image -> image_ok image) as Him.
  { intros image Hi. rewrite Hi in Hrf. destruct Hrf as (h & size & Ho & Hs & [Hsv _] & Hl & ->).
    pose proof (proj2 (Hmeta h Ho) size Hs). unfold in_u in *.
    split; [by apply Forall_take, (Hbytes h)|unfold len in *; rewrite length_take; lia]. }
  specialize (Hbm Him ltac:(by destruct (read_file fsr vol open file_size f))
    ltac:(intros fb; by apply open_framebuffer_ok) (open_framebuffer_answers gh op)).
  destruct (boot_main _ _ _ f m) as [[code| |c m']|[]| |].
  - done.
  - by destruct Hbm as (image & fb & _ & _ & Hd).
  - destruct Hbm as (image & fb & Hi & Hfb & Hd). rewrite Hi in Hrf.
    destruct Hrf as (h & size & Ho & Hs & _ & Hl & ->). by exists h, size, fb.
  - by rewrite Hbm in Hrf.
  - by destruct Hbm as (image & fb & _ & _ & Hd).
Qed.

Lemma bootloader_jumped c m' :
  answers_ok open file_size op -> bootloader = Ok (Jumped c m') ->
  exists h size fb, open = inl (Regular h) /\ file_size h = inl size /\
    size <= len (contents h) /\ open_framebuffer gh op = Ok fb /\
    delivered (F := F) (take (Z.to_nat size) (contents h)) fb c m'.
Proof. intros Hao Hb. pose proof (bootloader_spec Hao) as Hs. by rewrite Hb in Hs. Qed.
End Whole.

(** ** Properties *)

(** C8: the handoff. Whenever the bootloader enters the kernel, it enters the
    loaded file's entry point, inside the reported image span, with interrupts
    off, a stack pointer that is 8 modulo 16 as the entry point's ABI wants,
    and in [rdi] a struct that the kernel's check accepts, describing the
    firmware's framebuffer and carrying the firmware's final memory map as far
    as the array has room. Every segment of the file is in memory, and no frame
    the kernel will take to be free shares a byte with its segments, its stack,
    the struct or the map; nor do the struct and the map share one with a
    segment. *)
Theorem bootloader_delivers {F H} `{ExitServices F} `{!FileProtocol H} init fsr vol
    (open : handle H + Z) file_size gh op (f : F) m c m' :
  answers_ok open file_size op ->
  bootloader init fsr vol open file_size gh op f m = Ok (Jumped c m') ->
  exists h size fb, open = inl (Regular h) /\ file_size h = inl size /\
    size <= len (contents h) /\ open_framebuffer gh op = Ok fb /\
    delivered (F := F) (take (Z.to_nat size) (contents h)) fb c m'.
Proof. apply bootloader_jumped. Qed.

(** C26: whatever the firmware answers and whatever the file holds, the
    bootloader ends, and what each end means: it leaves through the exit device
    with the failure code, never with success; it enters the kernel; it asked
    for a buffer of the file's size that could not be had, the only panic; or
    [ExitBootServices] never let it go, and the machine was reset. No loop is
    left running. *)
Theorem bootloader_answers {F H} `{ExitServices F} `{!FileProtocol H} init fsr vol
    (open : handle H + Z) file_size gh op (f : F) m :
  answers_ok open file_size op ->
  match bootloader init fsr vol open file_size gh op f m with
  | Ok (Exited code) => code = Failed
  | Ok (Jumped c m') => exists h size, open = inl (Regular h) /\ file_size h = inl size /\ size <= len (contents h)
  | Ok Reset_in_exit => exists (f1 : F) m1, exit_boot_services f1 m1 = None
  | Panic => exists h size, open = inl (Regular h) /\ file_size h = inl size /\ ~ served f size
  | _ => False
  end.
Proof.
  intros Hao. pose proof (bootloader_spec init fsr vol open file_size gh op f m Hao) as Hs.
  destruct (bootloader init fsr vol open file_size gh op f m) as [[code| |c m']| | |]; try done.
  destruct Hs as (h & size & fb & Ho & Hsz & Hl & _). by exists h, size.
Qed.

(** ** Instances *)

(** Firmware whose final map is one conventional region, left out when the
    loader was granted part of it. *)
Definition sf_exit (f : simple_firmware) (m : mem) : option (list Descriptor * mem) :=
  Some (if existsb (sf_touches 0x8000000 0x400000) (sf_granted f) then []
   else [{| d_phys_start := 0x8000000; d_page_count := 1024; d_ty := CONVENTIONAL |}], m).

#[export] Instance simple_ExitServices : ExitServices simple_firmware.
Proof.
  refine {| exit_boot_services := sf_exit |}.
  - by intros f m ds m' [= _ <-].
  - intros f m ds m' [= <- _]. destruct (existsb _ _); repeat constructor; by vm_compute.
  - intros f m ds m' d x [= <- _].
    destruct (existsb (sf_touches 0x8000000 0x400000) (sf_granted f)) eqn:E;
      [by intros ?%elem_of_nil|].
    intros ->%list_elem_of_singleton _ Hx (g & Hg & Hxg). simpl in Hx.
    assert (existsb (sf_touches 0x8000000 0x400000) (sf_granted f) = true); [|congruence].
    apply existsb_exists. exists g. split; [done|by apply (sf_touches_at _ _ _ x)].
Defined.

Definition demo_kernel_elf : chunked := Chunked (demo_elf 0x200010) 0 99.
Definition demo_gop : GraphicsOutput :=
  {| gop_width := 1280; gop_height := 800; gop_stride := 1280; gop_pixel_format := PixelFormat_Bgr;
     gop_fb_addr := 0x80000000; gop_fb_size := 4096000 |}.

Definition demo_boot : res boot_end :=
  bootloader (inl tt) (inl tt) (inl tt) (inl (Regular demo_kernel_elf)) (fun _ => inl 180)
    (inl tt) (inl demo_gop) demo_firmware ∅.

Lemma demo_answers_ok : answers_ok (inl (Regular demo_kernel_elf)) (fun _ => inl 180) (inl demo_gop).
Proof.
  split.
  - intros h [= <-]. split; [reflexivity|]. by intros size [= <-].
  - intros h [= <-]. apply is_bytes_ok. vm_compute. reflexivity.
  - intros gop [= <-]. by split; vm_compute.
Qed.

Lemma demo_boot_jumps : exists c m', demo_boot = Ok (Jumped c m').
Proof.
  assert (match demo_boot with Ok (Jumped _ _) => true | _ => false end = true) as H
    by (vm_compute; reflexivity).
  destruct demo_boot as [[| |c m']| | |]; [discriminate H|discriminate H| |discriminate H..]. by exists c, m'.
Qed.

(** The same file, of which the firmware says it has a terabyte. *)
Lemma bootloader_answers_witness : exists h,
  bootloader (inl tt) (inl tt) (inl tt) (inl (Regular demo_kernel_elf)) (fun _ => inl (2 ^ 40))
    (inl tt) (inl demo_gop) demo_firmware ∅ = Panic /\ h = demo_kernel_elf /\ ~ served demo_firmware (2 ^ 40).
Proof.
  assert (answers_ok (inl (Regular demo_kernel_elf)) (fun _ => inl (2 ^ 40)) (inl demo_gop)) as Hao.
  { destruct demo_answers_ok as [Hm Hb Hg]. split; [|exact Hb|exact Hg].
    intros h Hh. split; [exact (proj1 (Hm h Hh))|]. intros size [= <-]. by vm_compute. }
  pose proof (bootloader_answers (inl tt) (inl tt) (inl tt) (inl (Regular demo_kernel_elf))
    (fun _ => inl (2 ^ 40)) (inl tt) (inl demo_gop) demo_firmware ∅ Hao) as Hs.
  assert (bootloader (inl tt) (inl tt) (inl tt) (inl (Regular demo_kernel_elf)) (fun _ => inl (2 ^ 40))
    (inl tt) (inl demo_gop) demo_firmware ∅ = Panic) as E by (vm_compute; reflexivity).
  rewrite E in Hs. destruct Hs as (h & size & [= <-] & [= <-] & Hn). exists demo_kernel_elf.
  exact (conj E (conj eq_refl Hn)).
Defined.

Lemma bootloader_delivers_witness : exists c m' fb,
  demo_boot = Ok (Jumped c m') /\
  delivered (F := simple_firmware) (take 180 (demo_elf 0x200010)) fb c m'.
Proof.
  destruct demo_boot_jumps as (c & m' & Hb).
  destruct (bootloader_delivers (inl tt) (inl tt) (inl tt) (inl (Regular demo_kernel_elf))
    (fun _ => inl 180) (inl tt) (inl demo_gop) demo_firmware ∅ c m' demo_answers_ok Hb)
    as (h & size & fb & [= <-] & [= <-] & _ & _ & Hd).
  exists c, m', fb. split; [exact Hb|exact Hd].
Defined.
