(* ===== verification/Port.v ===== *)
(** Port I/O ([kernel/src/port.rs]): the machine's legacy devices as an
    interface, and the accesses a driver makes of them, in order. *)
From S2P Require Import Prelude.

(** Whatever answers on the ports: a read returns a byte and may change the
    device, a write changes it. *)
Class Device (D : Type) := {
  dev_in : Z -> D -> D * Z;
  dev_out : Z -> Z -> D -> D;
  dev_in_byte port d : 0 <= snd (dev_in port d) < 256;
}.

Inductive access :=
| In (port value : Z)
| Out (port value : Z).

#[export] Instance access_eq_dec : EqDecision access.
Proof. solve_decision. Defined.

(** The devices and what has been done to them, oldest access first. *)
Record io (D : Type) := Io { io_dev : D; io_log : list access }.
Arguments Io {D} io_dev io_log.
Arguments io_dev {D} i.
Arguments io_log {D} i.

Section Port.
Context {D : Type} `{Device D}.

Definition outb (port value : Z) (s : io D) : io D :=
  Io (dev_out port value (io_dev s)) (io_log s ++ [Out port value]).

Definition inb (port : Z) (s : io D) : io D * Z :=
  let '(d, v) := dev_in port (io_dev s) in
  (Io d (io_log s ++ [In port v]), v).

Definition io_wait (s : io D) : io D := outb 0x80 0 s.

(** A run of writes. *)
Fixpoint outs (ws : list (Z * Z)) (s : io D) : io D :=
  match ws with
  | [] => s
  | (p, v) :: ws => outs ws (outb p v s)
  end.

Lemma io_log_outs ws s : io_log (outs ws s) = io_log s ++ ((fun w => Out (fst w) (snd w)) <$> ws).
Proof.
  revert s. induction ws as [|[p v] ws IH]; intros s; simpl; [by rewrite app_nil_r|].
  rewrite IH. simpl. by rewrite <- app_assoc.
Qed.

Lemma inb_spec port s :
  exists d v, inb port s = (Io d (io_log s ++ [In port v]), v) /\ 0 <= v < 256 /\
    dev_in port (io_dev s) = (d, v).
Proof.
  unfold inb. pose proof (dev_in_byte port (io_dev s)) as Hb.
  destruct (dev_in port (io_dev s)) as [d v]. by exists d, v.
Qed.
End Port.

(** The writes of a log, in order. *)
Definition writes (l : list access) : list (Z * Z) :=
  omap (fun a => match a with Out p v => Some (p, v) | In _ _ => None end) l.

Lemma writes_app l l' : writes (l ++ l') = writes l ++ writes l'.
Proof. apply omap_app. Qed.

Lemma writes_outs ws : writes ((fun w => Out (fst w) (snd w)) <$> ws) = ws.
Proof. induction ws as [|[p v] ws IH]; [done|]. simpl. f_equal. exact IH. Qed.

(** What was written to one port. *)
Definition written (port : Z) (l : list access) : list Z :=
  omap (fun w => if fst w =? port then Some (snd w) else None) (writes l).

Lemma written_app port l l' : written port (l ++ l') = written port l ++ written port l'.
Proof. unfold written. by rewrite writes_app, omap_app. Qed.

(** A device nobody answers for: reads float high, writes are lost. *)
#[export] Instance absent_Device : Device unit.
Proof. refine {| dev_in _ d := (d, 0xFF); dev_out _ _ d := d |}. intros. simpl. lia. Defined.
