(* ===== verification/Pic.v ===== *)
(** The two interrupt controllers ([kernel/src/pic.rs]) and the interval timer
    ([kernel/src/pit.rs]): the writes the drivers make, and what they program
    the chips to. *)
From S2P Require Import Prelude Port.

(** ** [pic.rs] *)

Definition PIC1_COMMAND : Z := 0x20.
Definition PIC1_DATA : Z := 0x21.
Definition PIC2_COMMAND : Z := 0xA0.
Definition PIC2_DATA : Z := 0xA1.
Definition ICW1_INIT : Z := 0x10.
Definition ICW1_ICW4 : Z := 0x01.
Definition ICW4_8086 : Z := 0x01.
Definition EOI : Z := 0x20.
Definition PIC1_OFFSET : Z := 32.
Definition PIC2_OFFSET : Z := PIC1_OFFSET + 8.
Definition TIMER_VECTOR : Z := PIC1_OFFSET.
Definition KEYBOARD_VECTOR : Z := PIC1_OFFSET + 1.

Section Pic.
Context {D : Type} `{Device D}.

Definition pic_init (s : io D) : io D :=
  let s := io_wait (outb PIC1_COMMAND (Z.lor ICW1_INIT ICW1_ICW4) s) in
  let s := io_wait (outb PIC2_COMMAND (Z.lor ICW1_INIT ICW1_ICW4) s) in
  let s := io_wait (outb PIC1_DATA PIC1_OFFSET s) in
  let s := io_wait (outb PIC2_DATA PIC2_OFFSET s) in
  let s := io_wait (outb PIC1_DATA (Z.shiftl 1 2) s) in
  let s := io_wait (outb PIC2_DATA 2 s) in
  let s := io_wait (outb PIC1_DATA ICW4_8086 s) in
  let s := io_wait (outb PIC2_DATA ICW4_8086 s) in
  let s := outb PIC1_DATA 0xFC s in
  outb PIC2_DATA 0xFF s.

Definition end_of_interrupt (vector : Z) (s : io D) : io D :=
  let s := if PIC2_OFFSET <=? vector then outb PIC2_COMMAND EOI s else s in
  outb PIC1_COMMAND EOI s.

(** ** [pit.rs] *)

Definition CHANNEL0_DATA : Z := 0x40.
Definition PIT_COMMAND : Z := 0x43.
Definition BASE_FREQUENCY : Z := 1193182.

Definition pit_init (hz : Z) (s : io D) : res (io D) :=
  if negb ((19 <=? hz) && (hz <=? BASE_FREQUENCY)) then Panic else
  let divisor := as_u 16 (BASE_FREQUENCY / hz) in
  let s := outb PIT_COMMAND 0x36 s in
  let s := outb CHANNEL0_DATA (as_u 8 (Z.land divisor 0xFF)) s in
  Ok (outb CHANNEL0_DATA (as_u 8 (Z.shiftr divisor 8)) s).
End Pic.

(** ** The chips, as their data sheets have them *)

(** An 8259: what initialisation words it still expects, and its registers. *)
Record chip := Chip {
  ch_expect : list nat;      (* the initialisation words to come *)
  ch_offset : Z;             (* ICW2 *)
  ch_cascade : Z;            (* ICW3 *)
  ch_mode : Z;               (* ICW4 *)
  ch_mask : Z;               (* OCW1, the interrupt mask *)
  ch_in_service : nat;       (* interrupts delivered and not acknowledged *)
}.

(** A write to the command port: bit 4 starts initialisation, which clears the
    mask register; 0x20 is the non-specific end of interrupt. *)
Definition chip_command (v : Z) (c : chip) : chip :=
  if Z.testbit v 4
  then Chip (2 :: 3 :: (if Z.testbit v 0 then [4] else []))%nat (ch_offset c) (ch_cascade c) (ch_mode c) 0 0
  else if v =? 0x20
  then Chip (ch_expect c) (ch_offset c) (ch_cascade c) (ch_mode c) (ch_mask c) (pred (ch_in_service c))
  else c.

(** A write to the data port: the next initialisation word, or the mask. *)
Definition chip_data (v : Z) (c : chip) : chip :=
  match ch_expect c with
  | 2%nat :: r => Chip r v (ch_cascade c) (ch_mode c) (ch_mask c) (ch_in_service c)
  | 3%nat :: r => Chip r (ch_offset c) v (ch_mode c) (ch_mask c) (ch_in_service c)
  | _ :: r => Chip r (ch_offset c) (ch_cascade c) v (ch_mask c) (ch_in_service c)
  | [] => Chip [] (ch_offset c) (ch_cascade c) (ch_mode c) v (ch_in_service c)
  end.

Definition pics_write (w : Z * Z) (cs : chip * chip) : chip * chip :=
  let '(p, v) := w in
  if p =? PIC1_COMMAND then (chip_command v (fst cs), snd cs)
  else if p =? PIC1_DATA then (chip_data v (fst cs), snd cs)
  else if p =? PIC2_COMMAND then (fst cs, chip_command v (snd cs))
  else if p =? PIC2_DATA then (fst cs, chip_data v (snd cs))
  else cs.

(** Both chips after a sequence of port writes. *)
Definition pics_after (cs : chip * chip) (ws : list (Z * Z)) : chip * chip :=
  foldl (fun cs w => pics_write w cs) cs ws.

(** Channel 0 of the timer in mode 0x36: low byte, then high byte. *)
Definition pit_divisor (ws : list (Z * Z)) : option Z :=
  match ws with
  | [(c, m); (d, lo); (d', hi)] =>
      if (c =? PIT_COMMAND) && (m =? 0x36) && (d =? CHANNEL0_DATA) && (d' =? CHANNEL0_DATA)
      then Some (lo + 256 * hi) else None
  | _ => None
  end.

(** ** Properties *)

(** Whatever state the firmware left the two controllers in, after [init]
    both have finished their initialisation, deliver their interrupts at
    vectors 32 to 39 and 40 to 47, clear of the processor's exceptions, are
    wired as master and slave over line 2 in 8086 mode, and only the timer and
    the keyboard are unmasked. *)
Theorem pic_init_programs {D} `{Device D} (s : io D) cs :
  exists ws, io_log (pic_init s) = io_log s ++ ((fun w => Out (fst w) (snd w)) <$> ws) /\
    pics_after cs ws =
      (Chip [] 32 (Z.shiftl 1 2) 1 0xFC 0, Chip [] 40 2 1 0xFF 0) /\
    (forall irq, 0 <= irq < 8 -> Z.testbit 0xFC irq = false <->
       PIC1_OFFSET + irq = TIMER_VECTOR \/ PIC1_OFFSET + irq = KEYBOARD_VECTOR) /\
    (forall irq, 0 <= irq < 8 -> Z.testbit 0xFF irq = true).
Proof.
  exists [(PIC1_COMMAND, 0x11); (0x80, 0); (PIC2_COMMAND, 0x11); (0x80, 0);
     (PIC1_DATA, 32); (0x80, 0); (PIC2_DATA, 40); (0x80, 0); (PIC1_DATA, 4); (0x80, 0);
     (PIC2_DATA, 2); (0x80, 0); (PIC1_DATA, 1); (0x80, 0); (PIC2_DATA, 1); (0x80, 0);
     (PIC1_DATA, 0xFC); (PIC2_DATA, 0xFF)].
  rewrite <- io_log_outs. split; [reflexivity|]. split; [reflexivity|].
  unfold TIMER_VECTOR, KEYBOARD_VECTOR.
  split; intros irq Hi; assert (irq = 0 \/ irq = 1 \/ irq = 2 \/ irq = 3 \/ irq = 4 \/ irq = 5 \/ irq = 6 \/ irq = 7)
    as Hc by lia; destruct Hc as [->|[->|[->|[->|[->|[->|[->| ->]]]]]]]; simpl; try done; intuition (congruence || lia).
Qed.

(** An acknowledgement reaches every chip that relayed the interrupt: the
    master alone for its own lines, the slave first and then the master for
    the slave's, so that neither is left waiting. *)
Theorem end_of_interrupt_acknowledges {D} `{Device D} (s : io D) vector c1 c2 :
  0 <= vector < 256 ->
  exists ws, io_log (end_of_interrupt vector s) = io_log s ++ ((fun w => Out (fst w) (snd w)) <$> ws) /\
    let '(c1', c2') := pics_after (c1, c2) ws in
    ch_in_service c1' = pred (ch_in_service c1) /\
    ch_in_service c2' = (if PIC2_OFFSET <=? vector then pred (ch_in_service c2) else ch_in_service c2) /\
    ch_mask c1' = ch_mask c1 /\ ch_mask c2' = ch_mask c2.
Proof.
  intros Hv. unfold end_of_interrupt. destruct (PIC2_OFFSET <=? vector).
  - exists [(PIC2_COMMAND, EOI); (PIC1_COMMAND, EOI)]. rewrite <- io_log_outs. by repeat split.
  - exists [(PIC1_COMMAND, EOI)]. rewrite <- io_log_outs. by repeat split.
Qed.

(** For every rate it accepts, the timer is programmed with the whole
    quotient of the input clock by the rate: it fits the 16-bit counter, is
    not zero, and gives a real rate no lower than the one asked for. Any other
    rate panics before a port is touched. *)
Theorem pit_init_divisor {D} `{Device D} (s : io D) hz :
  0 <= hz < 2 ^ 32 ->
  match pit_init hz s with
  | Ok s' => 19 <= hz <= BASE_FREQUENCY /\
      exists ws d, io_log s' = io_log s ++ ((fun w => Out (fst w) (snd w)) <$> ws) /\
        pit_divisor ws = Some d /\ d = BASE_FREQUENCY / hz /\ 1 <= d < 2 ^ 16 /\
        hz * d <= BASE_FREQUENCY < hz * (d + 1) /\ Forall (fun w => 0 <= snd w < 256) ws
  | Panic => hz < 19 \/ BASE_FREQUENCY < hz
  | _ => False
  end.
Proof.
  intros Hhz. unfold pit_init.
  destruct (Z.leb_spec 19 hz); simpl andb; [|simpl; lia].
  destruct (Z.leb_spec hz BASE_FREQUENCY); simpl negb; cbv iota; [|lia].
  unfold BASE_FREQUENCY in *. split; [lia|].
  assert (1 <= 1193182 / hz < 2 ^ 16) as Hd.
  { split; [apply Z.div_le_lower_bound; lia|apply Z.div_lt_upper_bound; lia]. }
  pose proof (Z.div_mod 1193182 hz ltac:(lia)). pose proof (Z.mod_pos_bound 1193182 hz ltac:(lia)).
  set (d := 1193182 / hz) in *. rewrite (as_u_small 16 d) by (unfold in_u; lia).
  assert (Z.land d 0xFF = d mod 256) as -> by (change 0xFF with (Z.ones 8); by rewrite Z.land_ones by lia).
  rewrite Z.shiftr_div_pow2 by lia. change (2 ^ 8) with 256. unfold as_u. change (2 ^ 8) with 256.
  rewrite (Z.mod_small (d mod 256)) by (apply Z.mod_pos_bound; lia).
  rewrite (Z.mod_small (d / 256)) by (split; [apply Z.div_pos; lia|apply Z.div_lt_upper_bound; lia]).
  exists [(PIT_COMMAND, 0x36); (CHANNEL0_DATA, d mod 256); (CHANNEL0_DATA, d / 256)], d.
  rewrite <- io_log_outs. split; [reflexivity|]. split; [simpl; f_equal; divmod|].
  split; [done|]. split; [lia|]. split; [nia|].
  repeat constructor; simpl; try lia; try (apply Z.mod_pos_bound; lia);
    try (apply Z.div_pos; lia); try (apply Z.div_lt_upper_bound; lia).
Qed.

(** ** Instances *)

Lemma end_of_interrupt_acknowledges_witness : exists ws,
  io_log (end_of_interrupt 33 (Io tt [])) = (fun w => Out (fst w) (snd w)) <$> ws.
Proof.
  destruct (end_of_interrupt_acknowledges (Io tt []) 33 (Chip [] 32 4 1 0xFC 1) (Chip [] 40 2 1 0xFF 0))
    as (ws & H & _); [lia|]. by exists ws.
Defined.

Definition demo_pit : io unit := match pit_init 100 (Io tt []) with Ok s => s | _ => Io tt [] end.

Lemma pit_init_divisor_witness : exists ws,
  io_log demo_pit = (fun w => Out (fst w) (snd w)) <$> ws /\ pit_divisor ws = Some 11931.
Proof.
  pose proof (pit_init_divisor (Io tt []) 100 ltac:(lia)) as Hp.
  destruct Hp as (_ & ws & d & Hl & Hd & -> & _). by exists ws.
Defined.
