(* ===== verification/Font.v ===== *)
(** The console font ([kernel/src/font.rs]): 8x16 bitmaps for printable ASCII,
    one byte per scanline, the most significant bit leftmost. *)
From S2P Require Import Prelude.

Definition GLYPH_WIDTH : Z := 8.
Definition GLYPH_HEIGHT : Z := 16.
Definition FIRST : Z := 0x20.
Definition LAST : Z := 0x7e.

(** A glyph's sixteen rows, top to bottom. *)
Definition scanlines (a b c d e f g h i j k l m n o p : Z) : list Z :=
  [a; b; c; d; e; f; g; h] ++ [i; j; k; l; m; n; o; p].

(** The table, in blocks of the character code's upper bits: punctuation and
    digits, capitals, small letters. *)
Definition GLYPHS_20 : list (list Z) :=
  [scanlines 0x00 0x00 0x00 0x00 0x00 0x00 0x00 0x00 0x00 0x00 0x00 0x00 0x00 0x00 0x00 0x00;
   scanlines 0x00 0x00 0x18 0x3c 0x3c 0x3c 0x18 0x18 0x18 0x00 0x18 0x18 0x00 0x00 0x00 0x00;
   scanlines 0x00 0x66 0x66 0x66 0x24 0x00 0x00 0x00 0x00 0x00 0x00 0x00 0x00 0x00 0x00 0x00;
   scanlines 0x00 0x00 0x00 0x6c 0x6c 0xfe 0x6c 0x6c 0x6c 0xfe 0x6c 0x6c 0x00 0x00 0x00 0x00;
   scanlines 0x18 0x18 0x7c 0xc6 0xc2 0xc0 0x7c 0x06 0x06 0x86 0xc6 0x7c 0x18 0x18 0x00 0x00;
   scanlines 0x00 0x00 0x00 0x00 0xc2 0xc6 0x0c 0x18 0x30 0x60 0xc6 0x86 0x00 0x00 0x00 0x00;
   scanlines 0x00 0x00 0x38 0x6c 0x6c 0x38 0x76 0xdc 0xcc 0xcc 0xcc 0x76 0x00 0x00 0x00 0x00;
   scanlines 0x00 0x30 0x30 0x30 0x20 0x00 0x00 0x00 0x00 0x00 0x00 0x00 0x00 0x00 0x00 0x00;
   scanlines 0x00 0x00 0x0c 0x18 0x30 0x30 0x30 0x30 0x30 0x30 0x18 0x0c 0x00 0x00 0x00 0x00;
   scanlines 0x00 0x00 0x30 0x18 0x0c 0x0c 0x0c 0x0c 0x0c 0x0c 0x18 0x30 0x00 0x00 0x00 0x00;
   scanlines 0x00 0x00 0x00 0x00 0x00 0x66 0x3c 0xff 0x3c 0x66 0x00 0x00 0x00 0x00 0x00 0x00;
   scanlines 0x00 0x00 0x00 0x00 0x00 0x18 0x18 0x7e 0x18 0x18 0x00 0x00 0x00 0x00 0x00 0x00;
   scanlines 0x00 0x00 0x00 0x00 0x00 0x00 0x00 0x00 0x00 0x18 0x18 0x18 0x30 0x00 0x00 0x00;
   scanlines 0x00 0x00 0x00 0x00 0x00 0x00 0x00 0xfe 0x00 0x00 0x00 0x00 0x00 0x00 0x00 0x00;
   scanlines 0x00 0x00 0x00 0x00 0x00 0x00 0x00 0x00 0x00 0x00 0x18 0x18 0x00 0x00 0x00 0x00;
   scanlines 0x00 0x00 0x00 0x00 0x02 0x06 0x0c 0x18 0x30 0x60 0xc0 0x80 0x00 0x00 0x00 0x00;
   scanlines 0x00 0x00 0x38 0x6c 0xc6 0xc6 0xd6 0xd6 0xc6 0xc6 0x6c 0x38 0x00 0x00 0x00 0x00;
   scanlines 0x00 0x00 0x18 0x38 0x78 0x18 0x18 0x18 0x18 0x18 0x18 0x7e 0x00 0x00 0x00 0x00;
   scanlines 0x00 0x00 0x7c 0xc6 0x06 0x0c 0x18 0x30 0x60 0xc0 0xc6 0xfe 0x00 0x00 0x00 0x00;
   scanlines 0x00 0x00 0x7c 0xc6 0x06 0x06 0x3c 0x06 0x06 0x06 0xc6 0x7c 0x00 0x00 0x00 0x00;
   scanlines 0x00 0x00 0x0c 0x1c 0x3c 0x6c 0xcc 0xfe 0x0c 0x0c 0x0c 0x1e 0x00 0x00 0x00 0x00;
   scanlines 0x00 0x00 0xfe 0xc0 0xc0 0xc0 0xfc 0x06 0x06 0x06 0xc6 0x7c 0x00 0x00 0x00 0x00;
   scanlines 0x00 0x00 0x38 0x60 0xc0 0xc0 0xfc 0xc6 0xc6 0xc6 0xc6 0x7c 0x00 0x00 0x00 0x00;
   scanlines 0x00 0x00 0xfe 0xc6 0x06 0x06 0x0c 0x18 0x30 0x30 0x30 0x30 0x00 0x00 0x00 0x00;
   scanlines 0x00 0x00 0x7c 0xc6 0xc6 0xc6 0x7c 0xc6 0xc6 0xc6 0xc6 0x7c 0x00 0x00 0x00 0x00;
   scanlines 0x00 0x00 0x7c 0xc6 0xc6 0xc6 0x7e 0x06 0x06 0x06 0x0c 0x78 0x00 0x00 0x00 0x00;
   scanlines 0x00 0x00 0x00 0x00 0x18 0x18 0x00 0x00 0x00 0x18 0x18 0x00 0x00 0x00 0x00 0x00;
   scanlines 0x00 0x00 0x00 0x00 0x18 0x18 0x00 0x00 0x00 0x18 0x18 0x30 0x00 0x00 0x00 0x00;
   scanlines 0x00 0x00 0x00 0x06 0x0c 0x18 0x30 0x60 0x30 0x18 0x0c 0x06 0x00 0x00 0x00 0x00;
   scanlines 0x00 0x00 0x00 0x00 0x00 0x7e 0x00 0x00 0x7e 0x00 0x00 0x00 0x00 0x00 0x00 0x00;
   scanlines 0x00 0x00 0x00 0x60 0x30 0x18 0x0c 0x06 0x0c 0x18 0x30 0x60 0x00 0x00 0x00 0x00;
   scanlines 0x00 0x00 0x7c 0xc6 0xc6 0x0c 0x18 0x18 0x18 0x00 0x18 0x18 0x00 0x00 0x00 0x00].

Definition GLYPHS_40 : list (list Z) :=
  [scanlines 0x00 0x00 0x00 0x7c 0xc6 0xc6 0xde 0xde 0xde 0xdc 0xc0 0x7c 0x00 0x00 0x00 0x00;
   scanlines 0x00 0x00 0x10 0x38 0x6c 0xc6 0xc6 0xfe 0xc6 0xc6 0xc6 0xc6 0x00 0x00 0x00 0x00;
   scanlines 0x00 0x00 0xfc 0x66 0x66 0x66 0x7c 0x66 0x66 0x66 0x66 0xfc 0x00 0x00 0x00 0x00;
   scanlines 0x00 0x00 0x3c 0x66 0xc2 0xc0 0xc0 0xc0 0xc0 0xc2 0x66 0x3c 0x00 0x00 0x00 0x00;
   scanlines 0x00 0x00 0xf8 0x6c 0x66 0x66 0x66 0x66 0x66 0x66 0x6c 0xf8 0x00 0x00 0x00 0x00;
   scanlines 0x00 0x00 0xfe 0x66 0x62 0x68 0x78 0x68 0x60 0x62 0x66 0xfe 0x00 0x00 0x00 0x00;
   scanlines 0x00 0x00 0xfe 0x66 0x62 0x68 0x78 0x68 0x60 0x60 0x60 0xf0 0x00 0x00 0x00 0x00;
   scanlines 0x00 0x00 0x3c 0x66 0xc2 0xc0 0xc0 0xde 0xc6 0xc6 0x66 0x3a 0x00 0x00 0x00 0x00;
   scanlines 0x00 0x00 0xc6 0xc6 0xc6 0xc6 0xfe 0xc6 0xc6 0xc6 0xc6 0xc6 0x00 0x00 0x00 0x00;
   scanlines 0x00 0x00 0x3c 0x18 0x18 0x18 0x18 0x18 0x18 0x18 0x18 0x3c 0x00 0x00 0x00 0x00;
   scanlines 0x00 0x00 0x1e 0x0c 0x0c 0x0c 0x0c 0x0c 0xcc 0xcc 0xcc 0x78 0x00 0x00 0x00 0x00;
   scanlines 0x00 0x00 0xe6 0x66 0x66 0x6c 0x78 0x78 0x6c 0x66 0x66 0xe6 0x00 0x00 0x00 0x00;
   scanlines 0x00 0x00 0xf0 0x60 0x60 0x60 0x60 0x60 0x60 0x62 0x66 0xfe 0x00 0x00 0x00 0x00;
   scanlines 0x00 0x00 0xc6 0xee 0xfe 0xfe 0xd6 0xc6 0xc6 0xc6 0xc6 0xc6 0x00 0x00 0x00 0x00;
   scanlines 0x00 0x00 0xc6 0xe6 0xf6 0xfe 0xde 0xce 0xc6 0xc6 0xc6 0xc6 0x00 0x00 0x00 0x00;
   scanlines 0x00 0x00 0x7c 0xc6 0xc6 0xc6 0xc6 0xc6 0xc6 0xc6 0xc6 0x7c 0x00 0x00 0x00 0x00;
   scanlines 0x00 0x00 0xfc 0x66 0x66 0x66 0x7c 0x60 0x60 0x60 0x60 0xf0 0x00 0x00 0x00 0x00;
   scanlines 0x00 0x00 0x7c 0xc6 0xc6 0xc6 0xc6 0xc6 0xc6 0xd6 0xde 0x7c 0x0c 0x0e 0x00 0x00;
   scanlines 0x00 0x00 0xfc 0x66 0x66 0x66 0x7c 0x6c 0x66 0x66 0x66 0xe6 0x00 0x00 0x00 0x00;
   scanlines 0x00 0x00 0x7c 0xc6 0xc6 0x60 0x38 0x0c 0x06 0xc6 0xc6 0x7c 0x00 0x00 0x00 0x00;
   scanlines 0x00 0x00 0x7e 0x7e 0x5a 0x18 0x18 0x18 0x18 0x18 0x18 0x3c 0x00 0x00 0x00 0x00;
   scanlines 0x00 0x00 0xc6 0xc6 0xc6 0xc6 0xc6 0xc6 0xc6 0xc6 0xc6 0x7c 0x00 0x00 0x00 0x00;
   scanlines 0x00 0x00 0xc6 0xc6 0xc6 0xc6 0xc6 0xc6 0xc6 0x6c 0x38 0x10 0x00 0x00 0x00 0x00;
   scanlines 0x00 0x00 0xc6 0xc6 0xc6 0xc6 0xd6 0xd6 0xd6 0xfe 0xee 0x6c 0x00 0x00 0x00 0x00;
   scanlines 0x00 0x00 0xc6 0xc6 0x6c 0x7c 0x38 0x38 0x7c 0x6c 0xc6 0xc6 0x00 0x00 0x00 0x00;
   scanlines 0x00 0x00 0x66 0x66 0x66 0x66 0x3c 0x18 0x18 0x18 0x18 0x3c 0x00 0x00 0x00 0x00;
   scanlines 0x00 0x00 0xfe 0xc6 0x86 0x0c 0x18 0x30 0x60 0xc2 0xc6 0xfe 0x00 0x00 0x00 0x00;
   scanlines 0x00 0x00 0x3c 0x30 0x30 0x30 0x30 0x30 0x30 0x30 0x30 0x3c 0x00 0x00 0x00 0x00;
   scanlines 0x00 0x00 0x00 0x80 0xc0 0xe0 0x70 0x38 0x1c 0x0e 0x06 0x02 0x00 0x00 0x00 0x00;
   scanlines 0x00 0x00 0x3c 0x0c 0x0c 0x0c 0x0c 0x0c 0x0c 0x0c 0x0c 0x3c 0x00 0x00 0x00 0x00;
   scanlines 0x10 0x38 0x6c 0xc6 0x00 0x00 0x00 0x00 0x00 0x00 0x00 0x00 0x00 0x00 0x00 0x00;
   scanlines 0x00 0x00 0x00 0x00 0x00 0x00 0x00 0x00 0x00 0x00 0x00 0x00 0x00 0xff 0x00 0x00].

Definition GLYPHS_60 : list (list Z) :=
  [scanlines 0x30 0x30 0x18 0x00 0x00 0x00 0x00 0x00 0x00 0x00 0x00 0x00 0x00 0x00 0x00 0x00;
   scanlines 0x00 0x00 0x00 0x00 0x00 0x78 0x0c 0x7c 0xcc 0xcc 0xcc 0x76 0x00 0x00 0x00 0x00;
   scanlines 0x00 0x00 0xe0 0x60 0x60 0x78 0x6c 0x66 0x66 0x66 0x66 0x7c 0x00 0x00 0x00 0x00;
   scanlines 0x00 0x00 0x00 0x00 0x00 0x7c 0xc6 0xc0 0xc0 0xc0 0xc6 0x7c 0x00 0x00 0x00 0x00;
   scanlines 0x00 0x00 0x1c 0x0c 0x0c 0x3c 0x6c 0xcc 0xcc 0xcc 0xcc 0x76 0x00 0x00 0x00 0x00;
   scanlines 0x00 0x00 0x00 0x00 0x00 0x7c 0xc6 0xfe 0xc0 0xc0 0xc6 0x7c 0x00 0x00 0x00 0x00;
   scanlines 0x00 0x00 0x38 0x6c 0x64 0x60 0xf0 0x60 0x60 0x60 0x60 0xf0 0x00 0x00 0x00 0x00;
   scanlines 0x00 0x00 0x00 0x00 0x00 0x76 0xcc 0xcc 0xcc 0xcc 0xcc 0x7c 0x0c 0xcc 0x78 0x00;
   scanlines 0x00 0x00 0xe0 0x60 0x60 0x6c 0x76 0x66 0x66 0x66 0x66 0xe6 0x00 0x00 0x00 0x00;
   scanlines 0x00 0x00 0x18 0x18 0x00 0x38 0x18 0x18 0x18 0x18 0x18 0x3c 0x00 0x00 0x00 0x00;
   scanlines 0x00 0x00 0x06 0x06 0x00 0x0e 0x06 0x06 0x06 0x06 0x06 0x06 0x66 0x66 0x3c 0x00;
   scanlines 0x00 0x00 0xe0 0x60 0x60 0x66 0x6c 0x78 0x78 0x6c 0x66 0xe6 0x00 0x00 0x00 0x00;
   scanlines 0x00 0x00 0x38 0x18 0x18 0x18 0x18 0x18 0x18 0x18 0x18 0x3c 0x00 0x00 0x00 0x00;
   scanlines 0x00 0x00 0x00 0x00 0x00 0xec 0xfe 0xd6 0xd6 0xd6 0xd6 0xc6 0x00 0x00 0x00 0x00;
   scanlines 0x00 0x00 0x00 0x00 0x00 0xdc 0x66 0x66 0x66 0x66 0x66 0x66 0x00 0x00 0x00 0x00;
   scanlines 0x00 0x00 0x00 0x00 0x00 0x7c 0xc6 0xc6 0xc6 0xc6 0xc6 0x7c 0x00 0x00 0x00 0x00;
   scanlines 0x00 0x00 0x00 0x00 0x00 0xdc 0x66 0x66 0x66 0x66 0x66 0x7c 0x60 0x60 0xf0 0x00;
   scanlines 0x00 0x00 0x00 0x00 0x00 0x76 0xcc 0xcc 0xcc 0xcc 0xcc 0x7c 0x0c 0x0c 0x1e 0x00;
   scanlines 0x00 0x00 0x00 0x00 0x00 0xdc 0x76 0x66 0x60 0x60 0x60 0xf0 0x00 0x00 0x00 0x00;
   scanlines 0x00 0x00 0x00 0x00 0x00 0x7c 0xc6 0x60 0x38 0x0c 0xc6 0x7c 0x00 0x00 0x00 0x00;
   scanlines 0x00 0x00 0x10 0x30 0x30 0xfc 0x30 0x30 0x30 0x30 0x36 0x1c 0x00 0x00 0x00 0x00;
   scanlines 0x00 0x00 0x00 0x00 0x00 0xcc 0xcc 0xcc 0xcc 0xcc 0xcc 0x76 0x00 0x00 0x00 0x00;
   scanlines 0x00 0x00 0x00 0x00 0x00 0x66 0x66 0x66 0x66 0x66 0x3c 0x18 0x00 0x00 0x00 0x00;
   scanlines 0x00 0x00 0x00 0x00 0x00 0xc6 0xc6 0xd6 0xd6 0xd6 0xfe 0x6c 0x00 0x00 0x00 0x00;
   scanlines 0x00 0x00 0x00 0x00 0x00 0xc6 0x6c 0x38 0x38 0x38 0x6c 0xc6 0x00 0x00 0x00 0x00;
   scanlines 0x00 0x00 0x00 0x00 0x00 0xc6 0xc6 0xc6 0xc6 0xc6 0xc6 0x7e 0x06 0x0c 0xf8 0x00;
   scanlines 0x00 0x00 0x00 0x00 0x00 0xfe 0xcc 0x18 0x30 0x60 0xc6 0xfe 0x00 0x00 0x00 0x00;
   scanlines 0x00 0x00 0x0e 0x18 0x18 0x18 0x70 0x18 0x18 0x18 0x18 0x0e 0x00 0x00 0x00 0x00;
   scanlines 0x00 0x00 0x18 0x18 0x18 0x18 0x18 0x18 0x18 0x18 0x18 0x18 0x00 0x00 0x00 0x00;
   scanlines 0x00 0x00 0x70 0x18 0x18 0x18 0x0e 0x18 0x18 0x18 0x18 0x70 0x00 0x00 0x00 0x00;
   scanlines 0x00 0x00 0x76 0xdc 0x00 0x00 0x00 0x00 0x00 0x00 0x00 0x00 0x00 0x00 0x00 0x00].

Definition GLYPHS : list (list Z) := GLYPHS_20 ++ GLYPHS_40 ++ GLYPHS_60.

(** [glyph]: anything unprintable is drawn as a question mark; an index out of
    the table panics. *)
Definition glyph {E} (byte : Z) : outcome E (list Z) :=
  index ← if (FIRST <=? byte) && (byte <=? LAST) then sub_u byte FIRST else sub_u 63 FIRST;
  match GLYPHS !! Z.to_nat index with Some bitmap => Ok bitmap | None => Panic end.

(** The bitmap drawn for a byte. *)
Definition bitmap_of (byte : Z) : list Z :=
  default [] (GLYPHS !! Z.to_nat (if (FIRST <=? byte) && (byte <=? LAST) then byte - FIRST else 63 - FIRST)).

(** [scanline & (0x80 >> dx) != 0]. *)
Definition lit (scanline dx : Z) : bool := negb (Z.land scanline (Z.shiftr 0x80 dx) =? 0).

(** Whether the pixel at (dx, dy) of a byte's cell is foreground. *)
Definition glyph_bit (byte dx dy : Z) : bool := lit (default 0 (bitmap_of byte !! Z.to_nat dy)) dx.

Definition table_ok : bool :=
  (length GLYPHS =? 95)%nat &&
  forallb (fun g => (length g =? 16)%nat && forallb (fun v => (0 <=? v) && (v <? 256)) g) GLYPHS.

Lemma GLYPHS_ok : table_ok = true.
Proof. vm_compute. reflexivity. Qed.

Lemma length_GLYPHS : length GLYPHS = 95%nat.
Proof. reflexivity. Qed.

(** Every byte has a bitmap of sixteen scanlines. *)
Lemma glyph_total {E} byte :
  0 <= byte < 256 -> glyph (E := E) byte = Ok (bitmap_of byte) /\ length (bitmap_of byte) = 16%nat.
Proof.
  intros Hb. unfold glyph, bitmap_of. set (in_range := (FIRST <=? byte) && (byte <=? LAST)).
  assert (0 <= (if in_range then byte - FIRST else 63 - FIRST) < 95) as Hi.
  { unfold in_range, FIRST, LAST. destruct (Z.leb_spec 32 byte), (Z.leb_spec byte 126); simpl; lia. }
  assert ((if in_range then sub_u byte FIRST else sub_u 63 FIRST) =
    Ok (E := E) (if in_range then byte - FIRST else 63 - FIRST)) as ->.
  { destruct in_range; [apply sub_u_ok; lia|reflexivity]. }
  rewrite bind_Ok. set (i := if in_range then byte - FIRST else 63 - FIRST) in *.
  destruct (lookup_lt_is_Some_2 GLYPHS (Z.to_nat i)) as [g Hg]; [rewrite length_GLYPHS; lia|].
  rewrite Hg. split; [done|]. simpl.
  pose proof GLYPHS_ok as Hok. unfold table_ok in Hok. apply andb_true_iff in Hok as [_ Hok].
  rewrite forallb_forall in Hok. apply list_elem_of_lookup_2, list_elem_of_In in Hg.
  specialize (Hok g Hg). apply andb_true_iff in Hok as [Hl _]. by apply Nat.eqb_eq in Hl.
Qed.

(** A space is blank. *)
Lemma glyph_bit_space dx dy : 0 <= dx < 8 -> 0 <= dy < 16 -> glyph_bit 32 dx dy = false.
Proof.
  intros Hx Hy. assert (forallb (fun dy => forallb (fun dx => negb (glyph_bit 32 dx dy)) (seqZ 0 8)) (seqZ 0 16) = true)
    as H by (vm_compute; reflexivity).
  rewrite forallb_forall in H. specialize (H dy (proj1 (list_elem_of_In _ _) (proj2 (elem_of_seqZ _ _ _) Hy))).
  rewrite forallb_forall in H. specialize (H dx (proj1 (list_elem_of_In _ _) (proj2 (elem_of_seqZ _ _ _) Hx))).
  by apply negb_true_iff in H.
Qed.
