(* ===== verification/Console.v ===== *)
(** The text console over the linear framebuffer ([kernel/src/console.rs]),
    and the terminal it implements. *)
From S2P Require Import Prelude Memory BootInfo Font.

(** ** [console.rs] *)

Record Console := {
  co_framebuffer : FrameBufferInfo;
  co_column : Z;
  co_row : Z;
  co_columns : Z;
  co_rows : Z;
  co_foreground : Z;
  co_background : Z;
}.

Definition set_cell (row column : Z) (c : Console) : Console :=
  {| co_framebuffer := co_framebuffer c; co_column := column; co_row := row;
     co_columns := co_columns c; co_rows := co_rows c;
     co_foreground := co_foreground c; co_background := co_background c |}.

Definition pack (format : PixelFormatKind) (red green blue : Z) : Z :=
  match format with
  | Rgb => Z.lor (Z.lor red (Z.shiftl green 8)) (Z.shiftl blue 16)
  | Bgr => Z.lor (Z.lor blue (Z.shiftl green 8)) (Z.shiftl red 16)
  end.

(** [Console::new]. *)
Definition console_new (framebuffer : FrameBufferInfo) : option Console :=
  format ← pixel_format framebuffer;
  let width := fb_width framebuffer in
  let height := fb_height framebuffer in
  let stride := fb_stride framebuffer in
  if (fb_addr framebuffer =? 0) || negb (fb_addr framebuffer mod 4 =? 0)
     || negb (fb_bytes_per_pixel framebuffer =? 4) || (stride <? width)
     || (width <? GLYPH_WIDTH) || (height <? GLYPH_HEIGHT)
  then None else
  pixels ← checked_mul 64 stride height;
  bytes ← checked_mul 64 pixels 4;
  if (fb_size framebuffer <? bytes) ||
     match checked_add 64 (fb_addr framebuffer) bytes with None => true | Some _ => false end
  then None else
  Some {| co_framebuffer := framebuffer; co_column := 0; co_row := 0;
          co_columns := width / GLYPH_WIDTH; co_rows := height / GLYPH_HEIGHT;
          co_foreground := pack format 0xE0 0xE0 0xE0;
          co_background := pack format 0x00 0x33 0x99 |}.

(** [pixel]: [wrapping_add] on a pointer to four-byte pixels. *)
Definition pixel {E} (c : Console) (x y : Z) : outcome E Z :=
  line ← mul_u 64 y (fb_stride (co_framebuffer c));
  offset ← add_u 64 line x;
  Ok (as_u 64 (fb_addr (co_framebuffer c) + offset * 4)).

Definition draw_glyph (c : Console) (byte : Z) (m : mem) : res mem :=
  bitmap ← glyph byte;
  origin_x ← mul_u 64 (co_column c) GLYPH_WIDTH;
  origin_y ← mul_u 64 (co_row c) GLYPH_HEIGHT;
  for_range 0 (Z.of_nat (length bitmap)) (fun dy m =>
    let scanline := default 0 (bitmap !! Z.to_nat dy) in
    for_range 0 GLYPH_WIDTH (fun dx m =>
      let colour := if lit scanline dx then co_foreground c else co_background c in
      x ← add_u 64 origin_x dx;
      y ← add_u 64 origin_y dy;
      a ← pixel c x y;
      Ok (store 4 m a colour)) m) m.

(** [ptr::copy] of [n] pixels: memmove. *)
Definition copy_pixels (m : mem) (src dst n : Z) : mem :=
  write_bytes m dst (read_bytes m src (Z.to_nat (n * 4))).

Definition scroll (c : Console) (m : mem) : res mem :=
  let stride := fb_stride (co_framebuffer c) in
  let height := fb_height (co_framebuffer c) in
  shift ← mul_u 64 GLYPH_HEIGHT stride;
  let base := fb_addr (co_framebuffer c) in
  pixels ← mul_u 64 height stride;
  rest ← sub_u pixels shift;
  let m := copy_pixels m (base + shift * 4) base rest in
  top ← sub_u height GLYPH_HEIGHT;
  for_range top height (fun y m =>
    for_range 0 (fb_width (co_framebuffer c)) (fun x m =>
      a ← pixel c x y;
      Ok (store 4 m a (co_background c))) m) m.

Definition newline (c : Console) (m : mem) : res (Console * mem) :=
  below ← add_u 64 (co_row c) 1;
  if below <? co_rows c then Ok (set_cell below 0 c, m)
  else m ← scroll c m; Ok (set_cell (co_row c) 0 c, m).

(** [Console::write_byte]. *)
Definition console_write_byte (c : Console) (byte : Z) (m : mem) : res (Console * mem) :=
  if byte =? 10 then newline c m
  else if byte =? 13 then Ok (c, m)
  else
    '(c, m) ← (if co_columns c <=? co_column c then newline c m else Ok (c, m));
    m ← draw_glyph c byte m;
    column ← add_u 64 (co_column c) 1;
    Ok (set_cell (co_row c) column c, m).

(** The module's [write_byte] on the static. *)
Definition write_byte (console : option Console) (byte : Z) (m : mem) : res (option Console * mem) :=
  match console with
  | None => Ok (None, m)
  | Some c => '(c, m) ← console_write_byte c byte m; Ok (Some c, m)
  end.

(** ** Pixels *)

(** The colour of pixel [i] of a framebuffer at [addr]. *)
Definition pix (addr : Z) (m : mem) (i : Z) : Z := load 4 m (addr + 4 * i).
Definition set_pix (addr : Z) (m : mem) (i v : Z) : mem := store 4 m (addr + 4 * i) v.

Lemma pix_set_eq addr m i v : in_u 32 v -> pix addr (set_pix addr m i v) i = v.
Proof. apply load_store_u32. Qed.

Lemma pix_set_ne addr m i j v : i <> j -> pix addr (set_pix addr m i v) j = pix addr m j.
Proof. intros Hij. apply load_store_ne. lia. Qed.

Lemma set_pix_agree addr m i v n :
  0 <= i < n -> mem_agree (fun x => ~ range addr (4 * n) x) m (set_pix addr m i v).
Proof. intros Hi. apply mem_agree_store. unfold range. lia. Qed.

(** ** What [new] establishes, and every write keeps *)

Record console_ok (c : Console) : Prop := {
  ok_fb : FrameBufferInfo_ok (co_framebuffer c);
  ok_stride : fb_width (co_framebuffer c) <= fb_stride (co_framebuffer c);
  ok_height : GLYPH_HEIGHT <= fb_height (co_framebuffer c);
  ok_columns : co_columns c = fb_width (co_framebuffer c) / GLYPH_WIDTH;
  ok_rows : co_rows c = fb_height (co_framebuffer c) / GLYPH_HEIGHT;
  ok_cols_pos : 0 < co_columns c;
  ok_span : fb_addr (co_framebuffer c) + 4 * (fb_stride (co_framebuffer c) * fb_height (co_framebuffer c)) < 2 ^ 64;
  ok_size : 4 * (fb_stride (co_framebuffer c) * fb_height (co_framebuffer c)) <= fb_size (co_framebuffer c);
  ok_row : 0 <= co_row c < co_rows c;
  ok_column : 0 <= co_column c <= co_columns c;
  ok_fg : in_u 32 (co_foreground c);
  ok_bg : in_u 32 (co_background c);
}.

(** The bytes of the screen. *)
Definition screen (fb : FrameBufferInfo) (x : Z) : Prop :=
  range (fb_addr fb) (4 * (fb_stride fb * fb_height fb)) x.

Lemma pack_u32 f r g b : 0 <= r < 256 -> 0 <= g < 256 -> 0 <= b < 256 -> in_u 32 (pack f r g b).
Proof.
  intros Hr Hg Hb. assert (forall x y z, 0 <= x < 256 -> 0 <= y < 256 -> 0 <= z < 256 ->
    in_u 32 (Z.lor (Z.lor x (Z.shiftl y 8)) (Z.shiftl z 16))) as H.
  { clear. intros x y z Hx Hy Hz. rewrite !Z.shiftl_mul_pow2 by lia. split.
    - apply Z.lor_nonneg. split; [apply Z.lor_nonneg|]; lia.
    - assert (0 <= Z.lor (Z.lor x (y * 2 ^ 8)) (z * 2 ^ 16)) as Hnn
        by (apply Z.lor_nonneg; split; [apply Z.lor_nonneg|]; lia).
      destruct (Z.eq_dec (Z.lor (Z.lor x (y * 2 ^ 8)) (z * 2 ^ 16)) 0) as [->|Hnz]; [lia|].
      apply Z.log2_lt_pow2; [lia|]. rewrite !Z.log2_lor by (try apply Z.lor_nonneg; lia).
      assert (forall v, 0 <= v < 2 ^ 32 -> Z.log2 v < 32) as Hlog.
      { intros v Hv. destruct (Z.eq_dec v 0) as [->|]; [simpl; lia|]. apply Z.log2_lt_pow2; lia. }
      apply Z.max_lub_lt; [apply Z.max_lub_lt|]; apply Hlog; lia. }
  destruct f; by apply H.
Qed.

Lemma console_new_ok fb c : FrameBufferInfo_ok fb -> console_new fb = Some c ->
  console_ok c /\ co_framebuffer c = fb /\ co_row c = 0 /\ co_column c = 0 /\
  exists f, pixel_format fb = Some f /\ co_background c = pack f 0x00 0x33 0x99 /\
    co_foreground c = pack f 0xE0 0xE0 0xE0 /\ fb_bytes_per_pixel fb = 4.
Proof.
  intros Hfb. destruct (id Hfb) as ([Ha0 Ha] & Hsz & Hw & Hh & Hs & _). unfold console_new.
  destruct (pixel_format fb) as [f|] eqn:Hf; [|done]. simpl mbind.
  destruct ((fb_addr fb =? 0) || _ || _ || _ || _ || _) eqn:E; [done|].
  repeat rewrite orb_false_iff in E. destruct E as (((((_ & _) & E3) & E4) & E5) & E6).
  apply negb_false_iff, Z.eqb_eq in E3. apply Z.ltb_ge in E4, E5, E6.
  unfold checked_mul, checked_add. unfold GLYPH_WIDTH, GLYPH_HEIGHT, in_u in *.
  destruct (Z.ltb_spec (fb_stride fb * fb_height fb) (2 ^ 64)); [|done]. simpl mbind.
  destruct (Z.ltb_spec (fb_stride fb * fb_height fb * 4) (2 ^ 64)); [|done]. simpl mbind.
  destruct (Z.ltb_spec (fb_size fb) (fb_stride fb * fb_height fb * 4)); [done|]. simpl orb.
  destruct (Z.ltb_spec (fb_addr fb + fb_stride fb * fb_height fb * 4) (2 ^ 64)); [|done].
  intros [= <-]. split.
  - split; unfold GLYPH_WIDTH, GLYPH_HEIGHT; simpl; try done; try lia; try (by apply pack_u32).
    + apply Z.div_str_pos. lia.
    + split; [lia|]. apply Z.div_str_pos. lia.
    + split; [lia|]. apply Z.div_pos; lia.
  - repeat (split; [done|]). by exists f.
Qed.

(** Coordinates on the screen. *)
Definition on_screen (fb : FrameBufferInfo) (x y : Z) : Prop :=
  0 <= x < fb_stride fb /\ 0 <= y < fb_height fb.

Definition pixel_index (fb : FrameBufferInfo) (x y : Z) : Z := y * fb_stride fb + x.

(** The colour at (x, y). *)
Definition pixel_at (fb : FrameBufferInfo) (m : mem) (x y : Z) : Z :=
  pix (fb_addr fb) m (pixel_index fb x y).

Lemma pixel_index_bound fb x y :
  on_screen fb x y -> 0 <= pixel_index fb x y < fb_stride fb * fb_height fb.
Proof. unfold on_screen, pixel_index. intros [Hx Hy]. nia. Qed.

Lemma pixel_index_inj fb x y x' y' :
  on_screen fb x y -> on_screen fb x' y' -> pixel_index fb x y = pixel_index fb x' y' ->
  x = x' /\ y = y'.
Proof.
  unfold on_screen, pixel_index. intros [Hx Hy] [Hx' Hy'] He.
  destruct (Z.lt_trichotomy y y') as [|[->|]]; [exfalso; nia|lia|exfalso; nia].
Qed.

(** Setting one pixel changes that one. *)
Lemma pixel_at_set fb m x y x' y' v :
  on_screen fb x y -> on_screen fb x' y' -> in_u 32 v ->
  pixel_at fb (set_pix (fb_addr fb) m (pixel_index fb x y) v) x' y' =
  if bool_decide (x' = x /\ y' = y) then v else pixel_at fb m x' y'.
Proof.
  intros Hon Hon' Hv. unfold pixel_at. destruct (decide (x' = x /\ y' = y)) as [[-> ->]|Hne].
  - rewrite bool_decide_true by done. by apply pix_set_eq.
  - rewrite bool_decide_false by done. apply pix_set_ne. intros He. apply Hne.
    destruct (pixel_index_inj fb x y x' y' Hon Hon' He). done.
Qed.

(** Painting a rectangle pixel by pixel, rows outermost. *)
Lemma paint_spec fb ox oy x0 x1 y0 y1 (colour : Z -> Z -> Z) (body : Z -> Z -> mem -> res mem) m :
  x0 <= x1 -> y0 <= y1 ->
  (forall x y, x0 <= x < x1 -> y0 <= y < y1 ->
     on_screen fb (ox + x) (oy + y) /\ in_u 32 (colour x y) /\
     forall m, body y x m = Ok (set_pix (fb_addr fb) m (pixel_index fb (ox + x) (oy + y)) (colour x y))) ->
  exists m', for_range y0 y1 (fun y m => for_range x0 x1 (body y) m) m = Ok m' /\
    mem_agree (fun a => ~ screen fb a) m m' /\
    forall x y, on_screen fb x y -> pixel_at fb m' x y =
      if bool_decide (x0 <= x - ox < x1 /\ y0 <= y - oy < y1)
      then colour (x - ox) (y - oy) else pixel_at fb m x y.
Proof.
  intros Hx01 Hy01 Hbody.
  set (done_upto xe ye m' := mem_agree (fun a => ~ screen fb a) m m' /\
    forall x y, on_screen fb x y -> pixel_at fb m' x y =
      if bool_decide (x0 <= x - ox < x1 /\ y0 <= y - oy /\ (y - oy < ye \/ (y - oy = ye /\ x - ox < xe)))
      then colour (x - ox) (y - oy) else pixel_at fb m x y).
  destruct (for_range_inv (fun y m' => done_upto x0 y m') y0 y1
    (fun y m => for_range x0 x1 (body y) m) m Hy01) as (m' & Hr & Hag & Hpx).
  - split; [done|]. intros x y Hon. by rewrite bool_decide_false by lia.
  - intros y m1 Hy Hm1.
    destruct (for_range_inv (fun x m' => done_upto x y m') x0 x1 (body y) m1 Hx01 Hm1)
      as (m2 & -> & Hag2 & Hpx2).
    + intros x m2 Hx [Hag2 Hpx2]. destruct (Hbody x y Hx Hy) as (Hon & Hu & ->).
      eexists. split; [done|]. split.
      * etrans; [exact Hag2|]. apply set_pix_agree. by apply pixel_index_bound.
      * intros x' y' Hon'. rewrite pixel_at_set by done. rewrite Hpx2 by done.
        destruct (decide (x' = ox + x /\ y' = oy + y)) as [[-> ->]|Hne].
        -- rewrite !bool_decide_true by lia. f_equal; lia.
        -- rewrite (bool_decide_false (x' = ox + x /\ y' = oy + y)) by done.
           erewrite bool_decide_ext; [done|]. lia.
    + exists m2. split; [done|]. split; [done|]. intros x' y' Hon'. rewrite Hpx2 by done.
      erewrite bool_decide_ext; [done|]. lia.
  - exists m'. split; [done|]. split; [done|]. intros x y Hon. rewrite Hpx by done.
    erewrite bool_decide_ext; [done|]. lia.
Qed.

(** On the screen the address computation neither overflows nor wraps. *)
Lemma pixel_Ok {E} c x y :
  console_ok c -> on_screen (co_framebuffer c) x y ->
  pixel (E := E) c x y = Ok (fb_addr (co_framebuffer c) + 4 * pixel_index (co_framebuffer c) x y).
Proof.
  intros Hok Hon. pose proof (pixel_index_bound _ x y Hon) as Hb.
  pose proof (ok_span c Hok). destruct (ok_fb c Hok) as ([Ha0 _] & _ & _ & _ & [Hs0 _] & _).
  unfold pixel. unfold pixel_index, on_screen in *.
  rewrite mul_u_ok, bind_Ok by nia. rewrite add_u_ok, bind_Ok by nia.
  rewrite as_u_small by (unfold in_u; lia). f_equal. lia.
Qed.

(** A cell's pixels are on the screen. *)
Lemma cell_on_screen c x y :
  console_ok c -> 0 <= x < 8 * co_columns c -> 0 <= y < 16 * co_rows c ->
  on_screen (co_framebuffer c) x y.
Proof.
  intros Hok Hx Hy. rewrite (ok_columns c Hok) in Hx. rewrite (ok_rows c Hok) in Hy.
  pose proof (ok_stride c Hok). unfold on_screen, GLYPH_WIDTH, GLYPH_HEIGHT in *. divmod.
Qed.

(** The cell at the cursor becomes the byte's glyph in the two colours; every
    other pixel, and all memory off the screen, is left alone. *)
Lemma draw_glyph_spec c byte m :
  console_ok c -> co_column c < co_columns c -> 0 <= byte < 256 ->
  exists m', draw_glyph c byte m = Ok m' /\
    mem_agree (fun a => ~ screen (co_framebuffer c) a) m m' /\
    forall x y, on_screen (co_framebuffer c) x y -> pixel_at (co_framebuffer c) m' x y =
      if bool_decide (0 <= x - 8 * co_column c < 8 /\ 0 <= y - 16 * co_row c < 16)
      then (if glyph_bit byte (x - 8 * co_column c) (y - 16 * co_row c)
            then co_foreground c else co_background c)
      else pixel_at (co_framebuffer c) m x y.
Proof.
  intros Hok Hcol Hbyte. unfold draw_glyph.
  destruct (glyph_total (E := Empty_set) byte Hbyte) as [-> Hlen]. rewrite bind_Ok.
  pose proof (ok_column c Hok) as Hc. pose proof (ok_row c Hok) as Hr.
  assert (on_screen (co_framebuffer c) (8 * co_columns c - 1) (16 * co_rows c - 1)) as [Hmx Hmy]
    by (apply cell_on_screen; [done|lia|lia]).
  destruct (ok_fb c Hok) as (_ & _ & _ & [_ Hh32] & [_ Hs32] & _).
  unfold GLYPH_WIDTH, GLYPH_HEIGHT. rewrite !mul_u_ok, !bind_Ok by lia. rewrite Hlen.
  apply (paint_spec (co_framebuffer c) (8 * co_column c) (16 * co_row c) 0 8 0 (Z.of_nat 16)
    (fun dx dy => if glyph_bit byte dx dy then co_foreground c else co_background c)); [lia|lia|].
  intros dx dy Hdx Hdy.
  assert (on_screen (co_framebuffer c) (8 * co_column c + dx) (16 * co_row c + dy)) as Hon
    by (apply cell_on_screen; [done|lia|lia]).
  split; [done|]. split; [destruct (glyph_bit byte dx dy); [apply (ok_fg c Hok)|apply (ok_bg c Hok)]|].
  intros m1. rewrite !add_u_ok, !bind_Ok by lia.
  replace (co_column c * 8 + dx) with (8 * co_column c + dx) by lia.
  replace (co_row c * 16 + dy) with (16 * co_row c + dy) by lia.
  rewrite pixel_Ok, bind_Ok by done. reflexivity.
Qed.

(** ** Scrolling *)

Lemma read_bytes_shift m m' a b n :
  (forall k, 0 <= k < Z.of_nat n -> peek m (a + k) = peek m' (b + k)) ->
  read_bytes m a n = read_bytes m' b n.
Proof.
  revert a b. induction n as [|n IH]; intros a b Hk; [done|]. simpl. f_equal.
  - specialize (Hk 0 ltac:(lia)). by rewrite !Z.add_0_r in Hk.
  - apply IH. intros k Hk'. specialize (Hk (k + 1) ltac:(lia)).
    by replace (a + 1 + k) with (a + (k + 1)) by lia; replace (b + 1 + k) with (b + (k + 1)) by lia.
Qed.

(** Overlapping or not, the destination gets what the source held. *)
Lemma pix_copy addr m s n i :
  0 <= n -> 0 <= i ->
  pix addr (copy_pixels m (addr + s * 4) addr n) i = if i <? n then pix addr m (i + s) else pix addr m i.
Proof.
  intros Hn Hi. unfold pix, load, copy_pixels.
  destruct (Z.ltb_spec i n); f_equal.
  - apply read_bytes_shift. intros k Hk.
    rewrite peek_write_bytes, length_read_bytes, bool_decide_true by lia.
    rewrite lookup_read_bytes by lia. simpl. f_equal. lia.
  - apply read_bytes_ext. intros x Hx.
    by rewrite peek_write_bytes, length_read_bytes, bool_decide_false by lia.
Qed.

Lemma copy_pixels_agree addr m src n N :
  0 <= n <= N -> mem_agree (fun a => ~ range addr (4 * N) a) m (copy_pixels m src addr n).
Proof.
  intros Hn. apply mem_agree_write. rewrite length_read_bytes. unfold range. lia.
Qed.

(** Every scanline moves up by the height of a text row, and the last text
    row's worth of scanlines becomes background. *)
Lemma scroll_spec c m :
  console_ok c ->
  exists m', scroll c m = Ok m' /\ mem_agree (fun a => ~ screen (co_framebuffer c) a) m m' /\
    forall x y, on_screen (co_framebuffer c) x y -> pixel_at (co_framebuffer c) m' x y =
      if y <? fb_height (co_framebuffer c) - 16 then pixel_at (co_framebuffer c) m x (y + 16)
      else if x <? fb_width (co_framebuffer c) then co_background c
      else pixel_at (co_framebuffer c) m x y.
Proof.
  intros Hok. destruct (ok_fb c Hok) as ([Ha0 _] & _ & [Hw0 _] & [Hh0 Hh32] & [Hs0 Hs32] & _).
  pose proof (ok_span c Hok). pose proof (ok_height c Hok) as Hhg. pose proof (ok_stride c Hok) as Hst.
  unfold scroll. set (fb := co_framebuffer c) in *. unfold GLYPH_HEIGHT in *.
  cbv zeta. run_arith.
  set (rest := fb_height fb * fb_stride fb - 16 * fb_stride fb).
  set (m1 := copy_pixels m (fb_addr fb + 16 * fb_stride fb * 4) (fb_addr fb) rest).
  destruct (paint_spec fb 0 0 0 (fb_width fb) (fb_height fb - 16) (fb_height fb)
    (fun _ _ => co_background c)
    (fun y x m => a ← pixel c x y; Ok (store 4 m a (co_background c))) m1)
    as (m' & Hr & Hag & Hpx); [lia|lia| |].
  { intros x y Hx Hy. rewrite !Z.add_0_l. assert (on_screen fb x y) as Hon by (unfold on_screen; lia).
    split; [done|]. split; [apply (ok_bg c Hok)|]. intros m2.
    rewrite pixel_Ok, bind_Ok by done. reflexivity. }
  exists m'. split; [exact Hr|]. split.
  { etrans; [|exact Hag]. unfold m1, screen. apply copy_pixels_agree. unfold rest. nia. }
  intros x y Hon. rewrite Hpx by done. destruct Hon as [Hx Hy]. rewrite !Z.sub_0_r.
  assert (pixel_at fb m1 x y = if y <? fb_height fb - 16 then pixel_at fb m x (y + 16) else pixel_at fb m x y) as ->.
  { unfold pixel_at, m1, pixel_index. rewrite pix_copy by (unfold rest; nia).
    destruct (Z.ltb_spec y (fb_height fb - 16)).
    - destruct (Z.ltb_spec (y * fb_stride fb + x) rest) as [|Hge]; [f_equal; lia|].
      exfalso. unfold rest in Hge. nia.
    - destruct (Z.ltb_spec (y * fb_stride fb + x) rest) as [Hlt|]; [|done].
      exfalso. unfold rest in Hlt. nia. }
  destruct (Z.ltb_spec y (fb_height fb - 16)).
  - by rewrite bool_decide_false by lia.
  - destruct (Z.ltb_spec x (fb_width fb)); [by rewrite bool_decide_true by lia|by rewrite bool_decide_false by lia].
Qed.

(** ** The abstract terminal *)

(** What a text terminal is: a cursor, and a character in every cell. *)
Record terminal := Terminal { t_row : Z; t_column : Z; t_cell : Z -> Z -> Z }.

Definition blank_terminal : terminal := Terminal 0 0 (fun _ _ => 32).

Definition t_newline (rows : Z) (t : terminal) : terminal :=
  if t_row t + 1 <? rows then Terminal (t_row t + 1) 0 (t_cell t)
  else Terminal (t_row t) 0 (fun r k => if r =? rows - 1 then 32 else t_cell t (r + 1) k).

(** Bytes without a glyph of their own show as a question mark. *)
Definition t_put (rows columns byte : Z) (t : terminal) : terminal :=
  if byte =? 10 then t_newline rows t
  else if byte =? 13 then t
  else
    let t := if columns <=? t_column t then t_newline rows t else t in
    Terminal (t_row t) (t_column t + 1)
      (fun r k => if (r =? t_row t) && (k =? t_column t) then byte else t_cell t r k).

(** The screen shows the terminal: the cursors agree, every cell's pixels are
    its character's, and the scanlines below the last text row are blank. *)
Record shows (c : Console) (m : mem) (t : terminal) : Prop := {
  sh_row : t_row t = co_row c;
  sh_column : t_column t = co_column c;
  sh_bytes r k : 0 <= t_cell t r k < 256;
  sh_cell x y : 0 <= x < 8 * co_columns c -> 0 <= y < 16 * co_rows c ->
    pixel_at (co_framebuffer c) m x y =
    if glyph_bit (t_cell t (y / 16) (x / 8)) (x mod 8) (y mod 16)
    then co_foreground c else co_background c;
  sh_below x y : 0 <= x < 8 * co_columns c -> 16 * co_rows c <= y < fb_height (co_framebuffer c) ->
    pixel_at (co_framebuffer c) m x y = co_background c;
}.

(** The parts of a console a write never changes. *)
Definition same_geometry (c c' : Console) : Prop :=
  co_framebuffer c' = co_framebuffer c /\ co_columns c' = co_columns c /\ co_rows c' = co_rows c /\
  co_foreground c' = co_foreground c /\ co_background c' = co_background c.

Lemma set_cell_ok c row column :
  console_ok c -> 0 <= row < co_rows c -> 0 <= column <= co_columns c -> console_ok (set_cell row column c).
Proof. intros [] ? ?. by split. Qed.

Lemma same_geometry_set_cell c row column : same_geometry c (set_cell row column c).
Proof. by repeat split. Qed.

(** The text area ends above the last sixteen scanlines' end: the geometry the
    scroll relies on. *)
Lemma text_rows_bounds c :
  console_ok c ->
  16 * co_rows c <= fb_height (co_framebuffer c) < 16 * co_rows c + 16 /\
  8 * co_columns c <= fb_width (co_framebuffer c) /\ 0 < co_rows c.
Proof.
  intros Hok. rewrite (ok_rows c Hok), (ok_columns c Hok). pose proof (ok_height c Hok).
  unfold GLYPH_HEIGHT, GLYPH_WIDTH in *. divmod.
Qed.

(** What is shown depends on the screen's bytes alone. *)
Lemma shows_agree c m m' t :
  console_ok c -> mem_agree (screen (co_framebuffer c)) m m' -> shows c m t -> shows c m' t.
Proof.
  intros Hok Hag [Hr Hc Hb Hcell Hbelow]. destruct (text_rows_bounds c Hok) as (Hh & Hw & Hpos).
  pose proof (ok_stride c Hok).
  assert (forall x y, on_screen (co_framebuffer c) x y ->
    pixel_at (co_framebuffer c) m' x y = pixel_at (co_framebuffer c) m x y) as Hpx.
  { intros x y Hon. symmetry. apply (load_agree _ _ _ _ _ Hag). intros z Hz. unfold screen, range in *.
    pose proof (pixel_index_bound _ _ _ Hon). lia. }
  split; try done; intros x y Hx Hy.
  - rewrite Hpx; [by apply Hcell|]. by apply cell_on_screen.
  - rewrite Hpx; [by apply Hbelow|]. unfold on_screen. lia.
Qed.

(** Scrolling the screen scrolls the terminal. *)
Lemma scroll_shows c m t :
  console_ok c -> shows c m t -> t_row t + 1 = co_rows c ->
  exists m', scroll c m = Ok m' /\ mem_agree (fun a => ~ screen (co_framebuffer c) a) m m' /\
    shows (set_cell (co_row c) 0 c) m' (t_newline (co_rows c) t).
Proof.
  intros Hok [H1 H2 H3 H4 H5] Hlast. destruct (scroll_spec c m Hok) as (m' & Hr & Hag & Hpx).
  destruct (text_rows_bounds c Hok) as (Hh & Hw & Hrp). pose proof (ok_stride c Hok).
  exists m'. split; [done|]. split; [done|].
  unfold t_newline. destruct (Z.ltb_spec (t_row t + 1) (co_rows c)); [lia|].
  split; cbn [set_cell t_row t_column t_cell co_row co_column co_rows co_columns co_framebuffer
    co_foreground co_background]; try done.
  - intros r k. destruct (r =? co_rows c - 1); [lia|apply H3].
  - intros x y Hx Hy. rewrite Hpx by (apply cell_on_screen; done).
    destruct (Z.eqb_spec (y / 16) (co_rows c - 1)) as [Heq|Hne].
    + rewrite glyph_bit_space by (apply Z.mod_pos_bound; lia).
      destruct (Z.ltb_spec y (fb_height (co_framebuffer c) - 16)).
      * apply H5; [done|]. divmod.
      * destruct (Z.ltb_spec x (fb_width (co_framebuffer c))); [done|lia].
    + destruct (Z.ltb_spec y (fb_height (co_framebuffer c) - 16)); [|divmod].
      rewrite H4 by (first [done | divmod]).
      replace ((y + 16) / 16) with (y / 16 + 1) by divmod.
      by replace ((y + 16) mod 16) with (y mod 16) by divmod.
  - intros x y Hx Hy. rewrite Hpx by (unfold on_screen; lia).
    destruct (Z.ltb_spec y (fb_height (co_framebuffer c) - 16)); [lia|].
    destruct (Z.ltb_spec x (fb_width (co_framebuffer c))); [done|lia].
Qed.

Lemma newline_shows c m t :
  console_ok c -> shows c m t ->
  exists c' m', newline c m = Ok (c', m') /\ console_ok c' /\ same_geometry c c' /\
    co_column c' = 0 /\
    mem_agree (fun a => ~ screen (co_framebuffer c) a) m m' /\ shows c' m' (t_newline (co_rows c) t).
Proof.
  intros Hok Hsh. pose proof (ok_row c Hok) as Hr. destruct (text_rows_bounds c Hok) as (Hh & _ & _).
  destruct (ok_fb c Hok) as (_ & _ & _ & [_ Hh32] & _). pose proof (ok_cols_pos c Hok).
  unfold newline. rewrite add_u_ok, bind_Ok by lia. destruct (Z.ltb_spec (co_row c + 1) (co_rows c)).
  - exists (set_cell (co_row c + 1) 0 c), m. split; [done|].
    split; [apply set_cell_ok; [done|lia|lia]|]. split; [apply same_geometry_set_cell|].
    split; [done|]. split; [done|]. destruct Hsh as [H1 H2 H3 H4 H5]. unfold t_newline. rewrite H1.
    destruct (Z.ltb_spec (co_row c + 1) (co_rows c)); [|lia]. by split.
  - destruct (scroll_shows c m t Hok Hsh) as (m' & -> & Hag & Hsh').
    { rewrite (sh_row _ _ _ Hsh). lia. }
    rewrite bind_Ok. exists (set_cell (co_row c) 0 c), m'. split; [done|].
    split; [apply set_cell_ok; [done|lia|lia]|]. split; [apply same_geometry_set_cell|]. done.
Qed.

(** Drawing a character fills its cell. *)
Lemma draw_shows c m t byte :
  console_ok c -> shows c m t -> co_column c < co_columns c -> 0 <= byte < 256 ->
  exists m', draw_glyph c byte m = Ok m' /\ mem_agree (fun a => ~ screen (co_framebuffer c) a) m m' /\
    shows (set_cell (co_row c) (co_column c + 1) c) m'
      (Terminal (t_row t) (t_column t + 1)
        (fun r k => if (r =? t_row t) && (k =? t_column t) then byte else t_cell t r k)).
Proof.
  intros Hok [H1 H2 H3 H4 H5] Hcol Hb. destruct (draw_glyph_spec c byte m Hok Hcol Hb) as (m' & Hd & Hag & Hpx).
  pose proof (ok_row c Hok). pose proof (ok_column c Hok). destruct (text_rows_bounds c Hok) as (Hh & Hw & _).
  pose proof (ok_stride c Hok). exists m'. split; [done|]. split; [done|].
  split; cbn [set_cell t_row t_column t_cell co_row co_column co_rows co_columns co_framebuffer
    co_foreground co_background]; try done.
  - lia.
  - intros r k. destruct ((r =? t_row t) && (k =? t_column t)); [done|apply H3].
  - intros x y Hx Hy. rewrite Hpx by (apply cell_on_screen; done). rewrite H1, H2.
    destruct (Z.eqb_spec (y / 16) (co_row c)), (Z.eqb_spec (x / 8) (co_column c)); simpl andb; cbv iota;
      [rewrite bool_decide_true by divmod|rewrite bool_decide_false by divmod; by apply H4..].
    replace (x - 8 * co_column c) with (x mod 8) by divmod.
    by replace (y - 16 * co_row c) with (y mod 16) by divmod.
  - intros x y Hx Hy. rewrite Hpx by (unfold on_screen; lia).
    rewrite bool_decide_false by lia. by apply H5.
Qed.

(** One byte, on the screen and on the terminal. *)
Lemma write_byte_shows c m t byte :
  console_ok c -> shows c m t -> 0 <= byte < 256 ->
  exists c' m', console_write_byte c byte m = Ok (c', m') /\ console_ok c' /\ same_geometry c c' /\
    mem_agree (fun a => ~ screen (co_framebuffer c) a) m m' /\
    shows c' m' (t_put (co_rows c) (co_columns c) byte t).
Proof.
  intros Hok Hsh Hb. unfold console_write_byte, t_put.
  destruct (byte =? 10).
  { destruct (newline_shows c m t Hok Hsh) as (c' & m' & H1 & H2 & H3 & _ & H4 & H5).
    by exists c', m'. }
  destruct (byte =? 13); [by exists c, m|]. rewrite (sh_column _ _ _ Hsh).
  assert (exists c1 m1, (if co_columns c <=? co_column c then newline c m else Ok (c, m)) = Ok (c1, m1) /\
    console_ok c1 /\ same_geometry c c1 /\ co_column c1 < co_columns c1 /\
    mem_agree (fun a => ~ screen (co_framebuffer c) a) m m1 /\
    shows c1 m1 (if co_columns c <=? co_column c then t_newline (co_rows c) t else t))
    as (c1 & m1 & -> & Hok1 & Hg1 & Hc1 & Hag1 & Hsh1).
  { destruct (Z.leb_spec (co_columns c) (co_column c)).
    - destruct (newline_shows c m t Hok Hsh) as (c1 & m1 & H1 & H2 & H3 & H4 & H5 & H6).
      exists c1, m1. repeat (split; [done|]). split; [|done].
      rewrite H4. apply (ok_cols_pos c1 H2).
    - by exists c, m. }
  rewrite bind_Ok. destruct (draw_shows c1 m1 _ byte Hok1 Hsh1 Hc1 Hb) as (m2 & -> & Hag2 & Hsh2).
  rewrite bind_Ok. pose proof (ok_column c1 Hok1) as Hc. pose proof (ok_row c1 Hok1).
  destruct (text_rows_bounds c1 Hok1) as (_ & Hw & _).
  destruct (ok_fb c1 Hok1) as (_ & _ & [_ Hw32] & _).
  rewrite add_u_ok, bind_Ok by lia. eexists _, m2. split; [done|].
  split; [apply set_cell_ok; [done|lia|lia]|]. split.
  { destruct Hg1 as (G1 & G2 & G3 & G4 & G5). by repeat split. }
  split; [|done]. destruct Hg1 as (G1 & _). rewrite G1 in Hag2. by etrans.
Qed.
