(* ===== verification/Screen.v ===== *)
(** The fill that precedes the console ([fill_screen] in
    [kernel/src/main.rs]): what it paints, what it skips, and that the console
    started on top of it shows a blank terminal. *)
From S2P Require Import Prelude Memory BootInfo Font Console.

(** ** [fill_screen] *)

Definition fill_screen (fb : FrameBufferInfo) (red green blue : Z) (m : mem) : res (mem * (Z * bool)) :=
  let pixel_format_fell_back := match pixel_format fb with None => true | Some _ => false end in
  let pixel := match default Bgr (pixel_format fb) with
               | Rgb => [red; green; blue; 0]
               | Bgr => [blue; green; red; 0]
               end in
  let bytes_per_pixel := Z.min (fb_bytes_per_pixel fb) 4 in
  '(m, skipped) ← for_range 0 (fb_height fb) (fun y acc =>
    for_range 0 (fb_width fb) (fun x '(m, skipped) =>
      line ← mul_u 64 y (fb_stride fb);
      p ← add_u 64 line x;
      offset ← mul_u 64 p bytes_per_pixel;
      end_ ← add_u 64 offset bytes_per_pixel;
      if fb_size fb <? end_ then
        skipped ← add_u 64 skipped 1;
        Ok (m, skipped)
      else Ok (write_bytes m (fb_addr fb + offset) (take (Z.to_nat bytes_per_pixel) pixel), skipped)) acc)
    (m, 0);
  Ok (m, (skipped, pixel_format_fell_back)).

(** ** What the fill does to any framebuffer of four-byte pixels *)

(** The byte offset of pixel (x, y), and whether its four bytes end past the
    size the framebuffer reports. *)
Definition pixel_offset (fb : FrameBufferInfo) (x y : Z) : Z := 4 * pixel_index fb x y.
Definition past_end (fb : FrameBufferInfo) (x y : Z) : bool := fb_size fb <? pixel_offset fb x y + 4.

(** The number of pixels of the first [n] of row [y], and of the rows above
    row [y], that are past the end. *)
Definition row_past (fb : FrameBufferInfo) (y n : Z) : Z :=
  tally (Z.to_nat n) (fun x => if past_end fb x y then 1 else 0).
Definition rows_past (fb : FrameBufferInfo) (y : Z) : Z :=
  tally (Z.to_nat y) (fun y => row_past fb y (fb_width fb)).

(** The bytes of the pixels that fit. *)
Definition painted (fb : FrameBufferInfo) (a : Z) : Prop :=
  exists x y, 0 <= x < fb_width fb /\ 0 <= y < fb_height fb /\ past_end fb x y = false /\
    range (fb_addr fb + pixel_offset fb x y) 4 a.

Lemma pack_bytes f r g b :
  0 <= r < 256 -> 0 <= g < 256 -> 0 <= b < 256 ->
  le_bytes 4 (pack f r g b) = match f with Rgb => [r; g; b; 0] | Bgr => [b; g; r; 0] end.
Proof.
  intros Hr Hg Hb.
  assert (forall x y z, 0 <= x < 256 -> 0 <= y < 256 -> 0 <= z < 256 ->
    le_bytes 4 (Z.lor (Z.lor x (Z.shiftl y 8)) (Z.shiftl z 16)) = [x; y; z; 0]) as H.
  { clear. intros x y z Hx Hy Hz. rewrite (lor_shiftl x) by lia. rewrite lor_shiftl by lia.
    replace (x + y * 2 ^ 8 + z * 2 ^ 16) with (le_value [x; y; z; 0]) by (simpl; lia).
    apply (le_bytes_le_value [x; y; z; 0]). unfold is_byte. repeat constructor; lia. }
  destruct f; by apply H.
Qed.

(** Painting pixels of one colour: each holds it afterwards, whatever else
    was painted before. *)
Lemma repaint fb m i j v :
  in_u 32 v -> pix (fb_addr fb) m j = v \/ i = j ->
  pix (fb_addr fb) (set_pix (fb_addr fb) m i v) j = v.
Proof.
  intros Hv [Hj| ->]; [|by apply pix_set_eq].
  destruct (decide (i = j)) as [->|Hne]; [by apply pix_set_eq|]. by rewrite pix_set_ne by done.
Qed.

Section Fill.
Context (fb : FrameBufferInfo) (f : PixelFormatKind) (r g b : Z).
Context (Hfb : FrameBufferInfo_ok fb) (Hf : pixel_format fb = Some f).
Context (Hr : 0 <= r < 256) (Hg : 0 <= g < 256) (Hb : 0 <= b < 256).
Context (Hbpp : fb_bytes_per_pixel fb = 4).
Context (Hspan : 0 < fb_height fb -> 4 * ((fb_height fb - 1) * fb_stride fb + fb_width fb) < 2 ^ 64).

Definition so_far (m : mem) (y x : Z) (acc : mem * Z) : Prop :=
  mem_agree (fun a => ~ painted fb a) m (fst acc) /\
  snd acc = rows_past fb y + row_past fb y x /\
  forall x' y', 0 <= x' < fb_width fb -> 0 <= y' -> y' < y \/ (y' = y /\ x' < x) ->
    past_end fb x' y' = false -> pixel_at fb (fst acc) x' y' = pack f r g b.

Lemma row_past_bound y n : 0 <= n -> 0 <= row_past fb y n <= n.
Proof.
  intros Hn. unfold row_past. destruct (tally_bound (Z.to_nat n) (fun x => if past_end fb x y then 1 else 0) 1).
  - intros i. destruct (past_end fb i y); lia.
  - lia.
Qed.

Lemma rows_past_bound y : 0 <= y -> 0 <= rows_past fb y <= y * fb_width fb.
Proof.
  intros Hy. unfold rows_past.
  destruct (tally_bound (Z.to_nat y) (fun y => row_past fb y (fb_width fb)) (fb_width fb)).
  - intros i. apply row_past_bound. apply Hfb.
  - rewrite Z2Nat.id in * by lia. lia.
Qed.

Lemma fill_pixel m y x acc :
  0 <= y < fb_height fb -> 0 <= x < fb_width fb -> so_far m y x acc ->
  exists acc',
    (let '(m, skipped) := acc in
     line ← mul_u 64 y (fb_stride fb);
     p ← add_u 64 line x;
     offset ← mul_u 64 p 4;
     end_ ← add_u 64 offset 4;
     if fb_size fb <? end_ then
       skipped ← add_u 64 skipped 1;
       Ok (m, skipped)
     else Ok (write_bytes m (fb_addr fb + offset)
       (take (Z.to_nat 4) match f with Rgb => [r; g; b; 0] | Bgr => [b; g; r; 0] end), skipped))
    = Ok (E := Empty_set) acc' /\ so_far m y (x + 1) acc'.
Proof.
  intros Hy Hx. destruct acc as [m1 sk]. intros (Hag & Hsk & Hpx). simpl fst in *. simpl snd in *.
  destruct Hfb as (_ & _ & [_ Hw] & [_ Hh] & [Hs0 _] & _).
  assert (row_past fb y (x + 1) = row_past fb y x + if past_end fb x y then 1 else 0) as Hrow
    by (unfold row_past; by rewrite tally_succ by lia).
  pose proof (row_past_bound y x ltac:(lia)) as Hrb. pose proof (rows_past_bound y ltac:(lia)) as Hrsb.
  assert (0 <= y * fb_stride fb + x /\ 4 * (y * fb_stride fb + x) + 4 <= 4 * ((fb_height fb - 1) * fb_stride fb + fb_width fb))
    as [Hi0 Hi].
  { assert (y * fb_stride fb <= (fb_height fb - 1) * fb_stride fb) by (apply Z.mul_le_mono_nonneg_r; lia).
    assert (0 <= y * fb_stride fb) by (apply Z.mul_nonneg_nonneg; lia). lia. }
  specialize (Hspan ltac:(lia)).
  assert (sk + 1 < 2 ^ 64) as Hsk1.
  { assert (y * fb_width fb <= (2 ^ 32 - 1) * (2 ^ 32 - 1)) by (apply Z.mul_le_mono_nonneg; lia). lia. }
  run_arith.
  assert (past_end fb x y = (fb_size fb <? (y * fb_stride fb + x) * 4 + 4)) as Hpe
    by (unfold past_end, pixel_offset, pixel_index; f_equal; lia).
  rewrite <- Hpe. destruct (past_end fb x y) eqn:Hp.
  - eexists. split; [done|]. split; [done|]. split; [simpl; lia|].
    intros x' y' Hx' Hy' Hlt Hfit. apply Hpx; try done.
    assert (~ (x' = x /\ y' = y)) by (intros [-> ->]; congruence). lia.
  - eexists. split; [done|].
    assert (write_bytes m1 (fb_addr fb + (y * fb_stride fb + x) * 4)
      (take (Z.to_nat 4) match f with Rgb => [r; g; b; 0] | Bgr => [b; g; r; 0] end)
      = set_pix (fb_addr fb) m1 (pixel_index fb x y) (pack f r g b)) as Hw4.
    { unfold set_pix, store. rewrite pack_bytes by done. unfold pixel_index.
      replace (4 * (y * fb_stride fb + x)) with ((y * fb_stride fb + x) * 4) by lia. by destruct f. }
    rewrite Hw4. unfold so_far. simpl fst. simpl snd. split; [|split; [lia|]].
    + etrans; [exact Hag|]. apply mem_agree_store. intros a Ha Hna. apply Ha.
      exists x, y. repeat (split; [done|]). exact Hna.
    + intros x' y' Hx' Hy' Hlt Hfit. unfold pixel_at. apply repaint; [by apply pack_u32|].
      destruct (decide (x' = x /\ y' = y)) as [[-> ->]|Hne]; [by right|left].
      apply Hpx; try done. lia.
Qed.

Lemma fill_screen_run m :
  exists m', fill_screen fb r g b m = Ok (m', (rows_past fb (fb_height fb), false)) /\
    mem_agree (fun a => ~ painted fb a) m m' /\
    forall x y, 0 <= x < fb_width fb -> 0 <= y < fb_height fb -> past_end fb x y = false ->
      pixel_at fb m' x y = pack f r g b.
Proof.
  destruct (id Hfb) as (_ & _ & [Hw0 _] & [Hh0 _] & _).
  unfold fill_screen. rewrite Hf. cbv zeta. simpl default. rewrite Hbpp. change (Z.min 4 4) with 4.
  match goal with |- context [for_range 0 (fb_height fb) ?body (m, 0)] =>
    destruct (for_range_inv (fun y acc => so_far m y 0 acc) 0 (fb_height fb) body (m, 0) Hh0)
      as ([m' sk] & -> & Hag & Hsk & Hpx) end.
  - split; [done|]. split; [done|]. intros x' y' Hx' Hy' Hlt. lia.
  - intros y acc Hy Hacc. cbv beta.
    match goal with |- context [for_range 0 (fb_width fb) ?body acc] =>
      destruct (for_range_inv (fun x acc => so_far m y x acc) 0 (fb_width fb) body acc Hw0 Hacc)
        as (acc' & -> & Hag' & Hsk' & Hpx') end.
    + intros x acc1 Hx Hacc1. by apply fill_pixel.
    + eexists. split; [done|]. split; [done|]. split.
      * rewrite Hsk'. unfold rows_past at 2. rewrite tally_succ by lia. fold (rows_past fb y).
        unfold row_past at 3. simpl. lia.
      * intros x' y' Hx' Hy' Hlt. apply Hpx'; [done|done|lia].
  - rewrite bind_Ok. exists m'. split.
    + simpl in Hsk. rewrite Hsk. unfold row_past. simpl. by rewrite Z.add_0_r.
    + split; [done|]. intros x y Hx Hy. apply Hpx; lia.
Qed.
End Fill.

(** ** Properties *)

(** On any framebuffer of four-byte pixels, however large it claims to be,
    the fill paints every pixel that ends within the reported size, counts
    exactly the ones that do not, and writes no other byte. *)
Theorem fill_screen_paints fb f r g b m :
  FrameBufferInfo_ok fb -> pixel_format fb = Some f -> fb_bytes_per_pixel fb = 4 ->
  0 <= r < 256 -> 0 <= g < 256 -> 0 <= b < 256 ->
  (0 < fb_height fb -> 4 * ((fb_height fb - 1) * fb_stride fb + fb_width fb) < 2 ^ 64) ->
  exists m', fill_screen fb r g b m = Ok (m', (rows_past fb (fb_height fb), false)) /\
    mem_agree (fun a => ~ painted fb a) m m' /\
    forall x y, 0 <= x < fb_width fb -> 0 <= y < fb_height fb -> past_end fb x y = false ->
      pixel_at fb m' x y = pack f r g b.
Proof. intros. by apply fill_screen_run. Qed.

(** A framebuffer the console accepts has every pixel within its size. *)
Lemma rows_past_fits fb :
  fb_width fb <= fb_stride fb -> 0 <= fb_width fb ->
  4 * (fb_stride fb * fb_height fb) <= fb_size fb -> 0 <= fb_height fb ->
  (forall x y, 0 <= x < fb_width fb -> 0 <= y < fb_height fb -> past_end fb x y = false) /\
  rows_past fb (fb_height fb) = 0.
Proof.
  intros Hws Hw Hsz Hh.
  assert (forall x y, 0 <= x < fb_width fb -> 0 <= y < fb_height fb -> past_end fb x y = false) as Hp.
  { intros x y Hx Hy. apply Z.ltb_ge. unfold pixel_offset.
    pose proof (pixel_index_bound fb x y ltac:(unfold on_screen; lia)). lia. }
  split; [exact Hp|]. apply tally_zero. intros y Hy. apply tally_zero. intros x Hx. rewrite Hp; [done|lia|lia].
Qed.

Lemma console_boots_blank_spec fb c m :
  FrameBufferInfo_ok fb -> console_new fb = Some c ->
  exists m', fill_screen fb 0x00 0x33 0x99 m = Ok (m', (0, false)) /\ console_ok c /\
    mem_agree (fun a => ~ screen fb a) m m' /\ shows c m' blank_terminal.
Proof.
  intros Hfb Hc. destruct (console_new_ok fb c Hfb Hc) as (Hok & Heq & Hrow & Hcol & f & Hf & Hbg & Hfg & Hbpp).
  pose proof (ok_stride c Hok) as Hst. pose proof (ok_span c Hok) as Hsp. pose proof (ok_size c Hok) as Hsz.
  destruct (text_rows_bounds c Hok) as (Hh & Hw & _). rewrite Heq in *.
  destruct (id Hfb) as ([Ha0 _] & _ & [Hw0 _] & [Hh0 _] & [Hs0 _] & _).
  destruct (rows_past_fits fb Hst Hw0 Hsz Hh0) as [Hfit Hrp].
  destruct (fill_screen_run fb f 0x00 0x33 0x99 Hfb Hf ltac:(lia) ltac:(lia) ltac:(lia) Hbpp ltac:(lia) m)
    as (m' & Hrun & Hag & Hpx). rewrite Hrp in Hrun.
  exists m'. split; [exact Hrun|]. split; [exact Hok|]. split.
  - intros a Ha. apply Hag. intros (x & y & Hx & Hy & _ & Hr). apply Ha. unfold screen, range, pixel_offset in *.
    pose proof (pixel_index_bound fb x y ltac:(unfold on_screen; lia)). lia.
  - split; simpl t_row; simpl t_column; simpl t_cell; rewrite ?Heq; try done.
    + intros x y Hx Hy. rewrite glyph_bit_space by (apply Z.mod_pos_bound; lia).
      rewrite Hbg. apply Hpx; [lia|lia|apply Hfit; lia].
    + intros x y Hx Hy. rewrite Hbg. apply Hpx; [lia|lia|apply Hfit; lia].
Qed.

(** The boot sequence's fill, in the console's background colour, skips
    nothing of a framebuffer the console accepts, and the console then starts
    as a blank terminal with its cursor in the first cell. *)
Theorem console_boots_blank fb c m :
  FrameBufferInfo_ok fb -> console_new fb = Some c ->
  exists m', fill_screen fb 0x00 0x33 0x99 m = Ok (m', (0, false)) /\ console_ok c /\
    mem_agree (fun a => ~ screen fb a) m m' /\ shows c m' blank_terminal.
Proof. apply console_boots_blank_spec. Qed.

(** ** Instances *)

(** A framebuffer of two cells by two, its scanlines padded. *)
Definition demo_fb : FrameBufferInfo := FrameBufferInfo_new 0x80000000 (17 * 33 * 4) 16 33 17 4 Bgr.

(** One that reports less than it spans. *)
Definition short_fb : FrameBufferInfo := FrameBufferInfo_new 0x80000000 (17 * 4) 16 2 17 4 Rgb.

Lemma fill_screen_paints_witness : exists m',
  fill_screen short_fb 1 2 3 ∅ = Ok (m', (16, false)) /\ pixel_at short_fb m' 15 0 = 0x030201.
Proof.
  destruct (fill_screen_paints short_fb Rgb 1 2 3 ∅) as (m' & Hrun & _ & Hpx);
    [by repeat split|done|done|lia|lia|lia|simpl; lia|].
  exists m'. split; [exact Hrun|]. apply Hpx; [simpl; lia|simpl; lia|done].
Defined.

Lemma console_boots_blank_witness : exists c m',
  console_new demo_fb = Some c /\ fill_screen demo_fb 0x00 0x33 0x99 ∅ = Ok (m', (0, false)) /\
  shows c m' blank_terminal.
Proof.
  destruct (console_new demo_fb) as [c|] eqn:Hc; [|discriminate Hc].
  destruct (console_boots_blank demo_fb c ∅) as (m' & Hrun & _ & _ & Hsh); [by repeat split|exact Hc|].
  exists c, m'. split; [reflexivity|]. split; [exact Hrun|exact Hsh].
Defined.
