(* ===== verification/Serial.v ===== *)
(** The UART and the kernel's print path ([kernel/src/serial.rs]): every byte
    goes to COM1 and to the console, inside one critical section. *)
From S2P Require Import Prelude Memory BootInfo Font Port Interrupts Console Screen.

Definition COM1 : Z := 0x3F8.
Definition DATA : Z := 0.
Definition INTERRUPT_ENABLE : Z := 1.
Definition FIFO_CONTROL : Z := 2.
Definition LINE_CONTROL : Z := 3.
Definition MODEM_CONTROL : Z := 4.
Definition LINE_STATUS : Z := 5.
Definition LINE_STATUS_THR_EMPTY : Z := 0x20.

(** What a print touches: the interrupt flag, the ports, the console static
    and the framebuffer's memory. *)
Record machine (D : Type) := Machine {
  mc_if : bool;
  mc_io : io D;
  mc_console : option Console;
  mc_mem : mem;
}.
Arguments Machine {D} _ _ _ _.
Arguments mc_if {D} _.
Arguments mc_io {D} _.
Arguments mc_console {D} _.
Arguments mc_mem {D} _.

#[export] Program Instance machine_HasIF {D} : HasIF (machine D) :=
  {| get_if := mc_if;
     set_if b s := Machine b (mc_io s) (mc_console s) (mc_mem s) |}.
Solve Obligations with by intros; destruct s.

Section Serial.
Context {D : Type} `{Device D}.

(** [serial::init]. *)
Definition serial_init (s : io D) : io D :=
  let s := outb (COM1 + INTERRUPT_ENABLE) 0x00 s in
  let s := outb (COM1 + LINE_CONTROL) 0x80 s in
  let s := outb (COM1 + DATA) 0x03 s in
  let s := outb (COM1 + INTERRUPT_ENABLE) 0x00 s in
  let s := outb (COM1 + LINE_CONTROL) 0x03 s in
  let s := outb (COM1 + FIFO_CONTROL) 0xC7 s in
  outb (COM1 + MODEM_CONTROL) 0x0B s.

(** The busy-wait, [fuel] reads of the line status at most. *)
Fixpoint wait_thr (fuel : nat) (s : io D) : res (io D) :=
  match fuel with
  | O => Loop
  | S fuel =>
      let '(s, status) := inb (COM1 + LINE_STATUS) s in
      if Z.land status LINE_STATUS_THR_EMPTY =? 0 then wait_thr fuel s else Ok s
  end.

(** The driver's own [write_byte]. *)
Definition serial_write_byte (fuel : nat) (byte : Z) (s : io D) : res (io D) :=
  s ← wait_thr fuel s; Ok (outb (COM1 + DATA) byte s).

(** One byte to both outputs. *)
Definition emit (fuel : nat) (byte : Z) (s : machine D) : res (machine D) :=
  i ← serial_write_byte fuel byte (mc_io s);
  '(c, m) ← write_byte (mc_console s) byte (mc_mem s);
  Ok (Machine (mc_if s) i c m).

(** [SerialPort::write_str], on the string's bytes. *)
Fixpoint write_str (fuel : nat) (bytes : list Z) (s : machine D) : res (machine D) :=
  match bytes with
  | [] => Ok s
  | byte :: bytes =>
      s ← (if byte =? 10 then emit fuel 13 s else Ok s);
      s ← emit fuel byte s;
      write_str fuel bytes s
  end.

(** [_print], for arguments whose formatting is the string [bytes]. *)
Definition print (fuel : nat) (bytes : list Z) (s : machine D) : res (machine D * unit) :=
  without_interrupts (fun s => s ← write_str fuel bytes s; Ok (s, ())) s.

(** [console::init] on the static. *)
Definition console_init (fb : FrameBufferInfo) (s : machine D) : machine D :=
  Machine (mc_if s) (mc_io s) (console_new fb) (mc_mem s).
End Serial.

(** What a terminal on the other end of the line is sent. *)
Fixpoint crlf (bytes : list Z) : list Z :=
  match bytes with
  | [] => []
  | byte :: bytes => (if byte =? 10 then [13; 10] else [byte]) ++ crlf bytes
  end.

(** ** The 16550, as its data sheet has it *)

Record uart := Uart {
  u_divisor_low : Z;
  u_divisor_high : Z;
  u_ier : Z;
  u_fcr : Z;
  u_lcr : Z;
  u_mcr : Z;
  u_sent : list Z;     (* bytes put on the line *)
}.

(** Bit 7 of the line control register: registers 0 and 1 are the divisor. *)
Definition dlab (u : uart) : bool := Z.testbit (u_lcr u) 7.

Definition uart_write (w : Z * Z) (u : uart) : uart :=
  let '(Uart dl dh ier fcr lcr mcr sent) := u in
  let '(port, v) := w in
  if port =? 0x3F8 then
    if dlab u then Uart v dh ier fcr lcr mcr sent else Uart dl dh ier fcr lcr mcr (sent ++ [v])
  else if port =? 0x3F9 then
    if dlab u then Uart dl v ier fcr lcr mcr sent else Uart dl dh v fcr lcr mcr sent
  else if port =? 0x3FA then Uart dl dh ier v lcr mcr sent
  else if port =? 0x3FB then Uart dl dh ier fcr v mcr sent
  else if port =? 0x3FC then Uart dl dh ier fcr lcr v sent
  else u.

Definition uart_after (u : uart) (ws : list (Z * Z)) : uart := foldl (fun u w => uart_write w u) u ws.

Definition sent_bytes (bs : list Z) : list (Z * Z) := (fun b => (COM1 + DATA, b)) <$> bs.

Lemma uart_after_sent bs u :
  dlab u = false -> u_sent (uart_after u (sent_bytes bs)) = u_sent u ++ bs /\
  dlab (uart_after u (sent_bytes bs)) = false.
Proof.
  revert u. induction bs as [|b bs IH]; intros u Hu; [by rewrite app_nil_r|].
  assert (uart_write (COM1 + DATA, b) u =
    Uart (u_divisor_low u) (u_divisor_high u) (u_ier u) (u_fcr u) (u_lcr u) (u_mcr u) (u_sent u ++ [b])) as Hw.
  { destruct u. unfold uart_write. simpl. by rewrite Hu. }
  change (uart_after u (sent_bytes (b :: bs))) with (uart_after (uart_write (COM1 + DATA, b) u) (sent_bytes bs)).
  rewrite Hw. edestruct IH as [IHs IHd]; [|split; [rewrite IHs; simpl; by rewrite <- app_assoc|exact IHd]].
  exact Hu.
Qed.

(** Accesses that put exactly [bs] on the line by polling: before each byte
    the status is read until it says the transmitter is empty, and nothing else
    is read or written. *)
Inductive transmits : list Z -> list access -> Prop :=
| tr_nil : transmits [] []
| tr_busy v b bs l :
    Z.land v LINE_STATUS_THR_EMPTY = 0 -> transmits (b :: bs) l ->
    transmits (b :: bs) (In (COM1 + LINE_STATUS) v :: l)
| tr_ready v b bs l :
    Z.land v LINE_STATUS_THR_EMPTY <> 0 -> transmits bs l ->
    transmits (b :: bs) (In (COM1 + LINE_STATUS) v :: Out (COM1 + DATA) b :: l).

Lemma transmits_writes bs l : transmits bs l -> writes l = sent_bytes bs.
Proof. induction 1 as [|v b bs l _ _ IH|v b bs l _ _ IH]; [done|exact IH|]. simpl. by rewrite IH. Qed.

Lemma transmits_app bs bs' l l' : transmits bs l -> transmits bs' l' -> transmits (bs ++ bs') (l ++ l').
Proof. intros Hl Hl'. induction Hl; [done|by constructor|by constructor]. Qed.

(** ** The busy-wait *)

Section Live.
Context {D : Type} `{Device D}.

(** The transmitter reports ready within [n] further reads of its status. *)
Fixpoint ready_within (n : nat) (d : D) : Prop :=
  let '(d', v) := dev_in (COM1 + LINE_STATUS) d in
  Z.land v LINE_STATUS_THR_EMPTY <> 0 \/
  match n with O => False | S n => ready_within n d' end.

Lemma wait_thr_ready n fuel b s :
  ready_within n (io_dev s) -> (n < fuel)%nat ->
  exists s', wait_thr fuel s = Ok s' /\
    exists l, io_log s' = io_log s ++ l /\ transmits [b] (l ++ [Out (COM1 + DATA) b]).
Proof.
  revert fuel s. induction n as [|n IH]; intros fuel s Hr Hf; (destruct fuel as [|fuel]; [lia|]);
    simpl in Hr |- *; destruct (inb_spec (COM1 + LINE_STATUS) s) as (d & v & -> & _ & Hd); rewrite Hd in Hr;
    (destruct (Z.eqb_spec (Z.land v LINE_STATUS_THR_EMPTY) 0) as [Hz|];
      [|eexists; split; [done|]; exists [In (COM1 + LINE_STATUS) v]; split; [done|]; by repeat constructor]).
  - by destruct Hr.
  - destruct Hr as [|Hr]; [done|].
    destruct (IH fuel (Io d (io_log s ++ [In (COM1 + LINE_STATUS) v])) Hr ltac:(lia)) as (s' & -> & l & Hl & Hw).
    exists s'. split; [done|]. exists (In (COM1 + LINE_STATUS) v :: l). split; [|by constructor].
    rewrite Hl. simpl. by rewrite <- app_assoc.
Qed.

(** A transmitter that is always ready again soon: what the driver relies
    on. *)
Definition live (n : nat) : Prop := forall d : D, ready_within n d.

(** ** Printing *)

(** What the text looks like on a terminal. *)
Definition put_all (c : Console) (bytes : list Z) (t : terminal) : terminal :=
  foldl (fun t byte => t_put (co_rows c) (co_columns c) byte t) t bytes.

(** The console static shows the terminal, when there is a console. *)
Definition displays (s : machine D) (t : terminal) : Prop :=
  match mc_console s with
  | None => True
  | Some c => console_ok c /\ shows c (mc_mem s) t
  end.

(** Memory a print may touch. *)
Definition drawn_on (s : machine D) (a : Z) : Prop :=
  match mc_console s with None => False | Some c => screen (co_framebuffer c) a end.

Definition same_console (s s' : machine D) : Prop :=
  match mc_console s, mc_console s' with
  | None, None => True
  | Some c, Some c' => same_geometry c c'
  | _, _ => False
  end.

Definition term_put (s : machine D) (bytes : list Z) (t : terminal) : terminal :=
  match mc_console s with None => t | Some c => put_all c bytes t end.

(** The outcome of writing [out] to the line and [shown] to the console. *)
Record wrote (s s' : machine D) (out shown : list Z) (t : terminal) : Prop := {
  wr_if : mc_if s' = mc_if s;
  wr_log : exists l, io_log (mc_io s') = io_log (mc_io s) ++ l /\ transmits out l;
  wr_console : same_console s s';
  wr_mem : mem_agree (fun a => ~ drawn_on s a) (mc_mem s) (mc_mem s');
  wr_shows : displays s' (term_put s shown t);
}.

Lemma emit_spec n fuel byte s t :
  live n -> (n < fuel)%nat -> 0 <= byte < 256 -> displays s t ->
  exists s', emit fuel byte s = Ok s' /\ wrote s s' [byte] [byte] t.
Proof.
  intros Hlive Hf Hb Ht. unfold emit, serial_write_byte.
  destruct (wait_thr_ready n fuel byte (mc_io s) (Hlive _) Hf) as (i & -> & l & Hl & Hw). rewrite !bind_Ok.
  assert (exists l', io_log (outb (COM1 + DATA) byte i) = io_log (mc_io s) ++ l' /\
    transmits [byte] l') as Hlog.
  { exists (l ++ [Out (COM1 + DATA) byte]). simpl. by rewrite Hl, <- app_assoc. }
  unfold displays, drawn_on in *. destruct (mc_console s) as [c|] eqn:Hc; unfold write_byte.
  - destruct Ht as [Hok Hsh]. destruct (write_byte_shows c (mc_mem s) t byte Hok Hsh Hb)
      as (c' & m' & -> & Hok' & Hg & Hag & Hsh'). rewrite !bind_Ok.
    eexists. split; [done|]. split; unfold same_console, displays, drawn_on, term_put; simpl; rewrite ?Hc; try done.
  - rewrite bind_Ok. eexists. split; [done|].
    split; unfold same_console, displays, drawn_on, term_put; simpl; rewrite ?Hc; done.
Qed.

Lemma same_geometry_refl c : same_geometry c c.
Proof. by repeat split. Qed.

Lemma wrote_nil s t : displays s t -> wrote s s [] [] t.
Proof.
  intros Ht. split; try done.
  - exists []. rewrite app_nil_r. split; [done|constructor].
  - unfold same_console. destruct (mc_console s); [apply same_geometry_refl|done].
  - unfold term_put. by destruct (mc_console s).
Qed.

Lemma wrote_app s s1 s2 o1 o2 b1 b2 t :
  wrote s s1 o1 b1 t -> wrote s1 s2 o2 b2 (term_put s b1 t) -> wrote s s2 (o1 ++ o2) (b1 ++ b2) t.
Proof.
  intros [I1 (l1 & L1 & W1) C1 M1 S1] [I2 (l2 & L2 & W2) C2 M2 S2].
  assert (forall a, drawn_on s1 a -> drawn_on s a) as Hd.
  { intros a. unfold drawn_on, same_console in *.
    destruct (mc_console s), (mc_console s1); try done. by destruct C1 as [-> _]. }
  split.
  - congruence.
  - exists (l1 ++ l2). rewrite L2, L1, <- app_assoc. split; [done|by apply transmits_app].
  - unfold same_console in *. destruct (mc_console s), (mc_console s1), (mc_console s2); try done.
    unfold same_geometry in *; intuition congruence.
  - etrans; [exact M1|]. intros a Ha. apply M2. eauto.
  - assert (term_put s (b1 ++ b2) t = term_put s1 b2 (term_put s b1 t)) as ->; [|done].
    unfold term_put, same_console, put_all in *.
    destruct (mc_console s) as [c|], (mc_console s1) as [c1|]; try done.
    rewrite foldl_app. by destruct C1 as (_ & -> & -> & _).
Qed.

Lemma write_str_spec n fuel bytes s t :
  live n -> (n < fuel)%nat -> Forall is_byte bytes -> displays s t ->
  exists s', write_str fuel bytes s = Ok s' /\ wrote s s' (crlf bytes) bytes t.
Proof.
  intros Hlive Hf Hb. revert s t. induction Hb as [|byte bytes Hbyte _ IH]; intros s t Ht; simpl write_str; simpl crlf.
  - exists s. split; [done|]. by apply wrote_nil.
  - assert (exists s1, (if byte =? 10 then emit fuel 13 s else Ok s) = Ok s1 /\
      wrote s s1 (if byte =? 10 then [13] else []) [] t) as (s1 & -> & W1).
    { destruct (byte =? 10).
      - destruct (emit_spec n fuel 13 s t Hlive Hf ltac:(lia) Ht) as (s1 & He & [I L C M Sh]).
        exists s1. split; [done|]. by split.
      - exists s. split; [done|]. by apply wrote_nil. }
    rewrite bind_Ok.
    destruct (emit_spec n fuel byte s1 _ Hlive Hf Hbyte (wr_shows _ _ _ _ _ W1)) as (s2 & -> & W2).
    rewrite bind_Ok. pose proof (wrote_app _ _ _ _ _ _ _ _ W1 W2) as W12.
    destruct (IH s2 _ (wr_shows _ _ _ _ _ W12)) as (s3 & -> & W3).
    exists s3. split; [done|].
    pose proof (wrote_app _ _ _ _ _ _ _ _ W12 W3) as W. simpl in W.
    destruct (Z.eqb_spec byte 10) as [->|]; exact W.
Qed.

Lemma write_str_keeps_if fuel bytes :
  keeps_if (E := Empty_set) (fun s => s ← write_str fuel bytes s; Ok (s, ())).
Proof.
  assert (forall b (s s' : machine D), emit fuel b s = Ok s' -> mc_if s' = mc_if s) as He.
  { intros b s s' Hs. unfold emit in Hs. inv_bind Hs. inv_bind Hs. destruct a0. by simplify_eq. }
  intros s s' [] Hs. inv_bind Hs. simplify_eq. simpl. revert s H0.
  induction bytes as [|b bytes IH]; intros s Hs; simpl in Hs; [by simplify_eq|].
  inv_bind Hs. inv_bind Hs. rewrite (IH _ Hs), (He _ _ _ H1).
  destruct (b =? 10); [by apply (He 13)|by simplify_eq].
Qed.

Lemma print_spec n fuel bytes s t :
  live n -> (n < fuel)%nat -> Forall is_byte bytes -> displays s t ->
  exists s', print fuel bytes s = Ok (s', ()) /\ wrote s s' (crlf bytes) bytes t.
Proof.
  intros Hlive Hf Hb Ht.
  assert (displays (masked s) t) as Ht' by exact Ht.
  destruct (write_str_spec n fuel bytes (masked s) t Hlive Hf Hb Ht') as (s' & Hrun & W).
  exists (set_if (get_if s) s'). split.
  - unfold print. apply without_interrupts_Ok; [apply write_str_keeps_if|]. by rewrite Hrun.
  - destruct W as [I L C M Sh]. by split.
Qed.
End Live.

(** ** Properties *)

(** What [init] writes, and what that makes of the UART. *)
Lemma serial_init_spec {D} `{Device D} (s : io D) :
  exists ws, io_log (serial_init s) = io_log s ++ ((fun w => Out (fst w) (snd w)) <$> ws) /\
    forall u, uart_after u ws = Uart 3 0 (if dlab u then u_ier u else 0) 0xC7 0x03 0x0B (u_sent u).
Proof.
  exists [(0x3F9, 0); (0x3FB, 0x80); (0x3F8, 3); (0x3F9, 0); (0x3FB, 3); (0x3FA, 0xC7); (0x3FC, 0x0B)].
  rewrite <- io_log_outs. split; [reflexivity|]. intros u. destruct u as [dl dh ier fcr lcr mcr sent].
  assert (forall dh ier, uart_after (Uart dl dh ier fcr lcr mcr sent)
    [(0x3FB, 0x80); (0x3F8, 3); (0x3F9, 0); (0x3FB, 3); (0x3FA, 0xC7); (0x3FC, 0x0B)] =
    Uart 3 0 ier 0xC7 0x03 0x0B sent) as Hrest by reflexivity.
  set (u := Uart dl dh ier fcr lcr mcr sent).
  change (uart_after ?u (?w :: ?ws)) with (uart_after (uart_write w u) ws).
  assert (uart_write (0x3F9, 0) u =
    if dlab u then Uart dl 0 ier fcr lcr mcr sent else Uart dl dh 0 fcr lcr mcr sent) as -> by reflexivity.
  destruct (dlab u); apply Hrest.
Qed.

(** [init] leaves COM1 at 38400 baud (divisor 3), 8N1, FIFOs on, DTR, RTS
    and OUT2 asserted, the data register addressing the line again, and nothing
    sent; but the interrupt mask is cleared only if the firmware left the
    divisor latch closed, since the write meant for it comes before the latch
    is set and is never repeated with the latch clear. *)
Theorem serial_init_programs {D} `{Device D} (s : io D) u :
  exists ws, io_log (serial_init s) = io_log s ++ ((fun w => Out (fst w) (snd w)) <$> ws) /\
    uart_after u ws =
      Uart 3 0 (if dlab u then u_ier u else 0) 0xC7 0x03 0x0B (u_sent u) /\
    dlab (uart_after u ws) = false /\ 115200 / 3 = 38400.
Proof. destruct (serial_init_spec s) as (ws & Hl & Hu). exists ws. rewrite (Hu u). by repeat split. Qed.

(** C19: printing terminates on a transmitter that always becomes ready again,
    never panics, and sends the text with every line feed turned into CR LF:
    it makes no port access but reads of the line status, each byte going out
    after the one that reports the transmitter empty, and the bytes themselves,
    which a UART whose divisor latch is closed puts on the line. It makes the
    screen show exactly what the terminal specification does with the text,
    writes no memory but the screen's, and puts the interrupt flag back. *)
Theorem print_refines_terminal {D} `{Device D} n fuel bytes (s : machine D) t u :
  live (D := D) n -> (n < fuel)%nat -> Forall is_byte bytes -> displays s t -> dlab u = false ->
  exists s' l, print fuel bytes s = Ok (s', ()) /\
    io_log (mc_io s') = io_log (mc_io s) ++ l /\ transmits (crlf bytes) l /\
    u_sent (uart_after u (writes l)) = u_sent u ++ crlf bytes /\
    same_console s s' /\ displays s' (term_put s bytes t) /\
    mem_agree (fun a => ~ drawn_on s a) (mc_mem s) (mc_mem s') /\ mc_if s' = mc_if s.
Proof.
  intros Hlive Hf Hb Ht Hu.
  destruct (print_spec n fuel bytes s t Hlive Hf Hb Ht) as (s' & Hrun & [I (l & L & W) C M Sh]).
  exists s', l. split; [done|]. split; [done|]. split; [done|]. rewrite (transmits_writes _ _ W).
  split; [by apply uart_after_sent|]. by repeat split.
Qed.

(** ** Instances *)

(** A transmitter that is busy for two reads of its status after every
    byte. *)
#[export] Instance slow_uart : Device nat.
Proof.
  refine {| dev_in port d := if port =? 0x3FD then (S d, if (2 <=? d)%nat then 0x60 else 0) else (d, 0xFF);
            dev_out port v d := if port =? 0x3F8 then 0%nat else d |}.
  intros port d. destruct (port =? 0x3FD), (2 <=? d)%nat; simpl; lia.
Defined.

Lemma slow_uart_live : live (D := nat) 2.
Proof.
  intros d. destruct d as [|[|d]]; [right; right; left|right; left|left]; by vm_compute.
Qed.

Lemma print_refines_terminal_witness : exists c m s' l,
  console_new demo_fb = Some c /\
  print 3 [104; 105; 10] (Machine true (Io 0%nat []) (Some c) m) = Ok (s', ()) /\
  u_sent (uart_after (Uart 3 0 0 0xC7 0x03 0x0B []) (writes l)) = [104; 105; 13; 10].
Proof.
  destruct (console_new demo_fb) as [c|] eqn:Hc; [|discriminate Hc].
  assert (FrameBufferInfo_ok demo_fb) as Hfb by (by repeat split).
  destruct (console_boots_blank_spec demo_fb c ∅ Hfb Hc) as (m & _ & Hok & _ & Hsh).
  destruct (print_refines_terminal 2 3 [104; 105; 10] (Machine true (Io 0%nat []) (Some c) m) blank_terminal
    (Uart 3 0 0 0xC7 0x03 0x0B []) slow_uart_live) as (s' & l & Hrun & _ & _ & Hsent & _).
  - lia.
  - repeat constructor; lia.
  - split; [exact Hok|exact Hsh].
  - reflexivity.
  - exists c, m, s', l. split; [reflexivity|]. split; [exact Hrun|exact Hsent].
Defined.
