(* ===== verification/Fmt.v ===== *)
(** What the kernel uses of [core::fmt]: string literals as bytes, decimal and
    [{:#x}] numbers, and the debug form of a character. *)
From Stdlib Require Import String Ascii.
From S2P Require Import Prelude Memory.

(** A string literal. *)
Definition text (s : string) : list Z := (fun a => Z.of_N (N_of_ascii a)) <$> list_ascii_of_string s.

(** A line: [kprintln!]. *)
Definition line (bs : list Z) : list Z := bs ++ [10].

Definition digit (d : Z) : Z := if d <? 10 then 48 + d else 87 + d.

(** The digits of [n] in a base, most significant first; [fuel] digits at
    most. *)
Fixpoint digits_from (fuel : nat) (base n : Z) (acc : list Z) : list Z :=
  match fuel with
  | O => acc
  | S fuel =>
      let acc := digit (n mod base) :: acc in
      if n / base =? 0 then acc else digits_from fuel base (n / base) acc
  end.

(** Twenty digits hold any [u64] in decimal, sixteen in hexadecimal. *)
Definition dec (n : Z) : list Z := digits_from 20 10 n [].
Definition hex (n : Z) : list Z := text "0x" ++ digits_from 16 16 n [].

(** [{:?}] of an ASCII character: escapes for the quote, the backslash and the
    control characters. *)
Definition debug_char (c : Z) : list Z :=
  let body :=
    if c =? 0 then text "\0"
    else if c =? 9 then text "\t"
    else if c =? 10 then text "\n"
    else if c =? 13 then text "\r"
    else if c =? 39 then text "\'"
    else if c =? 92 then text "\\"
    else if (c <? 32) || (c =? 127) then text "\u{" ++ digits_from 16 16 c [] ++ text "}"
    else [c] in
  [39] ++ body ++ [39].

(** The value a digit string denotes. *)
Definition digit_value (d : Z) : Z := if d <? 58 then d - 48 else d - 87.
Definition denotes (base : Z) (ds : list Z) : Z := foldl (fun v d => v * base + digit_value d) 0 ds.

Lemma digit_value_digit d : 0 <= d < 16 -> digit_value (digit d) = d /\ is_byte (digit d).
Proof.
  intros Hd. unfold digit_value, digit, is_byte. destruct (Z.ltb_spec d 10).
  - destruct (Z.ltb_spec (48 + d) 58); lia.
  - destruct (Z.ltb_spec (87 + d) 58); lia.
Qed.

Lemma foldl_denotes base ds v w :
  foldl (fun v d => v * base + digit_value d) (v + w) ds =
  v * base ^ Z.of_nat (length ds) + foldl (fun v d => v * base + digit_value d) w ds.
Proof.
  revert v w. induction ds as [|d ds IH]; intros v w; simpl foldl; simpl length.
  - rewrite Z.pow_0_r. lia.
  - rewrite Nat2Z.inj_succ, Z.pow_succ_r by lia.
    replace ((v + w) * base + digit_value d) with (v * base + (w * base + digit_value d)) by lia.
    rewrite IH. lia.
Qed.

Lemma digits_from_spec fuel base n acc :
  2 <= base <= 16 -> 0 <= n < base ^ Z.of_nat fuel ->
  denotes base (digits_from fuel base n acc) = n * base ^ Z.of_nat (length acc) + denotes base acc /\
  (Forall is_byte acc -> Forall is_byte (digits_from fuel base n acc)).
Proof.
  intros Hb. revert n acc. induction fuel as [|fuel IH]; intros n acc Hn.
  - rewrite Z.pow_0_r in Hn. assert (n = 0) as -> by lia. simpl. by split; [lia|].
  - rewrite Nat2Z.inj_succ, Z.pow_succ_r in Hn by lia. simpl digits_from.
    pose proof (Z.mod_pos_bound n base ltac:(lia)) as Hm. pose proof (Z.div_mod n base ltac:(lia)) as Hdm.
    destruct (digit_value_digit (n mod base) ltac:(lia)) as [Hv Hbyte].
    assert (0 <= n / base < base ^ Z.of_nat fuel) as Hq.
    { split; [apply Z.div_pos; lia|apply Z.div_lt_upper_bound; lia]. }
    assert (denotes base (digit (n mod base) :: acc) =
      n mod base * base ^ Z.of_nat (length acc) + denotes base acc) as Hcons.
    { unfold denotes. simpl foldl. rewrite Hv. rewrite <- (foldl_denotes base acc). f_equal. lia. }
    destruct (Z.eqb_spec (n / base) 0) as [Hz|_].
    + rewrite Hz in Hdm. assert (n mod base = n) as Hn' by lia.
      rewrite Hn' in Hcons |- *. split; [exact Hcons|]. intros Hacc. constructor; [|done]. by rewrite <- Hn'.
    + destruct (IH (n / base) (digit (n mod base) :: acc) Hq) as [IH1 IH2]. split.
      * rewrite IH1, Hcons. simpl length. rewrite Nat2Z.inj_succ, Z.pow_succ_r by lia. rewrite Hdm at 3. lia.
      * intros Hacc. apply IH2. by constructor.
Qed.

(** The printed digits denote the number. *)
Lemma dec_denotes n : in_u 64 n -> denotes 10 (dec n) = n /\ Forall is_byte (dec n).
Proof.
  intros [H0 H1]. destruct (digits_from_spec 20 10 n [] ltac:(lia)) as [Hd Hf].
  - change (10 ^ Z.of_nat 20) with 100000000000000000000. lia.
  - split; [|by apply Hf]. unfold dec. rewrite Hd. change (n * 1 + 0 = n). lia.
Qed.

Lemma text_bytes s : Forall is_byte (text s).
Proof.
  unfold text. apply Forall_fmap, Forall_forall. intros a _. simpl. unfold is_byte.
  pose proof (N_ascii_bounded a). lia.
Qed.

Lemma hex_denotes n : in_u 64 n -> exists ds, hex n = text "0x" ++ ds /\ denotes 16 ds = n /\ Forall is_byte (hex n).
Proof.
  intros [H0 H1]. destruct (digits_from_spec 16 16 n [] ltac:(lia)) as [Hd Hf].
  - change (16 ^ Z.of_nat 16) with 18446744073709551616. lia.
  - exists (digits_from 16 16 n []). split; [done|]. split; [rewrite Hd; change (n * 1 + 0 = n); lia|].
    apply Forall_app. split; [apply text_bytes|by apply Hf].
Qed.

Lemma line_bytes bs : Forall is_byte bs -> Forall is_byte (line bs).
Proof. intros H. apply Forall_app. split; [done|]. constructor; [unfold is_byte; lia|constructor]. Qed.

Lemma debug_char_bytes c : is_byte c -> Forall is_byte (debug_char c).
Proof.
  intros Hc. unfold debug_char. assert (Forall is_byte [39]) as Hq by (constructor; [unfold is_byte; lia|constructor]).
  apply Forall_app. split; [exact Hq|].
  apply Forall_app. split; [|exact Hq].
  repeat match goal with |- context [if ?b then _ else _] => destruct b; [apply text_bytes|] end.
  destruct ((c <? 32) || (c =? 127)); [|constructor; [exact Hc|constructor]].
  apply Forall_app. split; [apply text_bytes|]. apply Forall_app. split; [|apply text_bytes].
  apply (digits_from_spec 16 16 c []); [lia| |constructor]. unfold is_byte in Hc.
  change (16 ^ Z.of_nat 16) with 18446744073709551616. lia.
Qed.

#[export] Hint Resolve text_bytes line_bytes debug_char_bytes : rust.
