(* ===== verification/Keyboard.v ===== *)
(** The PS/2 keyboard ([kernel/src/keyboard.rs]) and its controller, the 8042
    ([kernel/src/ps2.rs]). *)
From Stdlib Require Import String.
From S2P Require Import Prelude Memory Port Fmt.

(** ** [keyboard.rs] *)

Definition DATA_PORT : Z := 0x60.

Definition SCANCODE_TO_ASCII : list Z :=
  [0; 0] ++ text "1234567890-=" ++ [8; 9]
  ++ text "qwertyuiop[]" ++ [10; 0]
  ++ text "asdfghjkl;'`" ++ [0]
  ++ text "\zxcvbnm,./" ++ [0; 42; 0; 32] ++ replicate 70 0.

Section Keyboard.
Context {D : Type} `{Device D}.

Definition read_key (s : io D) : res (io D * option Z) :=
  let '(s, scancode) := inb DATA_PORT s in
  if negb (Z.land scancode 0x80 =? 0) then Ok (s, None) else
  match SCANCODE_TO_ASCII !! Z.to_nat scancode with
  | None => Panic
  | Some 0 => Ok (s, None)
  | Some ascii => Ok (s, Some ascii)
  end.

(** ** [ps2.rs] *)

Definition DATA : Z := 0x60.
Definition COMMAND : Z := 0x64.
Definition STATUS : Z := 0x64.
Definition STATUS_OUTPUT_FULL : Z := 0x01.
Definition STATUS_INPUT_FULL : Z := 0x02.
Definition CMD_READ_CONFIG : Z := 0x20.
Definition CMD_WRITE_CONFIG : Z := 0x60.
Definition CMD_ENABLE_FIRST_PORT : Z := 0xAE.
Definition CONFIG_FIRST_PORT_INTERRUPT : Z := 0x01.
Definition CONFIG_FIRST_PORT_CLOCK_DISABLED : Z := 0x10.
Definition SPIN_BUDGET : nat := Z.to_nat 200000.

(** [for _ in 0..budget { if inb(STATUS) & mask is as wanted, return true }]. *)
Fixpoint wait_status (budget : nat) (ready : Z -> bool) (s : io D) : io D * bool :=
  match budget with
  | O => (s, false)
  | S budget =>
      let '(s, status) := inb STATUS s in
      if ready status then (s, true) else wait_status budget ready s
  end.

Definition input_empty (status : Z) : bool := Z.land status STATUS_INPUT_FULL =? 0.
Definition output_full (status : Z) : bool := negb (Z.land status STATUS_OUTPUT_FULL =? 0).

Definition wait_writable (s : io D) : io D * bool := wait_status SPIN_BUDGET input_empty s.
Definition wait_readable (s : io D) : io D * bool := wait_status SPIN_BUDGET output_full s.

(** Reading bytes until the controller holds none. *)
Fixpoint drain (budget : nat) (s : io D) : io D * bool :=
  match budget with
  | O => (s, false)
  | S budget =>
      let '(s, status) := inb STATUS s in
      if Z.land status STATUS_OUTPUT_FULL =? 0 then (s, true)
      else let '(s, _) := inb DATA s in drain budget s
  end.

(** Which step the report names when it gives up. *)
Inductive step_failed :=
| DrainingOutputBuffer
| EnablingFirstPort
| RequestingConfig
| ReadingConfig
| WritingConfigCommand
| WritingConfig.

#[export] Instance step_failed_eq_dec : EqDecision step_failed.
Proof. solve_decision. Defined.

(** [ps2::init], up to its reports: the step it gave up at, if any. *)
Definition ps2_init (s : io D) : io D * option step_failed :=
  let '(s, drained) := drain SPIN_BUDGET s in
  if negb drained then (s, Some DrainingOutputBuffer) else
  let '(s, ok) := wait_writable s in
  if negb ok then (s, Some EnablingFirstPort) else
  let s := outb COMMAND CMD_ENABLE_FIRST_PORT s in
  let '(s, ok) := wait_writable s in
  if negb ok then (s, Some RequestingConfig) else
  let s := outb COMMAND CMD_READ_CONFIG s in
  let '(s, ok) := wait_readable s in
  if negb ok then (s, Some ReadingConfig) else
  let '(s, config) := inb DATA s in
  let config := Z.lor config CONFIG_FIRST_PORT_INTERRUPT in
  let config := Z.land config (not_u 8 CONFIG_FIRST_PORT_CLOCK_DISABLED) in
  let '(s, ok) := wait_writable s in
  if negb ok then (s, Some WritingConfigCommand) else
  let s := outb COMMAND CMD_WRITE_CONFIG s in
  let '(s, ok) := wait_writable s in
  if negb ok then (s, Some WritingConfig) else
  (outb DATA config s, None).
End Keyboard.

(** ** The controller's protocol *)

(** A byte may be written only when the status last read, with nothing in
    between, says the input buffer is empty, and read only when it says the
    output buffer is full. [polite] checks a log, threading the status that is
    still fresh. *)
Definition polite_step (last : option Z) (a : access) : option (option Z) :=
  match a with
  | In p v =>
      if p =? STATUS then Some (Some v)
      else if (p =? DATA) && from_option output_full false last then Some None else None
  | Out p v =>
      if ((p =? COMMAND) || (p =? DATA)) && from_option input_empty false last then Some None else None
  end.

Definition polite (last : option Z) (l : list access) : option (option Z) :=
  foldl (fun st a => st ≫= fun last => polite_step last a) (Some last) l.

(** The bytes taken from the data port. *)
Definition data_reads (l : list access) : list Z :=
  omap (fun a => match a with In p v => if p =? DATA then Some v else None | Out _ _ => None end) l.

(** What a run adds to the log, and the fresh statuses around it. *)
Record ran {D} (s s' : io D) (last last' : option Z) (ws : list (Z * Z)) (rs : list Z) (n : nat) : Prop := {
  ran_log : exists l, io_log s' = io_log s ++ l /\ polite last l = Some last' /\
    writes l = ws /\ data_reads l = rs /\ (length l <= n)%nat;
}.

Section Protocol.
Context {D : Type} `{Device D}.

Lemma ran_refl (s : io D) last : ran s s last last [] [] 0.
Proof. split. exists []. by rewrite app_nil_r. Qed.

Lemma ran_trans (s1 s2 s3 : io D) a b c w1 w2 r1 r2 n1 n2 :
  ran s1 s2 a b w1 r1 n1 -> ran s2 s3 b c w2 r2 n2 -> ran s1 s3 a c (w1 ++ w2) (r1 ++ r2) (n1 + n2).
Proof.
  intros [(l1 & L1 & P1 & W1 & R1 & N1)] [(l2 & L2 & P2 & W2 & R2 & N2)]. split. exists (l1 ++ l2).
  rewrite L2, L1, <- app_assoc. split; [done|]. unfold polite in *. rewrite foldl_app, P1. split; [done|].
  rewrite writes_app, W1, W2. split; [done|]. unfold data_reads in *. rewrite omap_app, R1, R2. split; [done|].
  rewrite length_app. lia.
Qed.

Lemma ran_status (s : io D) last :
  exists d v, inb STATUS s = (Io d (io_log s ++ [In STATUS v]), v) /\
    ran s (Io d (io_log s ++ [In STATUS v])) last (Some v) [] [] 1.
Proof.
  destruct (inb_spec STATUS s) as (d & v & He & _). exists d, v. split; [done|]. split.
  exists [In STATUS v]. by repeat split.
Qed.

Lemma ran_data (s : io D) st :
  output_full st = true ->
  exists d v, inb DATA s = (Io d (io_log s ++ [In DATA v]), v) /\ 0 <= v < 256 /\
    ran s (Io d (io_log s ++ [In DATA v])) (Some st) None [] [v] 1.
Proof.
  intros Hst. destruct (inb_spec DATA s) as (d & v & He & Hv & _). exists d, v. split; [done|]. split; [done|].
  split. exists [In DATA v]. split; [done|]. split; [|done]. unfold polite. simpl. by rewrite Hst.
Qed.

Lemma ran_out (s : io D) st p v :
  input_empty st = true -> p = COMMAND \/ p = DATA ->
  ran s (outb p v s) (Some st) None [(p, v)] [] 1.
Proof.
  intros Hst Hp. split. exists [Out p v]. split; [done|]. split; [|done].
  unfold polite. by destruct Hp as [-> | ->]; simpl; rewrite Hst.
Qed.

Lemma wait_status_ran budget ready (s : io D) last :
  exists s' ok last', wait_status budget ready s = (s', ok) /\ ran s s' last last' [] [] budget /\
    (ok = true -> exists st, last' = Some st /\ ready st = true).
Proof.
  revert s last. induction budget as [|budget IH]; intros s last; simpl.
  - exists s, false, last. split; [done|]. split; [apply ran_refl|done].
  - destruct (ran_status s last) as (d & v & -> & R). destruct (ready v) eqn:Hv.
    + eexists _, true, (Some v). split; [done|]. split; [|by exists v].
      destruct R as [(l & ? & ? & ? & ? & ?)]. split. exists l. repeat (split; [done|]). lia.
    + destruct (IH (Io d (io_log s ++ [In STATUS v])) (Some v)) as (s' & ok & last' & -> & R' & Hok).
      exists s', ok, last'. split; [done|]. split; [|done]. exact (ran_trans _ _ _ _ _ _ _ _ _ _ _ _ R R').
Qed.

Lemma drain_ran budget (s : io D) last :
  exists s' ok last' rs, drain budget s = (s', ok) /\ ran s s' last last' [] rs (2 * budget).
Proof.
  revert s last. induction budget as [|budget IH]; intros s last; simpl drain.
  - exists s, false, last, []. split; [done|]. apply ran_refl.
  - destruct (ran_status s last) as (d & v & -> & R). destruct (Z.land v STATUS_OUTPUT_FULL =? 0) eqn:Hv.
    + eexists _, true, (Some v), []. split; [done|].
      destruct R as [(l & ? & ? & ? & ? & ?)]. split. exists l. repeat (split; [done|]). lia.
    + destruct (ran_data (Io d (io_log s ++ [In STATUS v])) v) as (d' & b & -> & _ & R'); [unfold output_full; by rewrite Hv|].
      pose proof (ran_trans _ _ _ _ _ _ _ _ _ _ _ _ R R') as R1.
      destruct (IH (Io d' (io_log (Io d (io_log s ++ [In STATUS v])) ++ [In DATA b])) None)
        as (s' & ok & last' & rs & -> & R2).
      exists s', ok, last', (b :: rs). split; [done|].
      pose proof (ran_trans _ _ _ _ _ _ _ _ _ _ _ _ R1 R2) as [(l & ? & ? & ? & ? & ?)].
      split. exists l. repeat (split; [done|]). lia.
Qed.
End Protocol.

(** The writes made by the time the initialisation ends so. *)
Definition ps2_writes (r : option step_failed) (config : Z) : list (Z * Z) :=
  let enable := [(COMMAND, CMD_ENABLE_FIRST_PORT)] in
  let request := enable ++ [(COMMAND, CMD_READ_CONFIG)] in
  let command := request ++ [(COMMAND, CMD_WRITE_CONFIG)] in
  match r with
  | Some DrainingOutputBuffer | Some EnablingFirstPort => []
  | Some RequestingConfig => enable
  | Some ReadingConfig | Some WritingConfigCommand => request
  | Some WritingConfig => command
  | None => command ++ [(DATA, config)]
  end.

(** The configuration the driver wants, from the one it read: the first
    port's interrupt on, its clock not disabled, the rest as it was. *)
Definition wanted_config (read written : Z) : Prop :=
  0 <= written < 256 /\
  forall i, 0 <= i < 8 -> Z.testbit written i =
    if i =? 0 then true else if i =? 4 then false else Z.testbit read i.

Lemma wanted_config_mask c :
  0 <= c < 256 ->
  wanted_config c (Z.land (Z.lor c CONFIG_FIRST_PORT_INTERRUPT) (not_u 8 CONFIG_FIRST_PORT_CLOCK_DISABLED)).
Proof.
  intros Hc. set (w c := Z.land (Z.lor c CONFIG_FIRST_PORT_INTERRUPT) (not_u 8 CONFIG_FIRST_PORT_CLOCK_DISABLED)).
  pose proof (all_below (fun c => (0 <=? w c) && (w c <? 256) && forallb (fun i => Bool.eqb (Z.testbit (w c) (Z.of_nat i))
    (if Z.of_nat i =? 0 then true else if Z.of_nat i =? 4 then false else Z.testbit c (Z.of_nat i))) (seq 0 8))
    256 ltac:(reflexivity) c Hc) as Hw. cbv beta in Hw.
  rewrite !andb_true_iff, Z.leb_le, Z.ltb_lt in Hw. destruct Hw as [[H0 H1] Hbits]. split; [done|].
  intros i Hi. apply eqb_prop. exact (all_below (fun i => Bool.eqb (Z.testbit (w c) i)
    (if i =? 0 then true else if i =? 4 then false else Z.testbit c i)) 8 Hbits i Hi).
Qed.

(** ** Properties *)

(** The keys the table covers: the rows of a US keyboard from their first
    scancode, unshifted. *)
Definition us_rows : list (Z * list Z) :=
  [(2, [49; 50; 51; 52; 53; 54; 55; 56; 57; 48; 45; 61; 8; 9]);       (* 1234567890-= backspace tab *)
   (16, [113; 119; 101; 114; 116; 121; 117; 105; 111; 112; 91; 93; 10]); (* qwertyuiop[] enter *)
   (30, [97; 115; 100; 102; 103; 104; 106; 107; 108; 59; 39; 96]);       (* asdfghjkl;'` *)
   (43, [92; 122; 120; 99; 118; 98; 110; 109; 44; 46; 47]);              (* \zxcvbnm,./ *)
   (55, [42]);                                                           (* keypad * *)
   (57, [32])].                                                          (* space *)

(** The character a scancode makes on that keyboard. *)
Definition us_key (scancode : Z) : option Z :=
  head (omap (fun row => if (fst row <=? scancode) && (scancode <? fst row + Z.of_nat (length (snd row)))
                         then snd row !! Z.to_nat (scancode - fst row) else None) us_rows).

Lemma scancode_table v : 0 <= v < 128 ->
  SCANCODE_TO_ASCII !! Z.to_nat v = Some (default 0 (us_key v)) /\ us_key v <> Some 0.
Proof.
  intros Hv. apply (bool_decide_eq_true_1 _). revert v Hv.
  apply (all_below (fun v => bool_decide (SCANCODE_TO_ASCII !! Z.to_nat v = Some (default 0 (us_key v))
    /\ us_key v <> Some 0)) 128). reflexivity.
Qed.

Lemma release_bit v : 0 <= v < 256 -> (Z.land v 0x80 =? 0) = (v <? 128).
Proof.
  intros Hv. apply eqb_prop. revert v Hv.
  apply (all_below (fun v => Bool.eqb (Z.land v 0x80 =? 0) (v <? 128)) 256). reflexivity.
Qed.

Lemma read_key_spec {D} `{Device D} (s : io D) :
  exists s' scancode, 0 <= scancode < 256 /\ io_log s' = io_log s ++ [In DATA_PORT scancode] /\
    read_key s = Ok (s', if scancode <? 128 then us_key scancode else None).
Proof.
  destruct (inb_spec DATA_PORT s) as (d & v & He & Hv & _).
  exists (Io d (io_log s ++ [In DATA_PORT v])), v. split; [done|]. split; [done|].
  unfold read_key. rewrite He, release_bit by done. destruct (Z.ltb_spec v 128); [|done]. simpl negb.
  destruct (scancode_table v ltac:(lia)) as [-> Hnz]. cbv iota. destruct (us_key v) as [[|p|p]|]; done.
Qed.

(** Reading a key takes exactly one byte from the controller, whatever
    the byte is, never panics, and returns the character a US keyboard's key
    makes for a press of one, and nothing for every release and for every
    other key. *)
Theorem read_key_exact {D} `{Device D} (s : io D) :
  exists s' scancode, 0 <= scancode < 256 /\ io_log s' = io_log s ++ [In DATA_PORT scancode] /\
    read_key s = Ok (s', if scancode <? 128 then us_key scancode else None).
Proof. apply read_key_spec. Qed.

(** The steps of the initialisation, over the run [R] so far: the early
    return after a failed wait, a wait, and the write after one. *)
Ltac gave_up R c :=
  cbn [negb]; destruct R as [(?l & ?Hl & ?Hp & ?Hws & _ & ?Hn)];
  eexists _, _, _, c; split; [reflexivity|]; split; [eassumption|]; split; [lia|];
  split; [congruence|]; split; [assumption|discriminate].

Ltac ps2_wait R c st Hst :=
  match type of R with ran _ ?s _ ?last _ _ _ =>
  match goal with |- context [wait_status SPIN_BUDGET ?ready s] =>
    let ok := fresh "ok" in let R' := fresh "R" in let s' := fresh "s" in
    let st' := fresh "st" in let H := fresh "Hok" in
    destruct (wait_status_ran SPIN_BUDGET ready s last) as (s' & ok & st' & -> & R' & H);
    apply (ran_trans _ _ _ _ _ _ _ _ _ _ _ _ R) in R'; clear R; rename R' into R;
    destruct ok; [destruct (H eq_refl) as (st & -> & Hst); clear H; cbn [negb]|gave_up R c]
  end end.

Ltac ps2_out R Hst :=
  match goal with |- context [outb ?p ?v ?s] =>
    let R' := fresh "R" in
    assert (R' := ran_out s _ p v Hst ltac:(auto));
    apply (ran_trans _ _ _ _ _ _ _ _ _ _ _ _ R) in R'; clear R; rename R' into R;
    let s' := fresh "s" in set (s' := outb p v s) in R |- *; clearbody s'; clear Hst
  end.

(** The initialisation's accesses, on any device. *)
Lemma ps2_init_spec {D} `{Device D} (s : io D) :
  exists s' r l c, ps2_init s = (s', r) /\ io_log s' = io_log s ++ l /\
    (length l <= 7 * SPIN_BUDGET + 5)%nat /\ polite None l <> None /\
    writes l = ps2_writes r c /\
    (r = None -> exists read, last (data_reads l) = Some read /\ wanted_config read c).
Proof.
  unfold ps2_init. cbv zeta.
  destruct (drain_ran SPIN_BUDGET s None) as (s1 & ok1 & st1 & rs & -> & R).
  destruct ok1; [cbn [negb]|gave_up R 0].
  unfold wait_writable, wait_readable.
  ps2_wait R 0 st Hst. ps2_out R Hst. ps2_wait R 0 st' Hst. ps2_out R Hst. ps2_wait R 0 st'' Hst.
  match type of R with ran _ ?si _ _ _ _ _ => destruct (ran_data si st'' Hst) as (d & c & -> & Hc & R') end.
  pose proof (ran_trans _ _ _ _ _ _ _ _ _ _ _ _ R R') as R0. clear R R'. rename R0 into R.
  pose proof (wanted_config_mask c Hc) as Hw. set (c' := Z.land _ _) in Hw |- *.
  clear Hst. clearbody c'. ps2_wait R c' stc Hst. ps2_out R Hst. ps2_wait R c' std Hst. ps2_out R Hst.
  destruct R as [(l & Hl & Hp & Hws & Hrs & Hn)].
  eexists _, None, l, c'. split; [reflexivity|]. split; [exact Hl|]. split; [lia|]. split; [by rewrite Hp|].
  split; [exact Hws|]. intros _. exists c. split; [|done].
  rewrite Hrs, !app_nil_r. by rewrite last_snoc.
Qed.

(** C33: on any device at all the initialisation ends after a bounded number
    of port accesses, touches the ports only as the controller's protocol
    allows (no write that could be lost, no read of a byte that is not
    there), writes the commands in order up to the step it reports, and when
    it reports none has written back the configuration byte it read with the
    port's interrupt on and its clock running. *)
Theorem ps2_init_protocol {D} `{Device D} (s : io D) :
  exists s' r l c, ps2_init s = (s', r) /\ io_log s' = io_log s ++ l /\
    (length l <= 7 * SPIN_BUDGET + 5)%nat /\ polite None l <> None /\
    writes l = ps2_writes r c /\
    (r = None -> exists read, last (data_reads l) = Some read /\ wanted_config read c).
Proof. apply ps2_init_spec. Qed.
