(* ===== verification/Gdt.v ===== *)
(** The kernel's segment descriptors and task state segment
    ([kernel/src/gdt.rs]): what [init] writes, the mark loading the task
    register leaves in the table, and what the processor reads back. *)
From S2P Require Import Prelude Memory Layout.

(** ** [gdt.rs] *)

Definition DOUBLE_FAULT_IST_INDEX : Z := 0.
Definition FAULT_STACK_SIZE : Z := 4096 * 4.

(** The fields of [TaskStateSegment], in order: [packed(4)]. *)
Definition TaskStateSegment_fields : list ctype :=
  c_packed 4 <$> [c_u32; c_array c_u64 3; c_u64; c_array c_u64 7; c_u64; c_u16; c_u16].
Definition size_of_TSS : Z := csize (repr_c TaskStateSegment_fields).

(** [TaskStateSegment::new]: the words that are not zero. *)
Definition TaskStateSegment_new : list (Z * nat * Z) :=
  [(offset TaskStateSegment_fields 6, 2%nat, as_u 16 size_of_TSS)].

Definition GDT_ENTRIES : Z := 5.

(** [DescriptorTablePointer], [packed(2)], the operand of [lgdt] and [lidt]. *)
Definition DescriptorTablePointer_fields : list ctype := c_packed 2 <$> [c_u16; c_u64].
Record DescriptorTablePointer := { dtp_limit : Z; dtp_base : Z }.

Definition WRITABLE : Z := Z.shiftl 1 41.
Definition EXECUTABLE : Z := Z.shiftl 1 43.
Definition DESCRIPTOR_TYPE : Z := Z.shiftl 1 44.
Definition PRESENT : Z := Z.shiftl 1 47.
Definition LONG_MODE : Z := Z.shiftl 1 53.
Definition KERNEL_CODE_SELECTOR : Z := 1 * 8.
Definition KERNEL_DATA_SELECTOR : Z := 2 * 8.
Definition TSS_SELECTOR : Z := 3 * 8.

(** The processor's segmentation state. *)
Record segments := Segments {
  s_gdtr : DescriptorTablePointer;
  s_cs : Z;
  s_ds : Z;
  s_es : Z;
  s_ss : Z;
  s_tr : Z;
}.

(** Where the linker put the statics. *)
Record statics := { TSS : Z; GDT : Z; FAULT_STACK : Z }.

(** The low word of the task state segment's descriptor. *)
Definition tss_low (tss_base tss_limit : Z) : Z :=
  Z.lor (Z.lor (Z.lor (Z.lor (Z.lor
    (Z.land tss_limit 0xFFFF)
    (Z.shiftl (Z.land tss_base 0xFFFFFF) 16))
    (Z.shiftl 9 40))
    PRESENT)
    (Z.shiftl (Z.land (Z.shiftr tss_limit 16) 0xF) 48))
    (Z.shiftl (Z.land (Z.shiftr tss_base 24) 0xFF) 56).

(** [ltr]: the processor marks the descriptor it loads as busy, in memory. *)
Definition ltr (table selector : Z) (m : mem) : mem :=
  let d := table + selector / 8 * 8 in store 8 m d (Z.lor (load 8 m d) (Z.shiftl 1 41)).

Definition gdt_init (a : statics) (m : mem) : res (segments * mem) :=
  stack_top ← add_u 64 (FAULT_STACK a) FAULT_STACK_SIZE;
  let m := store 8 m (TSS a + offset TaskStateSegment_fields 3 + 8 * DOUBLE_FAULT_IST_INDEX) stack_top in
  let GDT_set m i v := store 8 m (GDT a + 8 * i) v in
  let m := GDT_set m 0 0 in
  let m := GDT_set m 1 (Z.lor (Z.lor (Z.lor DESCRIPTOR_TYPE PRESENT) EXECUTABLE) LONG_MODE) in
  let m := GDT_set m 2 (Z.lor (Z.lor DESCRIPTOR_TYPE PRESENT) WRITABLE) in
  tss_limit ← sub_u size_of_TSS 1;
  let m := GDT_set m 3 (tss_low (TSS a) tss_limit) in
  let m := GDT_set m 4 (Z.shiftr (TSS a) 32) in
  bytes ← mul_u 64 GDT_ENTRIES 8;
  limit ← sub_u bytes 1;
  let pointer := {| dtp_limit := as_u 16 limit; dtp_base := GDT a |} in
  Ok (Segments pointer KERNEL_CODE_SELECTOR KERNEL_DATA_SELECTOR KERNEL_DATA_SELECTOR
        KERNEL_DATA_SELECTOR TSS_SELECTOR, ltr (dtp_base pointer) TSS_SELECTOR m).

Definition fault_stack_range (a : statics) : res (Z * Z) :=
  let bottom := FAULT_STACK a in
  top ← add_u 64 bottom FAULT_STACK_SIZE;
  Ok (bottom, top).

(** ** What the processor reads *)

(** Bits [lo] to [lo + n - 1] of a word. *)
Definition bits (w lo n : Z) : Z := w / 2 ^ lo mod 2 ^ n.

(** The descriptor a selector names, if the whole of it is inside the table:
    its low word, and the high word a system descriptor has. *)
Definition descriptor (s : segments) (m : mem) (selector size : Z) : option (Z * Z) :=
  let o := selector / 8 * 8 in
  if o + size - 1 <=? dtp_limit (s_gdtr s)
  then Some (load 8 m (dtp_base (s_gdtr s) + o), load 8 m (dtp_base (s_gdtr s) + o + 8)) else None.

(** The fields of a descriptor: type (40-43), system bit (44), privilege
    (45-46), present (47), long mode (53), default size (54). *)
Definition code_ok (w : Z) : Prop :=
  bits w 40 4 = 8 /\ bits w 44 1 = 1 /\ bits w 45 2 = 0 /\ bits w 47 1 = 1 /\ bits w 53 1 = 1 /\ bits w 54 1 = 0.
Definition data_ok (w : Z) : Prop :=
  bits w 40 4 = 2 /\ bits w 44 1 = 1 /\ bits w 45 2 = 0 /\ bits w 47 1 = 1 /\ bits w 53 1 = 0.
(** A 64-bit task state segment the task register has been loaded with: busy
    (11), where an available one is 9. *)
Definition tss_ok (w : Z) : Prop := bits w 40 4 = 11 /\ bits w 44 1 = 0 /\ bits w 45 2 = 0 /\ bits w 47 1 = 1.

Definition system_base (w w' : Z) : Z := bits w 16 24 + bits w 56 8 * 2 ^ 24 + bits w' 0 32 * 2 ^ 32.
Definition system_limit (w : Z) : Z := bits w 0 16 + bits w 48 4 * 2 ^ 16.

(** The stack the processor switches to for interrupt stack table slot [ist],
    1 to 7: the word at 36 + 8 (ist - 1) of the task state segment. *)
Definition ist_stack (s : segments) (m : mem) (ist : Z) : option Z :=
  '(w, w') ← descriptor s m (s_tr s) 16;
  let o := 36 + 8 * (ist - 1) in
  if o + 7 <=? system_limit w then Some (load 8 m (system_base w w' + o)) else None.

(** ** Properties *)

(** The statics have their own bytes, below the top of the address space. *)
Record placed (a : statics) : Prop := {
  pl_tss : 0 <= TSS a /\ TSS a + size_of_TSS < 2 ^ 64;
  pl_gdt : 0 <= GDT a /\ GDT a + GDT_ENTRIES * 8 < 2 ^ 64;
  pl_stack : 0 <= FAULT_STACK a /\ FAULT_STACK a mod 16 = 0 /\ FAULT_STACK a + FAULT_STACK_SIZE < 2 ^ 64;
  pl_apart : TSS a + size_of_TSS <= GDT a \/ GDT a + GDT_ENTRIES * 8 <= TSS a;
}.

(** The descriptor's fields, spread over its word. *)
Lemma tss_low_sum b l :
  in_u 64 b -> 0 <= l < 2 ^ 20 ->
  tss_low b l = l mod 2 ^ 16 + b mod 2 ^ 24 * 2 ^ 16 + 9 * 2 ^ 40 + 2 ^ 47
    + l / 2 ^ 16 * 2 ^ 48 + b / 2 ^ 24 mod 2 ^ 8 * 2 ^ 56.
Proof.
  intros Hb Hl. unfold tss_low, PRESENT.
  change 0xFFFF with (2 ^ 16 - 1). change 0xFFFFFF with (2 ^ 24 - 1).
  change 0xF with (2 ^ 4 - 1). change 0xFF with (2 ^ 8 - 1).
  rewrite !land_mask, !Z.shiftr_div_pow2 by lia.
  pose proof (Z.mod_pos_bound l (2 ^ 16) ltac:(lia)). pose proof (Z.mod_pos_bound b (2 ^ 24) ltac:(lia)).
  assert (0 <= l / 2 ^ 16 < 2 ^ 4) as Hl4.
  { split; [apply Z.div_pos; lia|apply Z.div_lt_upper_bound; lia]. }
  rewrite (Z.mod_small (l / 2 ^ 16)) by lia.
  rewrite (lor_shiftl (l mod 2 ^ 16)) by lia.
  rewrite (lor_shiftl _ 9) by lia. rewrite (lor_shiftl _ 1) by lia.
  rewrite (lor_shiftl _ (l / 2 ^ 16)) by lia. rewrite lor_shiftl by lia. lia.
Qed.

(** The word is one, of an available segment. *)
Lemma tss_low_available b l :
  in_u 64 b -> 0 <= l < 2 ^ 20 -> in_u 64 (tss_low b l) /\ bits (tss_low b l) 40 4 = 9.
Proof.
  intros Hb Hl. rewrite tss_low_sum by done. unfold bits, in_u in *.
  pose proof (Z.mod_pos_bound l (2 ^ 16) ltac:(lia)). pose proof (Z.mod_pos_bound b (2 ^ 24) ltac:(lia)).
  pose proof (Z.mod_pos_bound (b / 2 ^ 24) (2 ^ 8) ltac:(lia)).
  assert (0 <= l / 2 ^ 16 < 2 ^ 4) as Hl4.
  { split; [apply Z.div_pos; lia|apply Z.div_lt_upper_bound; lia]. }
  set (l0 := l mod 2 ^ 16) in *. set (l1 := l / 2 ^ 16) in *.
  set (b0 := b mod 2 ^ 24) in *. set (b1 := b / 2 ^ 24 mod 2 ^ 8) in *.
  clearbody l0 l1 b0 b1. split; [lia|divmod].
Qed.

(** Setting a bit that is clear. *)
Lemma lor_clear w n : 0 <= n -> w / 2 ^ n mod 2 = 0 -> Z.lor w (Z.shiftl 1 n) = w + 2 ^ n.
Proof.
  intros Hn Hw. rewrite Z.shiftl_1_l. symmetry. apply Z.add_nocarry_lor, Z.bits_inj'. intros i Hi.
  rewrite Z.land_spec, Z.bits_0, Z.pow2_bits_eqb by done.
  destruct (Z.eqb_spec n i) as [<-|]; [|by rewrite andb_false_r].
  rewrite andb_true_r. by apply Z.testbit_false.
Qed.

(** The same word once the task register is loaded. *)
Definition tss_busy (b l : Z) : Z := tss_low b l + 2 ^ 41.

Lemma tss_low_busy b l :
  in_u 64 b -> 0 <= l < 2 ^ 20 -> Z.lor (tss_low b l) (Z.shiftl 1 41) = tss_busy b l.
Proof.
  intros Hb Hl. destruct (tss_low_available b l Hb Hl) as [_ H9]. apply lor_clear; [lia|].
  unfold bits in H9. change (2 ^ 41) with (2 ^ 40 * 2). rewrite <- Z.div_div by lia.
  set (q := tss_low b l / 2 ^ 40) in *. clearbody q. divmod.
Qed.

(** What the processor decodes from it. *)
Lemma tss_busy_decode b l :
  in_u 64 b -> 0 <= l < 2 ^ 20 ->
  in_u 64 (tss_busy b l) /\ tss_ok (tss_busy b l) /\ system_limit (tss_busy b l) = l /\
  system_base (tss_busy b l) (Z.shiftr b 32) = b.
Proof.
  intros Hb Hl. unfold tss_busy. rewrite tss_low_sum by done. rewrite Z.shiftr_div_pow2 by lia.
  destruct Hb as [Hb0 Hb1]. unfold tss_ok, system_limit, system_base, bits, in_u.
  pose proof (Z.div_mod l (2 ^ 16) ltac:(lia)) as El. pose proof (Z.mod_pos_bound l (2 ^ 16) ltac:(lia)) as Bl.
  assert (0 <= l / 2 ^ 16 < 2 ^ 4) as Hl4.
  { split; [apply Z.div_pos; lia|apply Z.div_lt_upper_bound; lia]. }
  assert (b = b mod 2 ^ 24 + b / 2 ^ 24 mod 2 ^ 8 * 2 ^ 24 + b / 2 ^ 32 * 2 ^ 32) as Eb.
  { pose proof (Z.div_mod b (2 ^ 24) ltac:(lia)). pose proof (Z.div_mod (b / 2 ^ 24) (2 ^ 8) ltac:(lia)) as E.
    rewrite Z.div_div in E by lia. change (2 ^ 24 * 2 ^ 8) with (2 ^ 32) in E. lia. }
  assert (0 <= b / 2 ^ 32 < 2 ^ 32) as Hb2.
  { split; [apply Z.div_pos; lia|apply Z.div_lt_upper_bound; lia]. }
  pose proof (Z.mod_pos_bound b (2 ^ 24) ltac:(lia)) as B0.
  pose proof (Z.mod_pos_bound (b / 2 ^ 24) (2 ^ 8) ltac:(lia)) as B1.
  set (l0 := l mod 2 ^ 16) in *. set (l1 := l / 2 ^ 16) in *.
  set (b0 := b mod 2 ^ 24) in *. set (b1 := b / 2 ^ 24 mod 2 ^ 8) in *. set (b2 := b / 2 ^ 32) in *.
  clearbody l0 l1 b0 b1 b2. clear Hb0 Hb1 Hl. subst l b.
  split; [lia|]. split; [repeat split; divmod|]. split; divmod.
Qed.

(** Reading one word back through a sequence of eight-byte stores. *)
Ltac load_back := repeat first [rewrite load_store_u64 by done | rewrite load_store_ne by lia].

Lemma tss_layout :
  size_of_TSS = 104 /\ offset TaskStateSegment_fields 3 = 36 /\ offset TaskStateSegment_fields 6 = 102 /\
  csize (repr_c DescriptorTablePointer_fields) = 10.
Proof. by repeat split. Qed.

(** The memory [init] leaves. *)
Definition gdt_image (a : statics) (m : mem) : mem :=
  store 8 (store 8 (store 8 (store 8 (store 8 (store 8
    (store 8 m (TSS a + 36) (FAULT_STACK a + FAULT_STACK_SIZE))
    (GDT a) 0)
    (GDT a + 8) (2 ^ 44 + 2 ^ 47 + 2 ^ 43 + 2 ^ 53))
    (GDT a + 16) (2 ^ 44 + 2 ^ 47 + 2 ^ 41))
    (GDT a + 24) (tss_low (TSS a) 103))
    (GDT a + 32) (Z.shiftr (TSS a) 32))
    (GDT a + 24) (tss_busy (TSS a) 103).

Lemma gdt_init_run a m :
  placed a ->
  gdt_init a m = Ok (Segments {| dtp_limit := 39; dtp_base := GDT a |} 8 16 16 16 24, gdt_image a m).
Proof.
  intros Hp. destruct tss_layout as (Hs & Ho & _). destruct (pl_stack a Hp) as (_ & _ & Hst).
  unfold gdt_init. rewrite add_u_ok, bind_Ok by lia. rewrite Hs, Ho.
  unfold gdt_image. cbv zeta. change (sub_u 104 1) with (Ok (E := Empty_set) 103). rewrite bind_Ok.
  replace (TSS a + 36 + 8 * DOUBLE_FAULT_IST_INDEX) with (TSS a + 36) by (unfold DOUBLE_FAULT_IST_INDEX; lia).
  rewrite Z.mul_0_r, Z.add_0_r. cbn [dtp_base]. unfold ltr. change (TSS_SELECTOR / 8 * 8) with 24.
  change (8 * 3) with 24. change (8 * 4) with 32.
  destruct (pl_tss a Hp) as [Ht0 Ht]. destruct (pl_gdt a Hp) as [Hg0 Hg]. rewrite Hs in Ht.
  assert (in_u 64 (TSS a)) as HT by (unfold in_u; lia).
  destruct (tss_low_available (TSS a) 103 HT ltac:(lia)) as [Hw _].
  rewrite (load_store_ne 8 8 _ _ (GDT a + 32)) by lia. rewrite load_store_u64 by done.
  rewrite tss_low_busy by done. reflexivity.
Qed.

Lemma gdt_init_installs_spec a m :
  placed a ->
  exists s m', gdt_init a m = Ok (s, m') /\
    (exists w', descriptor s m' 0 8 = Some (0, w')) /\
    (exists w w', descriptor s m' (s_cs s) 8 = Some (w, w') /\ code_ok w) /\
    (exists w w', descriptor s m' (s_ss s) 8 = Some (w, w') /\ data_ok w /\ s_ds s = s_ss s /\ s_es s = s_ss s) /\
    (exists w w', descriptor s m' (s_tr s) 16 = Some (w, w') /\ tss_ok w /\
       system_base w w' = TSS a /\ system_limit w = size_of_TSS - 1) /\
    (exists lo hi, fault_stack_range a = Ok (lo, hi) /\ ist_stack s m' (DOUBLE_FAULT_IST_INDEX + 1) = Some hi /\
       hi - lo = 16384 /\ hi mod 16 = 0) /\
    mem_agree (fun x => ~ range (GDT a) 40 x /\ ~ range (TSS a + 36) 8 x) m m'.
Proof.
  intros Hp. rewrite gdt_init_run by done. eexists _, _. split; [reflexivity|].
  destruct Hp as [[Ht0 Ht] [Hg0 Hg] (Hf0 & Hfm & Hf) Hap]. destruct tss_layout as (Hs & _). rewrite Hs in *.
  unfold GDT_ENTRIES, FAULT_STACK_SIZE in *.
  destruct (tss_busy_decode (TSS a) 103) as (Hw & Hok & Hlim & Hbase); [unfold in_u; lia|lia|].
  assert (in_u 64 (Z.shiftr (TSS a) 32)) as Hhi.
  { rewrite Z.shiftr_div_pow2 by lia. unfold in_u. split; [apply Z.div_pos; lia|apply Z.div_lt_upper_bound; lia]. }
  assert (in_u 64 (FAULT_STACK a + 4096 * 4)) as Hstk by (unfold in_u; lia).
  assert (descriptor (Segments {| dtp_limit := 39; dtp_base := GDT a |} 8 16 16 16 24) (gdt_image a m) 24 16 =
    Some (tss_busy (TSS a) 103, Z.shiftr (TSS a) 32)) as Htss.
  { unfold descriptor. cbn [s_gdtr dtp_limit dtp_base]. change (24 / 8 * 8) with 24.
    change (24 + 16 - 1 <=? 39) with true. cbv iota. unfold gdt_image. rewrite <- (Z.add_assoc (GDT a) 24 8).
    change (24 + 8) with 32. do 2 f_equal; [|by load_back]. by load_back. }
  split; [|split; [|split; [|split; [|split]]]].
  - eexists. unfold descriptor. cbn [s_gdtr dtp_limit dtp_base]. change (0 / 8 * 8) with 0.
    cbn [Z.add Z.sub Z.leb Z.compare Z.opp]. unfold gdt_image. rewrite Z.add_0_r. do 2 f_equal. by load_back.
  - eexists _, _. unfold descriptor. cbn [s_gdtr s_cs dtp_limit dtp_base]. change (8 / 8 * 8) with 8.
    change (8 + 8 - 1 <=? 39) with true. cbv iota. split; [reflexivity|].
    unfold gdt_image. load_back. by repeat split.
  - eexists _, _. unfold descriptor. cbn [s_gdtr s_ss dtp_limit dtp_base]. change (16 / 8 * 8) with 16.
    change (16 + 8 - 1 <=? 39) with true. cbv iota. split; [reflexivity|].
    unfold gdt_image. load_back. by repeat split.
  - eexists _, _. split; [exact Htss|]. split; [done|]. by split.
  - exists (FAULT_STACK a), (FAULT_STACK a + 16384). split; [unfold fault_stack_range, FAULT_STACK_SIZE; by rewrite add_u_ok by lia|].
    split; [|split; [lia|divmod]].
    unfold ist_stack. cbn [s_tr]. rewrite Htss. cbn [mbind option_bind]. rewrite Hlim, Hbase.
    change (36 + 8 * (DOUBLE_FAULT_IST_INDEX + 1 - 1)) with 36. change (36 + 7 <=? 103) with true. cbv iota.
    f_equal. unfold gdt_image, FAULT_STACK_SIZE. by load_back.
  - unfold gdt_image. repeat (etrans; [|apply mem_agree_store; unfold range; lia]). done.
Qed.

(** After [init] the processor finds, at the selectors the segment and
    task registers hold, a present ring 0 64-bit code segment, a writable data
    segment and a busy task state segment whose 64-bit base, split over
    two words, is the kernel's and whose limit covers all of it; the stack it
    would switch to for interrupt stack slot 1 is the aligned top of the
    16 KiB fault stack that [fault_stack_range] reports; the null descriptor
    is null, and no other memory changes. *)
Theorem gdt_init_installs a m :
  placed a ->
  exists s m', gdt_init a m = Ok (s, m') /\
    (exists w', descriptor s m' 0 8 = Some (0, w')) /\
    (exists w w', descriptor s m' (s_cs s) 8 = Some (w, w') /\ code_ok w) /\
    (exists w w', descriptor s m' (s_ss s) 8 = Some (w, w') /\ data_ok w /\ s_ds s = s_ss s /\ s_es s = s_ss s) /\
    (exists w w', descriptor s m' (s_tr s) 16 = Some (w, w') /\ tss_ok w /\
       system_base w w' = TSS a /\ system_limit w = size_of_TSS - 1) /\
    (exists lo hi, fault_stack_range a = Ok (lo, hi) /\ ist_stack s m' (DOUBLE_FAULT_IST_INDEX + 1) = Some hi /\
       hi - lo = 16384 /\ hi mod 16 = 0) /\
    mem_agree (fun x => ~ range (GDT a) 40 x /\ ~ range (TSS a + 36) 8 x) m m'.
Proof. apply gdt_init_installs_spec. Qed.

(** ** Instances *)

(** Above 4 GiB, so that every part of the base is in use. *)
Definition demo_statics : statics := {| TSS := 0x1234567000; GDT := 0x1234567100; FAULT_STACK := 0x1234568000 |}.

Lemma gdt_init_installs_witness : exists s m',
  gdt_init demo_statics ∅ = Ok (s, m') /\ ist_stack s m' 1 = Some 0x123456C000.
Proof.
  destruct (gdt_init_installs demo_statics ∅) as (s & m' & Hrun & _ & _ & _ & _ & (lo & hi & Hr & Hi & _) & _).
  - assert (size_of_TSS = 104) as Hs by reflexivity.
    split; rewrite ?Hs; cbn [TSS GDT FAULT_STACK demo_statics]; unfold GDT_ENTRIES, FAULT_STACK_SIZE;
      [lia|lia|split; [lia|split; [reflexivity|lia]]|lia].
  - exists s, m'. split; [exact Hrun|]. injection Hr as _ <-. exact Hi.
Defined.
