(* ===== verification/Idt.v ===== *)
(** The interrupt descriptor table and its handlers ([kernel/src/idt.rs]): the
    gates [init] installs as the processor decodes them, and what each handler
    does to the machine. *)
From Stdlib Require Import String.
From S2P Require Import Prelude Memory Layout Port Pic Interrupts Console Serial Keyboard QemuExit Fmt Gdt.

(** ** The table *)

Record InterruptStackFrame := {
  instruction_pointer : Z;
  code_segment : Z;
  cpu_flags : Z;
  stack_pointer : Z;
  stack_segment : Z;
}.

Record Entry := {
  offset_low : Z;
  selector : Z;
  ist : Z;
  type_attributes : Z;
  offset_middle : Z;
  offset_high : Z;
  reserved : Z;
}.

(** The fields' types, in order. *)
Definition Entry_fields : list ctype := [c_u16; c_u16; c_u8; c_u8; c_u16; c_u32; c_u32].

Definition INTERRUPT_GATE : Z := 0x8E.

(** [Entry::missing]. *)
Definition missing : Entry :=
  {| offset_low := 0; selector := 0; ist := 0; type_attributes := 0; offset_middle := 0;
     offset_high := 0; reserved := 0 |}.

(** [Entry::set]. *)
Definition set (handler : Z) (ist_index : option Z) : res Entry :=
  ist ← match ist_index with
        | Some index =>
            if negb (index <? 7) then Panic
            else i ← add_u 8 index 1; Ok (Z.land i 7)
        | None => Ok 0
        end;
  Ok {| offset_low := as_u 16 handler; selector := KERNEL_CODE_SELECTOR; ist := ist;
        type_attributes := INTERRUPT_GATE; offset_middle := as_u 16 (Z.shiftr handler 16);
        offset_high := as_u 32 (Z.shiftr handler 32); reserved := 0 |}.

Abbreviation Idt := (list Entry).
Definition Idt_new : Idt := replicate 256 missing.

Definition set_handler (vector handler : Z) (idt : Idt) : res Idt :=
  e ← set handler None; Ok (<[Z.to_nat vector := e]> idt).

Definition set_handler_with_ist (vector handler ist_index : Z) (idt : Idt) : res Idt :=
  e ← set handler (Some ist_index); Ok (<[Z.to_nat vector := e]> idt).

(** The handlers, by name; the linker gives each an address. *)
Inductive handler :=
| divide_error | breakpoint | invalid_opcode | double_fault | general_protection | page_fault
| timer | keyboard | unhandled_irq.

#[export] Instance handler_eq_dec : EqDecision handler.
Proof. solve_decision. Defined.

(** [load]: the operand of its [lidt], for the table at [table]. *)
Definition idt_load {E} (table : Z) : outcome E DescriptorTablePointer :=
  limit ← sub_u (256 * csize (repr_c Entry_fields)) 1;
  Ok {| dtp_limit := as_u 16 limit; dtp_base := table |}.

(** [init], and the operand of the [lidt] it ends with. *)
Definition idt_init (address : handler -> Z) (table : Z) (idt : Idt) : res (Idt * DescriptorTablePointer) :=
  idt ← for_range PIC1_OFFSET (PIC2_OFFSET + 7 + 1) (fun vector => set_handler vector (address unhandled_irq)) idt;
  idt ← set_handler 0 (address divide_error) idt;
  idt ← set_handler 3 (address breakpoint) idt;
  idt ← set_handler 6 (address invalid_opcode) idt;
  idt ← set_handler 13 (address general_protection) idt;
  idt ← set_handler 14 (address page_fault) idt;
  idt ← set_handler_with_ist 8 (address double_fault) DOUBLE_FAULT_IST_INDEX idt;
  idt ← set_handler TIMER_VECTOR (address timer) idt;
  idt ← set_handler KEYBOARD_VECTOR (address keyboard) idt;
  pointer ← idt_load table;
  Ok (idt, pointer).

(** ** Handlers *)

(** What handlers touch beyond a print: the two counters. *)
Record kstate (D : Type) := KState {
  ks_machine : machine D;
  TICKS : Z;
  KEY_EVENTS_SEEN : Z;
}.
Arguments KState {D} _ _ _.
Arguments ks_machine {D} _.
Arguments TICKS {D} _.
Arguments KEY_EVENTS_SEEN {D} _.

#[export] Instance kstate_HasIF {D} : HasIF (kstate D).
Proof.
  refine {| get_if s := mc_if (ks_machine s);
            set_if b s := KState (set_if b (ks_machine s)) (TICKS s) (KEY_EVENTS_SEEN s) |}.
  - done.
  - by intros [[]].
  - done.
Defined.

Section Handlers.
Context {D : Type} `{Device D} (fuel : nat).

(** [kprint!], whose arguments format to [bytes]. *)
Definition kprint (bytes : list Z) (s : kstate D) : res (kstate D) :=
  '(k, _) ← print fuel bytes (ks_machine s);
  Ok (KState k (TICKS s) (KEY_EVENTS_SEEN s)).

Definition kprintln (bytes : list Z) (s : kstate D) : res (kstate D) := kprint (line bytes) s.

Fixpoint kprintlns (ls : list (list Z)) (s : kstate D) : res (kstate D) :=
  match ls with
  | [] => Ok s
  | l :: ls => s ← kprintln l s; kprintlns ls s
  end.

Definition on_io (f : io D -> io D) (s : kstate D) : kstate D :=
  let k := ks_machine s in
  KState (Machine (mc_if k) (f (mc_io k)) (mc_console k) (mc_mem k)) (TICKS s) (KEY_EVENTS_SEEN s).

(** [qemu_exit::exit]: the write that ends the run. Its 32-bit value goes out
    on the debug-exit port, and nothing runs after it. *)
Definition exit (code : QemuExitCode) (s : kstate D) : kstate D * QemuExitCode :=
  (on_io (outb ISA_DEBUG_EXIT_PORT (QemuExitCode_as_u32 code)) s, code).

Definition breakpoint_handler (frame : InterruptStackFrame) (s : kstate D) : res (kstate D) :=
  kprintln (text "EXCEPTION: breakpoint at " ++ hex (instruction_pointer frame)
            ++ text " (execution will resume)") s.

Definition unhandled_irq_handler (s : kstate D) : kstate D :=
  on_io (end_of_interrupt (PIC2_OFFSET + 7)) s.

Definition timer_handler (s : kstate D) : res (kstate D) :=
  t ← add_u 64 (TICKS s) 1;
  Ok (on_io (end_of_interrupt TIMER_VECTOR) (KState (ks_machine s) t (KEY_EVENTS_SEEN s))).

Definition keyboard_handler (s : kstate D) : res (kstate D) :=
  '(i, key) ← read_key (mc_io (ks_machine s));
  let s := on_io (fun _ => i) s in
  s ← match key with
      | Some ascii =>
          n ← add_u 64 (KEY_EVENTS_SEEN s) 1;
          kprintln (text "key: " ++ debug_char ascii) (KState (ks_machine s) (TICKS s) n)
      | None => Ok s
      end;
  Ok (on_io (end_of_interrupt KEYBOARD_VECTOR) s).

(** [ticks] and [key_events_seen]. *)
Definition ticks (s : kstate D) : res (kstate D * Z) :=
  without_interrupts (fun s => Ok (s, TICKS s)) s.
Definition key_events_seen (s : kstate D) : res (kstate D * Z) :=
  without_interrupts (fun s => Ok (s, KEY_EVENTS_SEEN s)) s.

(** The lines of a fault report. *)
Definition fault_report (name : string) (frame : InterruptStackFrame) (error_code cr2 : option Z)
    : list (list Z) :=
  [[]; text "EXCEPTION: " ++ text name]
  ++ match cr2 with Some addr => [text "  faulting address (CR2): " ++ hex addr] | None => [] end
  ++ [text "  instruction pointer: " ++ hex (instruction_pointer frame);
      text "  code segment:        " ++ hex (code_segment frame);
      text "  cpu flags:           " ++ hex (cpu_flags frame);
      text "  stack pointer:       " ++ hex (stack_pointer frame)]
  ++ match error_code with Some code => [text "  error code:          " ++ hex code] | None => [] end
  ++ [text "  unrecoverable - halting"].

Definition report_fault (name : string) (frame : InterruptStackFrame) (error_code cr2 : option Z)
    (s : kstate D) : res (kstate D * QemuExitCode) :=
  s ← kprintlns (fault_report name frame error_code cr2) s;
  Ok (exit Failed s).

Definition divide_error_handler (frame : InterruptStackFrame) (s : kstate D) :=
  report_fault "divide error (#DE)" frame None None s.
Definition invalid_opcode_handler (frame : InterruptStackFrame) (s : kstate D) :=
  report_fault "invalid opcode (#UD)" frame None None s.
Definition general_protection_handler (frame : InterruptStackFrame) (error_code : Z) (s : kstate D) :=
  report_fault "general protection fault (#GP)" frame (Some error_code) None s.
Definition page_fault_handler (frame : InterruptStackFrame) (error_code cr2 : Z) (s : kstate D) :=
  report_fault "page fault (#PF)" frame (Some error_code) (Some cr2) s.

(** The double fault's report, given the live stack pointer. *)
Definition double_fault_handler (a : statics) (handler_rsp : Z) (frame : InterruptStackFrame) (s : kstate D)
    : res (kstate D * QemuExitCode) :=
  '(fault_lo, fault_hi) ← fault_stack_range a;
  s ← kprintlns
    [text "EXCEPTION: double fault";
     text "  faulting instruction: " ++ hex (instruction_pointer frame);
     text "  interrupted stack:    " ++ hex (stack_pointer frame);
     text "  handler stack:        " ++ hex handler_rsp;
     text "  fault stack spans:    " ++ hex fault_lo ++ text ".." ++ hex fault_hi;
     if (fault_lo <=? handler_rsp) && (handler_rsp <? fault_hi)
     then text "  handler ran on the IST stack - the machine did not reset"
     else text "  WARNING: handler is NOT on the IST stack; the switch did not happen"] s;
  Ok (exit Failed s).
End Handlers.

(** ** The gates, as the processor decodes them *)

(** What an interrupt through a gate does: where it goes, on which stack slot
    (0 is the current stack), and whether interrupts stay off. *)
Record gate := Gate { g_target : Z; g_selector : Z; g_ist : Z; g_masks : bool }.

(** The 16-byte descriptor: the present bit is bit 7 of the attributes, the
    gate type their low four bits, 14 for an interrupt gate and 15 for a trap
    gate, and the stack slot the low three bits of its byte. *)
Definition decode_gate (e : Entry) : option gate :=
  if negb (bits (type_attributes e) 7 1 =? 1) then None else
  Some (Gate (offset_low e + offset_middle e * 2 ^ 16 + offset_high e * 2 ^ 32)
          (selector e) (ist e mod 8) (bits (type_attributes e) 0 4 =? 14)).

(** What delivering a vector finds. *)
Definition delivered_to (idt : Idt) (vector : Z) : option gate :=
  idt !! Z.to_nat vector ≫= decode_gate.

Lemma Entry_layout :
  csize (repr_c Entry_fields) = 16 /\ offsets_from 0 Entry_fields = [0; 2; 4; 5; 6; 8; 12].
Proof. done. Qed.

Lemma offset_split h :
  in_u 64 h -> as_u 16 h + as_u 16 (Z.shiftr h 16) * 2 ^ 16 + as_u 32 (Z.shiftr h 32) * 2 ^ 32 = h.
Proof.
  intros [H0 H1]. rewrite !Z.shiftr_div_pow2 by lia. unfold as_u.
  rewrite (Z.mod_small (h / 2 ^ 32)) by (split; [apply Z.div_pos; lia|apply Z.div_lt_upper_bound; lia]).
  pose proof (Z.div_mod h (2 ^ 16) ltac:(lia)). pose proof (Z.div_mod (h / 2 ^ 16) (2 ^ 16) ltac:(lia)) as E.
  rewrite Z.div_div in E by lia. change (2 ^ 16 * 2 ^ 16) with (2 ^ 32) in E. lia.
Qed.

Lemma set_spec h index :
  in_u 64 h -> match index with Some i => 0 <= i < 7 | None => True end ->
  exists e, set h index = Ok e /\
    decode_gate e = Some (Gate h KERNEL_CODE_SELECTOR (match index with Some i => i + 1 | None => 0 end) true).
Proof.
  intros Hh Hi. unfold set. destruct index as [i|].
  - destruct (Z.ltb_spec i 7); [|lia]. simpl negb. cbv iota. rewrite add_u_ok, bind_Ok by lia.
    change 7 with (2 ^ 3 - 1) at 1. rewrite land_mask by lia. rewrite (Z.mod_small (i + 1)) by lia. rewrite bind_Ok.
    eexists. split; [reflexivity|]. unfold decode_gate. simpl. rewrite offset_split by done.
    by rewrite Z.mod_small by lia.
  - eexists. split; [reflexivity|]. unfold decode_gate. simpl. by rewrite offset_split by done.
Qed.

(** A gate set for any handler and any of the seven stack slots decodes to
    that handler's whole address, the kernel's code segment, that slot and
    interrupts off; a slot outside the table panics instead of wrapping to "no
    slot". *)
Theorem gate_roundtrip h index :
  in_u 64 h -> match index with Some i => in_u 8 i | None => True end ->
  match set h index with
  | Ok e => (forall i, index = Some i -> i < 7) /\
      decode_gate e = Some (Gate h KERNEL_CODE_SELECTOR (match index with Some i => i + 1 | None => 0 end) true)
  | Panic => exists i, index = Some i /\ 7 <= i
  | _ => False
  end.
Proof.
  intros Hh Hi. destruct index as [i|].
  - unfold in_u in Hi. destruct (Z.lt_ge_cases i 7) as [Hlt|Hge].
    + destruct (set_spec h (Some i) Hh ltac:(simpl; lia)) as (e & -> & He). split; [|done]. by intros ? [= <-].
    + unfold set. destruct (Z.ltb_spec i 7); [lia|]. by exists i.
  - destruct (set_spec h None Hh I) as (e & -> & He). by split.
Qed.

(** The handler each vector is meant to reach. *)
Definition handler_of (vector : Z) : option handler :=
  if vector =? 0 then Some divide_error
  else if vector =? 3 then Some breakpoint
  else if vector =? 6 then Some invalid_opcode
  else if vector =? 8 then Some double_fault
  else if vector =? 13 then Some general_protection
  else if vector =? 14 then Some page_fault
  else if vector =? 32 then Some timer
  else if vector =? 33 then Some keyboard
  else if (34 <=? vector) && (vector <=? 47) then Some unhandled_irq
  else None.

Definition gate_of (address : handler -> Z) (vector : Z) : option gate :=
  h ← handler_of vector;
  Some (Gate (address h) KERNEL_CODE_SELECTOR (if vector =? 8 then DOUBLE_FAULT_IST_INDEX + 1 else 0) true).

(** One gate set, the others as they were. *)
Lemma insert_gate idt v h index :
  length idt = 256%nat -> 0 <= v < 256 -> in_u 64 h ->
  match index with Some i => 0 <= i < 7 | None => True end ->
  exists idt', (e ← set h index; Ok (<[Z.to_nat v := e]> idt)) = Ok (E := Empty_set) idt' /\
    length idt' = 256%nat /\
    forall w, 0 <= w -> delivered_to idt' w =
      if w =? v then Some (Gate h KERNEL_CODE_SELECTOR (match index with Some i => i + 1 | None => 0 end) true)
      else delivered_to idt w.
Proof.
  intros Hlen Hv Hh Hi. destruct (set_spec h index Hh Hi) as (e & -> & He). rewrite bind_Ok.
  eexists. split; [reflexivity|]. split; [by rewrite length_insert|]. intros w Hw. unfold delivered_to.
  destruct (Z.eqb_spec w v) as [->|Hne].
  - rewrite list_lookup_insert_eq by lia. exact He.
  - by rewrite list_lookup_insert_ne by lia.
Qed.

Lemma delivered_new w : delivered_to Idt_new w = None.
Proof.
  unfold delivered_to, Idt_new. destruct (replicate 256 missing !! Z.to_nat w) as [e|] eqn:E; [|done].
  apply lookup_replicate in E as [-> _]. reflexivity.
Qed.

(** The catch-all over the controllers' vectors. *)
Lemma gate_irqs h idt :
  length idt = 256%nat -> in_u 64 h ->
  exists idt', for_range 32 48 (fun vector => set_handler vector h) idt = Ok (E := Empty_set) idt' /\
    length idt' = 256%nat /\
    forall w, 0 <= w -> delivered_to idt' w =
      if (32 <=? w) && (w <? 48) then Some (Gate h KERNEL_CODE_SELECTOR 0 true) else delivered_to idt w.
Proof.
  intros Hlen Hh.
  destruct (for_range_inv (fun j idt' => length idt' = 256%nat /\ forall w, 0 <= w -> delivered_to idt' w =
    if (32 <=? w) && (w <? j) then Some (Gate h KERNEL_CODE_SELECTOR 0 true) else delivered_to idt w)
    32 48 (fun vector => set_handler vector h) idt) as (idt' & Hr & Hl & Hd); [lia| | |by exists idt'].
  - split; [done|]. intros w Hw. destruct (Z.leb_spec 32 w), (Z.ltb_spec w 32); simpl; try done; lia.
  - intros j idt1 Hj [Hl1 Hd1]. destruct (insert_gate idt1 j h None Hl1 ltac:(lia) Hh I) as (idt2 & Hr & Hl2 & Hd2).
    exists idt2. split; [exact Hr|]. split; [done|]. intros w Hw. rewrite Hd2, Hd1 by done.
    destruct (Z.eqb_spec w j), (Z.leb_spec 32 w), (Z.ltb_spec w j), (Z.ltb_spec w (j + 1)); simpl; try done; lia.
Qed.

Lemma idt_init_spec address table :
  (forall h, in_u 64 (address h)) ->
  exists idt, idt_init address table Idt_new = Ok (idt, {| dtp_limit := 4095; dtp_base := table |}) /\
    length idt = 256%nat /\ forall v, 0 <= v -> delivered_to idt v = gate_of address v.
Proof.
  intros Ha. unfold idt_init. change (PIC2_OFFSET + 7 + 1) with 48. change PIC1_OFFSET with 32.
  destruct (gate_irqs (address unhandled_irq) Idt_new eq_refl (Ha _)) as (i0 & -> & L0 & D0). rewrite bind_Ok.
  assert (forall idt v h, length idt = 256%nat -> 0 <= v < 256 ->
    exists idt', set_handler v (address h) idt = Ok (E := Empty_set) idt' /\ length idt' = 256%nat /\
      forall w, 0 <= w -> delivered_to idt' w =
        if w =? v then Some (Gate (address h) KERNEL_CODE_SELECTOR 0 true) else delivered_to idt w) as Hset.
  { intros idt v h Hl Hv. exact (insert_gate idt v (address h) None Hl Hv (Ha h) I). }
  destruct (Hset i0 0 divide_error L0 ltac:(lia)) as (i1 & -> & L1 & D1). rewrite bind_Ok.
  destruct (Hset i1 3 breakpoint L1 ltac:(lia)) as (i2 & -> & L2 & D2). rewrite bind_Ok.
  destruct (Hset i2 6 invalid_opcode L2 ltac:(lia)) as (i3 & -> & L3 & D3). rewrite bind_Ok.
  destruct (Hset i3 13 general_protection L3 ltac:(lia)) as (i4 & -> & L4 & D4). rewrite bind_Ok.
  destruct (Hset i4 14 page_fault L4 ltac:(lia)) as (i5 & -> & L5 & D5). rewrite bind_Ok.
  destruct (insert_gate i5 8 (address double_fault) (Some DOUBLE_FAULT_IST_INDEX) L5 ltac:(lia) (Ha _) ltac:(done))
    as (i6 & Hs6 & L6 & D6). unfold set_handler_with_ist. rewrite Hs6, bind_Ok.
  destruct (Hset i6 TIMER_VECTOR timer L6 ltac:(done)) as (i7 & -> & L7 & D7). rewrite bind_Ok.
  destruct (Hset i7 KEYBOARD_VECTOR keyboard L7 ltac:(done)) as (i8 & -> & L8 & D8). rewrite bind_Ok.
  exists i8. split; [reflexivity|]. split; [done|]. intros v Hv.
  rewrite D8, D7, D6, D5, D4, D3, D2, D1, D0 by done. unfold gate_of, handler_of. rewrite delivered_new.
  change KEYBOARD_VECTOR with 33. change TIMER_VECTOR with 32.
  repeat (case_cmp; [subst; try reflexivity; try lia|]); simpl; try reflexivity; try lia.
  all: repeat (case_cmp; simpl; try reflexivity; try lia).
Qed.

(** C35: the table [init] loads sends each exception the kernel handles to its
    own handler, the timer's and keyboard's vectors to theirs, every other
    vector the interrupt controllers can raise to the catch-all, and no vector
    anywhere else; every gate keeps interrupts off in the handler, and the
    double fault alone switches to the stack the task state segment gives it. *)
Theorem idt_init_delivers address table vector :
  (forall h, in_u 64 (address h)) -> 0 <= vector < 256 ->
  exists idt, idt_init address table Idt_new = Ok (idt, {| dtp_limit := 16 * 256 - 1; dtp_base := table |}) /\
    length idt = 256%nat /\ delivered_to idt vector = gate_of address vector /\
    (forall g, delivered_to idt vector = Some g -> g_masks g = true /\ (g_ist g <> 0 <-> vector = 8)).
Proof.
  intros Ha Hv. destruct (idt_init_spec address table Ha) as (idt & Hr & Hl & Hd).
  exists idt. split; [exact Hr|]. split; [done|]. rewrite Hd by lia. split; [done|].
  intros g Hg. unfold gate_of in Hg. destruct (handler_of vector) as [h|]; [|done]. injection Hg as <-.
  split; [done|]. simpl. destruct (Z.eqb_spec vector 8); split; intros; try done. 
Qed.

(** ** Running the handlers *)

Section Run.
Context {D : Type} `{Device D} (n fuel : nat).
Context (Hlive : live (D := D) n) (Hfuel : (n < fuel)%nat).

(** What printing [out] does to the handlers' state. *)
Record printed (s s' : kstate D) (out : list Z) (t : terminal) : Prop := {
  pr_ticks : TICKS s' = TICKS s;
  pr_keys : KEY_EVENTS_SEEN s' = KEY_EVENTS_SEEN s;
  pr_wrote : wrote (ks_machine s) (ks_machine s') (crlf out) out t;
}.

Lemma crlf_app a b : crlf (a ++ b) = crlf a ++ crlf b.
Proof. induction a as [|x a IH]; [done|]. simpl. by rewrite IH, <- app_assoc. Qed.

Lemma printed_refl s t : displays (ks_machine s) t -> printed s s [] t.
Proof. intros Ht. split; [done|done|]. by apply wrote_nil. Qed.

Lemma printed_trans s1 s2 s3 a b t :
  printed s1 s2 a t -> printed s2 s3 b (term_put (ks_machine s1) a t) -> printed s1 s3 (a ++ b) t.
Proof.
  intros [T1 K1 W1] [T2 K2 W2]. split; [congruence|congruence|]. rewrite crlf_app.
  exact (wrote_app _ _ _ _ _ _ _ _ W1 W2).
Qed.

Lemma kprintln_spec bytes s t :
  Forall is_byte bytes -> displays (ks_machine s) t ->
  exists s', kprintln fuel bytes s = Ok s' /\ printed s s' (line bytes) t.
Proof.
  intros Hb Ht. unfold kprintln, kprint.
  destruct (print_spec n fuel (line bytes) (ks_machine s) t Hlive Hfuel) as (k & -> & W);
    [by apply line_bytes|done|]. eexists. split; [reflexivity|]. by split.
Qed.

Lemma kprintlns_spec ls s t :
  Forall (Forall is_byte) ls -> displays (ks_machine s) t ->
  exists s', kprintlns fuel ls s = Ok s' /\ printed s s' (concat (line <$> ls)) t.
Proof.
  intros Hls. revert s t. induction Hls as [|l ls Hl _ IH]; intros s t Ht; simpl.
  - exists s. split; [done|]. by apply printed_refl.
  - destruct (kprintln_spec l s t Hl Ht) as (s1 & -> & P1). rewrite bind_Ok.
    destruct (IH s1 _ (wr_shows _ _ _ _ _ (pr_wrote _ _ _ _ P1))) as (s2 & -> & P2).
    exists s2. split; [done|]. exact (printed_trans _ _ _ _ _ _ P1 P2).
Qed.

Lemma hex_bytes v : in_u 64 v -> Forall is_byte (hex v).
Proof. intros Hv. by destruct (hex_denotes v Hv) as (ds & _ & _ & Hb). Qed.

Definition isf_ok (f : InterruptStackFrame) : Prop :=
  in_u 64 (instruction_pointer f) /\ in_u 64 (code_segment f) /\ in_u 64 (cpu_flags f) /\
  in_u 64 (stack_pointer f) /\ in_u 64 (stack_segment f).

Lemma fault_report_bytes name f code cr2 :
  isf_ok f -> from_option (in_u 64) True code -> from_option (in_u 64) True cr2 ->
  Forall (Forall is_byte) (fault_report name f code cr2).
Proof.
  intros (H1 & H2 & H3 & H4 & _) Hc H5.
  assert (forall l v, in_u 64 v -> Forall is_byte (text l ++ hex v)) as Hlab.
  { intros l v Hv. apply Forall_app. split; [apply text_bytes|by apply hex_bytes]. }
  assert (Forall is_byte (text "EXCEPTION: " ++ text name)) as Hname
    by (apply Forall_app; split; apply text_bytes).
  unfold fault_report. destruct code, cr2; simpl in Hc, H5; cbn [app];
    repeat (apply Forall_cons_2; [first [apply Forall_nil_2 | exact Hname | by apply Hlab | apply text_bytes]|]);
    apply Forall_nil_2.
Qed.

(** [exit] after a report: the console and the memory as the report left
    them, the code on the debug-exit port. *)
Lemma report_fault_spec name f code cr2 s t :
  isf_ok f -> from_option (in_u 64) True code -> from_option (in_u 64) True cr2 ->
  displays (ks_machine s) t ->
  exists s' s1, report_fault fuel name f code cr2 s = Ok (s', Failed) /\
    printed s s1 (concat (line <$> fault_report name f code cr2)) t /\
    s' = on_io (outb ISA_DEBUG_EXIT_PORT 0x11) s1.
Proof.
  intros Hf Hc Hr Ht. unfold report_fault.
  destruct (kprintlns_spec (fault_report name f code cr2) s t (fault_report_bytes name f code cr2 Hf Hc Hr) Ht)
    as (s1 & -> & P). rewrite bind_Ok. eexists _, s1. split; [reflexivity|]. by split.
Qed.

(** The line the keyboard handler prints. *)
Definition key_line (key : option Z) : list Z :=
  match key with Some ascii => line (text "key: " ++ debug_char ascii) | None => [] end.

Lemma us_key_byte v a : 0 <= v < 128 -> us_key v = Some a -> is_byte a.
Proof.
  intros Hv Ha. pose proof (all_below (fun v => from_option (fun a => (0 <=? a) && (a <? 256)) true (us_key v)) 128
    ltac:(reflexivity) v Hv) as Hall. cbv beta in Hall. rewrite Ha in Hall. simpl in Hall.
  apply andb_true_iff in Hall as [H1 H2]. unfold is_byte. lia.
Qed.

Lemma keyboard_handler_spec s t :
  displays (ks_machine s) t -> KEY_EVENTS_SEEN s + 1 < 2 ^ 64 ->
  exists s' scancode l, keyboard_handler fuel s = Ok s' /\ 0 <= scancode < 256 /\
    let key := if scancode <? 128 then us_key scancode else None in
    io_log (mc_io (ks_machine s')) =
      io_log (mc_io (ks_machine s)) ++ [In DATA_PORT scancode] ++ l ++ [Out PIC1_COMMAND EOI] /\
    transmits (crlf (key_line key)) l /\
    TICKS s' = TICKS s /\ KEY_EVENTS_SEEN s' = KEY_EVENTS_SEEN s + (match key with Some _ => 1 | None => 0 end) /\
    displays (ks_machine s') (term_put (ks_machine s) (key_line key) t) /\
    get_if s' = get_if s /\
    mem_agree (fun a => ~ drawn_on (ks_machine s) a) (mc_mem (ks_machine s)) (mc_mem (ks_machine s')).
Proof.
  intros Ht Hk. unfold keyboard_handler.
  destruct (read_key_spec (mc_io (ks_machine s))) as (i & v & Hv & Hi & ->). rewrite bind_Ok.
  set (key := if v <? 128 then us_key v else None).
  set (s1 := on_io (fun _ => i) s).
  assert (exists s2, match key with
      | Some ascii =>
          n ← add_u 64 (KEY_EVENTS_SEEN s1) 1;
          kprintln fuel (text "key: " ++ debug_char ascii) (KState (ks_machine s1) (TICKS s1) n)
      | None => Ok s1
      end = Ok s2 /\ TICKS s2 = TICKS s /\
    KEY_EVENTS_SEEN s2 = KEY_EVENTS_SEEN s + (match key with Some _ => 1 | None => 0 end) /\
    wrote (ks_machine s1) (ks_machine s2) (crlf (key_line key)) (key_line key) t) as (s2 & -> & T2 & K2 & W2).
  { destruct key as [a|] eqn:Ea.
    - change (KEY_EVENTS_SEEN s1) with (KEY_EVENTS_SEEN s). rewrite add_u_ok, bind_Ok by lia.
      assert (Forall is_byte (text "key: " ++ debug_char a)) as Hbytes.
      { apply Forall_app. split; [apply text_bytes|]. apply debug_char_bytes. unfold key in Ea.
        destruct (Z.ltb_spec v 128); [|done]. apply (us_key_byte v); [lia|done]. }
      destruct (kprintln_spec _ (KState (ks_machine s1) (TICKS s1) (KEY_EVENTS_SEEN s + 1)) t Hbytes Ht)
        as (s2 & Hr & [P1 P2 P3]).
      exists s2. split; [exact Hr|]. split; [exact P1|]. split; [exact P2|exact P3].
    - exists s1. split; [done|]. split; [done|]. split; [simpl; lia|]. by apply wrote_nil. }
  rewrite bind_Ok. destruct W2 as [I2 (l & L2 & WL2) C2 M2 S2].
  eexists _, v, l. split; [reflexivity|]. split; [done|].
  cbv zeta. fold key. split.
  { simpl. rewrite L2. simpl. rewrite Hi. by rewrite <- !app_assoc. }
  split; [exact WL2|]. split; [exact T2|]. split; [exact K2|]. split; [exact S2|]. split; [exact I2|exact M2].
Qed.
End Run.

(** C34: the keyboard's interrupt takes exactly one byte from the controller,
    translated or not, so that the next one can arrive: besides that read and
    the acknowledgement, the port accesses are those of the line it prints. It
    counts and prints the character exactly when the byte is the press of a key
    that makes one, and acknowledges the interrupt last, at the master
    controller alone. It
    terminates, and leaves the tick count, the interrupt flag and all memory
    off the screen alone. *)
Theorem keyboard_handler_exact {D} `{Device D} n fuel (s : kstate D) t :
  live (D := D) n -> (n < fuel)%nat -> displays (ks_machine s) t -> KEY_EVENTS_SEEN s + 1 < 2 ^ 64 ->
  exists s' scancode l, keyboard_handler fuel s = Ok s' /\ 0 <= scancode < 256 /\
    let key := if scancode <? 128 then us_key scancode else None in
    io_log (mc_io (ks_machine s')) =
      io_log (mc_io (ks_machine s)) ++ [In DATA_PORT scancode] ++ l ++ [Out PIC1_COMMAND EOI] /\
    transmits (crlf (key_line key)) l /\
    TICKS s' = TICKS s /\ KEY_EVENTS_SEEN s' = KEY_EVENTS_SEEN s + (match key with Some _ => 1 | None => 0 end) /\
    displays (ks_machine s') (term_put (ks_machine s) (key_line key) t) /\
    get_if s' = get_if s /\
    mem_agree (fun a => ~ drawn_on (ks_machine s) a) (mc_mem (ks_machine s)) (mc_mem (ks_machine s')).
Proof. intros Hlive Hf. by apply keyboard_handler_spec with n. Qed.

(** A processor exception the kernel does not recover from puts its whole
    report on the line and the screen, in order, the faulting address of a
    page fault before the registers, and then ends the run: its last access to
    any port is the write that makes QEMU exit with 35. *)
Theorem report_fault_stops {D} `{Device D} n fuel name f code cr2 (s : kstate D) t :
  live (D := D) n -> (n < fuel)%nat -> displays (ks_machine s) t ->
  isf_ok f -> from_option (in_u 64) True code -> from_option (in_u 64) True cr2 ->
  exists s' l, report_fault fuel name f code cr2 s = Ok (s', Failed) /\
    let report := concat (line <$> fault_report name f code cr2) in
    io_log (mc_io (ks_machine s')) = io_log (mc_io (ks_machine s)) ++ l ++ [Out ISA_DEBUG_EXIT_PORT 0x11] /\
    transmits (crlf report) l /\
    displays (ks_machine s') (term_put (ks_machine s) report t) /\
    process_exit_code 0x11 = 35 /\
    mem_agree (fun a => ~ drawn_on (ks_machine s) a) (mc_mem (ks_machine s)) (mc_mem (ks_machine s')).
Proof.
  intros Hlive Hf Ht Hfr Hc Hr.
  destruct (report_fault_spec n fuel Hlive Hf name f code cr2 s t Hfr Hc Hr Ht)
    as (s' & s1 & Hrun & [_ _ [I (l & L & WL) C M S]] & ->).
  exists (on_io (outb ISA_DEBUG_EXIT_PORT 0x11) s1), l. split; [exact Hrun|]. cbv zeta. split.
  { simpl. by rewrite L, <- app_assoc. }
  split; [exact WL|]. split; [exact S|]. split; [reflexivity|exact M].
Qed.

(** ** Instances *)

Definition demo_address (h : handler) : Z :=
  0xFFFFFFFF80100000 + match h with
    | divide_error => 0 | breakpoint => 16 | invalid_opcode => 32 | double_fault => 48
    | general_protection => 64 | page_fault => 80 | timer => 96 | keyboard => 112 | unhandled_irq => 128 end.

Lemma gate_roundtrip_witness : exists e,
  set 0x123456789ABCDEF0 (Some 6) = Ok e /\ decode_gate e = Some (Gate 0x123456789ABCDEF0 8 7 true).
Proof.
  pose proof (gate_roundtrip 0x123456789ABCDEF0 (Some 6) ltac:(unfold in_u; lia) ltac:(simpl; unfold in_u; lia)) as Hg.
  destruct (set 0x123456789ABCDEF0 (Some 6)) as [e| | |] eqn:E; [|discriminate E..].
  exists e. split; [reflexivity|exact (proj2 Hg)].
Defined.

Lemma idt_init_delivers_witness : exists idt p,
  idt_init demo_address 0x5000 Idt_new = Ok (idt, p) /\
  delivered_to idt 8 = Some (Gate 0xFFFFFFFF80100030 8 1 true).
Proof.
  destruct (idt_init_delivers demo_address 0x5000 8) as (idt & Hr & _ & Hd & _).
  - intros []; unfold in_u, demo_address; lia.
  - lia.
  - eexists idt, _. split; [exact Hr|exact Hd].
Defined.

Definition demo_kstate : kstate nat := KState (Machine false (Io 0%nat []) None ∅) 7 0.

Lemma keyboard_handler_exact_witness : exists s' scancode,
  keyboard_handler 3 demo_kstate = Ok s' /\ 0 <= scancode < 256 /\ TICKS s' = 7.
Proof.
  destruct (keyboard_handler_exact 2 3 demo_kstate blank_terminal slow_uart_live)
    as (s' & v & l & Hr & Hv & _ & _ & Ht & _); [lia|exact I|simpl; lia|].
  exists s', v. split; [exact Hr|]. split; [exact Hv|exact Ht].
Defined.

Definition demo_frame : InterruptStackFrame :=
  {| instruction_pointer := 0x1000; code_segment := 8; cpu_flags := 2; stack_pointer := 0x2000; stack_segment := 0 |}.

Lemma report_fault_stops_witness : exists s' l,
  page_fault_handler 3 demo_frame 2 0xDEAD demo_kstate = Ok (s', Failed) /\
  io_log (mc_io (ks_machine s')) = l ++ [Out 0xf4 0x11].
Proof.
  destruct (report_fault_stops 2 3 "page fault (#PF)" demo_frame (Some 2) (Some 0xDEAD) demo_kstate blank_terminal
    slow_uart_live) as (s' & l & Hr & Hl & _).
  - lia.
  - exact I.
  - repeat split; simpl; lia.
  - simpl. unfold in_u. lia.
  - simpl. unfold in_u. lia.
  - exists s', l. split; [exact Hr|exact Hl].
Defined.
