(* ===== verification/Wait.v ===== *)
(** The last phase of [kernel_main] ([kernel/src/main.rs]): interrupts on, a
    hundred ticks, a keypress or the deadline, and the exit code; with the
    interrupts that arrive in the meantime as an explicit schedule. *)
From Stdlib Require Import String.
From S2P Require Import Prelude Memory Port Pic Interrupts Console Serial Keyboard QemuExit Fmt Gdt Idt.

Definition TIMER_HZ : Z := 100.
Definition TICKS_REQUIRED : Z := 100.

(** A hardware interrupt: one of the two unmasked lines, or a spurious one. *)
Inductive irq := TimerIrq | KeyboardIrq | SpuriousIrq.

(** What arrives between one critical section and the next, in order: a batch
    for every place where the kernel's code can be interrupted. *)
Definition schedule := list (list irq).

Section Wait.
Context {D : Type} `{Device D} (fuel : nat).

(** Delivering an interrupt: the gate masks further ones, the handler runs,
    [iretq] puts the flag back. With the flag clear nothing is delivered. *)
Definition deliver (q : irq) (s : kstate D) : res (kstate D) :=
  if get_if s then
    s ← match q with
        | TimerIrq => timer_handler (cli s)
        | KeyboardIrq => keyboard_handler fuel (cli s)
        | SpuriousIrq => Ok (unhandled_irq_handler (cli s))
        end;
    Ok (sti s)
  else Ok s.

Fixpoint deliver_all (qs : list irq) (s : kstate D) : res (kstate D) :=
  match qs with
  | [] => Ok s
  | q :: qs => s ← deliver q s; deliver_all qs s
  end.

(** Time passes before the next critical section; the run is still going when
    the schedule ends. *)
Definition gap (sched : schedule) (s : kstate D) : res (schedule * kstate D) :=
  match sched with
  | [] => Loop
  | qs :: sched => s ← deliver_all qs s; Ok (sched, s)
  end.

(** [while idt::ticks() < TICKS_REQUIRED { hlt() }]: what arrives before a
    read, the [hlt] before it included. *)
Fixpoint wait_ticks (sched : schedule) (s : kstate D) : res (schedule * kstate D) :=
  match sched with
  | [] => Loop
  | qs :: sched =>
      s ← deliver_all qs s;
      '(s, t) ← ticks s;
      if t <? TICKS_REQUIRED then wait_ticks sched s else Ok (sched, s)
  end.

(** [while idt::key_events_seen() == 0 { if idt::ticks() > deadline ... hlt() }];
    the result tells whether a key was seen. *)
Fixpoint wait_key (deadline : Z) (sched : schedule) (s : kstate D) : res (schedule * kstate D * bool) :=
  match sched with
  | [] => Loop
  | qs :: sched =>
      s ← deliver_all qs s;
      '(s, n) ← key_events_seen s;
      if negb (n =? 0) then Ok (sched, s, true) else
      match sched with
      | [] => Loop
      | qs :: sched =>
          s ← deliver_all qs s;
          '(s, t) ← ticks s;
          if deadline <? t then Ok (sched, s, false) else wait_key deadline sched s
      end
  end.

(** From "enabling interrupts" to the end of [kernel_main]: interrupts may
    come before every print, every read of a counter and the exit, all of which
    mask them. *)
Definition wait_phase (sched : schedule) (s : kstate D) : res (kstate D * QemuExitCode) :=
  s ← kprintln fuel (text "enabling interrupts") s;
  let s := enable s in
  '(sched, s) ← wait_ticks sched s;
  '(sched, s) ← gap sched s;
  s ← kprintln fuel (text "timer: " ++ dec TICKS_REQUIRED ++ text " ticks received - IRQ0 works") s;
  '(sched, s) ← gap sched s;
  s ← kprintln fuel (text "waiting for a keypress...") s;
  '(sched, s) ← gap sched s;
  '(s, now) ← ticks s;
  wait ← mul_u 64 TIMER_HZ 10;
  deadline ← add_u 64 now wait;
  '(sched, s, seen) ← wait_key deadline sched s;
  '(sched, s) ← gap sched s;
  match seen with
  | true =>
    '(s, n) ← key_events_seen s;
    '(sched, s) ← gap sched s;
    s ← kprintln fuel (text "keyboard: " ++ dec n ++ text " key event(s) received - IRQ1 works") s;
    '(_, s) ← gap sched s;
    Ok (exit Success s)
  | false =>
    s ← kprintln fuel (text "keyboard: no input within 10s - IRQ1 is not delivering") s;
    '(_, s) ← gap sched s;
    Ok (exit Failed s)
  end.
End Wait.

(** ** What the phase keeps *)

(** The number of interrupts of a schedule, and of ticks among some. *)
Definition irqs (sched : schedule) : Z := Z.of_nat (length (concat sched)).
Definition tick (q : irq) : Z := match q with TimerIrq => 1 | _ => 0 end.
Definition ticks_in (qs : list irq) : Z := foldr (fun q v => tick q + v) 0 qs.

(** How many batches bring a tick; the others, empty ones among them, may fall
    anywhere. *)
Definition beat (qs : list irq) : Z := if 1 <=? ticks_in qs then 1 else 0.
Definition beats (sched : schedule) : Z := foldr (fun qs n => beat qs + n) 0 sched.

Lemma irqs_cons qs sched : irqs (qs :: sched) = Z.of_nat (length qs) + irqs sched.
Proof. unfold irqs. simpl concat. rewrite length_app. lia. Qed.

Lemma irqs_nonneg sched : 0 <= irqs sched.
Proof. unfold irqs. lia. Qed.

Lemma ticks_in_nonneg qs : 0 <= ticks_in qs.
Proof. induction qs as [|[] qs IH]; simpl; lia. Qed.

Lemma beat_spec qs : 0 <= beat qs <= 1 /\ beat qs <= ticks_in qs.
Proof. unfold beat. pose proof (ticks_in_nonneg qs). case_cmp; lia. Qed.

Lemma beats_length sched : 0 <= beats sched <= Z.of_nat (length sched).
Proof. induction sched as [|qs sched IH]; simpl; [lia|]. pose proof (beat_spec qs). lia. Qed.

Lemma beats_replicate n qs : 1 <= ticks_in qs -> beats (replicate n qs) = Z.of_nat n.
Proof.
  intros Hq. induction n as [|n IH]; [done|]. simpl replicate. cbn [beats foldr].
  fold (beats (replicate n qs)). rewrite IH. unfold beat. case_cmp; lia.
Qed.

Lemma ticks_read {D} (s : kstate D) : ticks s = Ok (s, TICKS s).
Proof.
  unfold ticks. rewrite without_interrupts_masked, bind_Ok. destruct s as [[[] i c m] T K]; done.
Qed.

Lemma keys_read {D} (s : kstate D) : key_events_seen s = Ok (s, KEY_EVENTS_SEEN s).
Proof.
  unfold key_events_seen. rewrite without_interrupts_masked, bind_Ok. destruct s as [[[] i c m] T K]; done.
Qed.

(** A print counts nothing and leaves interrupts on. *)
Lemma kprintln_counters {D} `{Device D} fuel bytes (s s' : kstate D) :
  kprintln fuel bytes s = Ok s' ->
  TICKS s' = TICKS s /\ KEY_EVENTS_SEEN s' = KEY_EVENTS_SEEN s /\ (get_if s = true -> get_if s' = true).
Proof.
  unfold kprintln, kprint, print. rewrite without_interrupts_masked.
  destruct (write_str fuel (line bytes) (masked (ks_machine s))) as [m| | |]; try done.
  rewrite !bind_Ok. intros [= <-]. simpl. destruct (mc_if (ks_machine s)); by split.
Qed.

Section Run.
Context {D : Type} `{Device D} (n fuel : nat).
Context (Hlive : live (D := D) n) (Hfuel : (n < fuel)%nat).

(** Interrupts on, the screen showing some terminal, and counters that
    [room] more interrupts cannot overflow. *)
Record running (room : Z) (s : kstate D) : Prop := {
  ru_if : get_if s = true;
  ru_shows : exists t, displays (ks_machine s) t;
  ru_ticks : 0 <= TICKS s /\ TICKS s + room < 2 ^ 62;
  ru_keys : 0 <= KEY_EVENTS_SEEN s /\ KEY_EVENTS_SEEN s + room < 2 ^ 62;
}.

Lemma cli_displays (s : kstate D) t : displays (ks_machine s) t -> displays (ks_machine (cli s)) t.
Proof. by destruct s as [[]]. Qed.

Lemma deliver_spec q room s :
  running (room + 1) s -> 0 <= room ->
  exists s', deliver fuel q s = Ok s' /\ running room s' /\
    TICKS s' = TICKS s + tick q /\ KEY_EVENTS_SEEN s <= KEY_EVENTS_SEEN s'.
Proof.
  intros [Hif [t Ht] HT HK] Hr. unfold deliver. rewrite Hif. destruct q; simpl tick.
  - unfold timer_handler. change (TICKS (cli s)) with (TICKS s). rewrite add_u_ok, !bind_Ok by lia.
    eexists. split; [reflexivity|]. split; [|simpl; lia]. split; simpl; [done| |lia|lia].
    exists t. by destruct s as [[]].
  - destruct (keyboard_handler_spec n fuel Hlive Hfuel (cli s) t (cli_displays s t Ht)) as
      (s' & v & l & -> & _ & _ & _ & T' & K' & S' & _); [simpl; lia|]. rewrite bind_Ok.
    eexists. split; [reflexivity|]. simpl in T', K'.
    assert (KEY_EVENTS_SEEN s <= KEY_EVENTS_SEEN s' <= KEY_EVENTS_SEEN s + 1) as HK'.
    { rewrite K'. destruct (if v <? 128 then us_key v else None); lia. }
    split; [|simpl; lia]. split; simpl; [done| |lia|lia].
    eexists. destruct s' as [[] ? ?]. exact S'.
  - rewrite bind_Ok. eexists. split; [reflexivity|]. split; [|simpl; lia].
    split; simpl; [done| |lia|lia]. exists t. by destruct s as [[]].
Qed.

Lemma deliver_all_spec qs room s :
  running (room + Z.of_nat (length qs)) s -> 0 <= room ->
  exists s', deliver_all fuel qs s = Ok s' /\ running room s' /\
    TICKS s' = TICKS s + ticks_in qs /\ KEY_EVENTS_SEEN s <= KEY_EVENTS_SEEN s'.
Proof.
  revert s. induction qs as [|q qs IH]; intros s Hs Hr; simpl deliver_all.
  - exists s. rewrite Z.add_0_r in Hs. simpl. split; [done|]. split; [done|]. lia.
  - replace (room + Z.of_nat (length (q :: qs))) with (room + Z.of_nat (length qs) + 1) in Hs by (simpl length; lia).
    destruct (deliver_spec q _ s Hs ltac:(lia)) as (s1 & -> & R1 & T1 & K1). rewrite bind_Ok.
    destruct (IH s1 R1 Hr) as (s2 & -> & R2 & T2 & K2). exists s2. simpl. split; [done|]. split; [done|]. lia.
Qed.

Lemma kprintln_running bytes room s :
  Forall is_byte bytes -> running room s ->
  exists s', kprintln fuel bytes s = Ok s' /\ running room s' /\
    TICKS s' = TICKS s /\ KEY_EVENTS_SEEN s' = KEY_EVENTS_SEEN s.
Proof.
  intros Hb [Hif [t Ht] HT HK]. destruct (kprintln_spec n fuel Hlive Hfuel bytes s t Hb Ht) as (s' & Hr & [T K W]).
  exists s'. split; [done|]. split; [|done].
  split; [rewrite <- Hif; apply (wr_if _ _ _ _ _ W)|eexists; apply (wr_shows _ _ _ _ _ W)|lia|lia].
Qed.

Lemma running_batch qs sched s :
  running (irqs (qs :: sched)) s ->
  exists s', deliver_all fuel qs s = Ok s' /\ running (irqs sched) s' /\
    TICKS s' = TICKS s + ticks_in qs /\ KEY_EVENTS_SEEN s <= KEY_EVENTS_SEEN s'.
Proof.
  rewrite irqs_cons. intros Hs. apply deliver_all_spec; [by rewrite Z.add_comm|apply irqs_nonneg].
Qed.

(** From one point of the phase to a later one, having used at most [k] of the
    batches that bring a tick. *)
Record later (k : Z) (sched : schedule) (s : kstate D) (sched' : schedule) (s' : kstate D) : Prop := {
  la_running : running (irqs sched') s';
  la_beats : beats sched <= beats sched' + k;
  la_ticks : TICKS s <= TICKS s';
  la_keys : KEY_EVENTS_SEEN s <= KEY_EVENTS_SEEN s';
}.

Lemma gap_spec sched s :
  running (irqs sched) s -> 1 <= beats sched ->
  exists sched' s', gap fuel sched s = Ok (sched', s') /\ later 1 sched s sched' s'.
Proof.
  intros Hs Hb. destruct sched as [|qs sched]; [simpl in Hb; lia|]. cbn [gap].
  destruct (running_batch qs sched s Hs) as (s' & -> & R & T & K). exists sched, s'. split; [done|].
  pose proof (beat_spec qs). pose proof (ticks_in_nonneg qs). split; [done|simpl; lia|lia|lia].
Qed.

Lemma wait_print_spec sched bytes s :
  Forall is_byte bytes -> running (irqs sched) s ->
  exists s', kprintln fuel bytes s = Ok s' /\ later 0 sched s sched s'.
Proof.
  intros Hb Hs. destruct (kprintln_running bytes (irqs sched) s Hb Hs) as (s' & Hr & R & T & K).
  exists s'. split; [done|]. split; [done|lia..].
Qed.

(** The wait for the timer ends, having used at most the batches it needs. *)
Lemma wait_ticks_spec sched s :
  running (irqs sched) s -> Z.max 1 (TICKS_REQUIRED - TICKS s) <= beats sched ->
  exists sched' s', wait_ticks fuel sched s = Ok (sched', s') /\
    later (Z.max 1 (TICKS_REQUIRED - TICKS s)) sched s sched' s' /\ TICKS_REQUIRED <= TICKS s'.
Proof.
  revert s. induction sched as [|qs sched IH]; intros s Hs Hb; [simpl in Hb; lia|]. cbn [wait_ticks].
  destruct (running_batch qs sched s Hs) as (s1 & -> & R1 & T1 & K1). rewrite bind_Ok, ticks_read, bind_Ok.
  pose proof (beat_spec qs). cbn [beats foldr] in Hb. fold (beats sched) in Hb.
  destruct (Z.ltb_spec (TICKS s1) TICKS_REQUIRED) as [Hlt|Hge].
  - destruct (IH s1 R1 ltac:(lia)) as (sched' & s' & Hr & [R' B' T' K'] & Hd).
    exists sched', s'. split; [exact Hr|]. split; [|done]. split; [done|simpl; lia|lia|lia].
  - exists sched, s1. split; [done|]. split; [|done]. split; [done|simpl; lia|lia|lia].
Qed.

(** The wait for a key ends: with one seen, or past the deadline. *)
Lemma wait_key_spec deadline sched s :
  running (irqs sched) s -> TICKS s <= deadline -> deadline + 2 - TICKS s <= beats sched ->
  exists sched' s' seen, wait_key fuel deadline sched s = Ok (sched', s', seen) /\
    later (deadline + 2 - TICKS s) sched s sched' s' /\
    (if seen then 0 < KEY_EVENTS_SEEN s' else deadline < TICKS s' /\ KEY_EVENTS_SEEN s = 0).
Proof.
  revert sched s. apply (induction_ltof1 _ (@length (list irq)) (fun sched => forall s, _ -> _ -> _ -> _)).
  unfold ltof. intros sched IH s Hs Hd Hb. pose proof (beats_length sched).
  destruct sched as [|q1 [|q2 sched]]; [simpl in *; lia|simpl in *; lia|].
  cbn [wait_key]. cbn [beats foldr] in Hb. fold (beats sched) in Hb. pose proof (ru_keys _ _ Hs).
  destruct (running_batch q1 (q2 :: sched) s Hs) as (s1 & -> & R1 & T1 & K1). rewrite bind_Ok, keys_read, bind_Ok.
  pose proof (beat_spec q1). pose proof (beat_spec q2).
  destruct (Z.eqb_spec (KEY_EVENTS_SEEN s1) 0) as [Hz|Hnz]; simpl negb; cbv iota;
    [|exists (q2 :: sched), s1, true; split; [done|]; split; [split; [done|simpl; lia..]|lia]].
  destruct (running_batch q2 sched s1 R1) as (s2 & -> & R2 & T2 & K2). rewrite bind_Ok, ticks_read, bind_Ok.
  destruct (Z.ltb_spec deadline (TICKS s2)) as [Hlt|Hge];
    [exists sched, s2, false; split; [done|]; split; [split; [done|simpl; lia..]|lia]|].
  destruct (IH sched ltac:(simpl; lia) s2 R2 ltac:(lia) ltac:(lia)) as (sched' & s' & seen & Hr & [R' B' T' K'] & Hseen).
  exists sched', s', seen. split; [exact Hr|]. split; [split; [done|simpl; lia..]|].
  destruct seen; [done|lia].
Qed.

(** The two endings. *)
Lemma count_line_bytes c : in_u 64 c ->
  Forall is_byte (text "keyboard: " ++ dec c ++ text " key event(s) received - IRQ1 works").
Proof.
  intros Hc. apply Forall_app. split; [apply text_bytes|]. apply Forall_app. split; [|apply text_bytes].
  by apply dec_denotes.
Qed.

Lemma seen_spec sched s :
  running (irqs sched) s -> 2 <= beats sched ->
  exists s', ('(s, n) ← key_events_seen s;
    '(sched, s) ← gap fuel sched s;
    s ← kprintln fuel (text "keyboard: " ++ dec n ++ text " key event(s) received - IRQ1 works") s;
    '(_, s) ← gap fuel sched s;
    Ok (exit Success s)) = Ok (exit Success s') /\ TICKS s <= TICKS s' /\ KEY_EVENTS_SEEN s <= KEY_EVENTS_SEEN s'.
Proof.
  intros Hs Hb. rewrite keys_read, bind_Ok. pose proof (ru_keys _ _ Hs). pose proof (irqs_nonneg sched).
  destruct (gap_spec sched s Hs ltac:(lia)) as (sch1 & s1 & -> & [R1 B1 T1 K1]). rewrite bind_Ok.
  destruct (wait_print_spec sch1 _ s1 (count_line_bytes (KEY_EVENTS_SEEN s) ltac:(unfold in_u; lia)) R1)
    as (s2 & -> & [R2 B2 T2 K2]). rewrite bind_Ok.
  destruct (gap_spec sch1 s2 R2 ltac:(lia)) as (sch3 & s3 & -> & [R3 B3 T3 K3]). rewrite bind_Ok.
  exists s3. split; [done|lia].
Qed.

Lemma unseen_spec sched s :
  running (irqs sched) s -> 1 <= beats sched ->
  exists s', (s ← kprintln fuel (text "keyboard: no input within 10s - IRQ1 is not delivering") s;
    '(_, s) ← gap fuel sched s;
    Ok (exit Failed s)) = Ok (exit Failed s') /\ TICKS s <= TICKS s'.
Proof.
  intros Hs Hb. destruct (wait_print_spec sched _ s (text_bytes "keyboard: no input within 10s - IRQ1 is not delivering") Hs) as (s1 & -> & [R1 B1 T1 K1]). rewrite bind_Ok.
  destruct (gap_spec sched s1 R1 Hb) as (sch2 & s2 & -> & [R2 B2 T2 K2]). rewrite bind_Ok.
  exists s2. split; [done|lia].
Qed.
End Run.

(** ** Properties *)

Lemma enable_running {D} room (s : kstate D) :
  (exists t, displays (ks_machine s) t) -> 0 <= TICKS s /\ TICKS s + room < 2 ^ 62 ->
  0 <= KEY_EVENTS_SEEN s /\ KEY_EVENTS_SEEN s + room < 2 ^ 62 -> running room (enable s).
Proof. intros [t Ht] HT HK. destruct s as [[]]. split; [done| |done|done]. by exists t. Qed.

Lemma exit_log {D} `{Device D} code (s : kstate D) :
  io_log (mc_io (ks_machine (fst (exit code s)))) =
  io_log (mc_io (ks_machine s)) ++ [Out ISA_DEBUG_EXIT_PORT (QemuExitCode_as_u32 code)].
Proof. done. Qed.

(** Enough ticks: a hundred for the timer, a second batch for each place where
    one may go by unread, and the ten seconds of the deadline. *)
Definition BEATS : Z := 1108.

(** The whole phase. *)
Lemma wait_phase_spec {D} `{Device D} n fuel sched (s : kstate D) t :
  live (D := D) n -> (n < fuel)%nat -> displays (ks_machine s) t ->
  TICKS s = 0 -> KEY_EVENTS_SEEN s = 0 ->
  BEATS <= beats sched -> irqs sched < 2 ^ 60 ->
  exists s' code l, wait_phase fuel sched s = Ok (s', code) /\
    io_log (mc_io (ks_machine s')) = l ++ [Out ISA_DEBUG_EXIT_PORT (QemuExitCode_as_u32 code)] /\
    match code with
    | Success => process_exit_code (QemuExitCode_as_u32 code) = 33 /\ TICKS_REQUIRED <= TICKS s' /\ 0 < KEY_EVENTS_SEEN s'
    | Failed => process_exit_code (QemuExitCode_as_u32 code) = 35 /\ TICKS_REQUIRED + 10 * TIMER_HZ < TICKS s'
    end.
Proof.
  intros Hlive Hf Ht HT HK Hb Hirqs. unfold wait_phase, BEATS, TICKS_REQUIRED, TIMER_HZ in *.
  destruct (kprintln_spec n fuel Hlive Hf (text "enabling interrupts") s t (text_bytes _) Ht) as (s1 & -> & [T1 K1 W1]).
  rewrite bind_Ok. cbv zeta.
  assert (running (irqs sched) (enable s1)) as R1.
  { apply enable_running; [eexists; apply (wr_shows _ _ _ _ _ W1)|lia|lia]. }
  assert (TICKS (enable s1) = 0) as T1' by (change (TICKS s1 = 0); lia).
  destruct (wait_ticks_spec n fuel Hlive Hf sched (enable s1) R1) as (sch2 & s2 & -> & [R2 B2 _ _] & T2);
    rewrite T1' in *; unfold TICKS_REQUIRED in *; [lia|]. rewrite bind_Ok.
  destruct (gap_spec n fuel Hlive Hf sch2 s2 R2) as (sch3 & s3 & -> & [R3 B3 T3 K3]); [lia|]. rewrite bind_Ok.
  destruct (wait_print_spec n fuel Hlive Hf sch3 (text "timer: " ++ dec 100 ++ text " ticks received - IRQ0 works") s3)
    as (s4 & -> & [R4 B4 T4 K4]); [|done|].
  { apply Forall_app. split; [apply text_bytes|]. apply Forall_app. split; [|apply text_bytes].
    apply dec_denotes. unfold in_u. lia. }
  rewrite bind_Ok. destruct (gap_spec n fuel Hlive Hf sch3 s4 R4) as (sch5 & s5 & -> & [R5 B5 T5 K5]); [lia|]. rewrite bind_Ok.
  destruct (wait_print_spec n fuel Hlive Hf sch5 _ s5 (text_bytes "waiting for a keypress...") R5) as (s6 & -> & [R6 B6 T6 K6]).
  rewrite bind_Ok. destruct (gap_spec n fuel Hlive Hf sch5 s6 R6) as (sch7 & s7 & -> & [R7 B7 T7 K7]); [lia|].
  rewrite bind_Ok, ticks_read, bind_Ok. pose proof (ru_ticks _ _ R7). pose proof (irqs_nonneg sch7).
  rewrite mul_u_ok, bind_Ok by lia. rewrite add_u_ok, bind_Ok by lia.
  destruct (wait_key_spec n fuel Hlive Hf (TICKS s7 + 100 * 10) sch7 s7 R7) as (sch8 & s8 & seen & -> & [R8 B8 T8 K8] & Hseen);
    [lia|lia|]. rewrite bind_Ok.
  destruct (gap_spec n fuel Hlive Hf sch8 s8 R8) as (sch9 & s9 & -> & [R9 B9 T9 K9]); [lia|]. rewrite bind_Ok. destruct seen.
  - destruct (seen_spec n fuel Hlive Hf sch9 s9 R9) as (s' & -> & T' & K'); [lia|].
    eexists _, Success, _. split; [reflexivity|]. split; [apply exit_log|]. split; [done|]. simpl. lia.
  - destruct (unseen_spec n fuel Hlive Hf sch9 s9 R9) as (s' & -> & T'); [lia|].
    eexists _, Failed, _. split; [reflexivity|]. split; [apply exit_log|]. split; [done|]. simpl. lia.
Qed.

(** On a machine whose timer keeps ticking, whatever other interrupts
    arrive and wherever they land, the kernel's last phase ends and never
    panics: with the code QEMU turns into 33 only after at least a hundred
    ticks and with a key counted, with the one it turns into 35 only once the
    ten seconds of ticks after the first hundred have passed; and the write of
    that code is its last access to any port. *)
Theorem wait_phase_exits {D} `{Device D} n fuel sched (s : kstate D) t :
  live (D := D) n -> (n < fuel)%nat -> displays (ks_machine s) t ->
  TICKS s = 0 -> KEY_EVENTS_SEEN s = 0 ->
  BEATS <= beats sched -> irqs sched < 2 ^ 60 ->
  exists s' code l, wait_phase fuel sched s = Ok (s', code) /\
    io_log (mc_io (ks_machine s')) = l ++ [Out ISA_DEBUG_EXIT_PORT (QemuExitCode_as_u32 code)] /\
    match code with
    | Success => process_exit_code (QemuExitCode_as_u32 code) = 33 /\ TICKS_REQUIRED <= TICKS s' /\ 0 < KEY_EVENTS_SEEN s'
    | Failed => process_exit_code (QemuExitCode_as_u32 code) = 35 /\ TICKS_REQUIRED + 10 * TIMER_HZ < TICKS s'
    end.
Proof. apply wait_phase_spec. Qed.

(** ** Instances *)

(** A schedule with gaps: every third batch brings a tick, the others nothing
    or a key. *)
Definition demo_batches : schedule := concat (replicate 1108 [[]; [TimerIrq; SpuriousIrq]; [KeyboardIrq]]).

Lemma demo_batches_beats : BEATS <= beats demo_batches /\ irqs demo_batches < 2 ^ 60.
Proof. split; [|unfold irqs]; by vm_compute. Defined.

Lemma wait_phase_exits_witness : exists s' code,
  wait_phase 3 demo_batches (KState (Machine false (Io 0%nat []) None ∅) 0 0) = Ok (s', code).
Proof.
  destruct (wait_phase_exits 2 3 demo_batches
    (KState (Machine false (Io 0%nat []) None ∅) 0 0) blank_terminal slow_uart_live) as (s' & code & l & Hr & _).
  - lia.
  - exact I.
  - reflexivity.
  - reflexivity.
  - apply demo_batches_beats.
  - apply demo_batches_beats.
  - exists s', code. exact Hr.
Defined.
