(* ===== verification/Interleave.v ===== *)
(** The last phase of [kernel_main] ([kernel/src/main.rs],
    [kernel/src/interrupts.rs]) as a machine that takes one step at a time: a
    critical section of the kernel's own code, or an interrupt, wherever the
    flag lets one in. [Wait] runs the phase against a schedule fixed beforehand;
    here nothing is fixed, and the two are shown to have the same runs. *)
From Stdlib Require Import String.
From S2P Require Import Prelude Memory Port Pic Interrupts Console Serial Keyboard QemuExit Fmt Gdt Idt Wait.

(** Where the kernel's code stands, by what it does next. *)
Inductive point :=
| At_enabling                      (* print "enabling interrupts", then [sti] *)
| At_ticks                         (* [idt::ticks() < TICKS_REQUIRED] *)
| At_timer_line                    (* print the timer's line *)
| At_waiting_line                  (* print "waiting for a keypress..." *)
| At_deadline                      (* compute the deadline *)
| At_key (deadline : Z)            (* [idt::key_events_seen() == 0] *)
| At_expiry (deadline : Z)         (* [idt::ticks() > deadline] *)
| At_silent_line                   (* print that no key came *)
| At_count                         (* read the count for the last line *)
| At_count_line (n : Z)            (* print it *)
| At_exit (code : QemuExitCode)    (* [qemu_exit::exit] *)
| At_hlt (back : point)            (* [interrupts::hlt] *)
| Asleep (back : point)            (* halted, until something wakes it *)
| Over (code : QemuExitCode).      (* QEMU has exited *)

(** A step: the kernel's own, an interrupt's, or a halt that ends for a reason
    of the machine's own (a system management interrupt, say). *)
Inductive label := Code | Irq (q : irq) | Woken.
#[export] Instance irq_eq_dec : EqDecision irq.
Proof. solve_decision. Defined.
#[export] Instance label_eq_dec : EqDecision label.
Proof. solve_decision. Defined.

Definition irq_of (l : label) : list irq := match l with Irq q => [q] | _ => [] end.

Definition is_over (p : point) : bool := match p with Over _ => true | _ => false end.
Definition is_asleep (p : point) : bool := match p with Asleep _ => true | _ => false end.

(** [interrupts::hlt]: no further until something wakes the processor. *)
Definition hlt (back : point) : point := Asleep back.

(** An interrupt ends a halt. *)
Definition wake (p : point) : point := match p with Asleep p => p | p => p end.

Section Machine.
Context {D : Type} `{Device D} (fuel : nat).

Abbreviation config := (point * kstate D)%type.

(** The section at a point, and where it leads. Asleep or over, the kernel
    does nothing of its own. *)
Definition advance (p : point) (s : kstate D) : res config :=
  match p with
  | At_enabling => s ← kprintln fuel (text "enabling interrupts") s; Ok (At_ticks, enable s)
  | At_ticks => '(s, t) ← ticks s; Ok (if t <? TICKS_REQUIRED then At_hlt At_ticks else At_timer_line, s)
  | At_timer_line =>
      s ← kprintln fuel (text "timer: " ++ dec TICKS_REQUIRED ++ text " ticks received - IRQ0 works") s;
      Ok (At_waiting_line, s)
  | At_waiting_line => s ← kprintln fuel (text "waiting for a keypress...") s; Ok (At_deadline, s)
  | At_deadline =>
      '(s, now) ← ticks s;
      wait ← mul_u 64 TIMER_HZ 10;
      deadline ← add_u 64 now wait;
      Ok (At_key deadline, s)
  | At_key deadline =>
      '(s, n) ← key_events_seen s; Ok (if negb (n =? 0) then At_count else At_expiry deadline, s)
  | At_expiry deadline =>
      '(s, t) ← ticks s; Ok (if deadline <? t then At_silent_line else At_hlt (At_key deadline), s)
  | At_silent_line =>
      s ← kprintln fuel (text "keyboard: no input within 10s - IRQ1 is not delivering") s; Ok (At_exit Failed, s)
  | At_count => '(s, n) ← key_events_seen s; Ok (At_count_line n, s)
  | At_count_line n =>
      s ← kprintln fuel (text "keyboard: " ++ dec n ++ text " key event(s) received - IRQ1 works") s;
      Ok (At_exit Success, s)
  | At_exit code => let '(s, code) := exit code s in Ok (Over code, s)
  | At_hlt back => Ok (hlt back, s)
  | Asleep _ | Over _ => Loop
  end.

Inductive step : config -> label -> config -> Prop :=
| step_code p s p' s' : advance p s = Ok (p', s') -> step (p, s) Code (p', s')
| step_irq p s q s' :
    get_if s = true -> is_over p = false -> deliver fuel q s = Ok s' -> step (p, s) (Irq q) (wake p, s')
| step_woken p s : step (Asleep p, s) Woken (p, s).

(** Several steps, with the interrupts taken, in order. *)
Inductive runs : config -> list irq -> config -> Prop :=
| runs_nil c : runs c [] c
| runs_cons c l c1 qs c2 : step c l c1 -> runs c1 qs c2 -> runs c (irq_of l ++ qs) c2.

(** An endless execution that stays where it is once the machine is off; the
    timer never stops ticking, and the kernel is never kept from its own code
    for good. *)
Record fair_run (run : nat -> config) (lab : nat -> label) : Prop := {
  fr_step i : if is_over (fst (run i)) then run (S i) = run i else step (run i) (lab i) (run (S i));
  fr_timer i : exists j, (i <= j)%nat /\ (lab j = Irq TimerIrq \/ is_over (fst (run j)) = true);
  fr_code i : exists j, (i <= j)%nat /\
    (lab j = Code \/ is_asleep (fst (run j)) = true \/ is_over (fst (run j)) = true);
}.

(** The interrupts of its first [n] steps. *)
Fixpoint taken (run : nat -> config) (lab : nat -> label) (n : nat) : list irq :=
  match n with
  | O => []
  | S n => taken run lab n ++ (if is_over (fst (run n)) then [] else irq_of (lab n))
  end.

(** ** What a step does to the counters *)

Lemma deliver_counters q (s s' : kstate D) :
  get_if s = true -> deliver fuel q s = Ok s' ->
  get_if s' = true /\ TICKS s' = TICKS s + tick q /\ KEY_EVENTS_SEEN s <= KEY_EVENTS_SEEN s'.
Proof using.
  intros Hif Hr. unfold deliver in Hr. rewrite Hif in Hr. inv_bind Hr. injection Hr as <-. rename a into s1.
  split; [done|]. destruct q; simpl tick.
  - unfold timer_handler, add_u in H0. case_cmp_in H0; [|done]. injection H0 as <-. simpl. lia.
  - unfold keyboard_handler in H0. destruct (read_key _) as [[i k]| | |]; try done. rewrite bind_Ok in H0.
    inv_bind H0. injection H0 as <-. destruct k as [ascii|]; [|injection H1 as <-; simpl; lia].
    inv_bind H1. unfold add_u in H0. case_cmp_in H0; [|done]. injection H0 as <-.
    apply kprintln_counters in H1 as (T & K & _). simpl in *. lia.
  - injection H0 as <-. simpl. lia.
Qed.

Lemma advance_counters p (s : kstate D) p' s' :
  advance p s = Ok (p', s') ->
  TICKS s' = TICKS s /\ KEY_EVENTS_SEEN s' = KEY_EVENTS_SEEN s /\
  (get_if s = true \/ p = At_enabling -> get_if s' = true).
Proof using.
  destruct p; cbn [advance]; rewrite ?ticks_read, ?keys_read, ?bind_Ok; intros Hr; try discriminate Hr;
    try (inv_bind Hr; injection Hr as <- <-; apply kprintln_counters in H0 as (T & K & I); rewrite ?T, ?K;
         split; [done|]; split; [done|]; by intros [Hi|Hi]; auto);
    try (injection Hr as <- <-; split; [done|]; split; [done|]; by intros [Hi|Hi]).
  inv_bind Hr. inv_bind Hr. injection Hr as <- <-. split; [done|]. split; [done|]. by intros [Hi|Hi].
Qed.

Lemma step_counters c l c' :
  step c l c' -> TICKS (snd c') = TICKS (snd c) + ticks_in (irq_of l) /\ KEY_EVENTS_SEEN (snd c) <= KEY_EVENTS_SEEN (snd c') /\
  (get_if (snd c) = true -> get_if (snd c') = true).
Proof using.
  intros [p s p' s' Ha|p s q s' Hif Ho Hd|p s]; simpl.
  - apply advance_counters in Ha as (T & K & I). split; [lia|]. split; [lia|]. auto.
  - apply deliver_counters in Hd as (I & T & K); [|done]. split; [lia|]. by split.
  - split; [lia|]. by split.
Qed.

(** ** The same runs as [wait_phase] *)

(** What remains of the phase at a point, once the interrupts before it are
    served: the text of [wait_phase] from there. *)
Fixpoint rest (p : point) (sched : schedule) (s : kstate D) : res (kstate D * QemuExitCode) :=
  let leave code sched s := '(_, s) ← gap fuel sched s; Ok (exit code s) in
  let count_line n sched s :=
    s ← kprintln fuel (text "keyboard: " ++ dec n ++ text " key event(s) received - IRQ1 works") s;
    leave Success sched s in
  let count sched s := '(s, n) ← key_events_seen s; '(sched, s) ← gap fuel sched s; count_line n sched s in
  let silent sched s :=
    s ← kprintln fuel (text "keyboard: no input within 10s - IRQ1 is not delivering") s; leave Failed sched s in
  let verdict '(sched, s, seen) :=
    '(sched, s) ← gap fuel sched s; if (seen : bool) then count sched s else silent sched s in
  let expiry deadline sched s :=
    r ← ('(s, t) ← ticks s; if deadline <? t then Ok (sched, s, false) else wait_key fuel deadline sched s); verdict r in
  let keyed deadline sched s :=
    r ← ('(s, n) ← key_events_seen s;
         if negb (n =? 0) then Ok (sched, s, true) else
         '(sched, s) ← gap fuel sched s;
         '(s, t) ← ticks s; if deadline <? t then Ok (sched, s, false) else wait_key fuel deadline sched s); verdict r in
  let deadline sched s :=
    '(s, now) ← ticks s;
    wait ← mul_u 64 TIMER_HZ 10;
    deadline ← add_u 64 now wait;
    r ← wait_key fuel deadline sched s; verdict r in
  let waiting_line sched s :=
    s ← kprintln fuel (text "waiting for a keypress...") s; '(sched, s) ← gap fuel sched s; deadline sched s in
  let timer_line sched s :=
    s ← kprintln fuel (text "timer: " ++ dec TICKS_REQUIRED ++ text " ticks received - IRQ0 works") s;
    '(sched, s) ← gap fuel sched s; waiting_line sched s in
  match p with
  | At_enabling => wait_phase fuel sched s
  | At_ticks =>
      '(sched, s) ← ('(s, t) ← ticks s; if t <? TICKS_REQUIRED then wait_ticks fuel sched s else Ok (sched, s));
      '(sched, s) ← gap fuel sched s; timer_line sched s
  | At_timer_line => timer_line sched s
  | At_waiting_line => waiting_line sched s
  | At_deadline => deadline sched s
  | At_key d => keyed d sched s
  | At_expiry d => expiry d sched s
  | At_silent_line => silent sched s
  | At_count => count sched s
  | At_count_line n => count_line n sched s
  | At_exit code => Ok (exit code s)
  | At_hlt p | Asleep p => rest p sched s
  | Over code => Ok (s, code)
  end.

(** The points with a section of their own and a gap after it. *)
Definition is_section (p : point) : bool :=
  match p with At_exit _ | At_hlt _ | Asleep _ | Over _ => false | _ => true end.

Lemma gap_cons qs sched (s : kstate D) : gap fuel (qs :: sched) s = (s ← deliver_all fuel qs s; Ok (sched, s)).
Proof using. done. Qed.

Lemma wait_ticks_eq sched (s : kstate D) :
  wait_ticks fuel sched s = ('(sched, s) ← gap fuel sched s;
    '(s, t) ← ticks s; if t <? TICKS_REQUIRED then wait_ticks fuel sched s else Ok (sched, s)).
Proof using. destruct sched as [|qs sched]; [done|]. cbn [wait_ticks]. by rewrite gap_cons, !bind_assoc. Qed.

Lemma wait_key_eq d sched (s : kstate D) :
  wait_key fuel d sched s = ('(sched, s) ← gap fuel sched s;
    '(s, n) ← key_events_seen s;
    if negb (n =? 0) then Ok (sched, s, true) else
    '(sched, s) ← gap fuel sched s;
    '(s, t) ← ticks s; if d <? t then Ok (sched, s, false) else wait_key fuel d sched s).
Proof using.
  destruct sched as [|qs sched]; [done|]. cbn [wait_key]. rewrite gap_cons, !bind_assoc.
  apply bind_ext. intros s1. rewrite bind_Ok. apply bind_ext. intros [s2 n]. destruct (negb _); [done|].
  destruct sched as [|qs' sched]; [done|]. by rewrite gap_cons, !bind_assoc.
Qed.

(** One section, the interrupts after it, and the rest. *)
Lemma rest_eq p sched (s : kstate D) :
  is_section p = true ->
  rest p sched s = ('(p', s) ← advance p s; '(sched, s) ← gap fuel sched s; rest p' sched s).
Proof using.
  destruct p; try done; intros _; cbn [rest advance]; rewrite ?ticks_read, ?keys_read, ?bind_assoc, ?bind_Ok.
  - unfold wait_phase. apply bind_ext. intros s1. rewrite bind_Ok. cbv zeta. cbn [rest].
    rewrite wait_ticks_eq, !bind_assoc. apply bind_ext. intros [sch2 s2]. done.
  - destruct (TICKS s <? TICKS_REQUIRED); cbn [rest]; [|by rewrite bind_Ok].
    rewrite wait_ticks_eq, !bind_assoc. by apply bind_ext; intros [].
  - apply bind_ext. intros s1. by rewrite bind_Ok.
  - apply bind_ext. intros s1. by rewrite bind_Ok.
  - rewrite !bind_assoc. apply bind_ext. intros w. rewrite bind_assoc. apply bind_ext. intros d.
    rewrite bind_Ok, wait_key_eq, !bind_assoc. cbn [rest]. apply bind_ext. intros [sch1 s1]. by rewrite bind_assoc.
  - destruct (negb _); cbn [rest]; [by rewrite bind_Ok|]. rewrite bind_assoc. by apply bind_ext; intros [].
  - destruct (deadline <? TICKS s); cbn [rest]; [by rewrite bind_Ok|].
    rewrite wait_key_eq, !bind_assoc. by apply bind_ext; intros [].
  - apply bind_ext. intros s1. by rewrite bind_Ok.
  - apply bind_ext. intros s1. by rewrite bind_Ok.
Qed.

(** A run to the exit is the start of a fair execution. *)
Lemma step_not_over c l c' : step c l c' -> is_over (fst c) = false.
Proof using. by intros [[] s p' s' Ha|p s q s' _ Ho _|p s]. Qed.

Lemma runs_extend c qs c' : runs c qs c' -> is_over (fst c') = true ->
  exists run lab, fair_run run lab /\ run 0%nat = c.
Proof using.
  induction 1 as [c|c l c1 qs c2 Hs _ IH]; intros Ho.
  - exists (fun _ => c), (fun _ => Code). split; [|done]. split; intros i; [by rewrite Ho|exists i; auto..].
  - destruct (IH Ho) as (run & lab & [Fs Ft Fc] & H0).
    exists (fun i => match i with O => c | S i => run i end), (fun i => match i with O => l | S i => lab i end).
    split; [|done]. split.
    + intros [|i]; [|apply Fs]. rewrite (step_not_over _ _ _ Hs). by rewrite H0.
    + intros i. destruct (Ft (pred i)) as (j & Hj & Hx). exists (S j). split; [lia|done].
    + intros i. destruct (Fc (pred i)) as (j & Hj & Hx). exists (S j). split; [lia|done].
Qed.

(** From the machine to a schedule: the interrupts of a run, cut where the
    sections were. *)
Lemma runs_over code (s : kstate D) qs c : runs (Over code, s) qs c -> qs = [] /\ c = (Over code, s).
Proof using.
  intros Hr. inversion Hr as [|c0 l c1 qs1 c2 Hs Hr1]; subst; [done|]. inversion Hs; subst; [discriminate|done].
Qed.

Lemma runs_scheduled c qs c' : runs c qs c' -> forall code s', c' = (Over code, s') ->
  exists b sched, b ++ concat sched = qs /\
    (s ← deliver_all fuel b (snd c); rest (fst c) sched s) = Ok (s', code).
Proof using.
  induction 1 as [c|c l c1 qs c2 Hs Hr IH]; intros code s' ->; [by exists [], []|].
  destruct (IH code s' eq_refl) as (b & sched & <- & Hrest). destruct Hs as [p s p1 s1 Ha|p s q s1 Hif Ho Hd|p s]; simpl in *.
  - destruct (is_section p) eqn:Hp.
    { exists [], (b :: sched). split; [done|]. cbn [deliver_all]. rewrite bind_Ok, rest_eq, Ha, bind_Ok, gap_cons, bind_assoc by done. exact Hrest. }
    destruct p; try discriminate; simpl in Ha; injection Ha as <- <-; [|by exists b, sched].
    apply runs_over in Hr as [Hb [= -> ->]]. exists [], []. split; [by destruct b|done].
  - exists (q :: b), sched. split; [done|]. cbn [deliver_all]. rewrite Hd, bind_Ok. by destruct p.
  - by exists b, sched.
Qed.

(** From a schedule to the machine. *)
Lemma runs_app c qs c' qs' c'' : runs c qs c' -> runs c' qs' c'' -> runs c (qs ++ qs') c''.
Proof using.
  induction 1 as [|c l c1 qs c2 Hs _ IH]; intros Hr; [done|]. rewrite <- app_assoc. eapply runs_cons; [exact Hs|]. by apply IH.
Qed.

Lemma runs_code p (s : kstate D) p' s' qs c : advance p s = Ok (p', s') -> runs (p', s') qs c -> runs (p, s) qs c.
Proof using. intros Ha Hr. exact (runs_cons _ Code _ qs _ (step_code _ _ _ _ Ha) Hr). Qed.

(** Interrupts served awake. *)
Lemma runs_irqs qs p (s s' : kstate D) :
  get_if s = true -> is_over p = false -> is_asleep p = false -> deliver_all fuel qs s = Ok s' ->
  runs (p, s) qs (p, s') /\ get_if s' = true.
Proof using.
  intros Hif Ho Hs. revert s Hif. induction qs as [|q qs IH]; intros s Hif Hd; cbn [deliver_all] in Hd.
  - injection Hd as <-. split; [constructor|done].
  - inv_bind Hd. destruct (deliver_counters q s a Hif H0) as (Hia & _). destruct (IH a Hia Hd) as [Hr Hi].
    split; [|done]. pose proof (runs_cons _ _ _ qs (p, s') (step_irq p s q a Hif Ho H0)) as Hc.
    destruct p; try discriminate; by apply Hc.
Qed.

(** The interrupts of a batch, from a halt too: the first of them ends it. *)
Lemma runs_halt qs p (s s' : kstate D) :
  get_if s = true -> is_over p = false -> is_asleep p = false -> deliver_all fuel qs s = Ok s' ->
  runs (At_hlt p, s) qs (p, s').
Proof using.
  intros Hif Ho Hs Hd. apply (runs_code _ _ (Asleep p) s); [done|]. destruct qs as [|q qs]; cbn [deliver_all] in Hd.
  - injection Hd as <-. exact (runs_cons _ _ _ [] _ (step_woken p s) (runs_nil _)).
  - inv_bind Hd. destruct (deliver_counters q s a Hif H0) as (Hia & _).
    apply (runs_cons _ _ _ qs _ (step_irq (Asleep p) s q a Hif eq_refl H0)). by apply runs_irqs.
Qed.

(** Points with code of their own; a section leads to one, or to a halt before
    one. *)
Definition ready (p : point) : bool := match p with At_hlt _ | Asleep _ | Over _ => false | _ => true end.

Lemma advance_ready p (s : kstate D) p' s' :
  is_section p = true -> advance p s = Ok (p', s') -> ready (match p' with At_hlt q => q | _ => p' end) = true.
Proof using.
  destruct p; try done; intros _; cbn [advance]; rewrite ?ticks_read, ?keys_read, ?bind_Ok; intros Hr;
    repeat inv_bind Hr; injection Hr as <- _; try done.
  - by destruct (TICKS s <? TICKS_REQUIRED).
  - by destruct (negb _).
  - by destruct (deadline <? TICKS s).
Qed.

Lemma scheduled_runs sched p (s s' : kstate D) code :
  ready p = true -> get_if s = true \/ p = At_enabling -> rest p sched s = Ok (s', code) ->
  exists qs, qs `prefix_of` concat sched /\ runs (p, s) qs (Over code, s').
Proof using.
  revert p s. induction sched as [|b sched IH]; intros p s Hp Hif Hr; (destruct (is_section p) eqn:Hsec;
    [rewrite rest_eq in Hr by done; inv_bind Hr; destruct a as [p1 s1]; pose proof (advance_ready _ _ _ _ Hsec H0) as Hp1;
     destruct (advance_counters _ _ _ _ H0) as (_ & _ & Hi1); specialize (Hi1 Hif)
    |destruct p as [| | | | | | | | | |code0| | |]; try discriminate; injection Hr as <- <-; exists [];
     split; [apply prefix_nil|]; eapply runs_code; [done|constructor]]).
  - discriminate Hr.
  - rewrite gap_cons, bind_assoc in Hr. inv_bind Hr. rename a into s2. rewrite bind_Ok in Hr.
    set (q := match p1 with At_hlt q => q | _ => p1 end) in *.
    assert (rest p1 = rest q) as Hpq by (by destruct p1). rewrite Hpq in Hr.
    assert (is_over q = false /\ is_asleep q = false) as [Ho Hs] by (by destruct q).
    destruct (runs_irqs b q s1 s2 Hi1 Ho Hs H1) as [Hb Hi2].
    destruct (IH q s2 Hp1 (or_introl Hi2) Hr) as (qs & [k Hk] & Hrun). exists (b ++ qs). split.
    { exists k. simpl. by rewrite Hk, app_assoc. }
    apply (runs_code _ _ _ _ _ _ H0). eapply runs_app; [|exact Hrun].
    destruct p1; try exact Hb. by apply runs_halt.
Qed.

(** ** Fair executions *)

(** Every point the phase comes through, with what is known there. *)
Definition known (p : point) (s : kstate D) : Prop :=
  match p with
  | At_enabling | At_ticks | At_hlt At_ticks | Asleep At_ticks => True
  | At_timer_line | At_waiting_line | At_deadline => TICKS_REQUIRED <= TICKS s
  | At_key d | At_expiry d | At_hlt (At_key d) | Asleep (At_key d) =>
      TICKS_REQUIRED + 10 * TIMER_HZ <= d /\ TICKS_REQUIRED <= TICKS s
  | At_silent_line | At_exit Failed | Over Failed => TICKS_REQUIRED + 10 * TIMER_HZ < TICKS s
  | At_count | At_count_line _ | At_exit Success | Over Success => TICKS_REQUIRED <= TICKS s /\ 0 < KEY_EVENTS_SEEN s
  | At_hlt _ | Asleep _ => False
  end.

Lemma known_mono p (s s' : kstate D) :
  TICKS s <= TICKS s' -> KEY_EVENTS_SEEN s <= KEY_EVENTS_SEEN s' -> known p s -> known p s'.
Proof using.
  intros HT HK. destruct p as [| | | | | | | | | |[]|[]|[]|[]]; simpl; try done; lia.
Qed.

Lemma advance_known p (s : kstate D) p' s' :
  advance p s = Ok (p', s') -> 0 <= KEY_EVENTS_SEEN s -> known p s -> known p' s'.
Proof using.
  intros Ha HK Hk. pose proof (advance_counters _ _ _ _ Ha) as (T & K & _).
  destruct p; cbn [advance] in Ha; rewrite ?ticks_read, ?keys_read, ?bind_Ok in Ha; try discriminate Ha;
    try (inv_bind Ha; injection Ha as <- <-; simpl in *; lia).
  - injection Ha as <- <-. destruct (Z.ltb_spec (TICKS s) TICKS_REQUIRED); simpl; [done|lia].
  - inv_bind Ha. inv_bind Ha. injection Ha as <- <-. unfold mul_u, add_u in *. simpl in Hk |- *.
    case_cmp_in H0; [|done]. injection H0 as <-. case_cmp_in H1; [|done]. injection H1 as <-. lia.
  - injection Ha as <- <-. destruct (Z.eqb_spec (KEY_EVENTS_SEEN s) 0); simpl in *; lia.
  - injection Ha as <- <-. destruct (Z.ltb_spec deadline (TICKS s)); simpl in *; lia.
  - injection Ha as <- <-. exact Hk.
  - injection Ha as <- <-. by destruct code.
  - injection Ha as <- <-. by destruct p.
Qed.

Lemma step_known c l c' :
  step c l c' -> 0 <= KEY_EVENTS_SEEN (snd c) -> known (fst c) (snd c) -> known (fst c') (snd c').
Proof using.
  intros Hs HK Hk. pose proof (step_counters c l c' Hs) as (T & K & _). destruct Hs as [p s p' s' Ha|p s q s' Hif Ho Hd|p s].
  - by eapply advance_known.
  - pose proof (ticks_in_nonneg (irq_of (Irq q))) as Hn. simpl fst in *. simpl snd in *.
    apply (known_mono _ s s'); [lia|lia|]. by destruct p as [| | | | | | | | | |[]|[]|[]|[]].
  - by destruct p.
Qed.

Lemma known_awake p (s : kstate D) : known p s -> is_asleep p = true -> is_asleep (wake p) = false.
Proof using. destruct p as [| | | | | | | | | | | |[]|]; done. Qed.

Section Run.
Context (run : nat -> config) (lab : nat -> label) (Hfair : fair_run run lab).
Context (Hknown : forall i, known (fst (run i)) (snd (run i))).

Abbreviation over i := (is_over (fst (run i)) = true).
Abbreviation clock i := (TICKS (snd (run i))).

Lemma run_step i : over i /\ run (S i) = run i \/ step (run i) (lab i) (run (S i)).
Proof using Hfair. pose proof (fr_step _ _ Hfair i) as Hs. destruct (is_over _) eqn:E; [by left|by right]. Qed.

Lemma clock_mono i j : (i <= j)%nat -> clock i <= clock j.
Proof using Hfair.
  induction 1 as [|j _ IH]; [lia|]. destruct (run_step j) as [[_ ->]|Hs]; [done|].
  apply step_counters in Hs as (T & _). pose proof (ticks_in_nonneg (irq_of (lab j))). lia.
Qed.

(** The clock passes any time, unless the machine is off before. *)
Lemma clock_reaches n : exists i, over i \/ clock 0 + Z.of_nat n <= clock i.
Proof using Hfair.
  induction n as [|n [i [Hi|Hi]]]; [exists 0%nat; right; lia|by exists i; left|].
  destruct (fr_timer _ _ Hfair i) as (j & Hj & [Hl|Ho]); [|by exists j; left].
  pose proof (clock_mono i j Hj). destruct (run_step j) as [[Ho _]|Hs]; [by exists j; left|].
  exists (S j). right. rewrite Hl in Hs. apply step_counters in Hs as (T & _). simpl ticks_in in T. lia.
Qed.

(** A step that is not the kernel's own only wakes it. *)
Lemma step_other c l c' : step c l c' -> l <> Code -> fst c' = wake (fst c).
Proof using. by intros [] Hl. Qed.

(** The kernel's own code always runs again. *)
Lemma code_again i : exists j, (i <= j)%nat /\ (over j \/ lab j = Code).
Proof using Hfair Hknown.
  assert (forall d k, is_asleep (fst (run k)) = false -> is_asleep (fst (run (k + d))) = true ->
    exists j, (k <= j)%nat /\ (over j \/ lab j = Code)) as Hslept.
  { induction d as [|d IH]; intros k Hk Hd; [rewrite Nat.add_0_r in Hd; congruence|].
    destruct (run_step k) as [[Ho _]|Hs]; [by exists k; eauto|].
    destruct (lab k) eqn:El; [by exists k; eauto|..]; apply step_other in Hs; try done;
      (destruct (IH (S k)) as (j & Hj & Hx); [rewrite Hs; by destruct (fst (run k))|by rewrite Nat.add_succ_comm|
       exists j; split; [lia|done]]). }
  destruct (fr_code _ _ Hfair i) as (j & Hj & [Hc|[Ha|Ho]]); [by exists j; auto| |by exists j; auto].
  destruct (run_step j) as [[Ho _]|Hs]; [by exists j; auto|].
  destruct (lab j) eqn:El; [by exists j; eauto|..]; apply step_other in Hs; try done;
    (destruct (fr_code _ _ Hfair (S j)) as (k & Hk & [Hc|[Hb|Ho]]);
      [exists k; split; [lia|auto]| |exists k; split; [lia|auto]];
     destruct (Hslept (k - S j)%nat (S j)) as (l & Hl & Hx);
      [rewrite Hs; by eapply known_awake
      |replace (S j + (k - S j))%nat with k by lia; done|exists l; split; [lia|done]]).
Qed.

(** A measure the kernel's own steps decrease, once the clock is past [N], and
    that waking does not increase: in the end the goal is met. *)
Lemma descends (N : Z) (here goal : point -> bool) (rank : point -> nat) :
  (forall p, is_over p = true -> goal p = true) ->
  (forall p, here p = true -> goal p = false -> here (wake p) = true /\ (rank (wake p) <= rank p)%nat) ->
  (forall p s p' s', here p = true -> goal p = false -> N <= TICKS s -> advance p s = Ok (p', s') ->
     goal p' = true \/ here p' = true /\ (rank p' < rank p)%nat) ->
  forall i, here (fst (run i)) = true -> N <= clock i -> exists j, (i <= j)%nat /\ goal (fst (run j)) = true.
Proof using Hfair Hknown.
  intros Hover Hwake Hcode.
  assert (forall r i, (rank (fst (run i)) <= r)%nat -> here (fst (run i)) = true -> N <= clock i ->
    exists j, (i <= j)%nat /\ goal (fst (run j)) = true) as Hall; [|intros i; by apply (Hall (rank (fst (run i))))].
  intros r. induction (lt_wf r) as [r _ IH]. intros i. destruct (code_again i) as (j & Hj & Hx).
  remember (j - i)%nat as d eqn:Hd. revert i Hj Hd.
  induction d as [|d IHd]; intros i Hj Hd Hr Hi HN; (destruct (goal (fst (run i))) eqn:Hg; [by exists i|]);
    (destruct (run_step i) as [[Ho _]|Hs]; [by rewrite Hover in Hg|]); pose proof (clock_mono i (S i) ltac:(lia)) as HT;
    (destruct (decide (lab i = Code)) as [E|E];
      [rewrite E in Hs; inversion Hs as [p s p' s' Ha Ep E' Es| |]; rewrite <- Ep in *; simpl in *;
       destruct (Hcode _ _ _ _ Hi Hg HN Ha) as [Hg'|[Hi' Hr']]; [exists (S i); rewrite <- Es; by split; [lia|]|];
       destruct (IH (rank p') ltac:(lia) (S i)) as (k & Hk & Hx'); [by rewrite <- Es|by rewrite <- Es|by rewrite <- Es in *; lia|];
       exists k; split; [lia|done]|]).
  - replace j with i in Hx by lia. destruct Hx as [Ho|]; [|done]. by rewrite Hover in Hg.
  - apply step_other in Hs; [|done]. destruct (Hwake _ Hi Hg) as [Hi' Hr']. rewrite <- Hs in Hi', Hr'.
    destruct (IHd (S i)) as (k & Hk & Hx'); [lia|lia|lia|done|lia|]. exists k. split; [lia|done].
Qed.
(** The wait for the timer ends. *)
Definition phase1 (p : point) : bool :=
  match p with
  | At_enabling | At_ticks | At_hlt At_ticks | Asleep At_ticks | At_timer_line | At_waiting_line | At_deadline => true
  | _ => false
  end.
Definition rank1 (p : point) : nat :=
  match p with
  | At_enabling => 7 | At_hlt _ => 6 | Asleep _ => 5 | At_ticks => 4 | At_timer_line => 3 | At_waiting_line => 2 | _ => 1
  end.

Lemma phase1_ends : (exists i, over i) \/ exists i, phase1 (fst (run i)) = false.
Proof using Hfair Hknown.
  destruct (clock_reaches (Z.to_nat (TICKS_REQUIRED - clock 0))) as [i [Ho|Hi]]; [by left; exists i|right].
  destruct (phase1 (fst (run i))) eqn:Hp; [|by exists i].
  destruct (descends TICKS_REQUIRED phase1 (fun p => negb (phase1 p)) rank1) with (i := i) as (j & _ & Hj);
    [by intros [] | | |done|lia|exists j; by apply negb_true_iff].
  - intros p Hh _. destruct p as [| | | | | | | | | | |[]|[]|]; try discriminate; simpl; split; (done || lia).
  - intros p s p' s' Hh _ HN Ha.
    destruct p as [| | | | | | | | | | |[]|[]|]; try discriminate Hh; cbn [advance] in Ha;
      rewrite ?ticks_read, ?bind_Ok in Ha; try discriminate Ha; repeat inv_bind Ha; injection Ha as <- _;
      try (right; simpl; split; (done || lia)); try by left.
    destruct (Z.ltb_spec (TICKS s) TICKS_REQUIRED); [lia|]. right. simpl. split; (done || lia).
Qed.

(** So does the wait for a key, whose deadline is [d]. *)
Definition phase2 (d : Z) (p : point) : bool :=
  match p with
  | At_key e | At_expiry e | At_hlt (At_key e) | Asleep (At_key e) => e =? d
  | At_silent_line | At_count | At_count_line _ | At_exit _ | Over _ => true
  | _ => false
  end.
Definition rank2 (p : point) : nat :=
  match p with
  | At_hlt _ => 7 | Asleep _ => 6 | At_key _ => 5 | At_expiry _ => 4 | At_count => 3
  | At_silent_line | At_count_line _ => 2 | At_exit _ => 1 | _ => 0
  end.

Lemma phase2_starts p (s : kstate D) : known p s -> phase1 p = false -> exists d, phase2 d p = true.
Proof using.
  destruct p as [| | | | |d|d| | | | |[]|[]|]; try done; intros _ _;
    try (exists d; apply Z.eqb_refl); try (exists 0; done); eexists; apply Z.eqb_refl.
Qed.

Lemma phase2_step d c l c' : step c l c' -> phase2 d (fst c) = true -> phase2 d (fst c') = true.
Proof using.
  intros [p s p' s' Ha|p s q s' Hif Ho Hd|p s] Hp; simpl in *.
  - destruct p as [| | | | |e|e| | | | |[]|[]|]; try discriminate Hp; cbn [advance] in Ha;
      rewrite ?ticks_read, ?keys_read, ?bind_Ok in Ha; try discriminate Ha; repeat inv_bind Ha; injection Ha as <- _;
      try done; by case_match.
  - by destruct p as [| | | | | | | | | | |[]|[]|].
  - by destruct p.
Qed.

Lemma phase2_ends i d : phase2 d (fst (run i)) = true -> exists j, over j.
Proof using Hfair Hknown.
  intros Hp. destruct (clock_reaches (Z.to_nat (d + 1 - clock 0))) as [k [Ho|Hk]]; [by exists k|].
  assert (forall n, phase2 d (fst (run (i + n))) = true) as Hall.
  { induction n as [|n IH]; [by rewrite Nat.add_0_r|]. rewrite Nat.add_succ_r.
    destruct (run_step (i + n)) as [[_ ->]|Hs]; [done|]. by eapply phase2_step. }
  destruct (descends (d + 1) (phase2 d) is_over rank2) with (i := (i + k)%nat) as (j & _ & Hj);
    [done| | |apply Hall|pose proof (clock_mono k (i + k) ltac:(lia)); lia|by exists j].
  - intros p Hh _. destruct p as [| | | | | | | | | | |[]|[]|]; try discriminate; simpl; split; (done || lia).
  - intros p s p' s' Hh Hg HN Ha.
    destruct p as [| | | | |e|e| | | | |[]|[]|]; try discriminate Hh; try discriminate Hg; cbn [advance] in Ha;
      rewrite ?ticks_read, ?keys_read, ?bind_Ok in Ha; try discriminate Ha; repeat inv_bind Ha; injection Ha as <- _;
      try (right; simpl; split; (done || lia)); try by left.
    + right. destruct (negb _); simpl; split; (done || lia).
    + simpl in Hh. right. destruct (Z.ltb_spec e (TICKS s)); simpl; split; (done || lia).
Qed.

Lemma run_over : exists i, over i.
Proof using Hfair Hknown.
  destruct phase1_ends as [?|[i Hi]]; [done|]. destruct (phase2_starts _ _ (Hknown i) Hi) as [d Hd].
  by apply (phase2_ends i d).
Qed.
End Run.

Lemma run_knows run lab :
  fair_run run lab -> 0 <= KEY_EVENTS_SEEN (snd (run 0%nat)) -> known (fst (run 0%nat)) (snd (run 0%nat)) ->
  forall i, 0 <= KEY_EVENTS_SEEN (snd (run i)) /\ known (fst (run i)) (snd (run i)).
Proof using.
  intros Hf HK Hk. induction i as [|i [IK Ik]]; [done|].
  destruct (run_step run lab Hf i) as [[_ ->]|Hs]; [done|].
  pose proof (step_counters _ _ _ Hs) as (_ & K & _). split; [lia|]. by eapply step_known.
Qed.

Lemma run_taken run lab i : fair_run run lab -> runs (run 0%nat) (taken run lab i) (run i).
Proof using.
  intros Hf. induction i as [|i IH]; [constructor|]. eapply runs_app; [exact IH|]. pose proof (fr_step _ _ Hf i) as Hs.
  destruct (is_over _); [rewrite Hs; constructor|]. rewrite <- (app_nil_r (irq_of _)). eapply runs_cons; [exact Hs|constructor].
Qed.
End Machine.

(** ** No run gets stuck *)

Section Progress.
Context {D : Type} `{Device D} (n fuel : nat).
Context (Hlive : live (D := D) n) (Hfuel : (n < fuel)%nat).

(** Past the start; a count still to be printed fits its type. *)
Fixpoint counted (p : point) : Prop :=
  match p with
  | At_enabling => False
  | At_count_line c => in_u 64 c
  | At_hlt p | Asleep p => counted p
  | _ => True
  end.

(** Before interrupts are on, and after, with [room] more to come. *)
Definition steady (room : Z) (p : point) (s : kstate D) : Prop :=
  match p with
  | At_enabling => get_if s = false /\ running room (enable s)
  | _ => running room s /\ counted p
  end.

Lemma exit_running room code (s : kstate D) : running room s -> running room (fst (exit code s)).
Proof. intros [I [t Ht] T K]. destruct s as [[]]. split; [done|by exists t|done|done]. Qed.

Lemma advance_steady room p s :
  0 <= room -> is_over p = false -> is_asleep p = false -> steady room p s ->
  exists p' s', advance fuel p s = Ok (p', s') /\ steady room p' s'.
Proof using Hlive Hfuel.
  intros Hroom Ho Ha Hs.
  assert (forall bytes s q, Forall is_byte bytes -> running room s -> counted q ->
    exists p' s', (s ← kprintln fuel bytes s; Ok (q, s)) = Ok (p', s') /\ steady room p' s') as Hprint.
  { intros bytes s1 q Hb R Hq. destruct (kprintln_running n fuel Hlive Hfuel bytes room s1 Hb R) as (s2 & -> & R2 & _).
    exists q, s2. split; [done|]. by destruct q. }
  destruct p; try discriminate; cbn [advance]; rewrite ?ticks_read, ?keys_read, ?bind_Ok.
  - destruct Hs as [Hif [_ [t Ht] HT HK]].
    destruct (kprintln_spec n fuel Hlive Hfuel _ s t (text_bytes "enabling interrupts")) as (s' & -> & [T K W]);
      [by destruct s as [[]]|]. exists At_ticks, (enable s'). split; [done|]. split; [|done].
    change (TICKS (enable s)) with (TICKS s) in HT. change (KEY_EVENTS_SEEN (enable s)) with (KEY_EVENTS_SEEN s) in HK.
    apply enable_running; [eexists; apply (wr_shows _ _ _ _ _ W)|lia|lia].
  - eexists _, s. split; [done|]. by case_cmp.
  - apply Hprint; [|apply Hs|done].
    apply Forall_app. split; [apply text_bytes|]. apply Forall_app. split; [|apply text_bytes].
    apply dec_denotes. unfold in_u, TICKS_REQUIRED. lia.
  - apply Hprint; [apply text_bytes|apply Hs|done].
  - destruct Hs as [R _]. pose proof (ru_ticks _ _ R). unfold TIMER_HZ.
    rewrite mul_u_ok, bind_Ok by lia. rewrite add_u_ok, bind_Ok by lia. by eexists _, s.
  - eexists _, s. split; [done|]. by destruct (negb _).
  - eexists _, s. split; [done|]. by case_cmp.
  - apply Hprint; [apply text_bytes|apply Hs|done].
  - eexists _, s. split; [done|]. destruct Hs as [R _]. split; [done|]. pose proof (ru_keys _ _ R). simpl. unfold in_u. lia.
  - destruct Hs as [R Hc]. apply Hprint; [by apply count_line_bytes|done|done].
  - destruct Hs as [R _]. eexists _, _. split; [reflexivity|]. split; [by apply exit_running|done].
  - eexists _, s. split; [done|]. by destruct Hs.
Qed.

Lemma irq_steady room p s q :
  0 <= room -> get_if s = true -> steady (room + 1) p s ->
  exists s', deliver fuel q s = Ok s' /\ steady room (wake p) s'.
Proof using Hlive Hfuel.
  intros Hroom Hif Hs. assert (running (room + 1) s /\ counted p) as [R Hc].
  { destruct p; try exact Hs. by destruct Hs as [Hf _]; rewrite Hif in Hf. }
  destruct (deliver_spec n fuel Hlive Hfuel q room s R Hroom) as (s' & Hr & R' & _). exists s'. split; [done|].
  destruct p; try exact (conj R' Hc); [done|]. simpl in Hc |- *. by destruct p.
Qed.

Lemma runs_steady c qs c' : runs fuel c qs c' -> forall room,
  Z.of_nat (length qs) <= room -> steady room (fst c) (snd c) ->
  steady (room - Z.of_nat (length qs)) (fst c') (snd c').
Proof using Hlive Hfuel.
  induction 1 as [c|c l c1 qs c2 Hs _ IH]; intros room Hroom Hst; [by rewrite Z.sub_0_r|].
  rewrite length_app in *. destruct Hs as [p s p' s' Ha|p s q s' Hif Ho Hd|p s]; simpl in *.
  - apply IH; [done|]. destruct (is_over p) eqn:Ho; [by destruct p|]. destruct (is_asleep p) eqn:Has; [by destruct p|].
    destruct (advance_steady room p s) as (p2 & s2 & Ha2 & Hst2); [lia|done..|]. rewrite Ha in Ha2. by injection Ha2 as <- <-.
  - replace (room - Z.of_nat (S (length qs))) with (room - 1 - Z.of_nat (length qs)) by lia. apply IH; [lia|].
    destruct (irq_steady (room - 1) p s q) as (s2 & Hd2 & Hst2); [lia|done|by rewrite Z.sub_add|].
    rewrite Hd in Hd2. by injection Hd2 as <-.
  - apply IH; [done|]. destruct Hst as [R Hc]. simpl in Hc. by destruct p.
Qed.
End Progress.

(** ** Properties *)

(** C25: no interleaving gets the last phase stuck. On a machine whose UART is live,
    whatever interrupts have been taken and wherever they landed, the kernel's
    code can take its next step unless it is halted or the machine is off, and
    any interrupt that finds the flag set is served to its end: no overflow, no
    panic, no endless wait. *)
Theorem interleaved_never_stuck {D} `{Device D} n fuel (s : kstate D) t qs p s' :
  live (D := D) n -> (n < fuel)%nat -> displays (ks_machine s) t -> get_if s = false ->
  TICKS s = 0 -> KEY_EVENTS_SEEN s = 0 -> runs fuel (At_enabling, s) qs (p, s') -> Z.of_nat (length qs) < 2 ^ 60 ->
  (is_over p = true \/ is_asleep p = true \/ exists c, advance fuel p s' = Ok c) /\
  (get_if s' = true -> forall q, exists s2, deliver fuel q s' = Ok s2) /\
  (p <> At_enabling -> get_if s' = true).
Proof.
  intros Hlive Hf Ht Hif HT HK Hr Hqs.
  assert (steady (2 ^ 61) At_enabling s) as H0.
  { split; [done|]. apply enable_running; [by exists t|lia|lia]. }
  pose proof (runs_steady n fuel Hlive Hf _ _ _ Hr (2 ^ 61) ltac:(lia) H0) as Hst. simpl fst in Hst. simpl snd in Hst.
  set (room := 2 ^ 61 - Z.of_nat (length qs)) in *. assert (1 <= room) as Hroom by (unfold room; lia).
  split; [|split].
  - destruct (is_over p) eqn:Ho; [by left|]. destruct (is_asleep p) eqn:Ha; [by right; left|]. right. right.
    destruct (advance_steady n fuel Hlive Hf room p s' ltac:(lia) Ho Ha Hst) as (p2 & s2 & Hr2 & _). by exists (p2, s2).
  - intros Hi q. destruct (irq_steady n fuel Hlive Hf (room - 1) p s' q) as (s2 & Hd & _);
      [lia|done|by rewrite Z.sub_add|]. by exists s2.
  - intros Hp. destruct p; try done; apply Hst.
Qed.

Lemma run_scheduled {D} `{Device D} fuel (s : kstate D) qs code s' :
  get_if s = false -> runs fuel (At_enabling, s) qs (Over code, s') ->
  exists sched, concat sched = qs /\ wait_phase fuel sched s = Ok (s', code).
Proof.
  intros Hif Hr. inversion Hr as [|c l c1 qs1 c2 Hs Hr1]; subst.
  inversion Hs as [p s0 p1 s1 Ha| |]; subst; [|congruence]. simpl.
  destruct (runs_scheduled fuel _ _ _ Hr1 code s' eq_refl) as (b & sched & <- & Hrest). exists (b :: sched).
  split; [done|]. change (rest fuel At_enabling (b :: sched) s = Ok (s', code)).
  rewrite rest_eq, Ha, bind_Ok, gap_cons, bind_assoc by done. exact Hrest.
Qed.

(** There are such executions. *)
Lemma fair_run_exists {D} `{Device D} n fuel (s : kstate D) t :
  live (D := D) n -> (n < fuel)%nat -> displays (ks_machine s) t -> TICKS s = 0 -> KEY_EVENTS_SEEN s = 0 ->
  exists run lab, fair_run fuel run lab /\ run 0%nat = (At_enabling, s).
Proof.
  intros Hlive Hf Ht HT HK. destruct demo_batches_beats as [Hb Hi].
  destruct (wait_phase_spec n fuel demo_batches s t Hlive Hf Ht HT HK Hb Hi) as (s' & code & l & Hr & _).
  destruct (scheduled_runs fuel demo_batches At_enabling s s' code eq_refl (or_intror eq_refl) Hr) as (qs & _ & Hq).
  by eapply runs_extend.
Qed.

(** The schedules of [wait_phase] are exactly the interleavings. Interrupts
    may be taken at every instruction at which the flag lets them in; a run of
    that machine to its exit, whatever it took and where, is a run of
    [wait_phase] on those interrupts, batched by the sections they fell between,
    with the same verdict and the same final state; and conversely every run of
    [wait_phase] is one of the machine. What is proved of [wait_phase] under
    every schedule therefore holds under every interleaving. *)
Theorem interleavings_scheduled {D} `{Device D} fuel (s : kstate D) :
  get_if s = false ->
  (forall qs code s', runs fuel (At_enabling, s) qs (Over code, s') ->
     exists sched, concat sched = qs /\ wait_phase fuel sched s = Ok (s', code)) /\
  (forall sched code s', wait_phase fuel sched s = Ok (s', code) ->
     exists qs, qs `prefix_of` concat sched /\ runs fuel (At_enabling, s) qs (Over code, s')).
Proof.
  intros Hif. split; [intros qs code s' Hr; by apply run_scheduled|].
  intros sched code s' Hr. apply (scheduled_runs fuel sched At_enabling); [done|by right|done].
Qed.

Lemma fair_run_spec {D} `{Device D} fuel (s : kstate D) run lab :
  fair_run fuel run lab -> run 0%nat = (At_enabling, s) -> get_if s = false -> 0 <= KEY_EVENTS_SEEN s ->
  exists i code s' sched, run i = (Over code, s') /\
    concat sched = taken run lab i /\ wait_phase fuel sched s = Ok (s', code) /\
    match code with
    | Success => TICKS_REQUIRED <= TICKS s' /\ 0 < KEY_EVENTS_SEEN s'
    | Failed => TICKS_REQUIRED + 10 * TIMER_HZ < TICKS s'
    end.
Proof.
  intros Hf H0 Hif HK. pose proof (run_knows fuel run lab Hf) as Hkn. rewrite H0 in Hkn. specialize (Hkn HK I).
  destruct (run_over fuel run lab Hf (fun i => proj2 (Hkn i))) as [i Hi].
  pose proof (run_taken fuel run lab i Hf) as Hr. rewrite H0 in Hr. destruct (Hkn i) as [_ Hk].
  destruct (run i) as [p s'] eqn:E. simpl in Hi, Hk. destruct p as [| | | | | | | | | | | | |code]; try discriminate Hi.
  destruct (run_scheduled fuel s _ _ _ Hif Hr) as (sched & Hc & Hw).
  exists i, code, s', sched. by destruct code.
Qed.

(** Every fair execution ends. Let the machine run for ever in any way at all,
    as long as the timer does not stop ticking and the kernel is not kept from
    its own code for good: it comes to the exit, having run as [wait_phase] on
    the interrupts it took; with the success code only after a hundred ticks
    and a key counted, with the other only after eleven seconds of ticks. *)
Theorem fair_run_ends {D} `{Device D} fuel (s : kstate D) run lab :
  fair_run fuel run lab -> run 0%nat = (At_enabling, s) -> get_if s = false -> 0 <= KEY_EVENTS_SEEN s ->
  exists i code s' sched, run i = (Over code, s') /\
    concat sched = taken run lab i /\ wait_phase fuel sched s = Ok (s', code) /\
    match code with
    | Success => TICKS_REQUIRED <= TICKS s' /\ 0 < KEY_EVENTS_SEEN s'
    | Failed => TICKS_REQUIRED + 10 * TIMER_HZ < TICKS s'
    end.
Proof. apply fair_run_spec. Qed.

(** ** Instances *)

Definition demo_phase : kstate nat := KState (Machine false (Io 0%nat []) None ∅) 0 0.

Lemma interleaved_never_stuck_witness :
  exists c, advance 3 At_enabling demo_phase = Ok c.
Proof.
  destruct (interleaved_never_stuck 2 3 demo_phase blank_terminal [] At_enabling demo_phase slow_uart_live)
    as ([Hx|[Hx|Hx]] & _); [lia|exact I|reflexivity|reflexivity|reflexivity|constructor|simpl; lia|discriminate Hx|discriminate Hx|exact Hx].
Defined.

Lemma interleavings_scheduled_witness : exists s' code qs,
  wait_phase 3 demo_batches demo_phase = Ok (s', code) /\ runs 3 (At_enabling, demo_phase) qs (Over code, s').
Proof.
  destruct (wait_phase_spec 2 3 demo_batches demo_phase blank_terminal slow_uart_live) as (s' & code & l & Hr & _);
    [lia|exact I|reflexivity|reflexivity|apply demo_batches_beats|apply demo_batches_beats|].
  destruct (interleavings_scheduled 3 demo_phase eq_refl) as [_ Hs]. destruct (Hs _ _ _ Hr) as (qs & _ & Hq).
  exists s', code, qs. exact (conj Hr Hq).
Defined.

Lemma fair_run_ends_witness : exists run lab i code s' sched,
  fair_run 3 run lab /\ run 0%nat = (At_enabling, demo_phase) /\ run i = (Over code, s') /\
  wait_phase 3 sched demo_phase = Ok (s', code).
Proof.
  destruct (fair_run_exists 2 3 demo_phase blank_terminal slow_uart_live) as (run & lab & Hf & H0);
    [lia|exact I|reflexivity|reflexivity|].
  destruct (fair_run_ends 3 demo_phase run lab Hf H0 eq_refl ltac:(simpl; lia)) as (i & code & s' & sched & Hi & _ & Hw & _).
  exists run, lab, i, code, s', sched. exact (conj Hf (conj H0 (conj Hi Hw))).
Defined.
