(* ===== verification/KeyPress.v ===== *)
(** Key presses across the last phase of [kernel_main] ([kernel/src/main.rs],
    [kernel/src/idt.rs], [kernel/src/keyboard.rs]): the bytes a keyboard hands
    over, one for each interrupt it raises, followed through every handler and
    every print, up to the verdict. *)
From S2P Require Import Prelude Memory Port Pic Interrupts Console Serial Keyboard QemuExit Fmt Gdt Idt Wait.

(** ** A keyboard behind the ports *)

(** The bytes the keyboard will hand over, in order: a read of the data port
    takes the first; other ports leave them alone, as long as the controller is
    sent no command. *)
Class Typist (D : Type) `{Device D} := {
  typed : D -> nat -> Z;
  typed_read d : snd (dev_in DATA_PORT d) = typed d 0;
  typed_shift d i : typed (fst (dev_in DATA_PORT d)) i = typed d (S i);
  typed_in port d i : port <> DATA_PORT -> typed (fst (dev_in port d)) i = typed d i;
  typed_out port v d i : port <> DATA_PORT -> port <> COMMAND -> typed (dev_out port v d) i = typed d i;
}.

(** A byte that is the press of a key with a character. *)
Definition is_press (v : Z) : bool := (v <? 128) && bool_decide (is_Some (us_key v)).

(** The presses among the first [k] bytes. *)
Fixpoint presses (f : nat -> Z) (k : nat) : Z :=
  match k with O => 0 | S k => presses f k + (if is_press (f k) then 1 else 0) end.

(** The keyboard's interrupts in a batch. *)
Definition keys_in (qs : list irq) : nat :=
  foldr (fun q k => (match q with KeyboardIrq => 1 | _ => 0 end + k)%nat) 0%nat qs.

(** Some press arrives while at most [limit] ticks have. *)
Definition press_within (limit : Z) (f : nat -> Z) (sched : schedule) : Prop :=
  exists pre l r post, sched = pre ++ (l ++ KeyboardIrq :: r) :: post /\
    ticks_in (concat pre ++ l ++ KeyboardIrq :: r) <= limit /\
    is_press (f (keys_in (concat pre ++ l))) = true.

Lemma presses_nonneg f k : 0 <= presses f k.
Proof. induction k as [|k IH]; simpl; [lia|]. destruct (is_press (f k)); lia. Qed.

Lemma presses_mono f k k' : (k <= k')%nat -> presses f k <= presses f k'.
Proof. induction 1 as [|k' _ IH]; [lia|]. simpl. destruct (is_press (f k')); lia. Qed.

Lemma keys_in_app a b : keys_in (a ++ b) = (keys_in a + keys_in b)%nat.
Proof. induction a as [|[] a IH]; simpl; lia. Qed.

Lemma ticks_in_app a b : ticks_in (a ++ b) = ticks_in a + ticks_in b.
Proof. induction a as [|[] a IH]; simpl; lia. Qed.

Section Keys.
Context {D : Type} `{Typist D} (fuel : nat).

(** The keyboard's bytes, untouched. *)
Definition same_keys (d d' : D) : Prop := forall i, typed d' i = typed d i.

#[local] Instance same_keys_po : PreOrder same_keys.
Proof. split; [by intros d i|]. intros d1 d2 d3 H1 H2 i. by rewrite H2. Qed.

Lemma outb_keys port v (s : io D) :
  port <> DATA_PORT -> port <> COMMAND -> same_keys (io_dev s) (io_dev (outb port v s)).
Proof. intros Hp Hc i. by apply typed_out. Qed.

Lemma wait_thr_keys k (s s' : io D) : wait_thr k s = Ok s' -> same_keys (io_dev s) (io_dev s').
Proof.
  revert s. induction k as [|k IH]; intros s; simpl; [done|]. unfold inb.
  destruct (dev_in (COM1 + LINE_STATUS) (io_dev s)) as [d v] eqn:Ed.
  assert (same_keys (io_dev s) d) as Hd.
  { intros i. change d with (fst (d, v)). rewrite <- Ed. by apply typed_in. }
  destruct (Z.land v LINE_STATUS_THR_EMPTY =? 0); [|by intros [= <-]].
  intros Hr. etrans; [exact Hd|]. by apply IH in Hr.
Qed.

Lemma emit_keys byte (s s' : machine D) :
  emit fuel byte s = Ok s' -> same_keys (io_dev (mc_io s)) (io_dev (mc_io s')).
Proof.
  unfold emit, serial_write_byte. destruct (wait_thr fuel (mc_io s)) as [i| | |] eqn:Ew; try done.
  rewrite !bind_Ok. destruct (write_byte _ _ _) as [[c m]| | |]; try done. intros [= <-].
  etrans; [by eapply wait_thr_keys|]. by apply outb_keys.
Qed.

Lemma write_str_keys bytes (s s' : machine D) :
  write_str fuel bytes s = Ok s' -> same_keys (io_dev (mc_io s)) (io_dev (mc_io s')).
Proof.
  revert s. induction bytes as [|b bytes IH]; intros s Hr; simpl in Hr; [by simplify_eq|].
  inv_bind Hr. inv_bind Hr. etrans; [|by eapply IH]. etrans; [|by eapply emit_keys].
  destruct (b =? 10); [by eapply emit_keys|by simplify_eq].
Qed.

Lemma kprintln_keys bytes (s s' : kstate D) :
  kprintln fuel bytes s = Ok s' ->
  same_keys (io_dev (mc_io (ks_machine s))) (io_dev (mc_io (ks_machine s'))) /\
  TICKS s' = TICKS s /\ KEY_EVENTS_SEEN s' = KEY_EVENTS_SEEN s /\ (get_if s = true -> get_if s' = true).
Proof.
  intros Hr. split; [|by eapply kprintln_counters]. revert Hr.
  unfold kprintln, kprint, print. rewrite without_interrupts_masked.
  destruct (write_str fuel (line bytes) (masked (ks_machine s))) as [m| | |] eqn:Ew; try done.
  rewrite !bind_Ok. intros [= <-]. apply write_str_keys in Ew. simpl. by destruct (mc_if (ks_machine s)).
Qed.

(** ** The phase, followed *)

(** After the interrupts [done_]: the counters have counted them, and the
    keyboard has handed over a byte for each of its own. *)
Record at_point (f : nat -> Z) (done_ : list irq) (s : kstate D) : Prop := {
  ap_if : get_if s = true;
  ap_ticks : TICKS s = ticks_in done_;
  ap_keys : KEY_EVENTS_SEEN s = presses f (keys_in done_);
  ap_typed i : typed (io_dev (mc_io (ks_machine s))) i = f (keys_in done_ + i)%nat;
}.

Lemma kprintln_point f done_ bytes (s s' : kstate D) :
  at_point f done_ s -> kprintln fuel bytes s = Ok s' -> at_point f done_ s'.
Proof.
  intros [I T K Y] (Hs & HT & HK & HI)%kprintln_keys. split; [auto|congruence|congruence|]. intros i. by rewrite Hs.
Qed.

Lemma read_key_typed (s s' : io D) k :
  read_key s = Ok (s', k) ->
  is_press (typed (io_dev s) 0) = (match k with Some _ => true | None => false end) /\
  forall i, typed (io_dev s') i = typed (io_dev s) (S i).
Proof.
  destruct (read_key_spec s) as (s1 & v & _ & Hlog & Hr). rewrite Hr. intros [= <- <-].
  unfold read_key in Hr. pose proof (typed_read (io_dev s)) as Hv. pose proof (typed_shift (io_dev s)) as Hs.
  unfold inb in Hr. destruct (dev_in DATA_PORT (io_dev s)) as [d w] eqn:Ed. simpl in Hv, Hs. subst w.
  assert (s1 = Io d (io_log s ++ [In DATA_PORT (typed (io_dev s) 0)])) as ->.
  { destruct (negb _); [by injection Hr as <- _|].
    destruct (SCANCODE_TO_ASCII !! _) as [[]|]; try done; by injection Hr as <- _. }
  simpl in Hlog. apply app_inv_head in Hlog as [= <-]. split; [|done].
  unfold is_press. destruct (typed (io_dev s) 0 <? 128); [|done]. by destruct (us_key _).
Qed.

Lemma end_of_interrupt_keys vector (s : io D) : same_keys (io_dev s) (io_dev (end_of_interrupt vector s)).
Proof.
  unfold end_of_interrupt. etrans; [|by apply outb_keys]. destruct (PIC2_OFFSET <=? vector); [by apply outb_keys|done].
Qed.

Lemma keyboard_handler_keys (s s' : kstate D) :
  keyboard_handler fuel s = Ok s' ->
  (forall i, typed (io_dev (mc_io (ks_machine s'))) i = typed (io_dev (mc_io (ks_machine s))) (S i)) /\
  TICKS s' = TICKS s /\
  KEY_EVENTS_SEEN s' = KEY_EVENTS_SEEN s + (if is_press (typed (io_dev (mc_io (ks_machine s))) 0) then 1 else 0).
Proof.
  unfold keyboard_handler. destruct (read_key (mc_io (ks_machine s))) as [[i k]| | |] eqn:Er; try done.
  apply read_key_typed in Er as [Hk Hi]. rewrite bind_Ok. intros Hr. inv_bind Hr. injection Hr as <-.
  rename a into s1.
  assert (same_keys (io_dev i) (io_dev (mc_io (ks_machine s1))) /\ TICKS s1 = TICKS s /\ KEY_EVENTS_SEEN s1 =
    KEY_EVENTS_SEEN s + (if is_press (typed (io_dev (mc_io (ks_machine s))) 0) then 1 else 0)) as (Hs & HT & HK).
  { rewrite Hk. destruct k as [ascii|].
    - inv_bind H1. unfold add_u in H2. case_cmp_in H2; [|done]. injection H2 as <-.
      by apply kprintln_keys in H1 as (Hs & HT & HK & _).
    - injection H1 as <-. split; [done|]. split; [done|]. simpl. lia. }
  split; [|done]. intros j. etrans; [exact (end_of_interrupt_keys _ _ j)|]. by rewrite Hs, Hi.
Qed.

Lemma deliver_point f done_ q (s s' : kstate D) :
  at_point f done_ s -> deliver fuel q s = Ok s' -> at_point f (done_ ++ [q]) s'.
Proof.
  intros [I T K Y] Hr. unfold deliver in Hr. rewrite I in Hr. inv_bind Hr. injection Hr as <-.
  destruct q; rename a into s1.
  - unfold timer_handler, add_u in H1. case_cmp_in H1; [|done]. injection H1 as <-.
    split; [done| | |]; rewrite ?keys_in_app, ?ticks_in_app, ?Nat.add_0_r; simpl; rewrite ?Nat.add_0_r; [lia|done|].
    intros i. rewrite <- Y. exact (end_of_interrupt_keys TIMER_VECTOR (mc_io (ks_machine s)) i).
  - apply keyboard_handler_keys in H1 as (Hs & HT & HK). split; [done| | |];
      rewrite ?keys_in_app, ?ticks_in_app; simpl; rewrite ?HT, ?HK, ?Nat.add_1_r; simpl.
    + lia.
    + rewrite K. change (io_dev (mc_io (ks_machine (cli s)))) with (io_dev (mc_io (ks_machine s))).
      by rewrite Y, Nat.add_0_r.
    + intros i. rewrite Hs. change (io_dev (mc_io (ks_machine (cli s)))) with (io_dev (mc_io (ks_machine s))).
      rewrite Y. f_equal. lia.
  - injection H1 as <-. split; [done| | |]; rewrite ?keys_in_app, ?ticks_in_app, ?Nat.add_0_r; simpl;
      rewrite ?Nat.add_0_r; [lia|done|].
    intros i. rewrite <- Y. exact (end_of_interrupt_keys (PIC2_OFFSET + 7) (mc_io (ks_machine s)) i).
Qed.

Lemma deliver_all_point f done_ qs (s s' : kstate D) :
  at_point f done_ s -> deliver_all fuel qs s = Ok s' -> at_point f (done_ ++ qs) s'.
Proof.
  revert done_ s. induction qs as [|q qs IH]; intros done_ s Ha Hr; simpl in Hr.
  - injection Hr as <-. by rewrite app_nil_r.
  - inv_bind Hr. rewrite cons_middle, app_assoc. eapply IH; [|exact Hr]. by eapply deliver_point.
Qed.

(** The batches a wait used, and where it left the state. *)
Definition used (f : nat -> Z) (done_ : schedule) (sched sched' : schedule) (s' : kstate D) : Prop :=
  exists c, sched = c ++ sched' /\ at_point f (concat (done_ ++ c)) s'.

Lemma batch_point f done_ qs (s s' : kstate D) :
  at_point f (concat done_) s -> deliver_all fuel qs s = Ok s' -> at_point f (concat (done_ ++ [qs])) s'.
Proof. intros Ha Hr. rewrite concat_app. simpl. rewrite app_nil_r. by eapply deliver_all_point. Qed.

Lemma wait_ticks_used f sched sched' done_ (s s' : kstate D) :
  at_point f (concat done_) s -> wait_ticks fuel sched s = Ok (sched', s') ->
  used f done_ sched sched' s' /\ TICKS_REQUIRED <= TICKS s'.
Proof.
  revert done_ s. induction sched as [|qs sched IH]; intros done_ s Ha Hr; [done|]. cbn [wait_ticks] in Hr.
  inv_bind Hr. rename a into s1. rewrite ticks_read, bind_Ok in Hr.
  pose proof (batch_point _ _ _ _ _ Ha H1) as Ha1. case_cmp_in Hr.
  - destruct (IH _ _ Ha1 Hr) as [(c & -> & Hc) HT]. split; [|done]. exists (qs :: c). split; [done|].
    by rewrite <- app_assoc in Hc.
  - injection Hr as <- <-. split; [|lia]. exists [qs]. by split.
Qed.

Lemma gap_used f sched sched' done_ (s s' : kstate D) :
  at_point f (concat done_) s -> gap fuel sched s = Ok (sched', s') -> used f done_ sched sched' s'.
Proof.
  destruct sched as [|qs sched]; [done|]. simpl. intros Ha Hr. inv_bind Hr. injection Hr as <- <-.
  exists [qs]. split; [done|]. by eapply batch_point.
Qed.

(** A wait that gave up found no press counted just before its last batch,
    and the deadline past after it. *)
Lemma wait_key_used f deadline sched sched' done_ (s s' : kstate D) seen :
  at_point f (concat done_) s -> wait_key fuel deadline sched s = Ok (sched', s', seen) ->
  seen = true \/
  exists c qs, sched = c ++ qs :: sched' /\ presses f (keys_in (concat (done_ ++ c))) = 0 /\
    deadline < ticks_in (concat (done_ ++ c ++ [qs])).
Proof.
  revert sched done_ s. apply (induction_ltof1 _ (@length (list irq)) (fun sched => forall done_ s, _ -> _ -> _)).
  unfold ltof. intros sched IH done_ s Ha Hr. destruct sched as [|q1 sched]; [done|].
  cbn [wait_key] in Hr. inv_bind Hr. rename a into s1. rewrite keys_read, bind_Ok in Hr.
  pose proof (batch_point _ _ _ _ _ Ha H1) as Ha1.
  destruct (Z.eqb_spec (KEY_EVENTS_SEEN s1) 0) as [Hz|]; cbn [negb] in Hr; [|left; by injection Hr as _ _ <-].
  destruct sched as [|q2 sched]; [done|].
  inv_bind Hr. rename a into s2. rewrite ticks_read, bind_Ok in Hr.
  pose proof (batch_point _ _ _ _ _ Ha1 H2) as Ha2. case_cmp_in Hr.
  - right. injection Hr as <- _ <-. exists [q1], q2. split; [done|]. rewrite <- (ap_keys _ _ _ Ha1). split; [done|].
    rewrite <- app_assoc in Ha2. pose proof (ap_ticks _ _ _ Ha2) as Ht. simpl in Ht |- *. congruence.
  - destruct (IH sched ltac:(simpl; lia) _ _ Ha2 Hr) as [|(c & qs & -> & Hp & Hd)]; [by left|right].
    exists (q1 :: q2 :: c), qs. split; [done|]. rewrite <- !app_assoc in Hp, Hd. by split.
Qed.

(** The batch of the press comes before the last batch of any stretch that
    takes longer. *)
Lemma press_counted limit f sched c qs rest :
  press_within limit f sched -> sched = c ++ qs :: rest -> limit < ticks_in (concat (c ++ [qs])) ->
  0 < presses f (keys_in (concat c)).
Proof.
  intros (pre & l & r & post & -> & Hl & Hp) Hs Hlt.
  assert (ticks_in (concat (pre ++ [l ++ KeyboardIrq :: r])) <= limit) as Hle.
  { rewrite concat_app. simpl. by rewrite app_nil_r. }
  set (b := l ++ KeyboardIrq :: r) in *.
  assert (forall x y, x `prefix_of` y -> ticks_in (concat x) <= ticks_in (concat y)) as Hmono.
  { intros x y [z ->]. rewrite concat_app, ticks_in_app. pose proof (ticks_in_nonneg (concat z)). lia. }
  assert (pre ++ [b] `prefix_of` c) as Hpre.
  { destruct (prefix_weak_total (pre ++ [b]) (c ++ [qs]) (pre ++ b :: post)) as [Hx|Hx].
    - exists post. by rewrite <- app_assoc.
    - exists rest. by rewrite Hs, <- app_assoc.
    - destruct Hx as [z Hz]. destruct z as [|y z _] using rev_ind.
      + rewrite app_nil_r in Hz. rewrite Hz in Hlt. lia.
      + rewrite app_assoc in Hz. apply app_inj_tail in Hz as [-> _]. by exists z.
    - apply Hmono in Hx. lia. }
  destruct Hpre as [z ->].
  apply Z.lt_le_trans with (presses f (S (keys_in (concat pre ++ l)))).
  - simpl. rewrite Hp. pose proof (presses_nonneg f (keys_in (concat pre ++ l))). lia.
  - apply presses_mono. unfold b. rewrite !concat_app, !keys_in_app. simpl.
    rewrite app_nil_r, keys_in_app. simpl. lia.
Qed.

Lemma press_succeeds sched (s s' : kstate D) code :
  TICKS s = 0 -> KEY_EVENTS_SEEN s = 0 ->
  press_within (TICKS_REQUIRED + 10 * TIMER_HZ) (typed (io_dev (mc_io (ks_machine s)))) sched ->
  wait_phase fuel sched s = Ok (s', code) -> code = Success.
Proof.
  intros HT HK Hp Hr. set (f := typed (io_dev (mc_io (ks_machine s)))) in *. unfold wait_phase in Hr.
  inv_bind Hr. rename a into s1. apply kprintln_keys in H1 as (Hs1 & T1 & K1 & _). cbv zeta in Hr.
  assert (at_point f (concat []) (enable s1)) as Ha by by (split; [done|simpl; congruence..|]).
  inv_bind Hr. destruct a as [sch2 s2].
  apply (wait_ticks_used f _ _ [] _ _ Ha) in H1 as [(c2 & -> & A2) T2]. cbn [app] in A2.
  pose proof (ap_ticks _ _ _ A2) as E2.
  inv_bind Hr. destruct a as [sch3 s3]. apply (gap_used f _ _ _ _ _ A2) in H1 as (c3 & -> & A3).
  inv_bind Hr. rename a into s4. pose proof (kprintln_point _ _ _ _ _ A3 H1) as A4. clear H1.
  inv_bind Hr. destruct a as [sch5 s5]. apply (gap_used f _ _ _ _ _ A4) in H1 as (c5 & -> & A5).
  inv_bind Hr. rename a into s6. pose proof (kprintln_point _ _ _ _ _ A5 H1) as A6. clear H1.
  inv_bind Hr. destruct a as [sch7 s7]. apply (gap_used f _ _ _ _ _ A6) in H1 as (c7 & -> & A7).
  rewrite ticks_read, bind_Ok in Hr. unfold TIMER_HZ in *. rewrite mul_u_ok, bind_Ok in Hr by lia.
  inv_bind Hr. unfold add_u in H1. case_cmp_in H1; [|done]. injection H1 as <-.
  inv_bind Hr. destruct a as [[sch8 s8] seen].
  destruct (wait_key_used f _ _ _ _ _ _ _ A7 H1) as [->|(c & qs & -> & Hz & Hd)].
  { inv_bind Hr. destruct a as [sch9 s9]. rewrite keys_read, bind_Ok in Hr. inv_bind Hr. destruct a as [sch10 s10].
    inv_bind Hr. inv_bind Hr. destruct a0 as [sch11 s11]. by injection Hr as _ <-. }
  exfalso. rewrite (ap_ticks _ _ _ A7) in Hd. set (before := ((c2 ++ c3) ++ c5) ++ c7) in *.
  assert (TICKS_REQUIRED <= ticks_in (concat before)) as Hge.
  { unfold before. rewrite !concat_app, !ticks_in_app. pose proof (ticks_in_nonneg (concat c3)).
    pose proof (ticks_in_nonneg (concat c5)). pose proof (ticks_in_nonneg (concat c7)). lia. }
  pose proof (press_counted _ f _ (before ++ c) qs sch8 Hp ltac:(unfold before; by rewrite <- !app_assoc)) as Hc.
  rewrite <- app_assoc in Hc at 1. specialize (Hc ltac:(lia)). lia.
Qed.
End Keys.

(** ** Instances *)

(** The machine of [Serial] with a key held down: every byte is the press of
    the letter a. *)
Record held_key := HeldKey { hk_uart : nat }.

#[export] Instance held_Device : Device held_key.
Proof.
  refine {| dev_in port d := if port =? DATA_PORT then (d, 0x1E)
              else let '(u, v) := dev_in port (hk_uart d) in (HeldKey u, v);
            dev_out port v d := HeldKey (dev_out port v (hk_uart d)) |}.
  intros port d. destruct (port =? DATA_PORT); [simpl; lia|].
  pose proof (dev_in_byte port (hk_uart d)) as Hb. by destruct (dev_in port (hk_uart d)).
Defined.

#[export] Instance held_Typist : Typist held_key.
Proof. by refine {| typed _ _ := 0x1E |}. Defined.

Lemma held_live : live (D := held_key) 2.
Proof.
  assert (forall k d, ready_within k (hk_uart d) -> ready_within k d) as Hk.
  { induction k as [|k IH]; intros d Hr; simpl in Hr |- *;
      destruct (if (2 <=? hk_uart d)%nat then _ else _) eqn:E; destruct Hr as [Hr|Hr]; auto. }
  intros d. apply Hk, slow_uart_live.
Qed.
