(* ===== verification/Main.v ===== *)
(** The kernel's entry point and boot sequence ([kernel/src/main.rs]): every
    component's initialisation and self-test in order, what is printed, and
    where the run stops. *)
From Stdlib Require Import String.
From S2P Require Import Prelude Memory BootInfo Frame Heap HeapTrace Interrupts FrameApi HeapApi KernelTrace HeapTest.
From S2P Require Import Handoff QemuExit Port Pic Font Console Screen Serial Fmt Keyboard Gdt Idt Wait.

(** ** State *)

(** The machine and the counters; the two [static mut] allocators; the
    descriptor tables and the registers that select them. *)
Record boot (D : Type) := Boot {
  b_k : kstate D;
  b_frames : option FrameAllocator;
  b_heap : Heap;
  b_idt : Idt;
  b_segments : option segments;
  b_idtr : option DescriptorTablePointer;
}.
Arguments Boot {D} _ _ _ _ _ _.
Arguments b_k {D} _.
Arguments b_frames {D} _.
Arguments b_heap {D} _.
Arguments b_idt {D} _.
Arguments b_segments {D} _.
Arguments b_idtr {D} _.

Section Boot.
Context {D : Type} `{Device D} (fuel : nat).
(** Where the linker put the statics, the table and the handlers, and what
    handler the code at an address is. *)
Context (a : statics) (table : Z) (address : handler -> Z) (code_at : Z -> option handler).

Definition b_machine (b : boot D) : machine D := ks_machine (b_k b).

Definition with_k (s : kstate D) (b : boot D) : boot D :=
  Boot s (b_frames b) (b_heap b) (b_idt b) (b_segments b) (b_idtr b).
Definition with_machine (m : machine D) (b : boot D) : boot D :=
  with_k (KState m (TICKS (b_k b)) (KEY_EVENTS_SEEN (b_k b))) b.
Definition with_mem (m : mem) (b : boot D) : boot D :=
  let k := b_machine b in with_machine (Machine (mc_if k) (mc_io k) (mc_console k) m) b.
Definition on_ports (f : io D -> io D) (b : boot D) : boot D := with_k (on_io f (b_k b)) b.

(** The part of the state the memory management works on. *)
Definition kernel_of (b : boot D) : kernel :=
  Kernel (mc_if (b_machine b)) (mc_mem (b_machine b)) (b_frames b) (b_heap b).
Definition with_kernel (k : kernel) (b : boot D) : boot D :=
  let m := b_machine b in
  Boot (KState (Machine (k_if k) (mc_io m) (mc_console m) (k_mem k)) (TICKS (b_k b)) (KEY_EVENTS_SEEN (b_k b)))
    (FRAMES k) (HEAP k) (b_idt b) (b_segments b) (b_idtr b).

(** Code that may end the run: its error is the machine as it was left, and
    the code written to the exit port. A [-> !] function returns nothing. *)
Definition halted : Type := boot D * QemuExitCode.
Abbreviation run A := (outcome halted A).
Abbreviation never := Empty_set.

Definition halt {A} (code : QemuExitCode) (b : boot D) : run A :=
  let '(s, code) := exit code (b_k b) in Err (with_k s b, code).

(** [kprintln!]. *)
Definition say (bytes : list Z) (b : boot D) : run (boot D) :=
  s ← lift (kprintln fuel bytes (b_k b)); Ok (with_k s b).

(** The pattern of every fatal check: a line, then [exit(Failed)]. *)
Definition fatal {A} (bytes : list Z) (b : boot D) : run A := b ← say bytes b; halt Failed b.

(** ** [init] *)

(** What [ps2::init] prints when it gives up. *)
Definition ps2_report (step : step_failed) : list Z :=
  match step with
  | DrainingOutputBuffer => text "ps2: timed out draining the output buffer; no 8042 present?"
  | EnablingFirstPort => text "ps2: timed out waiting to enable the first port"
  | RequestingConfig => text "ps2: timed out waiting to request the config byte"
  | ReadingConfig => text "ps2: timed out waiting to read the config byte"
  | WritingConfigCommand => text "ps2: timed out waiting to write the config byte command"
  | WritingConfig => text "ps2: timed out waiting to write the config byte"
  end.

Definition gdt_up (b : boot D) : run (boot D) :=
  '(s, m) ← lift (gdt_init a (mc_mem (b_machine b)));
  let b := with_mem m (Boot (b_k b) (b_frames b) (b_heap b) (b_idt b) (Some s) (b_idtr b)) in
  say (text "GDT + TSS loaded (code selector " ++ hex KERNEL_CODE_SELECTOR ++ text ")") b.

Definition idt_up (b : boot D) : run (boot D) :=
  '(idt, p) ← lift (idt_init address table (b_idt b));
  let b := Boot (b_k b) (b_frames b) (b_heap b) idt (b_segments b) (Some p) in
  say (text "IDT loaded") b.

Definition pic_up (b : boot D) : run (boot D) :=
  let b := on_ports pic_init b in
  last ← add_u 8 PIC2_OFFSET 7;
  say (text "PICs remapped to vectors " ++ dec PIC1_OFFSET ++ text "-" ++ dec last) b.

Definition pit_up (b : boot D) : run (boot D) :=
  i ← lift (pit_init TIMER_HZ (mc_io (b_machine b)));
  let b := on_ports (fun _ => i) b in
  say (text "PIT programmed at " ++ dec TIMER_HZ ++ text " Hz") b.

Definition ps2_up (b : boot D) : run (boot D) :=
  let '(i, failed) := ps2_init (mc_io (b_machine b)) in
  let b := on_ports (fun _ => i) b in
  b ← match failed with Some step => say (ps2_report step) b | None => Ok b end;
  say (text "8042 PS/2 controller initialised") b.

Definition init_devices (b : boot D) : run (boot D) :=
  b ← gdt_up b; b ← idt_up b; b ← pic_up b; b ← pit_up b; ps2_up b.

(** ** [selftest] *)

(** [int3]: the processor takes vector 3 through the loaded table, with the
    frame it pushed; [iretq] restores the interrupt flag. When the gate does
    not lead to the breakpoint's handler the run does not come back here. *)
Definition int3 (frame : InterruptStackFrame) (b : boot D) : run (boot D) :=
  match b_idtr b, delivered_to (b_idt b) 3 with
  | Some _, Some g =>
      match code_at (g_target g) with
      | Some breakpoint =>
          s ← lift (breakpoint_handler fuel frame (if g_masks g then cli (b_k b) else b_k b));
          Ok (with_k (set_if (get_if (b_k b)) s) b)
      | _ => Panic
      end
  | _, _ => Panic
  end.

Definition boot_selftest (frame : InterruptStackFrame) (b : boot D) : run (boot D) :=
  b ← int3 frame b;
  say (text "selftest: breakpoint handled and execution resumed") b.

(** ** [kernel_main], in the order of its text *)

Definition announce (info : BootInfo) (b : boot D) : run (boot D) :=
  let fb := bi_framebuffer info in
  b ← say (text "framebuffer: " ++ dec (fb_width fb) ++ text "x" ++ dec (fb_height fb) ++ text " stride="
           ++ dec (fb_stride fb) ++ text " @ " ++ hex (fb_addr fb)) b;
  say (text "kernel image: base=" ++ hex (bi_kernel_base info) ++ text " size=" ++ hex (bi_kernel_size info)) b.

Definition screen_up (info : BootInfo) (b : boot D) : run (boot D) :=
  let fb := bi_framebuffer info in
  '(m, (skipped, fell_back)) ← lift (fill_screen fb 0x00 0x33 0x99 (mc_mem (b_machine b)));
  let b := with_mem m b in
  let b := with_machine (console_init fb (b_machine b)) b in
  b ← say (text "framebuffer painted") b;
  b ← (if (fell_back : bool) then say (text "  note: pixel format was not recognised; assumed BGR") b else Ok b);
  if 0 <? skipped then say (text "  note: " ++ dec skipped ++ text " pixels skipped as out of bounds") b
  else Ok b.

(** The frame allocator; what a failed self-test leaves of it is not kept,
    since the run ends there. *)
Definition frames_up (info : BootInfo) (b : boot D) : run (boot D * Z) :=
  '(k, total_frames) ← lift (init_frames (memory_regions (mc_mem (b_machine b)) info) (kernel_of b));
  let b := with_kernel k b in
  if total_frames =? 0 then fatal (text "FATAL: no usable memory regions in the UEFI memory map") b else
  bytes ← mul_u 64 total_frames PAGE_SIZE;
  b ← say (text "frame allocator: " ++ dec total_frames ++ text " usable frames ("
           ++ dec (bytes / (1024 * 1024)) ++ text " MiB)") b;
  b ← match frame_selftest (kernel_of b) with
      | Ok k => Ok (with_kernel k b)
      | Err reason => fatal (text "FATAL: frame allocator selftest: " ++ text reason) b
      | Panic => Panic
      | Loop => Loop
      end;
  b ← say (text "frame allocator: selftest passed") b;
  Ok (b, total_frames).

Definition heap_up (total_frames : Z) (b : boot D) : run (boot D) :=
  '(k, o) ← lift (init_heap (kernel_of b));
  let b := with_kernel k b in
  match o with
  | None => fatal (text "FATAL: could not obtain " ++ dec HEAP_FRAMES ++ text " contiguous frames for the heap") b
  | Some (heap_start, heap_size) =>
      '(k, used) ← lift (frames_in_use (kernel_of b));
      let b := with_kernel k b in
      b ← say (text "heap: " ++ dec (heap_size / 1024) ++ text " KiB @ " ++ hex heap_start ++ text " ("
               ++ dec used ++ text " of " ++ dec total_frames ++ text " frames in use)") b;
      b ← match heap_selftest WALK_FUEL (kernel_of b) with
          | Ok k => Ok (with_kernel k b)
          | Err reason => fatal (text "FATAL: heap selftest: " ++ text reason) b
          | Panic => Panic
          | Loop => Loop
          end;
      say (text "alloc: Box/Vec/String OK, heap balanced") b
  end.

(** Everything up to "enabling interrupts". *)
Definition bring_up (frame : InterruptStackFrame) (info : BootInfo) (b : boot D) : run (boot D) :=
  b ← announce info b;
  b ← init_devices b;
  b ← boot_selftest frame b;
  b ← screen_up info b;
  '(b, total_frames) ← frames_up info b;
  heap_up total_frames b.

Definition kernel_main (frame : InterruptStackFrame) (info : BootInfo) (sched : schedule) (b : boot D) : run never :=
  b ← bring_up frame info b;
  '(s, code) ← lift (wait_phase fuel sched (b_k b));
  Err (with_k s b, code).

(** [_start]. *)
Definition kernel_start (frame : InterruptStackFrame) (boot_info : Z) (sched : schedule) (b : boot D) : run never :=
  let b := on_ports serial_init b in
  b ← say [] b;
  b ← say (text "=== Rust_BL kernel ===") b;
  if boot_info =? 0 then fatal (text "FATAL: boot_info pointer is null") b else
  let info := read_BootInfo (mc_mem (b_machine b)) boot_info in
  if negb (is_valid info) then fatal (text "FATAL: boot_info failed validation (magic/version/format)") b else
  kernel_main frame info sched b.

(** The panic handler, for a panic whose [PanicInfo] formats to [info]. *)
Definition panic_handler (info : list Z) (b : boot D) : run never := fatal (text "KERNEL PANIC: " ++ info) b.
End Boot.

(** ** What a stretch of the boot does *)

(** Bytes on the serial line: whatever state the UART is in past its own
    programming, the accesses [l] put [out] on it. *)
Definition on_line (l : list access) (out : list Z) : Prop :=
  forall u, dlab u = false -> u_sent (uart_after u (writes l)) = u_sent u ++ out /\
    dlab (uart_after u (writes l)) = false.

Lemma uart_after_app u v w : uart_after u (v ++ w) = uart_after (uart_after u v) w.
Proof. unfold uart_after. by rewrite foldl_app. Qed.

Lemma on_line_nil : on_line [] [].
Proof. intros u Hu. by rewrite app_nil_r. Qed.

Lemma on_line_app l l' out out' : on_line l out -> on_line l' out' -> on_line (l ++ l') (out ++ out').
Proof.
  intros H H' u Hu. destruct (H u Hu) as [H1 H2]. destruct (H' _ H2) as [H3 H4].
  rewrite writes_app, uart_after_app, H3, H1, app_assoc. done.
Qed.

Lemma on_line_sent l out : transmits out l -> on_line l out.
Proof. intros Hw u Hu. rewrite (transmits_writes _ _ Hw). by apply uart_after_sent. Qed.

(** Accesses to other ports. *)
Lemma on_line_other l : Forall (fun w => ~ COM1 <= fst w <= COM1 + 4) (writes l) -> on_line l [].
Proof.
  intros Hl u Hu. rewrite app_nil_r. induction Hl as [|[p v] ws Hp _ IH]; [done|].
  assert (uart_write (p, v) u = u) as Hw.
  { destruct u. unfold uart_write, COM1 in *. simpl in Hp. repeat (case_cmp; [lia|]). done. }
  simpl. by rewrite Hw.
Qed.

(** What the screen is: nothing before [console::init], a console showing
    some terminal after. *)
Definition drawn (o : option FrameBufferInfo) (x : Z) : Prop :=
  match o with Some fb => screen fb x | None => False end.

Definition screen_is {D} (o : option FrameBufferInfo) (b : boot D) : Prop :=
  match o, mc_console (b_machine b) with
  | None, None => True
  | Some fb, Some c => co_framebuffer c = fb /\ exists t, displays (b_machine b) t
  | _, _ => False
  end.

Section Stages.
Context {D : Type} `{Device D} (n fuel : nat).
Context (Hlive : live (D := D) n) (Hfuel : (n < fuel)%nat).
(** Memory the boot may write. *)
Context (W : Z -> Prop).

(** From [b] to [b'], printing the lines [ls]. *)
Record moved (b b' : boot D) (ls : list (list Z)) : Prop := {
  mv_if : mc_if (b_machine b') = mc_if (b_machine b);
  mv_ticks : TICKS (b_k b') = TICKS (b_k b);
  mv_keys : KEY_EVENTS_SEEN (b_k b') = KEY_EVENTS_SEEN (b_k b);
  mv_log : exists l, io_log (mc_io (b_machine b')) = io_log (mc_io (b_machine b)) ++ l /\
    on_line l (crlf (concat (line <$> ls)));
  mv_mem : mem_agree (fun x => ~ W x) (mc_mem (b_machine b)) (mc_mem (b_machine b'));
}.

Lemma moved_trans b1 b2 b3 ls ls' : moved b1 b2 ls -> moved b2 b3 ls' -> moved b1 b3 (ls ++ ls').
Proof.
  intros [I1 T1 K1 (l1 & L1 & O1) M1] [I2 T2 K2 (l2 & L2 & O2) M2].
  split; [congruence|congruence|congruence| |by etrans].
  exists (l1 ++ l2). rewrite L2, L1, app_assoc. split; [done|].
  rewrite fmap_app, concat_app, crlf_app. by apply on_line_app.
Qed.

(** The parts of the state a print leaves alone. *)
Record same_tables (b b' : boot D) : Prop := {
  st_frames : b_frames b' = b_frames b;
  st_heap : b_heap b' = b_heap b;
  st_idt : b_idt b' = b_idt b;
  st_segments : b_segments b' = b_segments b;
  st_idtr : b_idtr b' = b_idtr b;
}.

Lemma same_tables_trans b1 b2 b3 : same_tables b1 b2 -> same_tables b2 b3 -> same_tables b1 b3.
Proof. intros [] []. split; congruence. Qed.

(** A step that touches neither the line nor the screen. *)
Lemma moved_quiet o W' b b' l :
  screen_is o b -> (forall x, W' x -> W x /\ ~ drawn o x) ->
  mc_if (b_machine b') = mc_if (b_machine b) -> mc_console (b_machine b') = mc_console (b_machine b) ->
  TICKS (b_k b') = TICKS (b_k b) -> KEY_EVENTS_SEEN (b_k b') = KEY_EVENTS_SEEN (b_k b) ->
  io_log (mc_io (b_machine b')) = io_log (mc_io (b_machine b)) ++ l ->
  Forall (fun w => ~ COM1 <= fst w <= COM1 + 4) (writes l) ->
  mem_agree (fun x => ~ W' x) (mc_mem (b_machine b)) (mc_mem (b_machine b')) ->
  screen_is o b' /\ moved b b' [].
Proof.
  intros Hs HW Hif Hc HT HK Hl Ho Hm. split.
  - unfold screen_is in *. rewrite Hc. destruct o as [fb|], (mc_console (b_machine b)) as [c|] eqn:E; try done.
    destruct Hs as (Hfb & t & Ht). split; [done|]. exists t. unfold displays in *. rewrite Hc, E in *.
    destruct Ht as [Hok Hsh]. split; [done|].
    eapply shows_agree; [done| |exact Hsh]. rewrite Hfb. eapply mem_agree_mono; [|exact Hm].
    intros x Hx Hw. by apply HW in Hw as [_ Hn].
  - split; try done; [exists l; split; [done|]; by apply on_line_other|].
    eapply mem_agree_mono; [|exact Hm]. intros x Hx Hw. by apply Hx, HW.
Qed.

(** A line printed. *)
Lemma say_spec o bytes b :
  Forall is_byte bytes -> screen_is o b -> (forall x, drawn o x -> W x) ->
  exists b', say fuel bytes b = Ok b' /\ screen_is o b' /\ moved b b' [bytes] /\ same_tables b b' /\
    mem_agree (fun x => ~ drawn o x) (mc_mem (b_machine b)) (mc_mem (b_machine b')).
Proof.
  intros Hb Hs HW.
  assert (exists t, displays (b_machine b) t) as [t Ht].
  { unfold screen_is in Hs. destruct o; unfold displays; destruct (mc_console (b_machine b)) eqn:E; try done.
    - destruct Hs as (_ & t & Ht). exists t. unfold displays in Ht. by rewrite E in Ht.
    - by exists blank_terminal. }
  destruct (kprintln_spec n fuel Hlive Hfuel bytes (b_k b) t Hb Ht) as (s & Hr & [T K [I (l & Hl & Hw) Hc Hm Hsh]]).
  assert (mem_agree (fun x => ~ drawn o x) (mc_mem (b_machine b)) (mc_mem (ks_machine s))) as Hag.
  { eapply mem_agree_mono; [|exact Hm]. intros x Hn Hx. apply Hn. unfold drawn_on, screen_is, drawn in *.
    fold (b_machine b) in Hx. destruct o, (mc_console (b_machine b)); try done. by destruct Hs as [<- _]. }
  exists (with_k s b). split; [unfold say; by rewrite Hr|]. split; [|split; [|by split; [split|]]].
  - unfold screen_is, same_console in *. fold (b_machine b) in Hc. simpl.
    change (b_machine (with_k s b)) with (ks_machine s).
    destruct o as [fb|], (mc_console (b_machine b)) as [c|], (mc_console (ks_machine s)) as [c'|]; try done.
    destruct Hs as [<- _]. destruct Hc as [Hfb _]. eauto.
  - split; try done.
    + exists l. split; [done|]. cbn [fmap list_fmap concat]. rewrite app_nil_r. by apply on_line_sent.
    + eapply mem_agree_mono; [|exact Hag]. intros x Hn Hx. by apply Hn, HW.
Qed.

(** Printing leaves the tables; [says] chains the lines of a stage. *)
Lemma moved_refl b : moved b b [].
Proof. split; try done. exists []. rewrite app_nil_r. split; [done|apply on_line_nil]. Qed.

(** A fatal check prints its line and ends the run with the failure code. *)
Definition stopped (b b' : boot D) (ls : list (list Z)) : Prop :=
  exists b1, moved b b1 ls /\ b' = with_k (fst (exit Failed (b_k b1))) b1.

Lemma stopped_trans b1 b2 b3 ls ls' : moved b1 b2 ls -> stopped b2 b3 ls' -> stopped b1 b3 (ls ++ ls').
Proof. intros M (b & M' & ->). exists b. split; [by eapply moved_trans|done]. Qed.

Lemma fatal_spec {A} o bytes b :
  Forall is_byte bytes -> screen_is o b -> (forall x, drawn o x -> W x) ->
  exists b', fatal (A := A) fuel bytes b = Err (b', Failed) /\ stopped b b' [bytes].
Proof.
  intros Hb Hs HW. destruct (say_spec o bytes b Hb Hs HW) as (b1 & Hr & _ & M & _).
  eexists. split; [unfold fatal; rewrite Hr, bind_Ok; reflexivity|]. by exists b1.
Qed.

(** *** [init] *)

Definition init_lines (failed : option step_failed) : list (list Z) :=
  [text "GDT + TSS loaded (code selector " ++ hex KERNEL_CODE_SELECTOR ++ text ")";
   text "IDT loaded";
   text "PICs remapped to vectors " ++ dec PIC1_OFFSET ++ text "-" ++ dec (PIC2_OFFSET + 7);
   text "PIT programmed at " ++ dec TIMER_HZ ++ text " Hz"]
  ++ (match failed with Some step => [ps2_report step] | None => [] end)
  ++ [text "8042 PS/2 controller initialised"].

(** The tables are as [init] made them. *)
Record tables_ok (a : statics) (address : handler -> Z) (b : boot D) : Prop := {
  to_gates v : 0 <= v -> delivered_to (b_idt b) v = gate_of address v;
  to_idtr : exists p, b_idtr b = Some p;
  to_gdt : exists s m m', gdt_init a m = Ok (s, m') /\ b_segments b = Some s /\
    mem_agree (fun x => range (GDT a) 40 x \/ range (TSS a + 36) 8 x) m' (mc_mem (b_machine b));
}.

Lemma dec_bytes v : in_u 64 v -> Forall is_byte (dec v).
Proof. apply dec_denotes. Qed.

Hint Resolve text_bytes dec_bytes hex_bytes Forall_app_2 : core.
Hint Extern 2 (in_u 64 _) => (first [unfold in_u in *; lia | by vm_compute]) : core.

Lemma ps2_report_bytes step : Forall is_byte (ps2_report step).
Proof. destruct step; apply text_bytes. Qed.

(** Port accesses that are neither the line's. *)
Lemma on_ports_spec o f b l :
  screen_is o b -> io_log (f (mc_io (b_machine b))) = io_log (mc_io (b_machine b)) ++ l ->
  Forall (fun w => ~ COM1 <= fst w <= COM1 + 4) (writes l) ->
  screen_is o (on_ports f b) /\ moved b (on_ports f b) [] /\ same_tables b (on_ports f b).
Proof.
  intros Hs Hl Ho. destruct (moved_quiet o (fun _ => False) b (on_ports f b) l Hs) as [Hs' M]; try done.
Qed.

Lemma pic_init_log (s : io D) : exists l, io_log (pic_init s) = io_log s ++ l /\
  Forall (fun w => ~ COM1 <= fst w <= COM1 + 4) (writes l).
Proof.
  eexists ((fun w => Out (fst w) (snd w)) <$> [(PIC1_COMMAND, 0x11); (0x80, 0); (PIC2_COMMAND, 0x11); (0x80, 0);
     (PIC1_DATA, 32); (0x80, 0); (PIC2_DATA, 40); (0x80, 0); (PIC1_DATA, 4); (0x80, 0);
     (PIC2_DATA, 2); (0x80, 0); (PIC1_DATA, 1); (0x80, 0); (PIC2_DATA, 1); (0x80, 0);
     (PIC1_DATA, 0xFC); (PIC2_DATA, 0xFF)]).
  rewrite <- io_log_outs, writes_outs. split; [reflexivity|]. repeat constructor; vm_compute; intuition congruence.
Qed.

Lemma pit_init_log (s : io D) : exists i l, pit_init TIMER_HZ s = Ok i /\ io_log i = io_log s ++ l /\
  Forall (fun w => ~ COM1 <= fst w <= COM1 + 4) (writes l).
Proof.
  eexists _, ((fun w => Out (fst w) (snd w)) <$> [(PIT_COMMAND, 0x36); (CHANNEL0_DATA, _); (CHANNEL0_DATA, _)]).
  rewrite <- io_log_outs, writes_outs. split; [reflexivity|]. split; [reflexivity|].
  repeat constructor; vm_compute; intuition congruence.
Qed.

Lemma ps2_writes_other r c : Forall (fun w => ~ COM1 <= fst w <= COM1 + 4) (ps2_writes r c).
Proof. destruct r as [[]|]; repeat constructor; vm_compute; intuition congruence. Qed.

(** A stage: what it prints, and that the screen is still what it was. *)
Definition stage (o : option FrameBufferInfo) (b b' : boot D) (ls : list (list Z)) : Prop :=
  screen_is o b' /\ moved b b' ls.

Lemma stage_trans o o' b1 b2 b3 ls ls' : stage o b1 b2 ls -> stage o' b2 b3 ls' -> stage o' b1 b3 (ls ++ ls').
Proof. intros [_ M] [Hs M']. split; [done|by eapply moved_trans]. Qed.

(** A line printed after a step that printed nothing. *)
Lemma then_say o b b1 bytes :
  Forall is_byte bytes -> stage o b b1 [] -> (forall x, drawn o x -> W x) ->
  exists b', say fuel bytes b1 = Ok b' /\ stage o b b' [bytes] /\ same_tables b1 b' /\
    mem_agree (fun x => ~ drawn o x) (mc_mem (b_machine b1)) (mc_mem (b_machine b')).
Proof.
  intros Hb [Hs M] HW. destruct (say_spec o bytes b1 Hb Hs HW) as (b' & Hr & Hs' & M' & T & A).
  exists b'. split; [done|]. split; [|done]. split; [done|exact (moved_trans _ _ _ _ _ M M')].
Qed.

(** The line a stage ends with, after what [M] says has happened. *)
Ltac last_line M :=
  match type of M with stage ?o ?b ?b1 [] =>
  match goal with |- context [say fuel ?bytes b1] =>
    let b' := fresh "b" in let Hr := fresh "Hr" in let M' := fresh "M" in let T := fresh "T" in let A := fresh "A" in
    destruct (then_say o b b1 bytes) as (b' & Hr & M' & T & A); [auto 12|exact M|first [done|assumption]|]; rewrite Hr, ?bind_Ok; clear M Hr
  end end.

Lemma quiet_io o f b l :
  screen_is o b -> io_log (f (mc_io (b_machine b))) = io_log (mc_io (b_machine b)) ++ l ->
  Forall (fun w => ~ COM1 <= fst w <= COM1 + 4) (writes l) -> stage o b (on_ports f b) [].
Proof. intros Hs Hl Ho. by destruct (on_ports_spec o f b l Hs Hl Ho) as (? & ? & _). Qed.

(** Loading tables prints nothing and draws nothing. *)
Lemma stage_k o b b1 : screen_is o b -> b_k b1 = b_k b -> stage o b b1 [].
Proof.
  intros Hs Hk. unfold stage, screen_is, b_machine in *. rewrite Hk. split; [done|].
  pose proof (moved_refl b) as [? ? ? ? ?]. unfold b_machine in *. by split; unfold b_machine; rewrite Hk.
Qed.

Lemma stage_refl o b : screen_is o b -> stage o b b [].
Proof. intros Hs. by apply stage_k. Qed.

Lemma gdt_up_spec a b :
  placed a -> screen_is None b -> (forall x, range (GDT a) 40 x \/ range (TSS a + 36) 8 x -> W x) ->
  exists b' s m, gdt_up fuel a b = Ok b' /\
    stage None b b' [text "GDT + TSS loaded (code selector " ++ hex KERNEL_CODE_SELECTOR ++ text ")"] /\
    b_idt b' = b_idt b /\ b_frames b' = b_frames b /\ b_heap b' = b_heap b /\
    gdt_init a (mc_mem (b_machine b)) = Ok (s, m) /\ b_segments b' = Some s /\
    mem_agree (fun _ => True) m (mc_mem (b_machine b')).
Proof.
  intros Hp Hs HW.
  destruct (gdt_init_installs_spec a (mc_mem (b_machine b)) Hp) as (s & m & Hg & _ & _ & _ & _ & _ & Hag).
  unfold gdt_up. rewrite Hg. cbn [lift]. rewrite bind_Ok. cbv zeta. set (b1 := with_mem m _).
  assert (stage None b b1 []) as M1.
  { apply (moved_quiet None W b b1 []); try done; [|by rewrite app_nil_r|].
    - intros x Hx. split; [exact Hx|intros []].
    - eapply mem_agree_mono; [|exact Hag]. intros x Hx. split; intros Hr; apply Hx, HW; auto. }
  last_line M1. exists b0, s, m. destruct T. do 7 (split; [done|]).
  intros x _. apply A. intros [].
Qed.

Lemma idt_up_spec table address b :
  (forall h, in_u 64 (address h)) -> b_idt b = Idt_new -> screen_is None b ->
  exists b' p, idt_up fuel table address b = Ok b' /\ stage None b b' [text "IDT loaded"] /\
    (forall v, 0 <= v -> delivered_to (b_idt b') v = gate_of address v) /\ b_idtr b' = Some p /\
    b_frames b' = b_frames b /\ b_heap b' = b_heap b /\ b_segments b' = b_segments b /\
    mem_agree (fun _ => True) (mc_mem (b_machine b)) (mc_mem (b_machine b')).
Proof.
  intros Ha Hidt Hs. destruct (idt_init_spec address table Ha) as (idt & Hi & _ & Hgates).
  unfold idt_up. rewrite Hidt, Hi. cbn [lift]. rewrite bind_Ok. cbv zeta. set (b1 := Boot _ _ _ _ _ _).
  assert (stage None b b1 []) as M1 by by apply stage_k.
  last_line M1. destruct T as [TF TH TI TS TR]. eexists b0, _. split; [done|]. split; [done|].
  split; [intros v Hv; rewrite TI; by apply Hgates|]. rewrite TF, TH, TS, TR. do 4 (split; [done|]).
  intros x _. apply A. intros [].
Qed.

(** The three devices behind ports. *)
Definition port_stage (b b' : boot D) (ls : list (list Z)) : Prop :=
  stage None b b' ls /\ same_tables b b' /\
  mem_agree (fun _ => True) (mc_mem (b_machine b)) (mc_mem (b_machine b')).

Lemma pic_up_spec b :
  screen_is None b -> exists b', pic_up fuel b = Ok b' /\
    port_stage b b' [text "PICs remapped to vectors " ++ dec PIC1_OFFSET ++ text "-" ++ dec (PIC2_OFFSET + 7)].
Proof.
  intros Hs. unfold pic_up. cbv zeta. destruct (pic_init_log (mc_io (b_machine b))) as (l & Hl & Ho).
  pose proof (quiet_io None pic_init b l Hs Hl Ho) as M1. rewrite add_u_ok, bind_Ok by done.
  last_line M1. exists b0. split; [done|]. split; [done|]. split; [by destruct T|]. intros x _. apply A. intros [].
Qed.

Lemma pit_up_spec b :
  screen_is None b -> exists b', pit_up fuel b = Ok b' /\
    port_stage b b' [text "PIT programmed at " ++ dec TIMER_HZ ++ text " Hz"].
Proof.
  intros Hs. unfold pit_up. destruct (pit_init_log (mc_io (b_machine b))) as (i & l & Hi & Hl & Ho).
  rewrite Hi. cbn [lift]. rewrite bind_Ok. cbv zeta.
  pose proof (quiet_io None (fun _ => i) b l Hs Hl Ho) as M1.
  last_line M1. exists b0. split; [done|]. split; [done|]. split; [by destruct T|]. intros x _. apply A. intros [].
Qed.

Lemma ps2_up_spec b :
  screen_is None b -> exists b' failed, ps2_up fuel b = Ok b' /\
    port_stage b b' (match failed with Some step => [ps2_report step] | None => [] end
                     ++ [text "8042 PS/2 controller initialised"]).
Proof.
  intros Hs. unfold ps2_up. destruct (ps2_init_spec (mc_io (b_machine b))) as (i & r & l & c & Hi & Hl & _ & _ & Hw & _).
  rewrite Hi. cbv zeta.
  assert (Forall (fun w => ~ COM1 <= fst w <= COM1 + 4) (writes l)) as Ho by (rewrite Hw; apply ps2_writes_other).
  pose proof (quiet_io None (fun _ => i) b l Hs Hl Ho) as M1. set (b1 := on_ports _ b) in *.
  assert (same_tables b b1) as T1 by done.
  assert (mc_mem (b_machine b1) = mc_mem (b_machine b)) as A1 by done. clearbody b1.
  destruct r as [step|].
  - destruct (then_say None b b1 (ps2_report step) (ps2_report_bytes step) M1 ltac:(done)) as (b2 & Hr & M2 & T2 & A2).
    rewrite Hr, bind_Ok. pose proof (stage_refl None b2 (proj1 M2)) as M3. last_line M3.
    exists b0, (Some step). split; [done|]. split; [exact (stage_trans _ _ _ _ _ _ _ M2 M)|].
    split; [by eapply same_tables_trans, same_tables_trans|]. rewrite <- A1.
    intros x _. etrans; [apply A2|apply A]; intros [].
  - rewrite bind_Ok. last_line M1. exists b0, None. split; [done|]. split; [done|].
    split; [by eapply same_tables_trans|]. rewrite <- A1. intros x _. apply A. intros [].
Qed.

Lemma init_devices_spec a table address b :
  placed a -> (forall h, in_u 64 (address h)) -> b_idt b = Idt_new -> screen_is None b ->
  (forall x, range (GDT a) 40 x \/ range (TSS a + 36) 8 x -> W x) ->
  exists b' failed, init_devices fuel a table address b = Ok b' /\ stage None b b' (init_lines failed) /\
    tables_ok a address b' /\ b_frames b' = b_frames b /\ b_heap b' = b_heap b.
Proof.
  intros Hp Ha Hidt Hs HW. unfold init_devices.
  destruct (gdt_up_spec a b Hp Hs HW) as (b1 & s & m & -> & M1 & I1 & F1 & H1 & Hg & S1 & A1). rewrite bind_Ok.
  destruct (idt_up_spec table address b1 Ha ltac:(congruence) (proj1 M1)) as (b2 & p & -> & M2 & G2 & R2 & F2 & H2 & S2 & A2).
  rewrite bind_Ok. destruct (pic_up_spec b2 (proj1 M2)) as (b3 & -> & M3 & T3 & A3). rewrite bind_Ok.
  destruct (pit_up_spec b3 (proj1 M3)) as (b4 & -> & M4 & T4 & A4). rewrite bind_Ok.
  destruct (ps2_up_spec b4 (proj1 M4)) as (b5 & failed & -> & M5 & T5 & A5).
  exists b5, failed. split; [done|]. split.
  { exact (stage_trans _ _ _ _ _ _ _ M1 (stage_trans _ _ _ _ _ _ _ M2 (stage_trans _ _ _ _ _ _ _ M3
      (stage_trans _ _ _ _ _ _ _ M4 M5)))). }
  destruct (same_tables_trans _ _ _ T3 (same_tables_trans _ _ _ T4 T5)) as [TF TH TI TS TR].
  split; [split|split; congruence].
  - intros v Hv. rewrite TI. by apply G2.
  - exists p. congruence.
  - exists s, (mc_mem (b_machine b)), m. split; [done|]. split; [congruence|]. intros x _.
    etrans; [by apply A1|]. etrans; [by apply A2|]. etrans; [by apply A3|]. etrans; [by apply A4|by apply A5].
Qed.

(** *** [selftest] *)

Definition selftest_lines (frame : InterruptStackFrame) : list (list Z) :=
  [text "EXCEPTION: breakpoint at " ++ hex (instruction_pointer frame) ++ text " (execution will resume)";
   text "selftest: breakpoint handled and execution resumed"].

Lemma boot_selftest_spec a address code_at frame b :
  tables_ok a address b -> code_at (address breakpoint) = Some breakpoint -> isf_ok frame -> screen_is None b ->
  exists b', boot_selftest fuel code_at frame b = Ok b' /\ port_stage b b' (selftest_lines frame).
Proof.
  intros [Hg [p Hp] _] Hc (Hip & _) Hs. unfold boot_selftest, int3. rewrite Hp, Hg by lia.
  change (gate_of address 3) with (Some (Gate (address breakpoint) KERNEL_CODE_SELECTOR 0 true)).
  cbn [g_target g_masks]. rewrite Hc. set (b0 := with_k (cli (b_k b)) b).
  assert (screen_is None b0) as Hs0 by exact Hs.
  set (bytes := text "EXCEPTION: breakpoint at " ++ hex (instruction_pointer frame) ++ text " (execution will resume)").
  destruct (say_spec None bytes b0) as (b1 & Hr & Hs1 & M1 & T1 & A1); [unfold bytes; auto 12|done|done|].
  unfold say in Hr. unfold breakpoint_handler. fold bytes. change (b_k b0) with (cli (b_k b)) in Hr.
  destruct (kprintln fuel bytes (cli (b_k b))) as [s|[]| |]; try discriminate Hr. injection Hr as <-.
  cbn [lift]. rewrite !bind_Ok. set (b2 := with_k (set_if (get_if (b_k b)) s) b).
  assert (stage None b b2 [bytes]) as M2.
  { split; [exact Hs1|]. destruct M1 as [I T K L M]. by split. }
  pose proof (stage_refl None b2 (proj1 M2)) as M3. last_line M3.
  exists b1. split; [done|]. split; [exact (stage_trans _ _ _ _ _ _ _ M2 M)|]. split; [by destruct T|].
  intros x _. etrans; [apply A1|apply A]; intros [].
Qed.

(** *** The first lines, and the screen *)

Definition announce_lines (info : BootInfo) : list (list Z) :=
  let fb := bi_framebuffer info in
  [text "framebuffer: " ++ dec (fb_width fb) ++ text "x" ++ dec (fb_height fb) ++ text " stride="
     ++ dec (fb_stride fb) ++ text " @ " ++ hex (fb_addr fb);
   text "kernel image: base=" ++ hex (bi_kernel_base info) ++ text " size=" ++ hex (bi_kernel_size info)].

Lemma announce_spec info b :
  BootInfo_ok info -> screen_is None b ->
  exists b', announce fuel info b = Ok b' /\ port_stage b b' (announce_lines info).
Proof.
  intros (_ & _ & _ & (Ha & _ & Hw & Hh & Hst & _) & _ & _ & Hb & Hz) Hs. unfold announce. cbv zeta.
  pose proof (stage_refl None b Hs) as M0. last_line M0.
  pose proof (stage_refl None b0 (proj1 M)) as M1. last_line M1.
  exists b1. split; [done|]. split; [exact (stage_trans _ _ _ _ _ _ _ M M0)|].
  split; [by eapply same_tables_trans|]. intros x _. etrans; [apply A|apply A0]; intros [].
Qed.

Lemma screen_up_spec info c b :
  FrameBufferInfo_ok (bi_framebuffer info) -> console_new (bi_framebuffer info) = Some c -> screen_is None b ->
  (forall x, screen (bi_framebuffer info) x -> W x) ->
  exists b', screen_up fuel info b = Ok b' /\
    stage (Some (bi_framebuffer info)) b b' [text "framebuffer painted"] /\ same_tables b b' /\
    mem_agree (fun x => ~ screen (bi_framebuffer info) x) (mc_mem (b_machine b)) (mc_mem (b_machine b')).
Proof.
  intros Hfb Hc Hs HW. set (fb := bi_framebuffer info) in *. unfold screen_up. fold fb.
  destruct (console_boots_blank_spec fb c (mc_mem (b_machine b)) Hfb Hc) as (m & Hm & Hok & Hag & Hsh).
  rewrite Hm. cbn [lift]. rewrite bind_Ok. cbv zeta. set (b1 := with_machine _ _).
  destruct (console_new_ok fb c Hfb Hc) as (_ & Hcfb & _).
  assert (stage (Some fb) b b1 []) as M1.
  { split.
    - unfold screen_is, b1. simpl. rewrite Hc. split; [done|]. exists blank_terminal. unfold displays. simpl. by rewrite Hc.
    - split; try done; [exists []; simpl; rewrite app_nil_r; split; [done|apply on_line_nil]|].
      eapply mem_agree_mono; [|exact Hag]. intros x Hx Hf. by apply Hx, HW. }
  last_line M1. exists b0. split; [done|]. split; [done|]. split; [by destruct T|].
  etrans; [exact Hag|exact A].
Qed.

(** *** Memory management *)

Section Memory.
Context (fb : FrameBufferInfo) (pool : list Z).
(** The framebuffer is not usable memory. *)
Context (Hscreen : forall x, screen fb x -> W x).
Context (Hpool : forall x, owned pool x -> W x /\ ~ screen fb x).

Lemma kernel_of_with k (b : boot D) : kernel_of (with_kernel k b) = k.
Proof. by destruct k. Qed.

Lemma kernel_stage k b :
  screen_is (Some fb) b -> k_if k = mc_if (b_machine b) ->
  mem_agree (fun x => ~ owned pool x) (mc_mem (b_machine b)) (k_mem k) ->
  stage (Some fb) b (with_kernel k b) [].
Proof.
  intros Hs Hif Hag. apply (moved_quiet (Some fb) (owned pool) b (with_kernel k b) []); try done.
  by rewrite app_nil_r.
Qed.

(** What the memory management may change: its own state, memory of the pool,
    and the screen. *)
Record memory_step (b b' : boot D) (ls : list (list Z)) : Prop := {
  ms_stage : stage (Some fb) b b' ls;
  ms_idt : b_idt b' = b_idt b;
  ms_segments : b_segments b' = b_segments b;
  ms_idtr : b_idtr b' = b_idtr b;
  ms_mem : mem_agree (fun x => ~ owned pool x /\ ~ screen fb x) (mc_mem (b_machine b)) (mc_mem (b_machine b'));
}.

Lemma memory_step_trans b1 b2 b3 ls ls' :
  memory_step b1 b2 ls -> memory_step b2 b3 ls' -> memory_step b1 b3 (ls ++ ls').
Proof. intros [S1 I1 G1 R1 M1] [S2 I2 G2 R2 M2]. split; [by eapply stage_trans|congruence..|by etrans]. Qed.

Lemma memory_kernel k b :
  screen_is (Some fb) b -> k_if k = mc_if (b_machine b) ->
  mem_agree (fun x => ~ owned pool x) (mc_mem (b_machine b)) (k_mem k) ->
  memory_step b (with_kernel k b) [].
Proof.
  intros Hs Hif Hag. split; [by apply kernel_stage|done|done|done|].
  eapply mem_agree_mono; [|exact Hag]. by intros x [Hx _].
Qed.

(** A line printed moves neither the allocators nor what they own. *)
Lemma memory_say bytes b :
  Forall is_byte bytes -> screen_is (Some fb) b ->
  exists b', say fuel bytes b = Ok b' /\ memory_step b b' [bytes] /\
    FRAMES (kernel_of b') = FRAMES (kernel_of b) /\ HEAP (kernel_of b') = HEAP (kernel_of b) /\
    k_if (kernel_of b') = k_if (kernel_of b) /\
    mem_agree (fun x => ~ screen fb x) (k_mem (kernel_of b)) (k_mem (kernel_of b')).
Proof.
  intros Hb Hs. destruct (then_say (Some fb) b b bytes Hb (stage_refl _ _ Hs) Hscreen) as (b' & Hr & M & [F HH I G R] & A).
  exists b'. split; [done|]. split.
  - split; [done|done|done|done|]. eapply mem_agree_mono; [|exact A]. by intros x [_ Hx].
  - split; [done|]. split; [done|]. split; [|done]. apply (mv_if _ _ _ (proj2 M)).
Qed.

Lemma memory_fatal {A} bytes b :
  Forall is_byte bytes -> screen_is (Some fb) b ->
  exists b', fatal (A := A) fuel bytes b = Err (b', Failed) /\ stopped b b' [bytes].
Proof. intros Hb Hs. by apply (fatal_spec (Some fb)). Qed.

Lemma Owns_said (b b' : boot D) A out :
  Owns (kernel_of b) A out -> (forall x, owned A x -> owned pool x) -> FRAMES (kernel_of b') = FRAMES (kernel_of b) ->
  mem_agree (fun x => ~ screen fb x) (k_mem (kernel_of b)) (k_mem (kernel_of b')) -> Owns (kernel_of b') A out.
Proof.
  intros HO Hsub HF Hag. eapply Owns_agree; [exact HO|exact HF|]. eapply mem_agree_mono; [|exact Hag].
  intros x Hx. by apply Hpool, Hsub.
Qed.

Definition frames_line (total : Z) : list Z :=
  text "frame allocator: " ++ dec total ++ text " usable frames (" ++ dec (total * PAGE_SIZE / (1024 * 1024)) ++ text " MiB)".

Lemma pool_total : pool <> [] -> 0 < Z.of_nat (length pool).
Proof. by destruct pool; simpl; [|lia]. Qed.

Lemma frames_up_spec info b :
  let regions := memory_regions (mc_mem (b_machine b)) info in
  let total := Z.of_nat (length pool) in
  map_ok regions -> pool = usable_frames regions -> screen_is (Some fb) b ->
  match length pool with
  | O => exists b', frames_up fuel info b = Err (b', Failed) /\
      stopped b b' [text "FATAL: no usable memory regions in the UEFI memory map"]
  | 1%nat => exists b', frames_up fuel info b = Err (b', Failed) /\
      stopped b b' [frames_line total; text "FATAL: frame allocator selftest: alloc_frame returned None for the second of two frames"]
  | _ => exists b' A, frames_up fuel info b = Ok (b', total) /\
      memory_step b b' [frames_line total; text "frame allocator: selftest passed"] /\
      Owns (kernel_of b') A 0 /\ A ≡ₚ pool /\
      forall c, 0 <= c -> (has_run regions (c + 2) -> room (kernel_of b') c) /\ (room (kernel_of b') c -> has_run regions c)
  end.
Proof.
  intros regions total Hmap Hpe Hs. subst total.
  destruct (init_frames_spec regions (kernel_of b) Hmap) as (k1 & Hi & Hif & Hmem & _ & HO & _). rewrite <- Hpe in *.
  unfold frames_up. fold regions. rewrite Hi. cbn [lift]. rewrite bind_Ok. cbv zeta.
  assert (memory_step b (with_kernel k1 b) []) as M1.
  { apply memory_kernel; [done|done|]. by rewrite Hmem. }
  destruct (decide (pool = [])) as [He|Hne].
  { rewrite He. simpl Z.eqb. cbv iota. destruct (memory_fatal (A := boot D * Z) (text "FATAL: no usable memory regions in the UEFI memory map")
      (with_kernel k1 b)) as (b' & Hr & St); [auto|apply M1|]. exists b'. split; [done|].
    exact (stopped_trans _ _ _ _ _ (proj2 (ms_stage _ _ _ M1)) St). }
  specialize (HO Hne). set (total := Z.of_nat (length pool)).
  assert (0 < total /\ total * PAGE_SIZE < 2 ^ 64) as [Hpos Hspan].
  { split; [by apply pool_total|].
    apply frames_span; [by eapply Owns_NoDup|by eapply Owns_ok]. }
  destruct (Z.eqb_spec total 0); [lia|]. rewrite mul_u_ok, bind_Ok by done.
  assert (in_u 64 (total * PAGE_SIZE / (1024 * 1024))) as Hmib.
  { unfold in_u, PAGE_SIZE in *. split; [apply Z.div_pos; lia|apply Z.div_lt_upper_bound; lia]. }
  assert (Forall is_byte (frames_line total)) as Hline.
  { assert (in_u 64 total) by (unfold in_u, PAGE_SIZE in *; lia). unfold frames_line. auto 12. }
  fold (frames_line total).
  destruct (memory_say (frames_line total) (with_kernel k1 b) Hline (proj1 (ms_stage _ _ _ M1)))
    as (b2 & -> & M2 & F2 & _ & I2 & A2). rewrite bind_Ok. rewrite kernel_of_with in *.
  pose proof (memory_step_trans _ _ _ _ _ M1 M2) as M. clear M1 M2.
  assert (Owns (kernel_of b2) pool 0) as HO2.
  { eapply (Owns_said (with_kernel k1 b)); [|done| |]; by rewrite kernel_of_with. }
  pose proof (frame_selftest_length _ _ _ HO2) as Hst. unfold total in *. clear total.
  destruct (length pool) as [|[|l]]; [lia| |].
  - rewrite Hst. destruct (memory_fatal (A := boot D) (text "FATAL: frame allocator selftest: " ++
      text "alloc_frame returned None for the second of two frames") b2) as (b' & Hr & St); [auto|apply M|].
    rewrite Hr. exists b'. split; [done|]. exact (stopped_trans _ _ _ _ _ (proj2 (ms_stage _ _ _ M)) St).
  - destruct Hst as (k3 & B & -> & HO3 & HB & (I3 & _ & A3) & R3). rewrite bind_Ok.
    assert (memory_step b2 (with_kernel k3 b2) []) as M3 by (by apply memory_kernel; [apply M| |]).
    destruct (memory_say (text "frame allocator: selftest passed") (with_kernel k3 b2) ltac:(auto) (proj1 (ms_stage _ _ _ M3)))
      as (b4 & -> & M4 & F4 & _ & I4 & A4). rewrite bind_Ok.
    exists b4, B. split; [done|]. split; [exact (memory_step_trans _ _ _ _ _ M (memory_step_trans _ _ _ _ _ M3 M4))|].
    split.
    { eapply (Owns_said (with_kernel k3 b2)); [by rewrite kernel_of_with| |done|done]. intros x. by rewrite HB. }
    split; [done|]. intros c Hc. destruct (R3 c Hc) as [Ra Rb].
    assert (forall i, room (kernel_of b4) i <-> room k3 i) as E4 by (intros i; unfold room; by rewrite F4).
    assert (forall i, room (kernel_of b2) i <-> room k1 i) as E2 by (intros i; unfold room; by rewrite F2).
    rewrite <- !(init_frames_room regions _ _ _ _ Hmap Hi) by (by rewrite <- Hpe). rewrite E4, <- !E2. by split.
Qed.

Lemma holds_said base (b b' : boot D) :
  holds base ∅ (kernel_of b) -> (forall x, range base HEAP_BYTES x -> owned pool x) ->
  HEAP (kernel_of b') = HEAP (kernel_of b) ->
  mem_agree (fun x => ~ screen fb x) (k_mem (kernel_of b)) (k_mem (kernel_of b')) -> holds base ∅ (kernel_of b').
Proof.
  intros [bl HI] Hsub HH Hag. exists bl. rewrite HH. apply (HInv_agree base _ (k_mem (kernel_of b))); [exact HI|].
  eapply mem_agree_mono; [|exact Hag]. intros x Hx. destruct (hinv_list _ _ _ _ HI) as [_ Hwf].
  apply (covered_bounds _ _ _ _ Hwf) in Hx. apply Hpool, Hsub. unfold range. lia.
Qed.

Definition heap_line (base total : Z) : list Z :=
  text "heap: " ++ dec (HEAP_BYTES / 1024) ++ text " KiB @ " ++ hex base ++ text " (" ++ dec HEAP_FRAMES
  ++ text " of " ++ dec total ++ text " frames in use)".

Definition no_heap_line : list Z :=
  text "FATAL: could not obtain " ++ dec HEAP_FRAMES ++ text " contiguous frames for the heap".

(** From a heap just armed: its line, its self-test, the line after. *)
Lemma heap_armed_spec A' base total k1 b b2 :
  memory_step b b2 [] -> kernel_of b2 = k1 -> Owns k1 A' HEAP_FRAMES -> NoDup pool -> Forall frame_ok pool ->
  pool ≡ₚ run_frames base HEAP_FRAMES ++ A' -> base mod GRAIN = 0 -> PAGE_SIZE <= base -> base + HEAP_BYTES <= 2 ^ 63 ->
  Inv base (base + HEAP_BYTES) (k_mem k1) (HEAP k1) [(base, HEAP_BYTES)] -> Forall is_byte (heap_line base total) ->
  exists b', (b ← say fuel (heap_line base total) b2;
      b ← match heap_selftest WALK_FUEL (kernel_of b) with
          | Ok k => Ok (with_kernel k b)
          | Err reason => fatal fuel (text "FATAL: heap selftest: " ++ text reason) b
          | Panic => Panic
          | Loop => Loop
          end;
      say fuel (text "alloc: Box/Vec/String OK, heap balanced") b) = Ok b' /\
    memory_step b b' [heap_line base total; text "alloc: Box/Vec/String OK, heap balanced"] /\
    Owns (kernel_of b') A' HEAP_FRAMES /\
    Inv base (base + HEAP_BYTES) (mc_mem (b_machine b')) (b_heap b') [(base, HEAP_BYTES)].
Proof.
  intros M K2 HO' Hnd Hok HA' Hg Hp Hhi HI Hline. pose proof (region_ok base Hg Hp Hhi) as Hreg.
  assert (forall x, range base HEAP_BYTES x -> owned pool x) as Hrange.
  { intros x Hx. rewrite HA', owned_app. left. by apply owned_run_frames. }
  assert (forall x, owned A' x -> owned pool x) as Hrest by (intros x Hx; rewrite HA', owned_app; by right).
  destruct (memory_say (heap_line base total) b2 Hline (proj1 (ms_stage _ _ _ M))) as (b3 & -> & M3 & F3 & H3 & I3 & A3).
  rewrite bind_Ok. apply (memory_step_trans _ _ _ _ _ M) in M3. clear M.
  assert (holds base ∅ (kernel_of b3)) as Hh3.
  { apply (holds_said base b2); [|done..]. rewrite K2. eexists. by apply armed_HInv. }
  destruct (heap_selftest_spec base Hreg _ Hh3) as (k4 & -> & Hh4 & [I4 F4 A4 _]). rewrite bind_Ok.
  assert (memory_step b3 (with_kernel k4 b3) []) as M4.
  { apply memory_kernel; [apply M3|done|]. eapply mem_agree_mono; [|exact A4]. intros x Hx Hr. by apply Hx, Hrange. }
  apply (memory_step_trans _ _ _ _ _ M3) in M4. clear M3.
  destruct (memory_say (text "alloc: Box/Vec/String OK, heap balanced") (with_kernel k4 b3) ltac:(auto)
    (proj1 (ms_stage _ _ _ M4))) as (b5 & -> & M5 & F5 & H5 & I5 & A5).
  exists b5. split; [done|]. split; [exact (memory_step_trans _ _ _ _ _ M4 M5)|].
  rewrite kernel_of_with in *.
  assert (Owns k4 A' HEAP_FRAMES) as HO4.
  { apply (Owns_agree (kernel_of b3)); [|done|].
    - apply (Owns_said b2); [by rewrite K2|done|done|done].
    - eapply mem_agree_mono; [|exact A4]. intros x Hx Hr. rewrite HA' in Hnd, Hok.
      apply (owned_disjoint _ _ x Hnd Hok); [by apply owned_run_frames|done]. }
  split.
  - apply (Owns_said (with_kernel k4 b3)); by rewrite ?kernel_of_with.
  - assert (holds base ∅ (kernel_of b5)) as Hh5 by (apply (holds_said base (with_kernel k4 b3)); by rewrite ?kernel_of_with).
    apply (gauges_ok base Hreg _ Hh5).
Qed.

Lemma heap_up_spec A total b :
  Owns (kernel_of b) A 0 -> A ≡ₚ pool -> (forall x, owned pool x -> x < 2 ^ 63) -> in_u 64 total ->
  screen_is (Some fb) b ->
    (~ room (kernel_of b) HEAP_FRAMES /\ exists b', heap_up fuel total b = Err (b', Failed) /\
        stopped b b' [no_heap_line]) \/
    (room (kernel_of b) HEAP_FRAMES /\ exists b' base A', heap_up fuel total b = Ok b' /\
        memory_step b b' [heap_line base total; text "alloc: Box/Vec/String OK, heap balanced"] /\
        pool ≡ₚ run_frames base HEAP_FRAMES ++ A' /\ Owns (kernel_of b') A' HEAP_FRAMES /\
        Inv base (base + HEAP_BYTES) (mc_mem (b_machine b')) (b_heap b') [(base, HEAP_BYTES)]).
Proof.
  intros HO HA Hlow Ht Hs. destruct (init_heap_run _ _ _ HO) as (k1 & o & fa & Hfa & Hi & Hif & Hag & Ho).
  assert (room (kernel_of b) HEAP_FRAMES <-> fits fa HEAP_FRAMES) as Hroom.
  { by apply room_Some. }
  rewrite Hroom. unfold heap_up. rewrite Hi. cbn [lift]. rewrite bind_Ok. cbv zeta.
  assert (memory_step b (with_kernel k1 b) []) as M1.
  { apply memory_kernel; [done|done|]. eapply mem_agree_mono; [|exact Hag]. intros x Hn Hx. apply Hn. by rewrite <- HA. }
  destruct o as [[base size]|].
  2: { left. destruct Ho as [Hf _]. split; [done|].
    destruct (memory_fatal (A := boot D) no_heap_line (with_kernel k1 b)) as (b' & Hr & St); [unfold no_heap_line; auto 12|apply M1|].
    exists b'. split; [exact Hr|]. exact (stopped_trans _ _ _ _ _ (proj2 (ms_stage _ _ _ M1)) St). }
  right. destruct Ho as (Hf & -> & Hg & Hp & A' & HA' & HO' & HI). split; [done|].
  rewrite HA in HA'. change (0 + HEAP_FRAMES) with HEAP_FRAMES in HO'.
  assert (base + HEAP_BYTES <= 2 ^ 63) as Hhi.
  { destruct HEAP_BYTES_facts as (_ & H2 & _). unfold GRAIN in H2.
    assert (range base HEAP_BYTES (base + HEAP_BYTES - 1)) as Hr by (unfold range; lia).
    assert (owned pool (base + HEAP_BYTES - 1)) as Hlast by (rewrite HA', owned_app; left; by apply owned_run_frames).
    pose proof (Hlow _ Hlast). lia. }
  rewrite kernel_of_with, (frames_in_use_spec _ _ _ HO'). cbn [lift]. rewrite bind_Ok.
  assert (memory_step (with_kernel k1 b) (with_kernel k1 (with_kernel k1 b)) []) as M2 by (by apply memory_kernel; [apply M1| |]).
  pose proof (memory_step_trans _ _ _ _ _ M1 M2) as M. clear M1 M2. fold (heap_line base total).
  assert (Forall is_byte (heap_line base total)) as Hline.
  { destruct HEAP_BYTES_facts as (_ & H2 & _). unfold GRAIN in H2.
    assert (in_u 64 base) by (unfold in_u, PAGE_SIZE in *; lia). unfold heap_line. auto 20. }
  pose proof (Owns_NoDup _ _ _ HO) as Hnd. pose proof (Owns_ok _ _ _ HO) as Hok. rewrite HA in Hnd, Hok.
  destruct (heap_armed_spec A' base total k1 b _ M (kernel_of_with _ _) HO' Hnd Hok HA' Hg Hp Hhi (HI Hhi) Hline)
    as (b' & Hr & Hm & HO2 & HI2).
  by exists b', base, A'.
Qed.
End Memory.
End Stages.

(** ** The whole boot *)

(** What the boot may write: the descriptor tables, the screen, and the frames
    the memory map calls usable. *)
Definition table_bytes (a : statics) (x : Z) : Prop := range (GDT a) 40 x \/ range (TSS a + 36) 8 x.
Definition pool_of {D} (info : BootInfo) (b : boot D) : list Z :=
  usable_frames (memory_regions (mc_mem (b_machine b)) info).
Definition touched (a : statics) (fb : FrameBufferInfo) (pool : list Z) (x : Z) : Prop :=
  table_bytes a x \/ screen fb x \/ owned pool x.

(** Bytes put on the line since before the UART was programmed. *)
Definition sends (l : list access) (out : list Z) : Prop :=
  forall u, u_sent (uart_after u (writes l)) = u_sent u ++ out /\ dlab (uart_after u (writes l)) = false.

Lemma sends_app l l' out out' : sends l out -> on_line l' out' -> sends (l ++ l') (out ++ out').
Proof.
  intros H H' u. destruct (H u) as [H1 H2]. destruct (H' _ H2) as [H3 H4].
  rewrite writes_app, uart_after_app, H3, H1, app_assoc. done.
Qed.

(** [b'] is [b] with the lines [ls] printed from power-on. *)
Definition transcript {D} (b b' : boot D) (ls : list (list Z)) : Prop :=
  exists l, io_log (mc_io (b_machine b')) = io_log (mc_io (b_machine b)) ++ l /\
    sends l (crlf (concat (line <$> ls))).

(** The run ended with the exit device's write, after printing [ls]. *)
Definition ended {D} (b b' : boot D) (code : QemuExitCode) (ls : list (list Z)) : Prop :=
  exists l, io_log (mc_io (b_machine b')) =
      io_log (mc_io (b_machine b)) ++ l ++ [Out ISA_DEBUG_EXIT_PORT (QemuExitCode_as_u32 code)] /\
    sends l (crlf (concat (line <$> ls))).

Definition start_lines : list (list Z) := [[]; text "=== Rust_BL kernel ==="].

(** What the kernel is entered with: a struct at [boot_info] that its check
    accepts, a framebuffer its console accepts, a well-formed map whose usable
    frames are below 2^63 and off the screen, statics and handlers where the
    linker put them, and memory not yet told apart by any initialisation. *)
Record ready {D} (a : statics) (address : handler -> Z) (code_at : Z -> option handler)
    (frame : InterruptStackFrame) (boot_info : Z) (info : BootInfo) (b : boot D) : Prop := {
  rd_ptr : boot_info <> 0;
  rd_info : read_BootInfo (mc_mem (b_machine b)) boot_info = info;
  rd_ok : BootInfo_ok info;
  rd_valid : is_valid info = true;
  rd_console : is_Some (console_new (bi_framebuffer info));
  rd_map : map_ok (memory_regions (mc_mem (b_machine b)) info);
  rd_low x : owned (pool_of info b) x -> x < 2 ^ 63;
  rd_screen x : owned (pool_of info b) x -> ~ screen (bi_framebuffer info) x;
  rd_tables x : table_bytes a x -> ~ screen (bi_framebuffer info) x /\ ~ owned (pool_of info b) x;
  rd_slice x : range (bi_memory_regions_ptr info) (bi_memory_regions_len info * size_of_MemoryRegion) x ->
    ~ screen (bi_framebuffer info) x /\ ~ table_bytes a x;
  rd_placed : placed a;
  rd_address h : in_u 64 (address h);
  rd_code : code_at (address breakpoint) = Some breakpoint;
  rd_frame : isf_ok frame;
  rd_idt : b_idt b = Idt_new;
  rd_off : mc_console (b_machine b) = None;
}.

(** The lines up to the memory management's. *)
Definition early_lines (info : BootInfo) (failed : option step_failed) (frame : InterruptStackFrame) : list (list Z) :=
  announce_lines info ++ init_lines failed ++ selftest_lines frame ++ [text "framebuffer painted"].

(** A stretch of frames is frames. *)
Lemma has_run_length regions c :
  has_run regions c -> c <= Z.of_nat (length (usable_frames regions)).
Proof.
  unfold has_run, usable_frames. induction 1 as [run l Hx|run l _ IH]; rewrite bind_cons, length_app.
  - unfold frames_of at 1. rewrite length_run_frames. lia.
  - lia.
Qed.

Section Whole.
Context {D : Type} `{Device D} (n fuel : nat).
Context (Hlive : live (D := D) n) (Hfuel : (n < fuel)%nat).

Lemma transcript_moved W (b0 b1 b2 : boot D) ls ls' :
  transcript b0 b1 ls -> moved W b1 b2 ls' -> transcript b0 b2 (ls ++ ls').
Proof.
  intros (l & Hl & S) [_ _ _ (l' & Hl' & O) _]. exists (l ++ l'). rewrite Hl', Hl, app_assoc. split; [done|].
  rewrite fmap_app, concat_app, crlf_app. by apply sends_app.
Qed.

Lemma ended_stopped W (b0 b1 b2 : boot D) ls ls' :
  transcript b0 b1 ls -> stopped W b1 b2 ls' -> ended b0 b2 Failed (ls ++ ls').
Proof.
  intros Ht (b & M & ->). destruct (transcript_moved _ _ _ _ _ _ Ht M) as (l & Hl & S).
  exists l. split; [|done]. rewrite app_assoc, <- Hl. reflexivity.
Qed.

(** The UART comes up and the banner goes out, before anything is looked at. *)
Lemma banner_spec (b : boot D) :
  mc_console (b_machine b) = None ->
  exists b1, (forall A (rest : boot D -> outcome (halted (D := D)) A),
      (b ← say fuel [] (on_ports serial_init b); b ← say fuel (text "=== Rust_BL kernel ===") b; rest b) = rest b1) /\
    screen_is None b1 /\ transcript b b1 start_lines /\ same_tables b b1 /\
    mem_agree (fun _ => True) (mc_mem (b_machine b)) (mc_mem (b_machine b1)) /\
    mc_if (b_machine b1) = mc_if (b_machine b) /\ TICKS (b_k b1) = TICKS (b_k b) /\
    KEY_EVENTS_SEEN (b_k b1) = KEY_EVENTS_SEEN (b_k b).
Proof.
  intros Hc. set (b0 := on_ports serial_init b).
  assert (screen_is None b0) as Hs0 by (unfold screen_is; change (mc_console (b_machine b0)) with (mc_console (b_machine b)); by rewrite Hc).
  destruct (say_spec n fuel Hlive Hfuel (fun _ => False) None [] b0 ltac:(constructor) Hs0 ltac:(done))
    as (b1 & Hr1 & Hs1 & M1 & T1 & A1).
  destruct (say_spec n fuel Hlive Hfuel (fun _ => False) None (text "=== Rust_BL kernel ===") b1 (text_bytes _) Hs1 ltac:(done))
    as (b2 & Hr2 & Hs2 & M2 & T2 & A2).
  exists b2. split; [intros A rest; by rewrite Hr1, bind_Ok, Hr2, bind_Ok|]. split; [done|].
  assert (transcript b b0 []) as Ht0.
  { destruct (serial_init_spec (mc_io (b_machine b))) as (ws & Hl & Hu). eexists. split; [exact Hl|].
    intros u. rewrite writes_outs, Hu. simpl. by rewrite app_nil_r. }
  split; [exact (transcript_moved _ _ _ _ _ _ (transcript_moved _ _ _ _ _ _ Ht0 M1) M2)|].
  split; [by destruct (same_tables_trans _ _ _ T1 T2); split|].
  split; [intros x _; etrans; [apply A1|apply A2]; intros []|].
  destruct M1 as [I1 K1 E1 _ _], M2 as [I2 K2 E2 _ _]. by rewrite I2, I1, K2, K1, E2, E1.
Qed.

Lemma tables_ok_keep a address (b b' : boot D) :
  tables_ok a address b -> b_idt b' = b_idt b -> b_segments b' = b_segments b -> b_idtr b' = b_idtr b ->
  mem_agree (table_bytes a) (mc_mem (b_machine b)) (mc_mem (b_machine b')) -> tables_ok a address b'.
Proof.
  intros [Hg Hp (s & m & m' & Hi & Hs & Hag)] EI ES ER HA. split; rewrite ?EI, ?ER, ?ES; try done.
  exists s, m, m'. split; [done|]. split; [done|]. etrans; [exact Hag|exact HA].
Qed.

Lemma regions_agree info m m' :
  mem_agree (range (bi_memory_regions_ptr info) (bi_memory_regions_len info * size_of_MemoryRegion)) m m' ->
  BootInfo_ok info -> memory_regions m' info = memory_regions m info.
Proof.
  intros Hag Hok. symmetry. apply read_regions_agree. eapply mem_agree_mono; [|exact Hag].
  intros x. destruct Hok as (_ & _ & _ & _ & _ & [Hl _] & _). by rewrite Z2Nat.id.
Qed.

(** From the first line of [kernel_main] to the painted screen. *)
Lemma early_spec a table address code_at frame boot_info info (b : boot D) :
  ready a address code_at frame boot_info info b ->
  let W := touched a (bi_framebuffer info) (pool_of info b) in
  exists b' failed, (forall A (rest : boot D -> outcome (halted (D := D)) A),
      (b ← announce fuel info b; b ← init_devices fuel a table address b;
       b ← boot_selftest fuel code_at frame b; b ← screen_up fuel info b; rest b) = rest b') /\
    stage W (Some (bi_framebuffer info)) b b' (early_lines info failed frame) /\ tables_ok a address b' /\
    memory_regions (mc_mem (b_machine b')) info = memory_regions (mc_mem (b_machine b)) info.
Proof.
  intros [_ _ Hok Hv [c Hc] Hmap _ Hps Htb Hsl Hp Ha Hcode Hfr Hidt Hoff] W.
  set (fb := bi_framebuffer info) in *.
  assert (screen_is None b) as Hs by (unfold screen_is; by rewrite Hoff).
  assert (FrameBufferInfo_ok fb) as Hfb by apply Hok.
  destruct (announce_spec n fuel Hlive Hfuel W info b Hok Hs) as (b1 & Hr1 & M1 & T1 & A1).
  destruct (init_devices_spec n fuel Hlive Hfuel W a table address b1 Hp Ha) as (b2 & failed & Hr2 & M2 & G2 & F2 & H2).
  { rewrite (st_idt _ _ T1). done. } { apply M1. } { intros x Hx. by left. }
  destruct (boot_selftest_spec n fuel Hlive Hfuel W a address code_at frame b2 G2 Hcode Hfr (proj1 M2)) as (b3 & Hr3 & M3 & T3 & A3).
  destruct (screen_up_spec n fuel Hlive Hfuel W info c b3 Hfb Hc (proj1 M3)) as (b4 & Hr4 & M4 & T4 & A4).
  { intros x Hx. right. by left. }
  exists b4, failed. split; [intros A rest; by rewrite Hr1, bind_Ok, Hr2, bind_Ok, Hr3, bind_Ok, Hr4, bind_Ok|].
  pose proof (stage_trans _ _ _ _ _ _ _ _ M1 (stage_trans _ _ _ _ _ _ _ _ M2 (stage_trans _ _ _ _ _ _ _ _ M3 M4))) as M.
  split; [exact M|]. destruct (same_tables_trans _ _ _ T3 T4) as [_ _ TI TS TR]. split.
  - apply (tables_ok_keep a address b2); [done..|]. etrans; [intros x _; by apply A3|].
    eapply mem_agree_mono; [|exact A4]. intros x Hx. by apply Htb.
  - assert (exists m1, mem_agree (fun x => ~ table_bytes a x) (mc_mem (b_machine b)) m1 /\
      mem_agree (fun x => ~ screen fb x) m1 (mc_mem (b_machine b4))) as (m1 & Ha1 & Ha2).
    { exists (mc_mem (b_machine b2)). split; [|etrans; [intros x _; by apply A3|exact A4]].
      etrans; [intros x _; by apply A1|].
      destruct (init_devices_spec n fuel Hlive Hfuel (table_bytes a) a table address b1 Hp Ha) as (b2' & f' & Hr2' & M2' & _).
      { rewrite (st_idt _ _ T1). done. } { apply M1. } { done. }
      rewrite Hr2 in Hr2'. injection Hr2' as <-. apply (mv_mem _ _ _ _ (proj2 M2')). }
    apply regions_agree; [|done]. etrans; [|eapply mem_agree_mono; [|exact Ha2]];
      [eapply mem_agree_mono; [|exact Ha1]|]; intros x Hx; by apply Hsl.
Qed.

Lemma ready_same a address code_at frame boot_info info (b b1 : boot D) :
  ready a address code_at frame boot_info info b -> screen_is None b1 -> same_tables b b1 ->
  mem_agree (fun _ => True) (mc_mem (b_machine b)) (mc_mem (b_machine b1)) ->
  ready a address code_at frame boot_info info b1 /\ pool_of info b1 = pool_of info b.
Proof.
  intros [] Hs [_ _ TI _ _] Hag.
  assert (memory_regions (mc_mem (b_machine b1)) info = memory_regions (mc_mem (b_machine b)) info) as Hm.
  { apply regions_agree; [|done]. eapply mem_agree_mono; [|exact Hag]. done. }
  assert (pool_of info b1 = pool_of info b) as Hp by (unfold pool_of; by rewrite Hm).
  split; [|exact Hp]. split; rewrite ?Hp, ?Hm; try done.
  - rewrite <- rd_info0. symmetry. apply read_BootInfo_agree. eapply mem_agree_mono; [|exact Hag]. done.
  - by rewrite TI.
  - unfold screen_is in Hs. by destruct (mc_console (b_machine b1)).
Qed.

(** What is printed when memory is short of what the boot needs, by how many
    usable frames there are. *)
Definition shortage_lines (frames : nat) : list (list Z) :=
  match frames with
  | O => [text "FATAL: no usable memory regions in the UEFI memory map"]
  | 1%nat => [frames_line 1;
      text "FATAL: frame allocator selftest: alloc_frame returned None for the second of two frames"]
  | _ => [frames_line (Z.of_nat frames); text "frame allocator: selftest passed"; no_heap_line]
  end.

(** The lines of a boot that gets as far as the interrupts. *)
Definition boot_lines (info : BootInfo) (failed : option step_failed) (frame : InterruptStackFrame)
    (total base : Z) : list (list Z) :=
  start_lines ++ early_lines info failed frame
  ++ [frames_line total; text "frame allocator: selftest passed"]
  ++ [heap_line base total; text "alloc: Box/Vec/String OK, heap balanced"].

(** [kernel_main] up to the interrupts, on any memory. *)
Lemma bring_up_spec a table address code_at frame boot_info info (b : boot D) :
  ready a address code_at frame boot_info info b ->
  let pool := pool_of info b in
  let W := touched a (bi_framebuffer info) pool in
  let total := Z.of_nat (length pool) in
  let regions := memory_regions (mc_mem (b_machine b)) info in
  exists failed,
    ((length pool < 2)%nat \/ ~ has_run regions (HEAP_FRAMES + 2)) /\
      (exists b', bring_up fuel a table address code_at frame info b = Err (b', Failed) /\
        stopped W b b' (early_lines info failed frame ++ shortage_lines (length pool))) \/
    ((2 <= length pool)%nat /\ has_run regions HEAP_FRAMES) /\
      (exists b' base A, bring_up fuel a table address code_at frame info b = Ok b' /\
        stage W (Some (bi_framebuffer info)) b b' (early_lines info failed frame
          ++ [frames_line total; text "frame allocator: selftest passed"]
          ++ [heap_line base total; text "alloc: Box/Vec/String OK, heap balanced"]) /\
        tables_ok a address b' /\ pool ≡ₚ run_frames base HEAP_FRAMES ++ A /\ Owns (kernel_of b') A HEAP_FRAMES /\
        Inv base (base + HEAP_BYTES) (mc_mem (b_machine b')) (b_heap b') [(base, HEAP_BYTES)]).
Proof.
  intros Hrd pool W total regions.
  destruct (early_spec a table address code_at frame boot_info info b Hrd) as (b1 & failed & Hearly & M1 & G1 & R1).
  destruct Hrd as [_ _ Hok _ _ Hmap Hlow Hps Htb _ _ _ _ _ _ _].
  fold pool in Hlow, Hps, Htb, M1. fold W in M1. fold regions in Hmap, R1.
  exists failed. unfold bring_up. rewrite Hearly.
  assert (forall x, screen (bi_framebuffer info) x -> W x) as HWs by (intros x Hx; right; by left).
  assert (forall x, owned pool x -> W x /\ ~ screen (bi_framebuffer info) x) as HWp.
  { intros x Hx. split; [by right; right|by apply Hps]. }
  pose proof (frames_up_spec n fuel Hlive Hfuel W (bi_framebuffer info) pool HWs HWp info b1) as Hf.
  rewrite R1 in Hf. specialize (Hf Hmap eq_refl (proj1 M1)). fold total regions in Hf.
  assert (has_run regions HEAP_FRAMES -> (2 <= length pool)%nat) as Hlen.
  { intros Hx. apply has_run_length in Hx. change (usable_frames regions) with pool in Hx. unfold HEAP_FRAMES in Hx. lia. }
  assert (in_u 64 total) as Htot.
  { unfold total, in_u. split; [lia|]. apply frames_count; [by apply NoDup_usable_frames|by apply usable_frames_ok]. }
  assert (total = Z.of_nat (length pool)) as Et by done. clearbody total.
  unfold shortage_lines. destruct (length pool) as [|[|c]] eqn:El.
  - left. split; [left; lia|]. destruct Hf as (b' & -> & St). exists b'. split; [done|].
    exact (stopped_trans _ _ _ _ _ _ (proj2 M1) St).
  - left. split; [left; lia|]. destruct Hf as (b' & -> & St). exists b'. split; [done|]. subst total.
    exact (stopped_trans _ _ _ _ _ _ (proj2 M1) St).
  - rewrite <- Et. destruct Hf as (b2 & A & -> & M2 & HO & HA & HR). rewrite bind_Ok.
    pose proof (stage_trans _ _ _ _ _ _ _ _ M1 (ms_stage _ _ _ _ _ _ M2)) as M.
    destruct (HR HEAP_FRAMES ltac:(done)) as [HR1 HR2].
    destruct (heap_up_spec n fuel Hlive Hfuel W (bi_framebuffer info) pool HWs HWp A total b2 HO HA Hlow Htot (proj1 M))
      as [(Hno & b' & -> & St)|(Hyes & b' & base & A' & -> & M3 & HA' & HO' & HI)].
    + left. split; [right; intros Hx; by apply Hno, HR1|]. exists b'. split; [done|].
      pose proof (stopped_trans _ _ _ _ _ _ (proj2 M) St) as St'. rewrite <- app_assoc in St'.
      exact St'.
    + right. split; [split; [lia|by apply HR2]|]. exists b', base, A'. split; [done|].
      pose proof (stage_trans _ _ _ _ _ _ _ _ M (ms_stage _ _ _ _ _ _ M3)) as M'. rewrite <- app_assoc in M'.
      split; [exact M'|]. split; [|by split; [|split]].
      destruct M2 as [_ EI2 ES2 ER2 EM2], M3 as [_ EI3 ES3 ER3 EM3].
      apply (tables_ok_keep a address b1); [done|congruence|congruence|congruence|].
      etrans; (eapply mem_agree_mono; [|eassumption]); intros x Hx; destruct (Htb x Hx); by split.
Qed.

(** The whole of [_start], from the handoff: where it ends or waits does not
    depend on the interrupts of the wait. *)
Lemma start_paths a table address code_at frame boot_info info (b : boot D) :
  ready a address code_at frame boot_info info b ->
  let pool := pool_of info b in
  let total := Z.of_nat (length pool) in
  let regions := memory_regions (mc_mem (b_machine b)) info in
  let start := fun sched => kernel_start fuel a table address code_at frame boot_info sched b in
  exists failed,
    ((length pool < 2)%nat \/ ~ has_run regions (HEAP_FRAMES + 2)) /\
      (exists b', (forall sched, start sched = Err (b', Failed)) /\
        ended b b' Failed (start_lines ++ early_lines info failed frame ++ shortage_lines (length pool))) \/
    ((2 <= length pool)%nat /\ has_run regions HEAP_FRAMES) /\
      (exists b' base A,
        (forall sched, start sched = ('(s, code) ← lift (wait_phase fuel sched (b_k b')); Err (with_k s b', code))) /\
        transcript b b' (boot_lines info failed frame total base) /\
        screen_is (Some (bi_framebuffer info)) b' /\ tables_ok a address b' /\
        pool ≡ₚ run_frames base HEAP_FRAMES ++ A /\ Owns (kernel_of b') A HEAP_FRAMES /\
        Inv base (base + HEAP_BYTES) (mc_mem (b_machine b')) (b_heap b') [(base, HEAP_BYTES)] /\
        mem_agree (fun x => ~ touched a (bi_framebuffer info) pool x) (mc_mem (b_machine b)) (mc_mem (b_machine b')) /\
        mc_if (b_machine b') = mc_if (b_machine b) /\ TICKS (b_k b') = TICKS (b_k b) /\
        KEY_EVENTS_SEEN (b_k b') = KEY_EVENTS_SEEN (b_k b)).
Proof.
  intros Hrd pool total regions start.
  destruct (banner_spec b (rd_off _ _ _ _ _ _ _ Hrd)) as (b1 & Hb & Hs1 & Tr1 & T1 & A1 & I1 & K1 & E1).
  destruct (ready_same _ _ _ _ _ _ b b1 Hrd Hs1 T1 A1) as [Hrd1 Hpool].
  assert (forall sched, start sched = kernel_main fuel a table address code_at frame info sched b1) as Hstart.
  { intros sched. unfold start, kernel_start. rewrite Hb. destruct (Z.eqb_spec boot_info 0) as [E|_]; [by destruct (rd_ptr _ _ _ _ _ _ _ Hrd1)|].
    rewrite (rd_info _ _ _ _ _ _ _ Hrd1), (rd_valid _ _ _ _ _ _ _ Hrd1). done. }
  assert (memory_regions (mc_mem (b_machine b1)) info = regions) as Hreg.
  { apply regions_agree; [eapply mem_agree_mono; [|exact A1]; done|apply Hrd]. }
  destruct (bring_up_spec a table address code_at frame boot_info info b1 Hrd1) as
    (failed & [[Hc (b' & Hr & St)]|[Hc (b' & base & A & Hr & [Hs M] & G & HA & HO & HI)]]);
    rewrite Hpool, Hreg in Hc; exists failed.
  - left. split; [exact Hc|]. exists b'. split; [intros sched; rewrite Hstart; unfold kernel_main; by rewrite Hr|]. rewrite Hpool in St. exact (ended_stopped _ _ _ _ _ _ Tr1 St).
  - right. rewrite Hpool in M, HA. split; [exact Hc|]. exists b', base, A. split; [intros sched; rewrite Hstart; unfold kernel_main; by rewrite Hr|].
    split; [exact (transcript_moved _ _ _ _ _ _ Tr1 M)|]. do 5 (split; [done|]).
    destruct M as [I T K _ Hm]. split; [|by rewrite I, T, K, I1, K1, E1].
    etrans; [intros x _; by apply A1|exact Hm].
Qed.

(** The same, for one schedule. *)
Lemma start_spec a table address code_at frame boot_info info sched (b : boot D) :
  ready a address code_at frame boot_info info b ->
  let pool := pool_of info b in
  let total := Z.of_nat (length pool) in
  let regions := memory_regions (mc_mem (b_machine b)) info in
  let start := kernel_start fuel a table address code_at frame boot_info sched b in
  exists failed,
    ((length pool < 2)%nat \/ ~ has_run regions (HEAP_FRAMES + 2)) /\
      (exists b', start = Err (b', Failed) /\
        ended b b' Failed (start_lines ++ early_lines info failed frame ++ shortage_lines (length pool))) \/
    ((2 <= length pool)%nat /\ has_run regions HEAP_FRAMES) /\
      (exists b' base A,
        start = ('(s, code) ← lift (wait_phase fuel sched (b_k b')); Err (with_k s b', code)) /\
        transcript b b' (boot_lines info failed frame total base) /\
        screen_is (Some (bi_framebuffer info)) b' /\ tables_ok a address b' /\
        pool ≡ₚ run_frames base HEAP_FRAMES ++ A /\ Owns (kernel_of b') A HEAP_FRAMES /\
        Inv base (base + HEAP_BYTES) (mc_mem (b_machine b')) (b_heap b') [(base, HEAP_BYTES)] /\
        mem_agree (fun x => ~ touched a (bi_framebuffer info) pool x) (mc_mem (b_machine b)) (mc_mem (b_machine b')) /\
        mc_if (b_machine b') = mc_if (b_machine b) /\ TICKS (b_k b') = TICKS (b_k b) /\
        KEY_EVENTS_SEEN (b_k b') = KEY_EVENTS_SEEN (b_k b)).
Proof.
  intros Hrd. destruct (start_paths a table address code_at frame boot_info info b Hrd) as
    (failed & [[Hc (b' & Hs & He)]|[Hc (b' & base & A & Hs & Hx)]]); exists failed.
  - left. split; [exact Hc|]. exists b'. split; [apply Hs|exact He].
  - right. split; [exact Hc|]. exists b', base, A. split; [apply Hs|exact Hx].
Qed.
End Whole.

(** ** Properties *)

(** C9: the boot sequence delivers. From any handoff the kernel can use, on a
    map with one usable stretch of 258 frames or more (the heap's 256 and the
    two the frame self-test takes from the cursor), [_start] reaches its last
    phase with no panic: every initialisation ran, every self-test passed, and
    the serial line carried exactly the boot's lines, each ended by CR LF. By
    then the console shows a terminal, all gates and descriptor tables are as
    [init] made them, the frame allocator owns every usable frame but the
    heap's 256, the heap is armed and back to one block, interrupts are as they
    were, and no memory has changed but the tables, the screen and usable
    frames. *)
Theorem boot_reaches_wait {D} `{Device D} n fuel a table address code_at frame boot_info info sched (b : boot D) :
  live (D := D) n -> (n < fuel)%nat -> ready a address code_at frame boot_info info b ->
  has_run (memory_regions (mc_mem (b_machine b)) info) (HEAP_FRAMES + 2) ->
  exists b' failed base A,
    kernel_start fuel a table address code_at frame boot_info sched b =
      ('(s, code) ← lift (wait_phase fuel sched (b_k b')); Err (with_k s b', code)) /\
    transcript b b' (boot_lines info failed frame (Z.of_nat (length (pool_of info b))) base) /\
    screen_is (Some (bi_framebuffer info)) b' /\ tables_ok a address b' /\
    pool_of info b ≡ₚ run_frames base HEAP_FRAMES ++ A /\ Owns (kernel_of b') A HEAP_FRAMES /\
    Inv base (base + HEAP_BYTES) (mc_mem (b_machine b')) (b_heap b') [(base, HEAP_BYTES)] /\
    mc_if (b_machine b') = mc_if (b_machine b) /\
    mem_agree (fun x => ~ touched a (bi_framebuffer info) (pool_of info b) x)
      (mc_mem (b_machine b)) (mc_mem (b_machine b')).
Proof.
  intros Hlive Hf Hrd Hrun.
  destruct (start_spec n fuel Hlive Hf a table address code_at frame boot_info info sched b Hrd) as
    (failed & [[[Hc|Hc] _]|[_ (b' & base & A & Hs & Tr & Sc & G & HA & HO & HI & Hm & I & _)]]).
  - apply has_run_length in Hrun. change (usable_frames _) with (pool_of info b) in Hrun. unfold HEAP_FRAMES in Hrun. lia.
  - done.
  - exists b', failed, base, A. by repeat (split; [done|]).
Qed.

(** C30: a machine short of memory is told so. With no usable frame, with one,
    or with no usable stretch of the heap's 256, [_start] prints which check
    failed, as the last line of the boot's transcript so far, and leaves through
    the exit device with the code QEMU turns into 35; nothing panics. *)
Theorem boot_stops_without_memory {D} `{Device D} n fuel a table address code_at frame boot_info info sched (b : boot D) :
  live (D := D) n -> (n < fuel)%nat -> ready a address code_at frame boot_info info b ->
  (length (pool_of info b) < 2)%nat \/ ~ has_run (memory_regions (mc_mem (b_machine b)) info) HEAP_FRAMES ->
  exists b' failed, kernel_start fuel a table address code_at frame boot_info sched b = Err (b', Failed) /\
    ended b b' Failed (start_lines ++ early_lines info failed frame ++ shortage_lines (length (pool_of info b))) /\
    process_exit_code (QemuExitCode_as_u32 Failed) = 35.
Proof.
  intros Hlive Hf Hrd Hshort.
  destruct (start_spec n fuel Hlive Hf a table address code_at frame boot_info info sched b Hrd) as
    (failed & [[_ (b' & Hs & He)]|[[Hl Hr] _]]); [by exists b', failed|].
  destruct Hshort as [Hx|Hx]; [lia|done].
Qed.

(** C32: a handoff the kernel cannot trust goes no further: on a null pointer,
    or a struct with the wrong magic number, version or pixel format, [_start]
    prints the banner and the reason on the serial line and exits with 35,
    having written no memory and loaded no table. *)
Theorem start_refuses_bad_handoff {D} `{Device D} n fuel a table address code_at frame boot_info sched (b : boot D) :
  live (D := D) n -> (n < fuel)%nat -> mc_console (b_machine b) = None ->
  boot_info = 0 \/ is_valid (read_BootInfo (mc_mem (b_machine b)) boot_info) = false ->
  exists b', kernel_start fuel a table address code_at frame boot_info sched b = Err (b', Failed) /\
    ended b b' Failed (start_lines ++
      [if boot_info =? 0 then text "FATAL: boot_info pointer is null"
       else text "FATAL: boot_info failed validation (magic/version/format)"]) /\
    process_exit_code (QemuExitCode_as_u32 Failed) = 35 /\
    mem_agree (fun _ => True) (mc_mem (b_machine b)) (mc_mem (b_machine b')) /\ same_tables b b'.
Proof.
  intros Hlive Hf Hc Hbad.
  destruct (banner_spec n fuel Hlive Hf b Hc) as (b1 & Hb & Hs1 & Tr1 & T1 & A1 & _).
  set (msg := if boot_info =? 0 then _ else _).
  assert (kernel_start fuel a table address code_at frame boot_info sched b = fatal fuel msg b1) as ->.
  { unfold kernel_start. rewrite Hb. unfold msg. destruct (Z.eqb_spec boot_info 0) as [E|E]; [done|].
    rewrite <- (read_BootInfo_agree (mc_mem (b_machine b))) by (eapply mem_agree_mono; [|exact A1]; done).
    by destruct Hbad as [?| ->]. }
  destruct (say_spec n fuel Hlive Hf (fun _ => False) None msg b1) as (b2 & Hr & _ & M2 & T2 & A2);
    [unfold msg; destruct (boot_info =? 0); apply text_bytes|done|done|].
  eexists. split; [unfold fatal; rewrite Hr, bind_Ok; reflexivity|].
  split; [eapply ended_stopped; [exact Tr1|]; by exists b2|]. split; [done|]. split.
  - intros x _. etrans; [by apply A1|]. apply A2. intros [].
  - by destruct (same_tables_trans _ _ _ T1 T2).
Qed.

(** From power to exit code. On a machine whose timer ticks, whatever
    else interrupts and when, a kernel entered through a usable handoff on a
    large enough map always ends: with the code QEMU turns into 33 only after
    a hundred ticks and a keypress, with 35 only when ten seconds of ticks
    brought none; and that write is its last access to a port. *)
Theorem kernel_run_exits {D} `{Device D} n fuel a table address code_at frame boot_info info sched (b : boot D) :
  live (D := D) n -> (n < fuel)%nat -> ready a address code_at frame boot_info info b ->
  has_run (memory_regions (mc_mem (b_machine b)) info) (HEAP_FRAMES + 2) ->
  TICKS (b_k b) = 0 -> KEY_EVENTS_SEEN (b_k b) = 0 ->
  BEATS <= beats sched -> irqs sched < 2 ^ 60 ->
  exists b' code l, kernel_start fuel a table address code_at frame boot_info sched b = Err (b', code) /\
    io_log (mc_io (b_machine b')) = l ++ [Out ISA_DEBUG_EXIT_PORT (QemuExitCode_as_u32 code)] /\
    match code with
    | Success => process_exit_code (QemuExitCode_as_u32 code) = 33 /\
        TICKS_REQUIRED <= TICKS (b_k b') /\ 0 < KEY_EVENTS_SEEN (b_k b')
    | Failed => process_exit_code (QemuExitCode_as_u32 code) = 35 /\
        TICKS_REQUIRED + 10 * TIMER_HZ < TICKS (b_k b')
    end.
Proof.
  intros Hlive Hf Hrd Hrun HT HK Hbeats Hirqs.
  destruct (start_spec n fuel Hlive Hf a table address code_at frame boot_info info sched b Hrd) as
    (failed & [[[Hc|Hc] _]|[_ (b' & base & A & -> & _ & Sc & _ & _ & _ & _ & _ & _ & T & K)]]).
  - apply has_run_length in Hrun. change (usable_frames _) with (pool_of info b) in Hrun. unfold HEAP_FRAMES in Hrun. lia.
  - done.
  - assert (exists t, displays (ks_machine (b_k b')) t) as [t Ht].
    { unfold screen_is in Sc. destruct (mc_console (b_machine b')); [|done]. by destruct Sc as [_ Sc]. }
    destruct (wait_phase_spec n fuel sched (b_k b') t Hlive Hf Ht ltac:(congruence) ltac:(congruence) Hbeats Hirqs)
      as (s' & code & l & -> & Hl & Hcode).
    by exists (with_k s' b'), code, l.
Qed.

(** ** Instances *)

(** 300 usable frames at 1 MiB, a small framebuffer at 2 GiB, and the tables
    above 4 GiB. *)
Definition demo_info : BootInfo := BootInfo_new demo_fb 0x7000 1 0x200000 0x40000.
Definition demo_entry_mem (pages : Z) : mem :=
  write_BootInfo (write_MemoryRegion ∅ 0x7000 (MemoryRegion_new 0x100000 pages CONVENTIONAL)) 0x6000 demo_info.
Definition demo_entry (pages : Z) : boot nat :=
  Boot (KState (Machine false (Io 0%nat []) None (demo_entry_mem pages)) 0 0) None {| head := 0 |} Idt_new None None.
Definition demo_address (h : handler) : Z := match h with breakpoint => 0x201000 | _ => 0x202000 end.
Definition demo_code (x : Z) : option handler := if x =? 0x201000 then Some breakpoint else None.

Lemma demo_regions_read pages :
  in_u 64 pages -> memory_regions (mc_mem (b_machine (demo_entry pages))) demo_info =
    [MemoryRegion_new 0x100000 pages CONVENTIONAL].
Proof.
  intros Hp. unfold demo_entry, b_machine, demo_entry_mem. cbn [ks_machine b_k mc_mem].
  rewrite (regions_agree demo_info (write_MemoryRegion ∅ 0x7000 (MemoryRegion_new 0x100000 pages CONVENTIONAL))).
  - unfold memory_regions, read_regions. simpl. f_equal. apply read_write_MemoryRegion.
    repeat split; simpl; try done; unfold in_u in *; try lia.
  - eapply mem_agree_mono; [|apply write_BootInfo_agree]. intros x. unfold range. simpl.
    change size_of_MemoryRegion with 24. change size_of_BootInfo with 88. lia.
  - by repeat split; vm_compute.
Qed.

Lemma demo_ready pages :
  in_u 64 pages -> let regions := [MemoryRegion_new 0x100000 pages CONVENTIONAL] in
  map_ok regions -> Forall (fun f => 0x100000 <= f < 0x500000) (usable_frames regions) ->
  ready demo_statics demo_address demo_code demo_frame 0x6000 demo_info (demo_entry pages) /\
  pool_of demo_info (demo_entry pages) = usable_frames regions.
Proof.
  intros Hp regions Hmap Hf. pose proof (demo_regions_read pages Hp) as Hread. fold regions in Hread.
  assert (pool_of demo_info (demo_entry pages) = usable_frames regions) as Hpool by (unfold pool_of; by rewrite Hread).
  split; [|exact Hpool].
  assert (forall x, owned (pool_of demo_info (demo_entry pages)) x -> 0x100000 <= x < 0x600000) as Ho.
  { intros x. rewrite Hpool. intros (f & Hin & Hx). rewrite Forall_forall in Hf. apply Hf in Hin.
    unfold range, PAGE_SIZE in *. lia. }
  assert (BootInfo_ok demo_info) as Hok by (by repeat split; vm_compute).
  assert (forall x, screen (bi_framebuffer demo_info) x -> 0x80000000 <= x < 0x80010000) as Hs.
  { intros x. unfold screen, range. simpl. lia. }
  assert (forall x, table_bytes demo_statics x -> 0x1234567000 <= x) as Ht.
  { intros x. unfold table_bytes, range. simpl. lia. }
  split.
  - lia.
  - unfold demo_entry, b_machine, demo_entry_mem. cbn [ks_machine b_k mc_mem]. by apply read_write_BootInfo.
  - exact Hok.
  - by vm_compute.
  - destruct (console_new (bi_framebuffer demo_info)) eqn:E; [by eexists|]. by vm_compute in E.
  - rewrite Hread. exact Hmap.
  - intros x Hx. apply Ho in Hx. lia.
  - intros x Hx Hs'. apply Ho in Hx. apply Hs in Hs'. lia.
  - intros x Hx. apply Ht in Hx. split; [intros Hy%Hs|intros Hy%Ho]; lia.
  - intros x Hx. assert (0x7000 <= x < 0x8000).
    { change (range 0x7000 24 x) in Hx. unfold range in Hx. lia. }
    split; [intros Hy%Hs|intros Hy%Ht]; lia.
  - assert (size_of_TSS = 104) as Hz by reflexivity.
    split; rewrite ?Hz; cbn [TSS GDT FAULT_STACK demo_statics]; unfold GDT_ENTRIES, FAULT_STACK_SIZE;
      [lia|lia|split; [lia|split; [reflexivity|lia]]|lia].
  - intros []; unfold in_u; simpl; lia.
  - reflexivity.
  - unfold isf_ok, in_u. simpl. lia.
  - reflexivity.
  - reflexivity.
Qed.

Lemma demo_ready_300 : ready demo_statics demo_address demo_code demo_frame 0x6000 demo_info (demo_entry 300).
Proof.
  apply demo_ready; [by vm_compute|exact demo_ram_ok|]. apply Forall_forall. intros f Hf.
  apply elem_of_usable_frames in Hf; [|apply demo_ram_ok]. apply Exists_cons in Hf as [Hf|Hf]; [|by apply Exists_nil in Hf].
  destruct Hf as (_ & _ & _ & _ & Hlo & Hhi). unfold mr_end in Hhi. simpl in *. unfold PAGE_SIZE in *. lia.
Qed.

Lemma demo_run_300 : has_run (memory_regions (mc_mem (b_machine (demo_entry 300))) demo_info) (HEAP_FRAMES + 2).
Proof. rewrite demo_regions_read by (by vm_compute). left. by vm_compute. Qed.

Lemma boot_reaches_wait_witness : exists b' base A,
  kernel_start 3 demo_statics 0x203000 demo_address demo_code demo_frame 0x6000 [] (demo_entry 300) =
    ('(s, code) ← lift (wait_phase 3 [] (b_k b')); Err (with_k s b', code)) /\
  Owns (kernel_of b') A HEAP_FRAMES /\
  Inv base (base + HEAP_BYTES) (mc_mem (b_machine b')) (b_heap b') [(base, HEAP_BYTES)].
Proof.
  destruct (boot_reaches_wait 2 3 demo_statics 0x203000 demo_address demo_code demo_frame 0x6000 demo_info []
    (demo_entry 300) slow_uart_live ltac:(lia) demo_ready_300 demo_run_300)
    as (b' & failed & base & A & Hs & _ & _ & _ & _ & HO & HI & _).
  exists b', base, A. exact (conj Hs (conj HO HI)).
Defined.

Lemma demo_ready_1 : ready demo_statics demo_address demo_code demo_frame 0x6000 demo_info (demo_entry 1) /\
  length (pool_of demo_info (demo_entry 1)) = 1%nat.
Proof.
  destruct (demo_ready 1) as [Hr Hp]; [by vm_compute| | |].
  - split; [by repeat constructor; vm_compute|]. split; [|by repeat constructor].
    repeat constructor. intros run [= <-]. by vm_compute.
  - by repeat constructor; vm_compute.
  - split; [exact Hr|]. by rewrite Hp.
Qed.

Lemma boot_stops_without_memory_witness : exists b' failed,
  kernel_start 3 demo_statics 0x203000 demo_address demo_code demo_frame 0x6000 [] (demo_entry 1) = Err (b', Failed) /\
  ended (demo_entry 1) b' Failed (start_lines ++ early_lines demo_info failed demo_frame ++ shortage_lines 1).
Proof.
  destruct demo_ready_1 as [Hr Hl].
  destruct (boot_stops_without_memory 2 3 demo_statics 0x203000 demo_address demo_code demo_frame 0x6000 demo_info []
    (demo_entry 1) slow_uart_live ltac:(lia) Hr ltac:(rewrite Hl; left; lia)) as (b' & failed & Hs & He & _).
  rewrite Hl in He. exists b', failed. exact (conj Hs He).
Defined.

Lemma start_refuses_bad_handoff_witness : exists b',
  kernel_start 3 demo_statics 0x203000 demo_address demo_code demo_frame 0x9000 [] (demo_entry 300) = Err (b', Failed).
Proof.
  destruct (start_refuses_bad_handoff 2 3 demo_statics 0x203000 demo_address demo_code demo_frame 0x9000 []
    (demo_entry 300) slow_uart_live ltac:(lia) eq_refl ltac:(right; vm_compute; reflexivity)) as (b' & Hs & _).
  exists b'. exact Hs.
Defined.

Lemma kernel_run_exits_witness : exists b' code,
  kernel_start 3 demo_statics 0x203000 demo_address demo_code demo_frame 0x6000
    demo_batches (demo_entry 300) = Err (b', code).
Proof.
  destruct (kernel_run_exits 2 3 demo_statics 0x203000 demo_address demo_code demo_frame 0x6000 demo_info
    demo_batches (demo_entry 300) slow_uart_live ltac:(lia)
    demo_ready_300 demo_run_300 eq_refl eq_refl) as (b' & code & l & Hr & _).
  - apply demo_batches_beats.
  - apply demo_batches_beats.
  - exists b', code. exact Hr.
Defined.
