(* ===== verification/Fault.v ===== *)
(** Exceptions and panics in the kernel: the processor's delivery of an
    exception through the tables [gdt.rs] and [idt.rs] installed, its
    escalation to a double fault when delivery itself faults, and what the
    handlers and the panic handler of [main.rs] make of it. *)
From Stdlib Require Import String.
From S2P Require Import Prelude Memory BootInfo Handoff QemuExit Port Pic Interrupts Console Screen Serial Fmt Keyboard Gdt Idt Wait Main.

(** ** The processor's rules *)

(** How the architecture ranks exceptions when one is raised while another is
    being delivered. *)
Inductive severity := Benign | Contributory | PageFault.

Definition severity_of (v : Z) : severity :=
  if (v =? 0) || ((10 <=? v) && (v <=? 13)) || (v =? 21) then Contributory
  else if (v =? 14) || (v =? 20) then PageFault else Benign.

(** The second turns the first into a double fault; otherwise the second is
    delivered in its place. *)
Definition escalates (first second : Z) : bool :=
  match severity_of first, severity_of second with
  | Contributory, Contributory | PageFault, Contributory | PageFault, PageFault => true
  | _, _ => false
  end.

Record event := Event { ev_vector : Z; ev_code : Z; ev_cr2 : Z }.

Definition DOUBLE_FAULT : Z := 8.
Definition general_protection_event (code : Z) : event := Event 13 code 0.
Definition invalid_tss (code : Z) : event := Event 10 code 0.

#[export] Instance code_ok_dec w : Decision (code_ok w).
Proof. unfold code_ok. apply _. Defined.

(** How taking an exception ends: back in the interrupted code, at the exit
    device, or in the reset a failed double fault causes. *)
Inductive verdict (D : Type) :=
| Resumed (b : boot D)
| Halted (b : boot D) (code : QemuExitCode)
| ShutDown.
Arguments Resumed {D} _.
Arguments Halted {D} _ _.
Arguments ShutDown {D}.

Section Fault.
Context {D : Type} `{Device D} (fuel : nat) (a : statics) (code_at : Z -> option handler).
(** Which stacks the processor can push a frame on, what it raises when it
    cannot, and how far a handler's prologue moves the stack pointer. *)
Context (usable : Z -> bool) (push_fault : Z -> event) (used : Z).

(** Delivery up to the handler's first instruction: the gate, its code
    segment, the stack; or the exception that raises. *)
Definition enter (e : event) (frame : InterruptStackFrame) (b : boot D) : gate * Z + event :=
  match delivered_to (b_idt b) (ev_vector e) with
  | None => inr (general_protection_event (8 * ev_vector e + 2))
  | Some g =>
      match b_segments b with
      | None => inr (general_protection_event (g_selector g))
      | Some s =>
          match descriptor s (mc_mem (b_machine b)) (g_selector g) 8 with
          | None => inr (general_protection_event (g_selector g))
          | Some (w, _) =>
              if negb (bool_decide (code_ok w)) then inr (general_protection_event (g_selector g)) else
              match (if g_ist g =? 0 then Some (stack_pointer frame)
                     else ist_stack s (mc_mem (b_machine b)) (g_ist g)) with
              | None => inr (invalid_tss (s_tr s))
              | Some sp => if usable sp then inl (g, sp) else inr (push_fault sp)
              end
          end
      end
  end.

(** The handler, on the stack [sp] it was given, with the six words of the
    frame and the error code pushed. *)
Definition handle (h : handler) (g : gate) (sp : Z) (e : event) (frame : InterruptStackFrame) (b : boot D)
    : res (verdict D) :=
  let k := if g_masks g then cli (b_k b) else b_k b in
  let resume s := Ok (Resumed (with_k (set_if (get_if (b_k b)) s) b)) in
  let stop r := '(s, code) ← r; Ok (Halted (with_k s b) code) in
  match h with
  | divide_error => stop (divide_error_handler fuel frame k)
  | invalid_opcode => stop (invalid_opcode_handler fuel frame k)
  | general_protection => stop (general_protection_handler fuel frame (ev_code e) k)
  | page_fault => stop (page_fault_handler fuel frame (ev_code e) (ev_cr2 e) k)
  | double_fault => stop (double_fault_handler fuel a (sp - 48 - used) frame k)
  | breakpoint => s ← breakpoint_handler fuel frame k; resume s
  | timer => s ← timer_handler k; resume s
  | keyboard => s ← keyboard_handler fuel k; resume s
  | unhandled_irq => resume (unhandled_irq_handler k)
  end.

(** An exception, and what its delivery raises in turn. *)
Fixpoint raise (depth : nat) (e : event) (frame : InterruptStackFrame) (b : boot D) : res (verdict D) :=
  match depth with
  | O => Loop
  | S depth =>
      match enter e frame b with
      | inl (g, sp) =>
          match code_at (g_target g) with
          | Some h => handle h g sp e frame b
          | None => Panic
          end
      | inr e' =>
          if ev_vector e =? DOUBLE_FAULT then Ok ShutDown
          else if escalates (ev_vector e) (ev_vector e') then raise depth (Event DOUBLE_FAULT 0 (ev_cr2 e')) frame b
          else raise depth e' frame b
      end
  end.
End Fault.

(** ** What delivery finds after [init] *)

Lemma descriptor_agree s m m' o n w :
  0 <= o -> o / 8 * 8 = o -> mem_agree (range (dtp_base (s_gdtr s) + o) 8) m m' ->
  descriptor s m o n = Some w -> exists w', descriptor s m' o n = Some (fst w, w').
Proof.
  intros Ho Hd Hag. unfold descriptor. rewrite Hd. destruct (_ <=? _); [|done]. intros [= <-]. eexists.
  cbn [fst]. rewrite (load_agree _ 8 m m' _ Hag) by done. reflexivity.
Qed.

(** The code segment and the fault stack, read out of memory as it is. *)
Lemma tables_found {D} a address (b : boot D) :
  placed a -> tables_ok a address b ->
  exists s w w', b_segments b = Some s /\
    descriptor s (mc_mem (b_machine b)) KERNEL_CODE_SELECTOR 8 = Some (w, w') /\ code_ok w /\
    ist_stack s (mc_mem (b_machine b)) 1 = Some (FAULT_STACK a + FAULT_STACK_SIZE).
Proof.
  intros Hp [_ _ (s & m & m' & Hg & Hs & Hag)].
  destruct (gdt_init_installs_spec a m Hp) as (s1 & m1 & Hg1 & _ & (w & w' & Hd & Hok) & _ & (t & t' & Ht & _ & Hb & Hl)
    & (lo & hi & Hr & Hi & _) & _).
  rewrite Hg in Hg1. injection Hg1 as <- <-. rewrite gdt_init_run in Hg by done. injection Hg as <- <-.
  unfold fault_stack_range in Hr. inv_bind Hr. injection Hr as _ ->.
  unfold add_u in H. case_cmp_in H; [|done]. injection H as <-.
  set (sg := Segments {| dtp_limit := 39; dtp_base := GDT a |} 8 16 16 16 24) in *.
  assert (mem_agree (range (GDT a + 8) 8) (gdt_image a m) (mc_mem (b_machine b))) as Hcs.
  { eapply mem_agree_mono; [|exact Hag]. intros x Hx. left. unfold range in *. lia. }
  destruct (descriptor_agree sg _ _ 8 8 (w, w') ltac:(lia) eq_refl Hcs Hd) as (w1 & Hd1).
  exists sg, w, w1.
  split; [done|]. split; [exact Hd1|]. split; [done|].
  unfold ist_stack in Hi |- *. change (s_tr sg) with 24 in Ht, Hi |- *. rewrite Ht in Hi. cbn [mbind option_bind] in Hi.
  rewrite Hb, Hl in Hi.
  assert (descriptor sg (mc_mem (b_machine b)) 24 16 =
    Some (t, t')) as Ht'.
  { revert Ht. unfold descriptor. cbn [s_gdtr dtp_limit dtp_base sg]. change (24 / 8 * 8) with 24.
    change (24 + 16 - 1 <=? 39) with true. cbv iota. intros [= <- <-].
    rewrite <- !(load_agree _ 8 _ _ _ Hag) by (intros x Hx; left; unfold range in *; simpl in *; lia). reflexivity. }
  rewrite Ht'. cbn [mbind option_bind]. rewrite Hb, Hl.
  change (DOUBLE_FAULT_IST_INDEX + 1) with 1 in Hi. destruct (_ <=? _); [|done].
  injection Hi as Hi. f_equal. rewrite <- Hi. symmetry. apply (load_agree _ _ _ _ _ Hag).
  intros x Hx. right. unfold range in *. change (36 + 8 * (1 - 1)) with 36 in Hx. simpl in Hx. lia.
Qed.

(** ** Reports *)

(** The double fault's report, on the stack the task state segment gives. *)
Definition double_fault_report (a : statics) (rsp : Z) (frame : InterruptStackFrame) : list (list Z) :=
  [text "EXCEPTION: double fault";
   text "  faulting instruction: " ++ hex (instruction_pointer frame);
   text "  interrupted stack:    " ++ hex (stack_pointer frame);
   text "  handler stack:        " ++ hex rsp;
   text "  fault stack spans:    " ++ hex (FAULT_STACK a) ++ text ".." ++ hex (FAULT_STACK a + FAULT_STACK_SIZE);
   text "  handler ran on the IST stack - the machine did not reset"].

(** The breakpoint's line. *)
Definition breakpoint_line (frame : InterruptStackFrame) : list Z :=
  text "EXCEPTION: breakpoint at " ++ hex (instruction_pointer frame) ++ text " (execution will resume)".

(** What the handler of a fatal exception prints. *)
Definition report_of (a : statics) (used : Z) (v : Z) (e : event) (frame : InterruptStackFrame) : option (list (list Z)) :=
  match handler_of v with
  | Some divide_error => Some (fault_report "divide error (#DE)" frame None None)
  | Some invalid_opcode => Some (fault_report "invalid opcode (#UD)" frame None None)
  | Some general_protection => Some (fault_report "general protection fault (#GP)" frame (Some (ev_code e)) None)
  | Some page_fault => Some (fault_report "page fault (#PF)" frame (Some (ev_code e)) (Some (ev_cr2 e)))
  | Some double_fault => Some (double_fault_report a (FAULT_STACK a + FAULT_STACK_SIZE - 48 - used) frame)
  | _ => None
  end.

(** The exception whose handler ends up running, when pushing on the
    interrupted stack works or not. *)
Definition delivered (e : event) (good : bool) : event :=
  if ev_vector e =? DOUBLE_FAULT then e
  else if negb good then Event DOUBLE_FAULT 0 0
  else match handler_of (ev_vector e), severity_of (ev_vector e) with
       | Some _, _ => e
       | None, Benign => general_protection_event (8 * ev_vector e + 2)
       | None, _ => Event DOUBLE_FAULT 0 0
       end.

Definition event_ok (e : event) : Prop := in_u 64 (ev_code e) /\ in_u 64 (ev_cr2 e).

Lemma general_protection_ok v : 0 <= v < 256 -> event_ok (general_protection_event (8 * v + 2)).
Proof. intros Hv. unfold event_ok, in_u. simpl. lia. Qed.

Section Delivery.
Context {D : Type} `{Device D} (n fuel : nat) (Hlive : live (D := D) n) (Hfuel : (n < fuel)%nat).
Context (a : statics) (address : handler -> Z) (code_at : Z -> option handler).
Context (usable : Z -> bool) (push_fault : Z -> event) (used : Z).

(** The tables' owner: statics apart, handlers where the tables say, a fault
    stack in memory with room for the handler; and a processor that reports a
    failed push as a stack or a page fault. *)
Record machine_ok : Prop := {
  mo_placed : placed a;
  mo_code h : code_at (address h) = Some h;
  mo_stack : usable (FAULT_STACK a + FAULT_STACK_SIZE) = true;
  mo_used : 0 <= used /\ 48 + used <= FAULT_STACK_SIZE;
  mo_push sp : (ev_vector (push_fault sp) = 12 \/ ev_vector (push_fault sp) = 14) /\ event_ok (push_fault sp);
}.
Context (Hmo : machine_ok).

(** Interrupts off, as a handler runs. *)
Definition masked_boot (b : boot D) : boot D := with_k (cli (b_k b)) b.

Lemma says_spec o ls (b : boot D) :
  Forall (Forall is_byte) ls -> screen_is o b ->
  exists s, kprintlns fuel ls (b_k b) = Ok s /\ screen_is o (with_k s b) /\ moved (drawn o) b (with_k s b) ls.
Proof using Hlive Hfuel.
  intros Hls. revert b. induction Hls as [|l ls Hl _ IH]; intros b Hs.
  - exists (b_k b). destruct b. split; [done|]. split; [done|apply moved_refl].
  - destruct (say_spec n fuel Hlive Hfuel (drawn o) o l b Hl Hs ltac:(done)) as (b1 & Hr & Hs1 & M1 & _).
    unfold say in Hr. cbn [kprintlns]. destruct (kprintln fuel l (b_k b)) as [s|[]| |]; try discriminate Hr.
    injection Hr as <-. rewrite bind_Ok. destruct (IH _ Hs1) as (s' & Hr' & Hs' & M').
    exists s'. split; [exact Hr'|]. split; [exact Hs'|]. exact (moved_trans _ _ _ _ _ _ M1 M').
Qed.

(** A handler that reports and stops. *)
Lemma reports_stop o ls (b : boot D) (r : res (kstate D * QemuExitCode)) :
  Forall (Forall is_byte) ls -> screen_is o b ->
  r = (s ← kprintlns fuel ls (cli (b_k b)); Ok (exit Failed s)) ->
  exists b', ('(s, code) ← r; Ok (Halted (with_k s b) code)) = Ok (E := Empty_set) (Halted b' Failed) /\
    stopped (drawn o) (masked_boot b) b' ls.
Proof using Hlive Hfuel.
  intros Hls Hs ->. destruct (says_spec o ls (masked_boot b) Hls Hs) as (s & Hr & _ & M).
  change (b_k (masked_boot b)) with (cli (b_k b)) in Hr. rewrite Hr, bind_Ok. eexists. split; [reflexivity|].
  exists (with_k s (masked_boot b)). by split.
Qed.

Lemma double_fault_lines rsp frame (s : kstate D) :
  FAULT_STACK a <= rsp < FAULT_STACK a + FAULT_STACK_SIZE ->
  double_fault_handler fuel a rsp frame s =
    (s ← kprintlns fuel (double_fault_report a rsp frame) s; Ok (exit Failed s)).
Proof using Hmo.
  clear Hfuel. intros Hr. pose proof (pl_stack a (mo_placed Hmo)) as (H0 & _ & Ht).
  unfold double_fault_handler, fault_stack_range. rewrite add_u_ok, !bind_Ok by (unfold FAULT_STACK_SIZE in *; lia).
  rewrite (proj2 (Z.leb_le _ _)), (proj2 (Z.ltb_lt _ _)) by lia. reflexivity.
Qed.

Lemma double_fault_vector v : handler_of v = Some double_fault -> v = DOUBLE_FAULT.
Proof using.
  unfold handler_of.
  repeat match goal with |- context [v =? ?c] => destruct (Z.eqb_spec v c) as [->|_]; [done|] end.
  by destruct ((34 <=? v) && (v <=? 47)).
Qed.

(** The report of a fatal exception that has a gate, on a usable stack. *)
Lemma handle_stops o v g sp e frame (b : boot D) h ls :
  handler_of v = Some h -> report_of a used v e frame = Some ls -> g_masks g = true ->
  (v = DOUBLE_FAULT -> sp = FAULT_STACK a + FAULT_STACK_SIZE) ->
  isf_ok frame -> event_ok e -> screen_is o b ->
  exists b', handle fuel a used h g sp e frame b = Ok (Halted b' Failed) /\
    stopped (drawn o) (masked_boot b) b' ls.
Proof using Hlive Hfuel Hmo.
  intros Hh Hls Hg Hsp Hfr [Hc H2] Hs. unfold report_of in Hls. rewrite Hh in Hls. unfold handle. rewrite Hg.
  destruct h; try discriminate Hls; injection Hls as <-.
  - apply reports_stop with (o := o); [by apply fault_report_bytes|done|reflexivity].
  - apply reports_stop with (o := o); [by apply fault_report_bytes|done|reflexivity].
  - apply double_fault_vector in Hh as ->.
    rewrite (Hsp eq_refl). clear Hsp.
    destruct (mo_used Hmo) as [Hu Hu']. pose proof (pl_stack a (mo_placed Hmo)) as (H0 & _ & Ht).
    apply reports_stop with (o := o); [|done|apply double_fault_lines; lia].
    destruct Hfr as (Hip & _ & _ & Hst & _).
    assert (forall l v, in_u 64 v -> Forall is_byte (text l ++ hex v)) as Hlab
      by (intros l v Hv; apply Forall_app_2; [apply text_bytes|by apply hex_bytes]).
    unfold FAULT_STACK_SIZE in *.
    do 4 (apply Forall_cons_2; [first [apply text_bytes | apply Hlab; first [done | unfold in_u, FAULT_STACK_SIZE; lia]]|]).
    apply Forall_cons_2; [|apply Forall_cons_2; [apply text_bytes|apply Forall_nil_2]].
    rewrite app_assoc. apply Forall_app_2; [apply Hlab|apply (Hlab ".."%string)]; unfold in_u, FAULT_STACK_SIZE; lia.
  - apply reports_stop with (o := o); [by apply fault_report_bytes|done|reflexivity].
  - apply reports_stop with (o := o); [by apply fault_report_bytes|done|reflexivity].
Qed.

(** Delivery through the installed tables: the gate of the vector and the
    stack it asks for, a general protection fault for a vector with no gate, or
    what the processor raises when it cannot push. *)
Definition stack_of (v : Z) (frame : InterruptStackFrame) : Z :=
  if v =? DOUBLE_FAULT then FAULT_STACK a + FAULT_STACK_SIZE else stack_pointer frame.

Lemma enter_spec e frame (b : boot D) :
  tables_ok a address b -> 0 <= ev_vector e ->
  enter usable push_fault e frame b =
    match gate_of address (ev_vector e) with
    | None => inr (general_protection_event (8 * ev_vector e + 2))
    | Some g => let sp := stack_of (ev_vector e) frame in if usable sp then inl (g, sp) else inr (push_fault sp)
    end.
Proof using Hmo.
  clear Hlive Hfuel. intros Ht Hv. unfold enter. rewrite (to_gates _ _ _ Ht) by done.
  destruct (gate_of address (ev_vector e)) as [g|] eqn:Eg; [|done].
  destruct (tables_found a address b (mo_placed Hmo) Ht) as (s & w & w' & -> & Hd & Hok & Hi).
  unfold gate_of in Eg. destruct (handler_of (ev_vector e)) as [h|]; [|done]. injection Eg as <-.
  cbn [g_selector g_ist]. rewrite Hd, bool_decide_true by done. cbn [negb]. unfold stack_of, DOUBLE_FAULT.
  destruct (ev_vector e =? 8); [|done]. change (DOUBLE_FAULT_IST_INDEX + 1 =? 0) with false. cbv iota.
  change (DOUBLE_FAULT_IST_INDEX + 1) with 1. by rewrite Hi.
Qed.

Section Raised.
Context (o : option FrameBufferInfo) (frame : InterruptStackFrame) (b : boot D).
Context (Ht : tables_ok a address b) (Hs : screen_is o b) (Hfr : isf_ok frame).

Abbreviation raise_ := (raise fuel a code_at usable push_fault used).

(** Ended, with the report of [v]. *)
Definition ends_with (v : Z) (e : event) (r : res (verdict D)) : Prop :=
  exists b' ls, r = Ok (Halted b' Failed) /\ report_of a used v e frame = Some ls /\
    stopped (drawn o) (masked_boot b) b' ls.

(** A vector with a fatal handler, on a stack that works. *)
Lemma raise_reports d e ls :
  0 <= ev_vector e -> event_ok e -> report_of a used (ev_vector e) e frame = Some ls ->
  usable (stack_of (ev_vector e) frame) = true -> ends_with (ev_vector e) e (raise_ (S d) e frame b).
Proof using Hlive Hfuel Hmo Ht Hs Hfr.
  intros Hv He Hls Hus. cbn [raise]. rewrite enter_spec by done. unfold gate_of.
  pose proof Hls as Hls'. unfold report_of in Hls'. destruct (handler_of (ev_vector e)) as [h|] eqn:Eh; [|done].
  cbn [mbind option_bind]. cbv zeta. rewrite Hus. cbn [g_target]. rewrite (mo_code Hmo).
  eapply handle_stops in Hls as (b' & Hr & Hst); [|exact Eh| | |exact Hfr|exact He|exact Hs].
  - exists b', ls. split; [exact Hr|]. split; [|exact Hst]. unfold report_of. by rewrite Eh.
  - done.
  - unfold stack_of. by intros ->.
Qed.

(** Ended in the double fault's report. *)
Definition doubled (r : res (verdict D)) : Prop :=
  exists b', r = Ok (Halted b' Failed) /\
    stopped (drawn o) (masked_boot b) b' (double_fault_report a (FAULT_STACK a + FAULT_STACK_SIZE - 48 - used) frame).

Lemma raise_double d e : ev_vector e = DOUBLE_FAULT -> event_ok e ->
  doubled (raise_ (S d) e frame b).
Proof using Hlive Hfuel Hmo Ht Hs Hfr.
  intros Hv He. destruct (raise_reports d e (double_fault_report a (FAULT_STACK a + FAULT_STACK_SIZE - 48 - used) frame))
    as (b' & ls & Hr & Hls & Hst); [by rewrite Hv|done|by rewrite Hv|by rewrite Hv; apply (mo_stack Hmo)|].
  rewrite Hv in Hls. injection Hls as <-. by exists b'.
Qed.

(** What delivery raises, raised. *)
Lemma raise_next d e e' :
  enter usable push_fault e frame b = inr e' -> ev_vector e <> DOUBLE_FAULT ->
  raise_ (S d) e frame b =
    if escalates (ev_vector e) (ev_vector e') then raise_ d (Event DOUBLE_FAULT 0 (ev_cr2 e')) frame b
    else raise_ d e' frame b.
Proof using.
  intros He Hv. cbn [raise]. rewrite He. by destruct (Z.eqb_spec (ev_vector e) DOUBLE_FAULT).
Qed.

Lemma escalated d e e' : enter usable push_fault e frame b = inr e' -> ev_vector e <> DOUBLE_FAULT -> event_ok e' ->
  escalates (ev_vector e) (ev_vector e') = true ->
  doubled (raise_ (S (S d)) e frame b).
Proof using Hlive Hfuel Hmo Ht Hs Hfr.
  intros He Hv [_ H2] Hesc. rewrite (raise_next _ _ _ He Hv), Hesc. apply raise_double; [done|]. split; [|done].
  unfold in_u. simpl. lia.
Qed.

(** No stack to push on: whatever is raised ends in the double fault. *)
Context (Hbad : usable (stack_pointer frame) = false).

Lemma enter_bad e : 0 <= ev_vector e -> ev_vector e <> DOUBLE_FAULT ->
  enter usable push_fault e frame b =
    inr (match handler_of (ev_vector e) with
         | Some _ => push_fault (stack_pointer frame)
         | None => general_protection_event (8 * ev_vector e + 2)
         end).
Proof using Hmo Ht Hbad.
  intros Hv Hne. rewrite enter_spec by done. unfold gate_of, stack_of.
  destruct (Z.eqb_spec (ev_vector e) DOUBLE_FAULT); [done|]. destruct (handler_of (ev_vector e)); [|done].
  cbn [mbind option_bind]. cbv zeta. by rewrite Hbad.
Qed.

Lemma push_spec : event_ok (push_fault (stack_pointer frame)) /\
  (ev_vector (push_fault (stack_pointer frame)) = 12 \/ ev_vector (push_fault (stack_pointer frame)) = 14).
Proof using Hmo. by destruct (mo_push Hmo (stack_pointer frame)). Qed.

(** A failed push, raised: another failed push, or no gate. *)
Lemma bad_push d : doubled (raise_ (S (S d)) (push_fault (stack_pointer frame)) frame b).
Proof using Hlive Hfuel Hmo Ht Hs Hfr Hbad.
  destruct push_spec as [Hok Hv]. pose proof (enter_bad (push_fault (stack_pointer frame))) as He.
  destruct Hv as [Hv|Hv]; rewrite Hv in He; specialize (He ltac:(lia) ltac:(done)); cbn in He.
  - eapply escalated; [exact He|by rewrite Hv|by apply (general_protection_ok 12)|by rewrite Hv].
  - eapply escalated; [exact He|by rewrite Hv|done|by rewrite Hv].
Qed.

Lemma bad_handled d e : 0 <= ev_vector e -> ev_vector e <> DOUBLE_FAULT -> is_Some (handler_of (ev_vector e)) ->
  doubled (raise_ (S (S (S d))) e frame b).
Proof using Hlive Hfuel Hmo Ht Hs Hfr Hbad.
  intros Hv Hne [h Hh]. pose proof (enter_bad e Hv Hne) as He. rewrite Hh in He.
  destruct (escalates (ev_vector e) (ev_vector (push_fault (stack_pointer frame)))) eqn:Eesc.
  - eapply escalated; [exact He|done|apply push_spec|done].
  - rewrite (raise_next _ _ _ He Hne), Eesc. apply bad_push.
Qed.

Lemma bad_any d e : 0 <= ev_vector e < 256 -> ev_vector e <> DOUBLE_FAULT ->
  doubled (raise_ (S (S (S (S d)))) e frame b).
Proof using Hlive Hfuel Hmo Ht Hs Hfr Hbad.
  intros Hv Hne. destruct (handler_of (ev_vector e)) as [h|] eqn:Eh; [apply bad_handled; [lia|done|by eexists]|].
  pose proof (enter_bad e ltac:(lia) Hne) as He. rewrite Eh in He.
  destruct (escalates (ev_vector e) 13) eqn:Eesc.
  - eapply escalated; [exact He|done|by apply general_protection_ok|done].
  - rewrite (raise_next _ _ _ He Hne). simpl ev_vector. rewrite Eesc.
    apply bad_handled; [done|done|by eexists].
Qed.
End Raised.

(** [int3]'s handler, and back. *)
Lemma raise_breakpoint d e o frame (b : boot D) :
  tables_ok a address b -> screen_is o b -> isf_ok frame -> ev_vector e = 3 -> usable (stack_pointer frame) = true ->
  exists b', raise fuel a code_at usable push_fault used (S d) e frame b = Ok (Resumed b') /\
    moved (drawn o) b b' [breakpoint_line frame] /\ screen_is o b'.
Proof using Hlive Hfuel Hmo.
  intros Ht Hs (Hip & _) Hv Hus. cbn [raise]. rewrite enter_spec by (try done; lia). rewrite Hv. unfold stack_of.
  change (gate_of address 3) with (Some (Gate (address breakpoint) KERNEL_CODE_SELECTOR 0 true)).
  change (3 =? DOUBLE_FAULT) with false. cbv iota zeta. rewrite Hus. cbn [g_target]. rewrite (mo_code Hmo).
  unfold handle. cbn [g_masks]. unfold breakpoint_handler. fold (breakpoint_line frame).
  destruct (say_spec n fuel Hlive Hfuel (drawn o) o (breakpoint_line frame) (masked_boot b)) as (b1 & Hr & Hs' & M & _).
  { unfold breakpoint_line.
    apply Forall_app_2; [apply text_bytes|]. apply Forall_app_2; [by apply hex_bytes|apply text_bytes]. }
  { exact Hs. } { done. }
  unfold say in Hr. change (b_k (masked_boot b)) with (cli (b_k b)) in Hr.
  destruct (kprintln fuel (breakpoint_line frame) (cli (b_k b))) as [s|[]| |]; try discriminate Hr.
  injection Hr as <-. rewrite bind_Ok. eexists. split; [reflexivity|].
  split; [destruct M as [I T K L M]; by split|exact Hs'].
Qed.
End Delivery.

(** Of the exceptions with a gate only the breakpoint's handler returns. *)
Lemma unreported_vector a used v e frame :
  0 <= v < 32 -> is_Some (handler_of v) -> report_of a used v e frame = None -> v = 3.
Proof.
  intros Hv [h Hh] Hr. pose proof (all_below (fun v => match handler_of v with
    | Some breakpoint => v =? 3 | Some (timer | keyboard | unhandled_irq) => false | _ => true end) 32 eq_refl v Hv) as Hall.
  cbv beta in Hall. unfold report_of in Hr. rewrite Hh in Hall, Hr. destruct h; try done. by apply Z.eqb_eq.
Qed.

Lemma raised_spec {D} `{Device D} n fuel a address code_at usable push_fault used o frame (b : boot D) e :
  live (D := D) n -> (n < fuel)%nat -> machine_ok a address code_at usable push_fault used ->
  tables_ok a address b -> screen_is o b -> isf_ok frame -> event_ok e -> 0 <= ev_vector e < 32 ->
  let d := delivered e (usable (stack_pointer frame)) in
  match report_of a used (ev_vector d) d frame with
  | Some ls => exists b', raise fuel a code_at usable push_fault used 4 e frame b = Ok (Halted b' Failed) /\
      stopped (drawn o) (masked_boot b) b' ls
  | None => ev_vector e = 3 /\
      exists b', raise fuel a code_at usable push_fault used 4 e frame b = Ok (Resumed b') /\
        moved (drawn o) b b' [breakpoint_line frame] /\ screen_is o b'
  end.
Proof.
  intros Hl Hf Hmo Ht Hs Hfr He Hv d. subst d. unfold delivered.
  destruct (Z.eqb_spec (ev_vector e) DOUBLE_FAULT) as [E8|N8].
  { rewrite E8. by eapply raise_double. }
  destruct (usable (stack_pointer frame)) eqn:Hus; cbn [negb]; cbv iota.
  2: { eapply bad_any; try done. lia. }
  destruct (handler_of (ev_vector e)) as [h|] eqn:Eh.
  - destruct (report_of a used (ev_vector e) e frame) as [ls|] eqn:Er.
    + destruct (raise_reports n fuel Hl Hf a address code_at usable push_fault used Hmo o frame b Ht Hs Hfr 3 e ls)
        as (b' & ls' & Hr & Hls & Hst); [lia|done|done| |].
      { unfold stack_of. by destruct (Z.eqb_spec (ev_vector e) DOUBLE_FAULT). }
      rewrite Er in Hls. injection Hls as <-. by exists b'.
    + assert (ev_vector e = 3) as E3 by by apply (unreported_vector a used _ e frame).
      split; [done|]. by eapply raise_breakpoint.
  - assert (enter usable push_fault e frame b = inr (general_protection_event (8 * ev_vector e + 2))) as Hen.
    { rewrite (enter_spec a address code_at usable push_fault used Hmo) by (try done; lia).
      unfold gate_of. by rewrite Eh. }
    assert (event_ok (general_protection_event (8 * ev_vector e + 2))) as Hgp by (apply general_protection_ok; lia).
    destruct (severity_of (ev_vector e)) eqn:Esev.
    2, 3: by eapply escalated; [..|exact Hen|done|done|unfold escalates; rewrite Esev].
    cbn [ev_vector general_protection_event]. rewrite (raise_next _ _ _ _ _ _ _ _ _ _ _ Hen N8).
    unfold escalates. rewrite Esev.
    destruct (raise_reports n fuel Hl Hf a address code_at usable push_fault used Hmo o frame b Ht Hs Hfr 2
      (general_protection_event (8 * ev_vector e + 2)) _ ltac:(done) Hgp eq_refl Hus) as (b' & ls' & Hr & Hls & Hst).
    injection Hls as <-. by exists b'.
Qed.

(** ** Properties *)

(** C18: no exception resets the machine. Once the tables are loaded, whatever
    code an exception strikes and on whatever stack, one the processor cannot
    push a frame on included, its delivery never escalates past the double
    fault: a breakpoint prints its line and the interrupted code goes on; a
    handled fault prints its own report; a benign exception with no gate is
    reported as the general protection fault its missing gate is, with that
    gate in the error code; and every other combination ends in the double
    fault's report, whose handler finds itself on the fault stack. Every report
    is complete, is followed by the failure code at the exit device, and
    touches no memory but the screen. *)
Theorem exceptions_never_reset {D} `{Device D} n fuel a address code_at usable push_fault used o frame (b : boot D) e :
  live (D := D) n -> (n < fuel)%nat -> machine_ok a address code_at usable push_fault used ->
  tables_ok a address b -> screen_is o b -> isf_ok frame -> event_ok e -> 0 <= ev_vector e < 32 ->
  let d := delivered e (usable (stack_pointer frame)) in
  match report_of a used (ev_vector d) d frame with
  | Some ls => exists b', raise fuel a code_at usable push_fault used 4 e frame b = Ok (Halted b' Failed) /\
      stopped (drawn o) (masked_boot b) b' ls /\ process_exit_code (QemuExitCode_as_u32 Failed) = 35
  | None => ev_vector e = 3 /\
      exists b', raise fuel a code_at usable push_fault used 4 e frame b = Ok (Resumed b') /\
        moved (drawn o) b b' [breakpoint_line frame] /\ screen_is o b'
  end.
Proof.
  intros Hl Hf Hmo Ht Hs Hfr He Hv d.
  pose proof (raised_spec n fuel a address code_at usable push_fault used o frame b e Hl Hf Hmo Ht Hs Hfr He Hv) as Hr.
  cbv zeta in Hr. fold d in Hr. destruct (report_of a used (ev_vector d) d frame) as [ls|]; [|exact Hr].
  destruct Hr as (b' & Hr & Hst). by exists b'.
Qed.

(** A panic anywhere: its message and the failure code, on the line and on
    whatever screen there is. *)
Theorem panic_reports {D} `{Device D} n fuel o info (b : boot D) :
  live (D := D) n -> (n < fuel)%nat -> Forall is_byte info -> screen_is o b ->
  exists b', panic_handler fuel info b = Err (b', Failed) /\ stopped (drawn o) b b' [text "KERNEL PANIC: " ++ info] /\
    process_exit_code (QemuExitCode_as_u32 Failed) = 35.
Proof.
  intros Hl Hf Hi Hs. unfold panic_handler.
  destruct (fatal_spec n fuel Hl Hf (drawn o) (A := Empty_set) o (text "KERNEL PANIC: " ++ info) b) as (b' & Hr & Hst);
    [by apply Forall_app_2; [apply text_bytes|]|done|done|]. by exists b'.
Qed.

(** ** Instances *)

(** Only the fault stack can be pushed on; a failed push is a page fault. *)
Definition demo_usable (sp : Z) : bool := sp =? FAULT_STACK demo_statics + FAULT_STACK_SIZE.
Definition demo_push_fault (sp : Z) : event := Event 14 2 (as_u 64 (sp - 8)).
Definition demo_code_at (x : Z) : option handler :=
  find (fun h => Idt.demo_address h =? x)
    [divide_error; breakpoint; invalid_opcode; double_fault; general_protection; page_fault; timer; keyboard; unhandled_irq].

Lemma demo_machine_ok : machine_ok demo_statics Idt.demo_address demo_code_at demo_usable demo_push_fault 64.
Proof.
  split.
  - assert (size_of_TSS = 104) as Hs by reflexivity.
    split; rewrite ?Hs; cbn [TSS GDT FAULT_STACK demo_statics]; unfold GDT_ENTRIES, FAULT_STACK_SIZE;
      [lia|lia|split; [lia|split; [reflexivity|lia]]|lia].
  - intros []; reflexivity.
  - reflexivity.
  - split; [lia|]. vm_compute. discriminate.
  - intros sp. split; [by right|]. unfold event_ok, in_u, as_u. simpl.
    split; [lia|]. apply Z.mod_pos_bound. lia.
Qed.

(** A kernel whose stack has run out divides by zero. *)
Lemma exceptions_never_reset_witness : exists b b' : boot nat,
  raise 3 demo_statics demo_code_at demo_usable demo_push_fault 64 4 (Event 0 0 0) demo_frame b = Ok (Halted b' Failed) /\
  stopped (drawn None) (masked_boot b) b' (double_fault_report demo_statics 0x123456BF90 demo_frame).
Proof.
  destruct (init_devices_spec 2 3 slow_uart_live ltac:(lia) (fun _ => True) demo_statics 0x5000 Idt.demo_address
    (Boot (KState (Machine false (Io 0%nat []) None ∅) 0 0) None {| Heap.head := 0 |} Idt_new None None)) as
    (b & failed & _ & [Hs _] & Ht & _).
  - apply demo_machine_ok.
  - intros []; unfold in_u, Idt.demo_address; lia.
  - reflexivity.
  - exact I.
  - done.
  - destruct (exceptions_never_reset 2 3 demo_statics Idt.demo_address demo_code_at demo_usable demo_push_fault 64 None
      demo_frame b (Event 0 0 0) slow_uart_live ltac:(lia) demo_machine_ok Ht Hs) as (b' & Hr & Hst & _).
    + unfold isf_ok, in_u. simpl. lia.
    + unfold event_ok, in_u. simpl. lia.
    + simpl. lia.
    + exists b, b'. exact (conj Hr Hst).
Defined.
