(* ===== verification/Typed.v ===== *)
(** Type soundness: the machine-width integers of the source are integers in
    the model, whose values fit their widths only as far as every operation
    keeps them there. This file shows that they do, through the whole kernel,
    whatever it is booted with. *)
From Stdlib Require Import String.
From S2P Require Import Prelude Memory Layout BootInfo Frame Heap Interrupts FrameApi HeapApi HeapTest.
From S2P Require Import QemuExit Port Font Console Screen Serial Fmt Keyboard Gdt Idt Wait Main.

(** ** Outcomes of well-typed code *)

(** Whatever the code returns is in [P], and an early end in [PE]; a panic or a
    bound that ran out returns nothing. *)
Definition within {E A} (PE : E -> Prop) (P : A -> Prop) (r : outcome E A) : Prop :=
  match r with Ok a => P a | Err e => PE e | Panic | Loop => True end.

Abbreviation pure := (within (fun _ : Empty_set => True)).

Lemma within_bind {E A B} PE (P : A -> Prop) (Q : B -> Prop) (m : outcome E A) f :
  within PE P m -> (forall a, P a -> within PE Q (f a)) -> within PE Q (mbind f m).
Proof. intros Hm Hf. destruct m; try done. by apply Hf. Qed.

Lemma within_lift {E A} (PE : E -> Prop) (P : A -> Prop) (m : res A) : pure P m -> within PE P (lift m).
Proof. by destruct m as [?|[]| |]. Qed.

Lemma within_mono {E A} (PE : E -> Prop) (P Q : A -> Prop) (m : outcome E A) :
  (forall a, P a -> Q a) -> within PE P m -> within PE Q m.
Proof. destruct m; simpl; auto. Qed.

Lemma within_any {A} (m : res A) : pure (fun _ => True) m.
Proof. by destruct m as [?|[]| |]. Qed.

Lemma within_for_range {E S} PE (P : S -> Prop) a b (body : Z -> S -> outcome E S) s :
  P s -> (forall i s, P s -> within PE P (body i s)) -> within PE P (for_range a b body s).
Proof.
  intros Hs Hb. unfold for_range. generalize (Z.to_nat (b - a)). intros n. revert a s Hs.
  induction n as [|n IH]; intros a s Hs; [done|]. cbn [for_n]. eapply within_bind; [by apply Hb|]. intros. by apply IH.
Qed.

(** Checked arithmetic on machine integers yields machine integers. *)
Section Arithmetic.
Context {E : Type} (PE : E -> Prop).

Lemma within_add w a b : 0 <= a -> 0 <= b -> within PE (in_u w) (add_u w a b).
Proof. intros Ha Hb. unfold add_u. destruct (Z.ltb_spec (a + b) (2 ^ w)); [unfold within, in_u; lia|done]. Qed.

Lemma within_sub w a b : in_u w a -> 0 <= b -> within PE (in_u w) (sub_u a b).
Proof. unfold in_u. intros Ha Hb. unfold sub_u. destruct (Z.leb_spec b a); [unfold within; lia|done]. Qed.

Lemma within_mul w a b : 0 <= a -> 0 <= b -> within PE (in_u w) (mul_u w a b).
Proof. intros Ha Hb. unfold mul_u. destruct (Z.ltb_spec (a * b) (2 ^ w)); [unfold within, in_u; nia|done]. Qed.

Lemma within_next_multiple w a n : 0 <= a -> 0 < n -> within PE (in_u w) (next_multiple_of w a n).
Proof.
  intros Ha Hn. unfold next_multiple_of. destruct (Z.ltb_spec (round_up a n) (2 ^ w)); [|done].
  unfold within, in_u, round_up in *. pose proof (Z.mod_pos_bound a n Hn). destruct (a mod n =? 0); lia.
Qed.
End Arithmetic.

(** ** Bytes *)

Definition typed_mem (m : mem) : Prop := forall a v, m !! a = Some v -> is_byte v.

Lemma typed_peek m a : typed_mem m -> is_byte (peek m a).
Proof. intros Hm. unfold peek. destruct (m !! a) eqn:E; [by eapply Hm|]. simpl. unfold is_byte. lia. Qed.

Lemma typed_read m a n : typed_mem m -> Forall is_byte (read_bytes m a n).
Proof. intros Hm. revert a. induction n; intros a; simpl; constructor; auto using typed_peek. Qed.

Lemma typed_load n m a : typed_mem m -> 0 <= load n m a < 256 ^ Z.of_nat n.
Proof.
  intros Hm. unfold load. pose proof (le_value_bound _ (typed_read m a n Hm)) as Hb. by rewrite length_read_bytes in Hb.
Qed.

Lemma typed_load64 m a : typed_mem m -> in_u 64 (load 8 m a).
Proof. apply (typed_load 8). Qed.
Lemma typed_load32 m a : typed_mem m -> in_u 32 (load 4 m a).
Proof. apply (typed_load 4). Qed.

Lemma typed_write m a bs : typed_mem m -> Forall is_byte bs -> typed_mem (write_bytes m a bs).
Proof.
  intros Hm Hbs. revert m a Hm. induction Hbs as [|b bs Hb _ IH]; intros m a Hm; [done|]. simpl. apply IH.
  intros x v. rewrite lookup_insert. case_decide; [intros [= <-]; done|by apply Hm].
Qed.

Lemma typed_store n m a v : typed_mem m -> typed_mem (store n m a v).
Proof. intros Hm. apply typed_write; [done|apply le_bytes_is_byte]. Qed.

Create HintDb typed.
#[export] Hint Resolve typed_load64 typed_load32 typed_store typed_write typed_read : typed.

(** ** The frame allocator *)

Record typed_frames (fa : FrameAllocator) : Prop := {
  tf_regions : Forall MemoryRegion_ok (ur_regions (runs fa));
  tf_cursor : in_u 64 (cursor fa);
  tf_end : in_u 64 (run_end fa);
  tf_free p : free fa = Some p -> in_u 64 p;
  tf_in_use : in_u 64 (in_use fa);
}.

Definition typed_option (o : option Z) : Prop := forall a, o = Some a -> in_u 64 a.
Definition frames_result (r : mem * FrameAllocator * option Z) : Prop :=
  typed_mem (fst (fst r)) /\ typed_frames (snd (fst r)) /\ typed_option (snd r).

Lemma in_u_64 x : 0 <= x < 2 ^ 64 -> in_u 64 x.
Proof. done. Qed.

Lemma typed_push_free m fa addr : typed_mem m -> typed_frames fa -> in_u 64 addr ->
  typed_mem (fst (push_free m fa addr)) /\ typed_frames (snd (push_free m fa addr)).
Proof.
  intros Hm [] Ha. split; [by apply typed_store|]. split; simpl; try done.
  unfold NonNull_new. intros p. destruct (addr =? 0); [done|by intros [= <-]].
Qed.

Lemma typed_strand fuel m fa : typed_mem m -> typed_frames fa ->
  pure (fun '(m, fa) => typed_mem m /\ typed_frames fa) (strand fuel m fa).
Proof.
  revert m fa. induction fuel as [|fuel IH]; intros m fa Hm Hfa; cbn [strand];
    (eapply within_bind; [apply within_any|]; intros limit _; destruct (limit <=? run_end fa); [|done]); [done|].
  pose proof (tf_cursor _ Hfa) as Hc. eapply within_bind; [apply within_add; [apply Hc|done]|]. intros c Hc'.
  destruct (typed_push_free m (set_cursor c fa) (cursor fa) Hm) as [Hm' Hfa']; [by destruct Hfa|done|].
  destruct (push_free m (set_cursor c fa) (cursor fa)) as [m' fa']. by apply IH.
Qed.

Lemma typed_next u : Forall MemoryRegion_ok (ur_regions u) ->
  ur_regions (snd (next u)) = ur_regions u /\ forall run, fst (next u) = Some run -> run_ok run.
Proof.
  intros Hr. unfold next. destruct (next_from _ _) as [o j] eqn:E. split; [done|]. simpl. intros run ->.
  pose proof (Forall_drop _ (ur_index u) _ Hr) as Hd. revert E. generalize (ur_index u) at 2.
  induction Hd as [|r rest Hrok _ IH]; intros i E; [discriminate E|]. simpl in E.
  destruct (usable_run r) as [run'|] eqn:Er; [|by eapply IH]. injection E as <- _. by eapply usable_run_ok.
Qed.

Lemma typed_set_run fa u c e : typed_frames fa -> ur_regions u = ur_regions (runs fa) -> in_u 64 c -> in_u 64 e ->
  typed_frames (set_run u c e fa).
Proof. intros [] Hu Hc He. split; simpl; try done. by rewrite Hu. Qed.

Lemma typed_run_end (run : FrameRun) :
  run_ok run -> in_u 64 (fr_start run) /\ pure (in_u 64) (span ← mul_u 64 (fr_frames run) PAGE_SIZE; add_u 64 (fr_start run) span).
Proof.
  intros (H1 & _ & H3 & H4). unfold fr_end, PAGE_SIZE in *. split; [unfold in_u; lia|].
  eapply within_bind; [apply within_mul; lia|]. intros span [Hs _]. apply within_add; [lia|exact Hs].
Qed.

Lemma typed_bump_loop fuel m fa wanted : typed_mem m -> typed_frames fa -> 0 <= wanted ->
  pure frames_result (bump_loop fuel m fa wanted).
Proof.
  revert m fa. induction fuel as [|fuel IH]; intros m fa Hm Hfa Hw; cbn [bump_loop];
    (destruct (wanted <=? _);
     [eapply within_bind; [apply within_add; [apply (tf_cursor _ Hfa)|exact Hw]|]; intros c Hc;
      split; [done|split; [by destruct Hfa|intros a [= <-]; apply Hfa]]|]);
    (eapply within_bind; [by apply typed_strand|]; intros [m' fa'] [Hm' Hfa'];
     destruct (typed_next (runs fa')) as [Hu Hrun]; [apply Hfa'|];
     destruct (next (runs fa')) as [[run|] u]; simpl in Hu, Hrun;
     [|split; [done|split; [by apply typed_set_run; try done; apply Hfa'|done]]]);
    (destruct (typed_run_end run (Hrun _ eq_refl)) as [Hs _];
     destruct (Hrun _ eq_refl) as (H1 & _ & H3 & H4);
     eapply within_bind; [apply within_mul; [lia|done]|]; intros span [Hspan _];
     eapply within_bind; [apply within_add; [apply Hs|exact Hspan]|]; intros e He); [done|].
  apply IH; [done|by apply typed_set_run|done].
Qed.

Lemma typed_bump m fa n : typed_mem m -> typed_frames fa -> 0 <= n -> pure frames_result (bump m fa n).
Proof.
  intros Hm Hfa Hn. unfold bump, checked_mul. destruct (Z.ltb_spec (n * PAGE_SIZE) (2 ^ 64)); [|by split].
  apply typed_bump_loop; [done|done|unfold PAGE_SIZE; lia].
Qed.

Lemma typed_in_use fa n : typed_frames fa -> in_u 64 n -> typed_frames (set_in_use n fa).
Proof. by intros [] Hn. Qed.

Lemma typed_contiguous m fa n : typed_mem m -> typed_frames fa -> 0 <= n -> pure frames_result (contiguous m fa n).
Proof.
  intros Hm Hfa Hn. eapply within_bind; [by apply typed_bump|]. intros [[m' fa'] [a|]] (Hm' & Hfa' & Ha); [|by split].
  eapply within_bind; [apply within_add; [apply (tf_in_use _ Hfa')|exact Hn]|]. intros k Hk.
  split; [done|]. by split; [apply typed_in_use|].
Qed.

Lemma typed_alloc m fa : typed_mem m -> typed_frames fa -> pure frames_result (alloc m fa).
Proof.
  intros Hm Hfa. unfold alloc. destruct (free fa) as [node|] eqn:Ef.
  - eapply within_bind; [apply within_add; [apply (tf_in_use _ Hfa)|done]|]. intros k Hk.
    pose proof (tf_free _ Hfa node Ef) as Hn. split; [done|]. split; [|by intros a [= <-]].
    apply typed_in_use; [|done]. destruct Hfa. split; simpl; try done. intros p. unfold read_FreeFrame, NonNull_new.
    destruct (_ =? 0); [done|]. intros [= <-]. by apply typed_load64.
  - eapply within_bind; [by apply typed_bump|]. intros [[m' fa'] [a|]] (Hm' & Hfa' & Ha); [|by split].
    eapply within_bind; [apply within_add; [apply (tf_in_use _ Hfa')|done]|]. intros k Hk.
    split; [done|]. by split; [apply typed_in_use|].
Qed.

Lemma typed_dealloc m fa addr : typed_mem m -> typed_frames fa -> in_u 64 addr ->
  typed_mem (fst (dealloc m fa addr)) /\ typed_frames (snd (dealloc m fa addr)).
Proof.
  intros Hm Hfa Ha. unfold dealloc. destruct (typed_push_free m fa addr Hm Hfa Ha) as [Hm' Hfa'].
  destruct (push_free m fa addr) as [m' fa']. split; [done|]. apply typed_in_use; [done|].
  pose proof (tf_in_use _ Hfa'). unfold in_u, saturating_sub in *. simpl in *. lia.
Qed.

Lemma typed_frame_init regions : Forall MemoryRegion_ok regions ->
  pure (fun '(o, total) => (forall fa, o = Some fa -> typed_frames fa) /\ in_u 64 total) (frame_init regions).
Proof.
  intros Hr. unfold frame_init. eapply (within_bind _ (in_u 64)).
  { assert (forall n u t, Forall MemoryRegion_ok (ur_regions u) -> in_u 64 t -> pure (in_u 64) (sum_frames n u t)) as Hsum.
    { induction n as [|n IH]; intros u t Hu Ht; cbn [sum_frames]; destruct (typed_next u Hu) as [Eu Hrun];
        destruct (next u) as [[run|] u']; try done; simpl in Eu, Hrun; destruct (Hrun _ eq_refl) as (_ & _ & H3 & _);
        (eapply within_bind; [apply within_add; [apply Ht|lia]|]; intros t' Ht'); [done|]. apply IH; [by rewrite Eu|done]. }
    by apply Hsum. }
  intros total Ht. destruct (total =? 0); [by split|]. destruct (typed_next (UsableRegions_new regions) Hr) as [Eu Hrun].
  destruct (next (UsableRegions_new regions)) as [[run|] u]; [|by split]. simpl in Eu, Hrun.
  destruct (Hrun _ eq_refl) as (H1 & H2 & H3 & H4). unfold fr_end, PAGE_SIZE in *.
  eapply within_bind; [apply within_mul; lia|]. intros span [Hs _].
  eapply within_bind; [apply within_add; [lia|exact Hs]|]. intros e He. split; [|done].
  intros fa [= <-]. split; simpl; try done; [by rewrite Eu|unfold in_u; lia].
Qed.

(** ** The heap *)

Definition typed_layout (l : Layout) : Prop := 0 <= l_size l /\ 0 <= l_align l.
Definition heap_result (r : mem * Heap * Z) : Prop :=
  typed_mem (fst (fst r)) /\ in_u 64 (head (snd (fst r))) /\ in_u 64 (snd r).

Lemma typed_block m b size next : typed_mem m -> typed_mem (write_FreeBlock m b size next).
Proof. intros Hm. by apply typed_store, typed_store. Qed.

Lemma typed_link_after m h prev x : typed_mem m -> in_u 64 (head h) -> in_u 64 x ->
  typed_mem (fst (link_after m h prev x)) /\ in_u 64 (head (snd (link_after m h prev x))).
Proof. intros Hm Hh Hx. unfold link_after. destruct (prev =? 0); [done|]. split; [by apply typed_store|done]. Qed.

Lemma typed_normalise l : typed_layout l ->
  pure (fun '(size, align) => in_u 64 size /\ 0 < align) (normalise l).
Proof.
  intros [Hs Ha]. unfold normalise, GRAIN. eapply within_bind; [apply (within_next_multiple _ 64); lia|].
  intros size Hz. simpl. split; [done|lia].
Qed.

Lemma typed_carve m h prev cur block_size next payload front size :
  typed_mem m -> in_u 64 (head h) -> in_u 64 block_size -> in_u 64 next -> in_u 64 payload -> 0 <= front ->
  0 <= size -> pure heap_result (carve m h prev cur block_size next payload front size).
Proof.
  intros Hm Hh Hb Hn Hp Hf Hs. unfold carve.
  eapply within_bind; [by apply (within_sub _ 64)|]. intros rest Hr.
  eapply within_bind; [by apply (within_sub _ 64)|]. intros tail Ht.
  eapply (within_bind _ (fun '(m, x) => typed_mem m /\ in_u 64 x)).
  { destruct (GRAIN <=? tail); [|done]. eapply within_bind; [apply within_add; [apply Hp|done]|]. intros b Hb'.
    split; [by apply typed_block|done]. }
  intros [m1 remainder] [Hm1 Hx]. destruct (typed_link_after m1 h prev remainder Hm1 Hh Hx) as [Hm2 Hh2].
  destruct (GRAIN <=? front).
  - split; [by apply typed_store, typed_store|done].
  - destruct (link_after m1 h prev remainder). by split.
Qed.

Lemma typed_alloc_loop fuel m h size align prev cur :
  typed_mem m -> in_u 64 (head h) -> in_u 64 size -> 0 < align -> in_u 64 cur ->
  pure heap_result (alloc_loop fuel m h size align prev cur).
Proof.
  revert prev cur. induction fuel as [|fuel IH]; intros prev cur Hm Hh Hs Ha Hc; cbn [alloc_loop];
    (destruct (cur =? 0); [split; [done|split; [done|by vm_compute]]|]);
    (eapply within_bind; [apply (within_next_multiple _ 64); [apply Hc|exact Ha]|]; intros payload Hp;
     eapply within_bind; [apply (within_sub _ 64); [exact Hp|apply Hc]|]; intros front Hf;
     eapply within_bind; [apply (within_add _ 64); [apply Hf|apply Hs]|]; intros need _;
     destruct (need <=? _); [apply typed_carve; try done; try apply Hs; try apply Hf; by apply typed_load64|]); [done|].
  apply IH; try done. by apply typed_load64.
Qed.

Lemma typed_heap_alloc fuel m h l : typed_mem m -> in_u 64 (head h) -> typed_layout l ->
  pure heap_result (heap_alloc fuel m h l).
Proof.
  intros Hm Hh Hl. eapply within_bind; [by apply typed_normalise|]. intros [size align] [Hs Ha]. by apply typed_alloc_loop.
Qed.

Lemma typed_heap_dealloc fuel m h ptr l : typed_mem m -> in_u 64 (head h) -> in_u 64 ptr -> typed_layout l ->
  pure (fun '(m, h) => typed_mem m /\ in_u 64 (head h)) (heap_dealloc fuel m h ptr l).
Proof.
  intros Hm Hh Hp Hl. eapply within_bind; [by apply typed_normalise|]. intros [size align] [Hs _].
  eapply (within_bind _ (fun '(prev, cur) => in_u 64 prev /\ in_u 64 cur)).
  { assert (forall n prev cur, in_u 64 prev -> in_u 64 cur ->
      pure (fun '(prev, cur) => in_u 64 prev /\ in_u 64 cur) (find_loop n m ptr prev cur)) as Hfind.
    { induction n as [|n IH]; intros prev cur Hprev Hcur; cbn [find_loop]; (destruct (_ && _); [|by split]); [done|].
      apply IH; [done|by apply typed_load64]. }
    by apply Hfind. }
  intros [prev cur] [Hprev Hcur]. eapply (within_bind _ (fun '(size, next) => in_u 64 size /\ in_u 64 next)).
  { unfold merge_forward. destruct (cur =? 0); [by split|].
    eapply within_bind; [apply (within_add _ 64); [apply Hp|apply Hs]|]. intros limit _. destruct (limit =? cur); [|by split].
    pose proof (typed_load64 m cur Hm) as Hc.
    eapply within_bind; [apply (within_add _ 64); [apply Hs|apply Hc]|]. intros z Hz. split; [done|by apply typed_load64]. }
  intros [z next] [Hz Hnext]. unfold merge_backward.
  assert (forall p, typed_mem (fst (link_after (write_FreeBlock m ptr z next) h p ptr)) /\
    in_u 64 (head (snd (link_after (write_FreeBlock m ptr z next) h p ptr)))) as Hlink.
  { intros p. apply typed_link_after; [by apply typed_block|done|done]. }
  destruct (prev =? 0); [specialize (Hlink prev); by destruct (link_after _ _ _ _)|].
  pose proof (typed_load64 m prev Hm) as Hps.
  eapply within_bind; [apply (within_add _ 64); [apply Hprev|apply Hps]|]. intros e _. destruct (e =? ptr).
  - eapply within_bind; [apply (within_add _ 64); [apply Hps|apply Hz]|]. intros g _. split; [by apply typed_store, typed_store|done].
  - specialize (Hlink prev). by destruct (link_after _ _ _ _).
Qed.

(** ** The two allocators behind their critical sections *)

Record typed_kernel (k : kernel) : Prop := {
  tk_mem : typed_mem (k_mem k);
  tk_frames fa : FRAMES k = Some fa -> typed_frames fa;
  tk_heap : in_u 64 (head (HEAP k));
}.

Lemma typed_without_interrupts {S E A} `{HasIF S} PE (P : S -> Prop) (R : A -> Prop) (f : S -> outcome E (S * A)) s :
  (forall b s, P s -> P (set_if b s)) -> (forall s, P s -> within PE (fun '(s, a) => P s /\ R a) (f s)) -> P s ->
  within PE (fun '(s, a) => P s /\ R a) (without_interrupts f s).
Proof.
  intros Hset Hf Hs. unfold without_interrupts. eapply within_bind; [apply Hf; destruct (get_if s); by try apply Hset|].
  intros [s' a] [Hs' Ha]. split; [|done]. destruct (get_if s); [by apply Hset|done].
Qed.

Lemma typed_set_if b k : typed_kernel k -> typed_kernel (set_if b k).
Proof. by intros []. Qed.

Abbreviation typed_with R := (fun '(k, a) => typed_kernel k /\ R a).

Lemma typed_with_frames {A} (R : A -> Prop) (f : mem -> FrameAllocator -> res (mem * FrameAllocator * A)) k :
  (forall m fa, typed_mem m -> typed_frames fa ->
     pure (fun '(m, fa, a) => typed_mem m /\ typed_frames fa /\ R a) (f m fa)) ->
  typed_kernel k -> pure (typed_with (fun o => forall a, o = Some a -> R a)) (with_frames f k).
Proof.
  intros Hf Hk. apply typed_without_interrupts; [apply typed_set_if| |done]. intros s [Hm Hfr Hh].
  destruct (FRAMES s) as [fa|] eqn:E; [|split; [by split; try rewrite E|done]].
  eapply within_bind; [by apply Hf, Hfr|]. intros [[m' fa'] r] (Hm' & Hfa' & Hr).
  split; [|by intros a [= <-]]. split; simpl; try done. by intros x [= <-].
Qed.

Lemma typed_request (f : mem -> FrameAllocator -> res (mem * FrameAllocator * option Z)) k :
  (forall m fa, typed_mem m -> typed_frames fa -> pure frames_result (f m fa)) -> typed_kernel k ->
  pure (typed_with typed_option) ('(k, o) ← with_frames f k; Ok (k, flatten o)).
Proof.
  intros Hf Hk. eapply within_bind; [apply (typed_with_frames typed_option)|].
  - intros m fa Hm Hfa. eapply within_mono; [|by apply Hf]. intros [[m' fa'] o]. done.
  - done.
  - intros [k' o] [Hk' Ho]. split; [done|]. destruct o as [o|]; [by apply Ho|done].
Qed.

Lemma typed_alloc_frame k : typed_kernel k -> pure (typed_with typed_option) (alloc_frame k).
Proof. intros Hk. apply typed_request; [|done]. apply typed_alloc. Qed.

Lemma typed_alloc_contiguous n k : 0 <= n -> typed_kernel k -> pure (typed_with typed_option) (alloc_contiguous n k).
Proof. intros Hn Hk. apply typed_request; [|done]. intros. by apply typed_contiguous. Qed.

Lemma typed_dealloc_frame addr k : in_u 64 addr -> typed_kernel k -> pure typed_kernel (dealloc_frame addr k).
Proof.
  intros Ha Hk. eapply within_bind; [apply (typed_with_frames (fun _ => True)); [|done]|by intros [k' o] [Hk' _]].
  intros m fa Hm Hfa. destruct (typed_dealloc m fa addr Hm Hfa Ha). by destruct (dealloc m fa addr).
Qed.

Lemma typed_frames_in_use k : typed_kernel k -> pure (typed_with (in_u 64)) (frames_in_use k).
Proof.
  intros Hk. eapply within_bind; [apply (typed_with_frames (in_u 64)); [|done]|].
  - intros m fa Hm Hfa. split; [done|]. split; [done|apply (tf_in_use _ Hfa)].
  - intros [k' o] [Hk' Ho]. split; [done|]. destruct o; [by apply Ho|done].
Qed.

Lemma typed_init_frames regions k : Forall MemoryRegion_ok regions -> typed_kernel k ->
  pure (typed_with (in_u 64)) (init_frames regions k).
Proof.
  intros Hr Hk. eapply within_bind; [by apply typed_frame_init|]. intros [[fa|] total] [Hfa Ht]; [|by split].
  eapply within_bind; [apply (typed_without_interrupts _ typed_kernel (fun _ => True)); [apply typed_set_if| |done]|by intros [k' _] [Hk' _]].
  intros s [Hm _ Hh]. split; [|done]. split; simpl; try done.
Qed.

Lemma typed_global_alloc fuel l k : typed_layout l -> typed_kernel k -> pure (typed_with (in_u 64)) (global_alloc fuel l k).
Proof.
  intros Hl Hk. apply typed_without_interrupts; [apply typed_set_if| |done]. intros s [Hm Hf Hh].
  eapply within_bind; [by apply typed_heap_alloc|]. intros [[m h] p] (Hm' & Hh' & Hp). split; [by split|done].
Qed.

Lemma typed_global_dealloc fuel p l k :
  in_u 64 p -> typed_layout l -> typed_kernel k -> pure typed_kernel (global_dealloc fuel p l k).
Proof.
  intros Hp Hl Hk. eapply within_bind; [apply (typed_without_interrupts _ typed_kernel (fun _ => True)); [apply typed_set_if| |done]|by intros [k' _] [Hk' _]].
  intros s [Hm Hf Hh]. eapply within_bind; [by apply typed_heap_dealloc|]. intros [m h] [Hm' Hh']. split; [by split|done].
Qed.

(** A walk that only reads. *)
Lemma typed_gauge (f : mem -> Heap -> res Z) k : typed_kernel k ->
  pure (typed_with (fun _ => True)) (without_interrupts (fun k => n ← f (k_mem k) (HEAP k); Ok (k, n)) k).
Proof.
  intros Hk. apply typed_without_interrupts; [apply typed_set_if| |done]. intros s Hs.
  eapply within_bind; [apply within_any|]. by split.
Qed.

Lemma typed_init_heap k : typed_kernel k ->
  pure (typed_with (fun o => forall a n, o = Some (a, n) -> in_u 64 a /\ in_u 64 n)) (init_heap k).
Proof.
  intros Hk. eapply within_bind; [by apply typed_alloc_contiguous|]. intros [k1 [a|]] [Hk1 Ha]; [|by split].
  specialize (Ha a eq_refl). eapply within_bind; [by apply (within_mul _ 64)|]. intros size Hs.
  eapply within_bind; [apply (typed_without_interrupts _ typed_kernel (fun _ => True)); [apply typed_set_if| |done]|].
  - intros s [Hm Hf Hh]. split; [|done]. split; simpl; try done. by apply typed_block.
  - intros [k2 _] [Hk2 _]. split; [done|]. by intros ? ? [= <- <-].
Qed.

(** ** The self-tests *)

Abbreviation tested := (within (fun _ : string => True)).

Lemma tested_ok_or {A} (P : A -> Prop) msg o : (forall a, o = Some a -> P a) -> tested P (ok_or msg o).
Proof. destruct o; simpl; auto. Qed.

Lemma tested_ensure b msg : tested (fun _ => True) (ensure b msg).
Proof. by destruct b. Qed.

Ltac checking := eapply within_bind; [apply tested_ensure|]; intros _ _.

Lemma typed_frame_selftest k : typed_kernel k -> tested typed_kernel (frame_selftest k).
Proof.
  assert (forall B Q msg k (f : kernel -> Z -> outcome string B), typed_kernel k ->
    (forall k a, typed_kernel k -> in_u 64 a -> tested Q (f k a)) ->
    tested Q ('(k, o) ← lift (alloc_frame k); a ← ok_or msg o; f k a)) as Halloc.
  { intros B Q msg k0 f Hk Hf. eapply within_bind; [by apply within_lift, typed_alloc_frame|]. intros [k1 o] [Hk1 Ho].
    eapply within_bind; [by apply (tested_ok_or (in_u 64))|]. intros a Ha. by apply Hf. }
  assert (forall B Q a k (f : kernel -> outcome string B), typed_kernel k -> in_u 64 a ->
    (forall k, typed_kernel k -> tested Q (f k)) -> tested Q (k ← lift (dealloc_frame a k); f k)) as Hfree.
  { intros B Q a k0 f Hk Ha Hf. eapply within_bind; [by apply within_lift, typed_dealloc_frame|]. apply Hf. }
  intros Hk. apply Halloc; [done|]. intros k1 first H1 Hfirst. do 2 checking. apply Hfree; [done..|]. intros k2 H2.
  apply Halloc; [done|]. intros k3 again H3 Hagain. checking. apply Hfree; [done..|]. intros k4 H4.
  apply Halloc; [done|]. intros k5 a H5 Ha. apply Halloc; [done|]. intros k6 b H6 Hb. checking.
  apply Hfree; [done..|]. intros k7 H7. apply Hfree; [done..|]. done.
Qed.

Record typed_vec (v : vec) : Prop := { tv_ptr : in_u 64 (v_ptr v); tv_cap : 0 <= v_cap v; tv_len : 0 <= v_len v }.

Lemma typed_store_at n a v k : typed_kernel k -> typed_kernel (store_at n a v k).
Proof. intros []. split; simpl; try done. by apply typed_store. Qed.

Lemma typed_write_at a bs k : Forall is_byte bs -> typed_kernel k ->
  typed_kernel (Kernel (k_if k) (write_bytes (k_mem k) a bs) (FRAMES k) (HEAP k)).
Proof. intros Hbs []. split; simpl; try done. by apply typed_write. Qed.

Lemma typed_or_alloc_error r : pure (typed_with (in_u 64)) r -> pure (typed_with (in_u 64)) (or_alloc_error r).
Proof. intros Hr. eapply within_bind; [exact Hr|]. intros [k p] Hkp. by destruct (p =? 0). Qed.

Lemma typed_global_realloc fuel p l n k : in_u 64 p -> typed_layout l -> 0 <= n -> typed_kernel k ->
  pure (typed_with (in_u 64)) (global_realloc fuel p l n k).
Proof.
  intros Hp [Hs Ha] Hn Hk. eapply within_bind; [by apply typed_global_alloc|]. intros [k1 q] [Hk1 Hq].
  destruct (q =? 0); [by split|]. eapply within_bind; [apply typed_global_dealloc; [done|done|]|by intros k2 Hk2].
  apply typed_write_at; [|done]. apply typed_read. apply Hk1.
Qed.

Lemma typed_grow fuel sz n v k : 0 <= sz -> 0 <= n -> typed_vec v -> typed_kernel k ->
  pure (typed_with typed_vec) (grow fuel sz n v k).
Proof.
  intros Hsz Hn [Hp Hc Hl] Hk. unfold grow. eapply within_bind; [by apply (within_add _ 64)|]. intros required [Hr _].
  set (cap := Z.max _ _). assert (0 <= cap) as Hcap by lia. clearbody cap. destruct (negb _); [done|].
  eapply within_bind; [apply typed_or_alloc_error|].
  - destruct (v_cap v =? 0); [apply typed_global_alloc|apply typed_global_realloc]; try done; try (split; simpl; lia). lia.
  - intros [k1 p] [Hk1 Hp1]. split; [done|]. by split.
Qed.

Lemma typed_push fuel x v k : typed_vec v -> typed_kernel k -> pure (typed_with typed_vec) (push fuel x v k).
Proof.
  intros Hv Hk. eapply (within_bind _ (typed_with typed_vec)).
  - destruct (v_len v =? v_cap v); [by apply typed_grow|by split].
  - intros [k1 v1] [Hk1 [Hp Hc Hl]]. split; [by apply typed_store_at|]. split; simpl; try done; lia.
Qed.

Lemma typed_push_str fuel s v k : Forall is_byte s -> typed_vec v -> typed_kernel k ->
  pure (typed_with typed_vec) (push_str fuel s v k).
Proof.
  intros Hs Hv Hk. eapply (within_bind _ (typed_with typed_vec)).
  - unfold reserve. destruct (_ <? _); [apply typed_grow; [done|lia|done|done]|by split].
  - intros [k1 v1] [Hk1 [Hp Hc Hl]]. split; [by apply typed_write_at|]. split; simpl; try done; lia.
Qed.

Lemma typed_vec_new sz : in_u 64 sz -> typed_vec (vec_new sz).
Proof. by split. Qed.

Lemma typed_vec_with_capacity fuel sz cap k : in_u 64 sz -> 0 <= cap -> typed_kernel k ->
  pure (typed_with typed_vec) (vec_with_capacity fuel sz cap k).
Proof.
  intros Hsz Hcap Hk. unfold vec_with_capacity. destruct (cap =? 0); [split; [done|by apply typed_vec_new]|].
  destruct Hsz. eapply within_bind; [apply typed_or_alloc_error, typed_global_alloc; [split; simpl; lia|done]|].
  intros [k1 p] [Hk1 Hp]. split; [done|by split].
Qed.

Lemma typed_vec_drop fuel sz v k : 0 <= sz -> typed_vec v -> typed_kernel k -> pure typed_kernel (vec_drop fuel sz v k).
Proof.
  intros Hsz [Hp Hc _] Hk. unfold vec_drop. destruct (_ =? 0); [done|].
  apply typed_global_dealloc; [done|split; simpl; lia|done].
Qed.

Lemma typed_heap_selftest fuel k : typed_kernel k -> tested typed_kernel (heap_selftest fuel k).
Proof.
  intros Hk. unfold heap_selftest.
  assert (typed_vec (vec_new 8) /\ typed_vec (vec_new 1)) as [Hnew8 Hnew1] by (split; by apply typed_vec_new).
  eapply within_bind; [apply within_lift, typed_gauge; exact Hk|]. intros [k0 before] [H0 _].
  eapply within_bind; [apply within_lift; eapply within_bind; [apply typed_or_alloc_error, typed_global_alloc; [|exact H0]; done|];
    intros [k1 p] [H1 Hp]; instantiate (1 := fun '(k, p) => typed_kernel k /\ in_u 64 p); split; [by apply typed_store_at|done]|].
  intros [k1 boxed] [H1 Hb]. checking.
  eapply within_bind; [by apply within_lift, typed_global_dealloc|]. intros k2 H2.
  eapply (within_bind _ (typed_with typed_vec)).
  { apply within_lift, within_for_range; [by split|]. intros i [k' v] [Hk' Hv]. by apply typed_push. }
  intros [k3 values] [H3 Hv3]. checking. eapply within_bind; [apply within_lift, within_any|]. intros x _.
  eapply (within_bind _ (fun _ => True)).
  { destruct (negb _); [done|]. eapply within_bind; [apply within_lift, within_any|]. intros y _. apply tested_ensure. }
  intros _ _. eapply within_bind; [by apply within_lift, typed_vec_drop|]. intros k4 H4.
  eapply (within_bind _ (typed_with typed_vec)).
  { apply within_lift, within_for_range; [by split|]. intros i [k' v] [Hk' Hv]. apply typed_push_str; [|done|done].
    repeat constructor; by vm_compute. }
  intros [k5 s] [H5 Hs5]. checking. eapply within_bind; [by apply within_lift, typed_vec_drop|]. intros k6 H6.
  do 3 (eapply within_bind; [apply within_lift, typed_vec_with_capacity; done|]; intros [? ?] [? ?]).
  do 3 (eapply within_bind; [by apply within_lift, typed_vec_drop|]; intros ? ?).
  eapply within_bind; [apply within_lift, typed_gauge; eassumption|]. intros [ka after] [Ha _]. checking.
  eapply within_bind; [apply within_lift, typed_gauge; eassumption|]. intros [kb bl] [Hkb _]. checking. done.
Qed.

(** ** The console and printing *)

Record typed_console (c : Console) : Prop := {
  tc_framebuffer : FrameBufferInfo_ok (co_framebuffer c);
  tc_column : in_u 64 (co_column c);
  tc_row : in_u 64 (co_row c);
  tc_columns : in_u 64 (co_columns c);
  tc_rows : in_u 64 (co_rows c);
}.

Abbreviation typed_screen := (fun '(c, m) => typed_console c /\ typed_mem m).

Lemma typed_set_cell row column c : typed_console c -> in_u 64 row -> in_u 64 column -> typed_console (set_cell row column c).
Proof. by intros []. Qed.

Lemma typed_console_new fb c : FrameBufferInfo_ok fb -> console_new fb = Some c -> typed_console c.
Proof.
  intros Hfb Hc. destruct (console_new_ok fb c Hfb Hc) as (Hok & Hco & Hr & Hcol & _).
  destruct Hfb as (Ha & Hs & Hw & Hh & Hrest).
  assert (forall x n, in_u 32 x -> 0 < n -> in_u 64 (x / n)) as Hdiv.
  { clear. unfold in_u. intros x n Hx Hn. split; [apply Z.div_pos; lia|].
    apply Z.div_lt_upper_bound; [lia|]. nia. }
  split; rewrite ?Hr, ?Hcol; try done.
  - by rewrite Hco.
  - rewrite (ok_columns c Hok), Hco. by apply Hdiv.
  - rewrite (ok_rows c Hok), Hco. by apply Hdiv.
Qed.

(** A pixel written, wherever it is. *)
Lemma typed_plot c x y v m : typed_mem m -> pure typed_mem (a ← pixel c x y; Ok (store 4 m a v)).
Proof. intros Hm. eapply within_bind; [apply within_any|]. intros a _. by apply typed_store. Qed.

Lemma typed_draw_glyph c byte m : typed_mem m -> pure typed_mem (draw_glyph c byte m).
Proof.
  intros Hm. unfold draw_glyph. do 3 (eapply within_bind; [apply within_any|]; intros ? _).
  apply within_for_range; [done|]. intros dy m1 Hm1. apply within_for_range; [done|]. intros dx m2 Hm2. cbv zeta.
  do 2 (eapply within_bind; [apply within_any|]; intros ? _). by apply typed_plot.
Qed.

Lemma typed_scroll c m : typed_mem m -> pure typed_mem (scroll c m).
Proof.
  intros Hm. unfold scroll. do 3 (eapply within_bind; [apply within_any|]; intros ? _).
  eapply within_bind; [apply within_any|]. intros top _.
  apply within_for_range; [apply typed_write; [done|by apply typed_read]|]. intros y m1 Hm1.
  apply within_for_range; [done|]. intros x m2 Hm2. by apply typed_plot.
Qed.

Lemma typed_newline c m : typed_console c -> typed_mem m -> pure typed_screen (newline c m).
Proof.
  intros Hc Hm. unfold newline. pose proof (tc_row _ Hc) as Hr.
  eapply within_bind; [apply (within_add _ 64); [apply Hr|done]|]. intros below Hb.
  destruct (below <? co_rows c); [split; [by apply typed_set_cell|done]|].
  eapply within_bind; [by apply typed_scroll|]. intros m1 Hm1. split; [by apply typed_set_cell|done].
Qed.

Lemma typed_write_byte o byte m : (forall c, o = Some c -> typed_console c) -> typed_mem m ->
  pure (fun '(o, m) => (forall c, o = Some c -> typed_console c) /\ typed_mem m) (write_byte o byte m).
Proof.
  intros Ho Hm. destruct o as [c|]; [|done]. specialize (Ho c eq_refl). unfold write_byte.
  eapply (within_bind _ typed_screen); [|intros [c1 m1] [Hc1 Hm1]; split; [by intros ? [= <-]|done]].
  unfold console_write_byte. destruct (byte =? 10); [by apply typed_newline|]. destruct (byte =? 13); [done|].
  eapply (within_bind _ typed_screen); [destruct (_ <=? _); [by apply typed_newline|done]|]. intros [c1 m1] [Hc1 Hm1].
  eapply within_bind; [by apply typed_draw_glyph|]. intros m2 Hm2. pose proof (tc_column _ Hc1) as Hcol.
  eapply within_bind; [apply (within_add _ 64); [apply Hcol|done]|]. intros column Hcol'.
  split; [apply typed_set_cell; [done|apply Hc1|done]|done].
Qed.

Lemma typed_fill_screen fb r g b m : is_byte r -> is_byte g -> is_byte b -> typed_mem m ->
  pure (fun '(m, _) => typed_mem m) (fill_screen fb r g b m).
Proof.
  intros Hr Hg Hb Hm. unfold fill_screen.
  set (px := match default Bgr (pixel_format fb) with Rgb => [r; g; b; 0] | Bgr => [b; g; r; 0] end).
  assert (Forall is_byte px) as Hpx.
  { assert (is_byte 0) by done. unfold px. destruct (default Bgr _); repeat (apply Forall_cons_2; [done|]); apply Forall_nil_2. }
  clearbody px. eapply (within_bind _ (fun '(m, _) => typed_mem m)); [|by intros [m1 n] Hm1].
  apply within_for_range; [done|]. intros y [m1 n1] Hm1. apply within_for_range; [done|]. intros x [m2 n2] Hm2.
  do 4 (eapply within_bind; [apply within_any|]; intros ? _). destruct (_ <? _).
  - eapply within_bind; [apply within_any|]. by intros ? _.
  - apply typed_write; [done|by apply Forall_take].
Qed.

Section Machine.
Context {D : Type} `{Device D} (fuel : nat).

Record typed_machine (s : machine D) : Prop := {
  tm_mem : typed_mem (mc_mem s);
  tm_console c : mc_console s = Some c -> typed_console c;
}.

Record typed_kstate (s : kstate D) : Prop := {
  ts_machine : typed_machine (ks_machine s);
  ts_ticks : in_u 64 (TICKS s);
  ts_keys : in_u 64 (KEY_EVENTS_SEEN s);
}.

Lemma typed_print bytes s : typed_machine s -> pure (fun '(s, _) => typed_machine s) (print fuel bytes s).
Proof.
  intros Hs. eapply within_mono; [|apply (typed_without_interrupts _ typed_machine (fun _ => True)); [by intros b ? []| |exact Hs]].
  - by intros [s' u] [Hs' _].
  - clear Hs. intros s0 Hs. eapply within_bind; [|by intros s' Hs'; split; [exact Hs'|]].
    revert s0 Hs. assert (forall byte s, typed_machine s -> pure typed_machine (emit fuel byte s)) as Hemit.
    { intros byte s1 [Hm Hc]. eapply within_bind; [apply within_any|]. intros i _.
      eapply within_bind; [by apply typed_write_byte|]. by intros [o m] [Ho Hm']. }
    induction bytes as [|byte bytes IH]; intros s0 Hs; [done|]. cbn [write_str].
    eapply (within_bind _ typed_machine); [destruct (byte =? 10); [by apply Hemit|done]|]. intros s1 Hs1.
    eapply within_bind; [by apply Hemit|]. intros s2 Hs2. by apply IH.
Qed.

Lemma typed_kprintln bytes s : typed_kstate s -> pure typed_kstate (kprintln fuel bytes s).
Proof.
  intros [Hm Ht Hk]. eapply within_bind; [by apply typed_print|]. by intros [k u] Hk'.
Qed.

Lemma typed_on_io f s : typed_kstate s -> typed_kstate (on_io f s).
Proof. intros [[Hm Hc] Ht Hk]. split; [by split|done|done]. Qed.

Lemma typed_flag b s : typed_kstate s -> typed_kstate (set_if b s).
Proof. intros [[Hm Hc] Ht Hk]. split; [by split|done|done]. Qed.

Lemma typed_timer s : typed_kstate s -> pure typed_kstate (timer_handler s).
Proof.
  intros [Hm Ht Hk]. eapply within_bind; [apply (within_add _ 64); [apply Ht|done]|]. intros t Ht'.
  apply typed_on_io. by split.
Qed.

Lemma typed_keyboard s : typed_kstate s -> pure typed_kstate (keyboard_handler fuel s).
Proof.
  intros Hs. eapply within_bind; [apply within_any|]. intros [i key] _.
  pose proof (typed_on_io (fun _ => i) s Hs) as Hs1. set (s1 := on_io _ s) in *. clearbody s1.
  eapply (within_bind _ typed_kstate); [|intros s2 Hs2; by apply typed_on_io].
  destruct key as [ascii|]; [|done]. destruct Hs1 as [Hm Ht Hk].
  eapply within_bind; [apply (within_add _ 64); [apply Hk|done]|]. intros n Hn. apply typed_kprintln. by split.
Qed.

(** ** The last phase, under any schedule *)

Lemma typed_deliver_all qs s : typed_kstate s -> pure typed_kstate (deliver_all fuel qs s).
Proof.
  revert s. induction qs as [|q qs IH]; intros s Hs; [done|]. cbn [deliver_all].
  eapply (within_bind _ typed_kstate); [|intros s1 Hs1; by apply IH]. unfold deliver. destruct (get_if s); [|done].
  eapply (within_bind _ typed_kstate); [|intros s1 Hs1; by apply typed_flag].
  destruct q; [apply typed_timer|apply typed_keyboard|apply typed_on_io]; by apply typed_flag.
Qed.

Lemma typed_counter (f : kstate D -> Z) s : (forall s, typed_kstate s -> in_u 64 (f s)) -> typed_kstate s ->
  pure (fun '(s, n) => typed_kstate s /\ in_u 64 n) (without_interrupts (fun s => Ok (s, f s)) s).
Proof.
  intros Hf Hs. apply typed_without_interrupts; [intros; by apply typed_flag| |done]. intros s' Hs'. split; [done|by apply Hf].
Qed.

Lemma typed_ticks s : typed_kstate s -> pure (fun '(s, n) => typed_kstate s /\ in_u 64 n) (ticks s).
Proof. apply typed_counter. by intros ? []. Qed.

Lemma typed_keys s : typed_kstate s -> pure (fun '(s, n) => typed_kstate s /\ in_u 64 n) (key_events_seen s).
Proof. apply typed_counter. by intros ? []. Qed.

Lemma typed_gap sched s : typed_kstate s -> pure (fun '(_, s) => typed_kstate s) (gap fuel sched s).
Proof.
  intros Hs. destruct sched as [|qs sched]; [done|]. eapply within_bind; [by apply typed_deliver_all|]. done.
Qed.

Lemma typed_wait_ticks sched s : typed_kstate s -> pure (fun '(_, s) => typed_kstate s) (wait_ticks fuel sched s).
Proof.
  revert s. induction sched as [|qs sched IH]; intros s Hs; [done|]. cbn [wait_ticks].
  eapply within_bind; [by apply typed_deliver_all|]. intros s1 Hs1.
  eapply within_bind; [by apply typed_ticks|]. intros [s2 t] [Hs2 _]. destruct (t <? _); [by apply IH|done].
Qed.

Lemma typed_wait_key deadline n sched s : (length sched <= n)%nat -> typed_kstate s ->
  pure (fun '(_, s, _) => typed_kstate s) (wait_key fuel deadline sched s).
Proof.
  revert sched s. induction n as [|n IH]; intros sched s Hn Hs; destruct sched as [|q sched]; try done; simpl in Hn; [lia|].
  cbn [wait_key]. eapply within_bind; [by apply typed_deliver_all|]. intros s1 Hs1.
  eapply within_bind; [by apply typed_keys|]. intros [s2 k] [Hs2 _]. destruct (negb _); [done|].
  destruct sched as [|q' sched]; [done|]. simpl in Hn. eapply within_bind; [by apply typed_deliver_all|]. intros s3 Hs3.
  eapply within_bind; [by apply typed_ticks|]. intros [s4 t] [Hs4 _]. destruct (deadline <? t); [done|].
  apply IH; [lia|done].
Qed.

Lemma typed_wait_phase sched s : typed_kstate s -> pure (fun '(s, _) => typed_kstate s) (wait_phase fuel sched s).
Proof.
  intros Hs. unfold wait_phase. eapply within_bind; [by apply typed_kprintln|]. intros s1 Hs1.
  eapply within_bind; [apply typed_wait_ticks; by apply typed_flag|]. intros [sch2 s2] Hs2.
  eapply within_bind; [by apply typed_gap|]. intros [sch_a sa] Hsa.
  eapply within_bind; [by apply typed_kprintln|]. intros sb Hsb.
  eapply within_bind; [by apply typed_gap|]. intros [sch_c sc] Hsc.
  eapply within_bind; [by apply typed_kprintln|]. intros sd Hsd.
  eapply within_bind; [by apply typed_gap|]. intros [sch3 s3] Hs3.
  eapply within_bind; [by apply typed_ticks|]. intros [s4 now] [Hs4 Hnow].
  eapply within_bind; [apply within_any|]. intros wait _. eapply within_bind; [apply within_any|]. intros deadline _.
  eapply within_bind; [by eapply typed_wait_key|]. intros [[sch5 s5] seen] Hs5.
  eapply within_bind; [by apply typed_gap|]. intros [sch6 s6] Hs6. destruct seen.
  - eapply within_bind; [by apply typed_keys|]. intros [s7 k] [Hs7 _].
    eapply within_bind; [by apply typed_gap|]. intros [sch8 s8] Hs8.
    eapply within_bind; [by apply typed_kprintln|]. intros s9 Hs9.
    eapply within_bind; [by apply typed_gap|]. intros [sch10 s10] Hs10. by apply typed_on_io.
  - eapply within_bind; [by apply typed_kprintln|]. intros s7 Hs7.
    eapply within_bind; [by apply typed_gap|]. intros [sch8 s8] Hs8. by apply typed_on_io.
Qed.
End Machine.

(** ** The boot *)

Definition typed_entry (e : Entry) : Prop :=
  in_u 16 (offset_low e) /\ in_u 16 (selector e) /\ in_u 8 (ist e) /\ in_u 8 (type_attributes e) /\
  in_u 16 (offset_middle e) /\ in_u 32 (offset_high e) /\ in_u 32 (reserved e).

Record typed_boot {D} (b : boot D) : Prop := {
  tb_state : typed_kstate (b_k b);
  tb_frames fa : b_frames b = Some fa -> typed_frames fa;
  tb_heap : in_u 64 (head (b_heap b));
  tb_idt : length (b_idt b) = 256%nat /\ Forall typed_entry (b_idt b);
}.

Lemma typed_as_u w x : 0 <= w -> in_u w (as_u w x).
Proof. intros Hw. unfold in_u, as_u. apply Z.mod_pos_bound. by apply Z.pow_pos_nonneg. Qed.

Lemma typed_set h index : (forall i, index = Some i -> 0 <= i) -> pure typed_entry (set h index).
Proof.
  intros Hi. unfold set. eapply (within_bind _ (in_u 8)).
  - destruct index as [i|]; [|done]. destruct (negb _); [done|]. specialize (Hi i eq_refl).
    eapply within_bind; [by apply (within_add _ 8)|]. intros j Hj. change 7 with (2 ^ 3 - 1). simpl within.
    rewrite land_mask by lia. unfold in_u. pose proof (Z.mod_pos_bound j (2 ^ 3)). lia.
  - intros ist Hist. repeat split; try (by apply typed_as_u); try apply Hist; done.
Qed.

Lemma typed_idt_init address table idt : length idt = 256%nat /\ Forall typed_entry idt ->
  pure (fun '(idt, _) => length idt = 256%nat /\ Forall typed_entry idt) (idt_init address table idt).
Proof.
  set (P := fun idt : Idt => length idt = 256%nat /\ Forall typed_entry idt).
  assert (forall v h index idt, (forall i, index = Some i -> 0 <= i) -> P idt ->
    pure P (e ← set h index; Ok (<[Z.to_nat v := e]> idt))) as Hset.
  { intros v h index idt0 Hi [Hl Hf]. eapply within_bind; [by apply typed_set|]. intros e He.
    split; [by rewrite length_insert|by apply Forall_insert]. }
  intros Hidt. unfold idt_init.
  eapply (within_bind _ P); [apply within_for_range; [done|]; intros v i Hi; by apply Hset|]. intros i0 H0.
  do 5 (eapply (within_bind _ P); [by apply Hset|]; intros ? ?).
  eapply (within_bind _ P); [apply Hset; [by intros ? [= <-]|done]|]. intros ? ?.
  do 2 (eapply (within_bind _ P); [by apply Hset|]; intros ? ?).
  eapply within_bind; [apply within_any|]. by intros limit _.
Qed.

Section Boot.
Context {D : Type} `{Device D} (fuel : nat).
Context (a : statics) (table : Z) (address : handler -> Z) (code_at : Z -> option handler).

Abbreviation booting := (within (fun e : halted (D := D) => typed_boot (fst e))).

Lemma typed_with_k s (b : boot D) : typed_kstate s -> typed_boot b -> typed_boot (with_k s b).
Proof. by intros Hs []. Qed.

Lemma typed_kernel_of (b : boot D) : typed_boot b -> typed_kernel (kernel_of b).
Proof. intros [[[Hm Hc] Ht Hk] Hf Hh Hi]. by split. Qed.

Lemma typed_with_kernel k (b : boot D) : typed_kernel k -> typed_boot b -> typed_boot (with_kernel k b).
Proof. intros [Hm Hf Hh] [[[Hm' Hc] Ht Hk] Hf' Hh' Hi]. split; [by split; [split| |]|done..]. Qed.

Lemma typed_say bytes (b : boot D) : typed_boot b -> booting typed_boot (say fuel bytes b).
Proof.
  intros Hb. eapply within_bind; [apply within_lift, typed_kprintln, Hb|]. intros s Hs. by apply typed_with_k.
Qed.

Lemma typed_fatal {A} P bytes (b : boot D) : typed_boot b -> booting P (fatal (A := A) fuel bytes b).
Proof.
  intros Hb. eapply within_bind; [by apply typed_say|]. intros b1 Hb1. simpl. apply typed_with_k; [|done].
  apply typed_on_io, Hb1.
Qed.

Lemma typed_on_ports f (b : boot D) : typed_boot b -> typed_boot (on_ports f b).
Proof. intros Hb. apply typed_with_k; [apply typed_on_io, Hb|done]. Qed.

Lemma typed_with_mem m (b : boot D) : typed_mem m -> typed_boot b -> typed_boot (with_mem m b).
Proof. intros Hm [[[Hm' Hc] Ht Hk] Hf Hh Hi]. split; [by split; [split| |]|done..]. Qed.

Lemma typed_gdt_init m : typed_mem m -> pure (fun '(_, m) => typed_mem m) (gdt_init a m).
Proof.
  intros Hm. unfold gdt_init. eapply within_bind; [apply within_any|]. intros top _. cbv zeta.
  do 3 (eapply within_bind; [apply within_any|]; intros ? _). unfold ltr. by repeat apply typed_store.
Qed.

Lemma typed_init_devices (b : boot D) : typed_boot b -> booting typed_boot (init_devices fuel a table address b).
Proof.
  intros Hb. unfold init_devices. eapply (within_bind _ typed_boot).
  { eapply within_bind; [apply within_lift, typed_gdt_init, Hb|]. intros [s m] Hm. apply typed_say.
    apply typed_with_mem; [done|]. by destruct Hb. }
  intros b1 Hb1. eapply (within_bind _ typed_boot).
  { eapply within_bind; [apply within_lift, typed_idt_init, Hb1|]. intros [idt p] Hidt. apply typed_say. by destruct Hb1. }
  intros b2 Hb2. eapply (within_bind _ typed_boot).
  { eapply within_bind; [by apply (within_add _ 8)|]. intros last _.
    by apply typed_say, typed_on_ports. }
  intros b3 Hb3. eapply (within_bind _ typed_boot).
  { eapply within_bind; [apply within_lift, within_any|]. intros i _. by apply typed_say, typed_on_ports. }
  intros b4 Hb4. unfold ps2_up. destruct (ps2_init _) as [i failed].
  eapply (within_bind _ typed_boot); [|intros b5 Hb5; by apply typed_say].
  destruct failed; [by apply typed_say, typed_on_ports|by apply typed_on_ports].
Qed.

Lemma typed_boot_selftest frame (b : boot D) : typed_boot b -> booting typed_boot (boot_selftest fuel code_at frame b).
Proof.
  intros Hb. eapply (within_bind _ typed_boot); [|intros b1 Hb1; by apply typed_say].
  unfold int3. destruct (b_idtr b); [|done]. destruct (delivered_to _ 3) as [g|]; [|done].
  destruct (code_at _) as [[]|]; try done.
  eapply within_bind; [apply within_lift, typed_kprintln|]; [destruct (g_masks g); [apply typed_flag|]; apply Hb|].
  intros s Hs. apply typed_with_k; [by apply typed_flag|done].
Qed.

Lemma typed_screen_up info (b : boot D) : FrameBufferInfo_ok (bi_framebuffer info) -> typed_boot b ->
  booting typed_boot (screen_up fuel info b).
Proof.
  intros Hfb Hb. eapply within_bind; [apply within_lift, typed_fill_screen; try done; apply Hb|].
  intros [m [skipped fell_back]] Hm. cbv zeta. pose proof (typed_with_mem m b Hm Hb) as Hb1.
  set (b1 := with_mem m b) in *. clearbody b1.
  eapply (within_bind _ typed_boot).
  { apply typed_say. destruct Hb1 as [[[Hm1 Hc] Ht Hk] Hf Hh Hi]. split; [split; [split|done|done]|done..]; [done|].
    intros c Hc'. by apply (typed_console_new (bi_framebuffer info)). }
  intros b2 Hb2. eapply (within_bind _ typed_boot); [destruct fell_back; [by apply typed_say|done]|].
  intros b3 Hb3. destruct (0 <? skipped); [by apply typed_say|done].
Qed.

Lemma typed_regions m info : typed_mem m -> Forall MemoryRegion_ok (memory_regions m info).
Proof.
  intros Hm. apply Forall_fmap, Forall_forall. intros i _. unfold MemoryRegion_ok. simpl.
  split; [by apply typed_load64|]. split; [by apply typed_load64|]. split; by apply typed_load32.
Qed.

Lemma typed_frames_up info (b : boot D) : typed_boot b ->
  booting (fun '(b, _) => typed_boot b) (frames_up fuel info b).
Proof.
  intros Hb. eapply within_bind.
  { apply within_lift, typed_init_frames; [apply typed_regions, Hb|by apply typed_kernel_of]. }
  intros [k total] [Hk [Ht _]]. cbv zeta. pose proof (typed_with_kernel k b Hk Hb) as Hb1.
  destruct (total =? 0); [by apply typed_fatal|].
  eapply within_bind; [by apply (within_mul _ 64)|]. intros bytes _.
  eapply within_bind; [by apply typed_say|]. intros b2 Hb2. eapply (within_bind _ typed_boot).
  { pose proof (typed_frame_selftest _ (typed_kernel_of b2 Hb2)) as Hst.
    destruct (frame_selftest (kernel_of b2)); try done; [by apply typed_with_kernel|by apply typed_fatal]. }
  intros b3 Hb3. eapply within_bind; [by apply typed_say|]. by intros b4 Hb4.
Qed.

Lemma typed_heap_up total (b : boot D) : typed_boot b -> booting typed_boot (heap_up fuel total b).
Proof.
  intros Hb. eapply within_bind; [apply within_lift, typed_init_heap; by apply typed_kernel_of|].
  intros [k o] [Hk _]. cbv zeta. pose proof (typed_with_kernel k b Hk Hb) as Hb1.
  destruct o as [[start size]|]; [|by apply typed_fatal].
  eapply within_bind; [apply within_lift, typed_frames_in_use; by apply typed_kernel_of|]. intros [k2 used] [Hk2 _].
  pose proof (typed_with_kernel k2 _ Hk2 Hb1) as Hb2.
  eapply within_bind; [by apply typed_say|]. intros b3 Hb3. eapply (within_bind _ typed_boot).
  { pose proof (typed_heap_selftest WALK_FUEL _ (typed_kernel_of b3 Hb3)) as Hst.
    destruct (heap_selftest WALK_FUEL (kernel_of b3)); try done; [by apply typed_with_kernel|by apply typed_fatal]. }
  intros b4 Hb4. by apply typed_say.
Qed.

Lemma typed_read_framebuffer m x : typed_mem m -> FrameBufferInfo_ok (bi_framebuffer (read_BootInfo m x)).
Proof.
  intros Hm. unfold FrameBufferInfo_ok. simpl. repeat (split; [by (apply typed_load64 || apply typed_load32)|]).
  by apply typed_load32.
Qed.

Lemma typed_start frame boot_info sched (b : boot D) : typed_boot b ->
  booting (fun _ => True) (kernel_start fuel a table address code_at frame boot_info sched b).
Proof.
  intros Hb. unfold kernel_start. cbv zeta. do 2 (eapply within_bind; [by apply typed_say; try apply typed_on_ports|]; clear dependent b; intros b Hb).
  destruct (boot_info =? 0); [by apply typed_fatal|]. destruct (negb _); [by apply typed_fatal|].
  set (info := read_BootInfo _ _). assert (FrameBufferInfo_ok (bi_framebuffer info)) as Hfb.
  { apply typed_read_framebuffer, Hb. }
  clearbody info. unfold kernel_main. eapply (within_bind _ typed_boot).
  - unfold bring_up. eapply (within_bind _ typed_boot).
    { eapply within_bind; [by apply typed_say|]. intros b1 Hb1. by apply typed_say. }
    intros b1 Hb1. eapply within_bind; [by apply typed_init_devices|]. intros b2 Hb2.
    eapply within_bind; [by apply typed_boot_selftest|]. intros b3 Hb3.
    eapply within_bind; [by apply typed_screen_up|]. intros b4 Hb4.
    eapply within_bind; [by apply typed_frames_up|]. intros [b5 total] Hb5. by apply typed_heap_up.
  - intros b1 Hb1. eapply within_bind; [apply within_lift, typed_wait_phase, Hb1|]. intros [s code] Hs.
    by apply typed_with_k.
Qed.
End Boot.

(** ** Properties *)

(** The kernel is type sound. Started on any memory whose cells are bytes,
    with any handoff pointer, memory map, framebuffer, device answers and
    interrupts, every run of [_start] that ends leaves every memory cell a byte
    and every machine integer of its state inside its width: both allocators'
    statics, the two counters, the console's cursor, and the 256 descriptors of
    the interrupt table, field by field. Arithmetic that would leave a width
    panics instead. *)
Theorem kernel_type_sound {D} `{Device D} fuel a table address code_at frame boot_info sched (b : boot D) b' code :
  typed_boot b ->
  kernel_start fuel a table address code_at frame boot_info sched b = Err (b', code) -> typed_boot b'.
Proof.
  intros Hb Hs. pose proof (typed_start fuel a table address code_at frame boot_info sched b Hb) as Ht.
  rewrite Hs in Ht. exact Ht.
Qed.

Lemma demo_typed : typed_boot (demo_entry 300).
Proof.
  split.
  - split; [|done|done]. split; [|done]. repeat apply typed_store. intros x v Hx. by rewrite lookup_empty in Hx.
  - done.
  - done.
  - split; [reflexivity|]. apply Forall_replicate. by repeat split.
Qed.

Lemma kernel_type_sound_witness : exists b' code,
  kernel_start 3 demo_statics 0x203000 demo_address demo_code demo_frame 0x6000
    demo_batches (demo_entry 300) = Err (b', code) /\ typed_boot b'.
Proof.
  destruct kernel_run_exits_witness as (b' & code & Hr). exists b', code. split; [exact Hr|].
  exact (kernel_type_sound 3 demo_statics 0x203000 demo_address demo_code demo_frame 0x6000
    demo_batches (demo_entry 300) b' code demo_typed Hr).
Defined.
