(* ===== verification/System.v ===== *)
(** The two programs as one: what the bootloader leaves in the processor and
    in memory ([bootloader/src/main.rs], [bootloader/src/handoff.rs]) is what
    the kernel's entry point ([kernel/src/main.rs]) starts from. *)
From Stdlib Require Import String.
From S2P Require Import Prelude Memory BootInfo Uefi Elf File Frame Heap Interrupts FrameApi HeapApi.
From S2P Require Import Handoff QemuExit Bootloader Port Pic Font Console Screen Serial Fmt Keyboard Gdt Idt Wait Interleave KeyPress Main.

(** The kernel's state at its first instruction: the flag and the memory the
    jump left, no access made to a port yet, and statics as the image has
    them. *)
Definition entered {D} (d : D) (c : cpu) (m : mem) : boot D :=
  Boot (KState (Machine (c_if c) (Io d []) None m) 0 0) None {| head := 0 |} Idt_new None None.

(** How a machine's run ends: through the exit device, in the bootloader or in
    the kernel with the state it left; or by the [uefi] crate, which resets the
    machine when [ExitBootServices] fails and whose panic handler shuts it down. *)
Inductive run_end (D : Type) :=
| In_bootloader (code : QemuExitCode)
| In_kernel (b : boot D) (code : QemuExitCode)
| Switched_off.
Arguments In_bootloader {D} _.
Arguments In_kernel {D} _ _.
Arguments Switched_off {D}.

(** What QEMU's process ends with; run with [-no-reboot], a reset or shutdown
    of the guest is an ordinary end. *)
Definition end_status {D} (e : run_end D) : Z :=
  match e with
  | In_bootloader code | In_kernel _ code => process_exit_code (QemuExitCode_as_u32 code)
  | Switched_off => 0
  end.

Section System.
Context {D : Type} `{Device D} (fuel : nat).
Context (a : statics) (table : Z) (address : handler -> Z) (code_at : Z -> option handler).

(** From the firmware starting the bootloader to the end of the run. *)
Definition power_on (frame : InterruptStackFrame) (sched : schedule) (d : D) (loaded : res boot_end) : res (run_end D) :=
  match loaded with
  | Ok (Exited code) => Ok (In_bootloader code)
  | Ok Reset_in_exit | Panic => Ok Switched_off
  | Ok (Jumped c m) =>
      match kernel_start fuel a table address code_at frame (c_rdi c) sched (entered d c m) with
      | Err (b, code) => Ok (In_kernel b code)
      | Ok n => match n with end
      | Panic => Panic
      | Loop => Loop
      end
  | Err e => match e with end
  | Loop => Loop
  end.
End System.

(** ** What else the machine owes *)

(** The segments an image asks to be loaded. *)
Definition kernel_segments (image : bytes) : list LoadSegment :=
  match parse_header image with
  | Ok (_, phoff, phentsize, phnum) => segments_of (Z.to_nat phnum) image phoff phentsize 0
  | _ => []
  end.

Definition in_segments (image : bytes) (x : Z) : Prop :=
  Exists (fun s => range (sg_vaddr s) (sg_memsz s) x) (kernel_segments image).

(** Those of them the file does not mark writable (bit 1 of [p_flags], which
    the loader ignores): the kernel's code and constants. *)
Fixpoint unwritable_of (n : nat) (image : bytes) (phoff i : Z) : list LoadSegment :=
  match n with
  | O => []
  | S n =>
      match parse_segment image phoff PHDR_SIZE i with
      | Ok (Some (s, _)) => if Z.testbit (field image (Z.to_nat (phoff + i * PHDR_SIZE + 4)) 4) 1 then [] else [s]
      | _ => []
      end ++ unwritable_of n image phoff (i + 1)
  end.

Definition constant_segments (image : bytes) : list LoadSegment :=
  match parse_header image with
  | Ok (_, phoff, _, phnum) => unwritable_of (Z.to_nat phnum) image phoff 0
  | _ => []
  end.

Lemma constant_segments_loaded image phnum phoff entry s :
  parse_header image = Ok (entry, phoff, PHDR_SIZE, phnum) ->
  s ∈ constant_segments image -> s ∈ kernel_segments image.
Proof.
  intros Hh. unfold constant_segments, kernel_segments. rewrite Hh. generalize 0 as i.
  induction (Z.to_nat phnum) as [|n IH]; intros i; [done|]. cbn [unwritable_of segments_of].
  rewrite !elem_of_app. intros [Hs|Hs]; [left|right; by apply IH].
  destruct (parse_segment image phoff PHDR_SIZE i) as [[[s' e]|]| | |]; [|done..].
  destruct (Z.testbit _ _); [by apply elem_of_nil in Hs|done].
Qed.

(** What neither program checks, of the firmware, the linker and the screen:
    the final map's spans do not overlap and end below 2^63, the framebuffer
    is one the console takes and is no part of usable memory nor of the loader's,
    and the kernel's tables and handlers are where its image says. *)
Record platform (a : statics) (address : handler -> Z) (code_at : Z -> option handler) (frame : InterruptStackFrame)
    (image : bytes) (fb : FrameBufferInfo) (c : cpu) (m : mem) : Prop := {
  pf_console : is_Some (console_new fb);
  pf_below : Forall below_top (memory_regions m (read_BootInfo m (c_rdi c)));
  pf_disjoint : disjoint_map (memory_regions m (read_BootInfo m (c_rdi c)));
  pf_low x : owned (usable_frames (memory_regions m (read_BootInfo m (c_rdi c)))) x -> x < 2 ^ 63;
  pf_screen x : screen fb x ->
    ~ owned (usable_frames (memory_regions m (read_BootInfo m (c_rdi c)))) x /\
    ~ boot_reserved (kernel_segments image) c (read_BootInfo m (c_rdi c)) x;
  pf_tables x : table_bytes a x -> in_segments image x;
  pf_placed : placed a;
  pf_address h : in_u 64 (address h);
  pf_code : code_at (address breakpoint) = Some breakpoint;
  pf_frame : isf_ok frame;
}.

Section Handoff.
Context {F : Type} `{ExitServices F} {D : Type} `{Device D}.
Context (image : bytes) (fb : FrameBufferInfo) (c : cpu) (m : mem) (d : D).
Context (Hdel : delivered (F := F) image fb c m).

Let info : BootInfo := read_BootInfo m (c_rdi c).

Lemma delivered_segments :
  (forall s i, s ∈ kernel_segments image -> 0 <= i < sg_memsz s -> peek m (sg_vaddr s + i) =
     if i <? sg_filesz s then default 0 (image !! Z.to_nat (sg_offset s + i)) else 0) /\
  (forall fr x, Exists (fun r => frame_usable r fr) (memory_regions m info) ->
     range fr PAGE_SIZE x -> ~ boot_reserved (kernel_segments image) c info x) /\
  (forall x, range (c_rdi c) size_of_BootInfo x \/
     range (bi_memory_regions_ptr info) (bi_memory_regions_len info * size_of_MemoryRegion) x ->
     ~ in_segments image x).
Proof using Hdel.
  destruct Hdel as (entry & phoff & phnum & f1 & m1 & ds & m2 & _ & Hh & _ & _ & _ & _ & _ & _ & _ & _ & _ & _ & _ & Hs & Hf & Hx).
  unfold in_segments, kernel_segments. rewrite Hh. by split.
Qed.

Lemma delivered_struct :
  c_if c = false /\ c_rdi c <> 0 /\ BootInfo_ok info /\ is_valid info = true /\ bi_framebuffer info = fb /\
  Forall MemoryRegion_ok (memory_regions m info).
Proof using Hdel.
  destruct Hdel as (entry & phoff & phnum & f1 & m1 & ds & m2 & _ & Hh & Hi & _ & _ & _ & _ & Hr & Hb & Hv & Hf & _ & Hm & _).
  by repeat (split; [done|]).
Qed.

(** A usable frame shares no byte with what the kernel stands on. *)
Lemma pool_clear x :
  owned (usable_frames (memory_regions m info)) x -> ~ boot_reserved (kernel_segments image) c info x.
Proof using Hdel.
  intros (fr & Hin & Hx). apply elem_of_usable_frames in Hin; [|apply delivered_struct].
  by apply (proj1 (proj2 delivered_segments) fr).
Qed.

(** The bootloader's promises and the platform's make up everything the boot
    sequence asks for. *)
Lemma handoff_ready a address code_at frame :
  platform a address code_at frame image fb c m ->
  ready a address code_at frame (c_rdi c) info (entered d c m) /\
  pool_of info (entered d c m) = usable_frames (memory_regions m info).
Proof using Hdel.
  intros [Hc Hbel Hdis Hlow Hscr Htab Hp Ha Hcode Hfr]. fold info in Hbel, Hdis, Hlow, Hscr.
  destruct delivered_struct as (_ & Hrdi & Hok & Hv & Hfb & Hm).
  destruct delivered_segments as (_ & _ & Hslice). rewrite <- Hfb in Hc, Hscr.
  split; [|done]. unfold in_segments in *.
  split; unfold pool_of; try done.
  - intros x Hx Hs. exact (proj1 (Hscr x Hs) Hx).
  - intros x Hx. apply Htab in Hx. split; intros Hy.
    + apply (proj2 (Hscr x Hy)). by left.
    + apply (pool_clear x Hy). by left.
  - intros x Hx. split; intros Hy.
    + apply (proj2 (Hscr x Hy)). by right; right; right.
    + by apply (Hslice x (or_intror Hx)), Htab.
Qed.
End Handoff.

(** ** Properties *)

(** The handoff is never refused. Whatever the firmware answers and
    whatever kernel file it read, a bootloader that enters the kernel has left
    it a struct its entry point accepts: [_start] prints its banner, passes the
    null and validity checks, and goes on to [kernel_main] with exactly the
    struct and map the bootloader wrote, no byte of memory having changed. *)
Theorem handoff_accepted {F H} `{ExitServices F} `{!FileProtocol H} {D} `{Device D} init fsr vol
    (open : handle H + Z) file_size gh op (f : F) m0 c m n fuel a table address code_at frame sched (d : D) :
  answers_ok open file_size op ->
  bootloader init fsr vol open file_size gh op f m0 = Ok (Jumped c m) ->
  live (D := D) n -> (n < fuel)%nat ->
  let info := read_BootInfo m (c_rdi c) in
  exists b, kernel_start fuel a table address code_at frame (c_rdi c) sched (entered d c m) =
      kernel_main fuel a table address code_at frame info sched b /\
    transcript (entered d c m) b start_lines /\ mem_agree (fun _ => True) m (mc_mem (b_machine b)) /\
    mc_if (b_machine b) = false /\ open_framebuffer gh op = Ok (bi_framebuffer info).
Proof.
  intros Hao Hb Hl Hf info.
  destruct (bootloader_jumped init fsr vol open file_size gh op f m0 c m Hao Hb)
    as (h & size & fb & _ & _ & _ & Hfb & Hd).
  destruct (delivered_struct _ _ _ _ Hd) as (Hif & Hrdi & _ & Hv & Hbf & _). fold info in Hv, Hbf.
  destruct (banner_spec n fuel Hl Hf (entered d c m) eq_refl) as (b & Hr & _ & Tr & _ & A & I & _).
  exists b. split; [|split; [done|split; [done|split; [by rewrite I|by rewrite Hbf]]]].
  unfold kernel_start. rewrite Hr. destruct (Z.eqb_spec (c_rdi c) 0) as [E|_]; [done|].
  rewrite <- (read_BootInfo_agree m) by (eapply mem_agree_mono; [|exact A]; done).
  fold info. by rewrite Hv.
Qed.

(** What is left of the image and of the handoff once the kernel waits. *)
Lemma untouched_segment {F} `{ExitServices F} (image : bytes) fb c m a x :
  delivered (F := F) image fb c m ->
  (forall y, screen fb y -> ~ boot_reserved (kernel_segments image) c (read_BootInfo m (c_rdi c)) y) ->
  boot_reserved (kernel_segments image) c (read_BootInfo m (c_rdi c)) x -> ~ table_bytes a x ->
  ~ touched a fb (usable_frames (memory_regions m (read_BootInfo m (c_rdi c)))) x.
Proof.
  intros Hd Hs Hr Ht [Hx|[Hx|Hx]]; [by apply Ht|by apply (Hs x)|].
  by apply (pool_clear _ _ _ _ Hd x).
Qed.

(** C2: the two programs together. On a platform whose firmware map is
    well formed and large enough, a machine whose bootloader enters the kernel
    reaches the kernel's wait for interrupts with the bootloader's work intact:
    the kernel's code and constants, every byte of every segment the file does
    not mark writable, are still as the file has them (a descriptor table a
    linker put among them apart), and the struct and the memory map are
    untouched: nothing the boot stores through an address, pixels, block headers,
    list nodes and descriptors, goes astray. The heap and every frame left to
    allocate lie clear of these, of the writable segments and of the stack; and
    the console is the firmware's framebuffer. *)
Theorem boot_keeps_image {F H} `{ExitServices F} `{!FileProtocol H} {D} `{Device D} init fsr vol h size
    gh op file_size (f : F) m0 c m n fuel a table address code_at frame sched fb (d : D) :
  let image := firstn (Z.to_nat size) (contents h) in
  let info := read_BootInfo m (c_rdi c) in
  let segs := kernel_segments image in
  answers_ok (inl (Regular h)) file_size op -> file_size h = inl size ->
  bootloader init fsr vol (inl (Regular h)) file_size gh op f m0 = Ok (Jumped c m) ->
  open_framebuffer gh op = Ok fb -> platform a address code_at frame image fb c m ->
  live (D := D) n -> (n < fuel)%nat ->
  has_run (memory_regions m info) (HEAP_FRAMES + 2) ->
  exists b base A,
    kernel_start fuel a table address code_at frame (c_rdi c) sched (entered d c m) =
      ('(s, code) ← lift (wait_phase fuel sched (b_k b)); Err (with_k s b, code)) /\
    screen_is (Some fb) b /\ tables_ok a address b /\ Owns (kernel_of b) A HEAP_FRAMES /\
    Inv base (base + HEAP_BYTES) (mc_mem (b_machine b)) (b_heap b) [(base, HEAP_BYTES)] /\
    (forall s i, s ∈ constant_segments image -> 0 <= i < sg_memsz s -> ~ table_bytes a (sg_vaddr s + i) ->
       peek (mc_mem (b_machine b)) (sg_vaddr s + i) =
       if i <? sg_filesz s then default 0 (image !! Z.to_nat (sg_offset s + i)) else 0) /\
    mem_agree (fun x => range (c_rdi c) size_of_BootInfo x \/
        range (bi_memory_regions_ptr info) (bi_memory_regions_len info * size_of_MemoryRegion) x) m (mc_mem (b_machine b)) /\
    (forall x, boot_reserved segs c info x -> ~ owned A x /\ ~ range base HEAP_BYTES x).
Proof.
  intros image info segs Hao Hsz Hb Hfb Hpf Hl Hf Hrun.
  destruct (bootloader_jumped init fsr vol (inl (Regular h)) file_size gh op f m0 c m Hao Hb)
    as (h' & size' & fb' & [= <-] & Hs' & _ & Hfb' & Hd).
  rewrite Hsz in Hs'. injection Hs' as <-. rewrite Hfb in Hfb'. injection Hfb' as <-.
  fold image in Hd. destruct (handoff_ready image fb c m d Hd _ _ _ _ Hpf) as [Hrd Hpool].
  destruct (delivered_struct _ _ _ _ Hd) as (_ & _ & _ & _ & Hbf & _).
  destruct (delivered_segments _ _ _ _ Hd) as (Hseg & _ & Hslice).
  fold info segs in Hrd, Hpool, Hbf, Hseg, Hslice.
  destruct (start_spec n fuel Hl Hf a table address code_at frame (c_rdi c) info sched (entered d c m) Hrd) as
    (failed & [[[Hc|Hc] _]|[_ (b & base & A & Hr & _ & Sc & G & HA & HO & HI & Hm & _)]]).
  { apply has_run_length in Hrun. change (usable_frames _) with (pool_of info (entered d c m)) in Hrun.
    unfold HEAP_FRAMES in Hrun. lia. }
  { done. }
  rewrite Hbf in Sc, Hm. rewrite Hpool in HA, Hm.
  assert (mem_agree (fun x => boot_reserved segs c info x /\ ~ table_bytes a x) m (mc_mem (b_machine b))) as Hag.
  { eapply mem_agree_mono; [|exact Hm]. intros x [Hx Ht]. apply (untouched_segment _ _ _ _ _ _ Hd); [|done..].
    intros y Hy. by apply (pf_screen _ _ _ _ _ _ _ _ Hpf y Hy). }
  exists b, base, A. do 5 (split; [done|]). split; [|split].
  - intros s i Hin Hi Ht. destruct (id Hd) as (? & phoff & phnum & _ & _ & _ & _ & _ & Hh & _).
    apply (constant_segments_loaded _ _ _ _ _ Hh) in Hin. rewrite <- (Hseg s i Hin Hi). symmetry. apply Hag.
    split; [|done]. left. apply Exists_exists. exists s. split; [done|]. unfold range. lia.
  - eapply mem_agree_mono; [|exact Hag]. intros x Hx. split; [by right; right|].
    intros Ht. by apply (Hslice x Hx), (pf_tables _ _ _ _ _ _ _ _ Hpf).
  - intros x Hx. split; intros Hy; apply (pool_clear _ _ _ _ Hd x); try done; fold info; rewrite HA, owned_app.
    + by right.
    + left. by apply owned_run_frames.
Qed.

(** The ends of a run, by what the firmware answered. *)
Lemma power_on_spec {F H} `{ExitServices F} `{!FileProtocol H} {D} `{Device D} init fsr vol
    (open : handle H + Z) file_size gh op (f : F) m0 n fuel a table address code_at frame sched (d : D) :
  let loaded := bootloader init fsr vol open file_size gh op f m0 in
  answers_ok open file_size op ->
  (forall h size fb c m, open = inl (Regular h) -> file_size h = inl size ->
     loaded = Ok (Jumped c m) -> open_framebuffer gh op = Ok fb ->
     platform a address code_at frame (firstn (Z.to_nat size) (contents h)) fb c m) ->
  live (D := D) n -> (n < fuel)%nat ->
  BEATS <= beats sched -> irqs sched < 2 ^ 60 ->
  exists e, power_on fuel a table address code_at frame sched d loaded = Ok e /\
    match e with
    | In_bootloader code => code = Failed
    | In_kernel b code =>
        (exists l, io_log (mc_io (b_machine b)) = l ++ [Out ISA_DEBUG_EXIT_PORT (QemuExitCode_as_u32 code)]) /\
        (code = Success -> TICKS_REQUIRED <= TICKS (b_k b) /\ 0 < KEY_EVENTS_SEEN (b_k b))
    | Switched_off =>
        (exists h size, open = inl (Regular h) /\ file_size h = inl size /\ ~ served f size) \/
        exists (f1 : F) m1, exit_boot_services f1 m1 = None
    end.
Proof.
  intros loaded Hao Hpf Hl Hf Hbeats Hirqs.
  pose proof (bootloader_spec init fsr vol open file_size gh op f m0 Hao) as Hs. fold loaded in Hs.
  destruct loaded as [[code| |c m]| | |] eqn:Hx; try done.
  1: by exists (In_bootloader code).
  1: by exists Switched_off; split; [|right].
  2: by exists Switched_off; split; [|left].
  destruct Hs as (h & size & fb & Hh & Hsz & _ & Hfb & Hd).
  destruct (handoff_ready _ fb c m d Hd _ _ _ _ (Hpf h size fb c m Hh Hsz eq_refl Hfb)) as [Hrd _].
  cbn [power_on].
  destruct (start_spec n fuel Hl Hf a table address code_at frame (c_rdi c) (read_BootInfo m (c_rdi c)) sched
    (entered d c m) Hrd) as
    (failed & [[_ (b & -> & l & Hlog & _)]|[_ (b & base & A & -> & _ & Sc & _ & _ & _ & _ & _ & _ & T & K)]]).
  { exists (In_kernel b Failed). split; [done|]. split; [|done]. eexists. rewrite Hlog, app_assoc. done. }
  assert (exists t, displays (ks_machine (b_k b)) t) as [t Ht].
  { unfold screen_is in Sc. destruct (mc_console (b_machine b)); [|done]. by destruct Sc as [_ Sc]. }
  destruct (wait_phase_spec n fuel sched (b_k b) t Hl Hf Ht T K Hbeats Hirqs)
    as (s & code & l & -> & Hlog & Hcode). cbn [lift]. rewrite bind_Ok.
  exists (In_kernel (with_k s b) code). split; [done|]. split; [by exists l|]. intros ->. by destruct Hcode as (_ & ? & ?).
Qed.

(** A boot with enough memory, and what a press in time makes of it. *)
Lemma power_on_press {F H} `{ExitServices F} `{!FileProtocol H} {D} `{Device D} `{!Typist D} init fsr vol h size
    gh op file_size (f : F) m0 c m n fuel a table address code_at frame sched fb (d : D) :
  let loaded := bootloader init fsr vol (inl (Regular h)) file_size gh op f m0 in
  let info := read_BootInfo m (c_rdi c) in
  answers_ok (inl (Regular h)) file_size op -> file_size h = inl size ->
  loaded = Ok (Jumped c m) -> open_framebuffer gh op = Ok fb ->
  platform a address code_at frame (firstn (Z.to_nat size) (contents h)) fb c m ->
  live (D := D) n -> (n < fuel)%nat ->
  has_run (memory_regions m info) (HEAP_FRAMES + 2) ->
  BEATS <= beats sched -> irqs sched < 2 ^ 60 ->
  exists b failed base, transcript (entered d c m) b
      (boot_lines info failed frame (Z.of_nat (length (usable_frames (memory_regions m info)))) base) /\
    (press_within (TICKS_REQUIRED + 10 * TIMER_HZ) (typed (io_dev (mc_io (b_machine b)))) sched ->
     exists s l, wait_phase fuel sched (b_k b) = Ok (s, Success) /\
       power_on fuel a table address code_at frame sched d loaded = Ok (In_kernel (with_k s b) Success) /\
       io_log (mc_io (ks_machine s)) = l ++ [Out ISA_DEBUG_EXIT_PORT (QemuExitCode_as_u32 Success)]).
Proof.
  intros loaded info Hao Hsz Hb Hfb Hpf Hl Hf Hrun Hbeats Hirqs.
  destruct (bootloader_jumped init fsr vol (inl (Regular h)) file_size gh op f m0 c m Hao Hb)
    as (h' & size' & fb' & [= <-] & Hs' & _ & Hfb' & Hd).
  rewrite Hsz in Hs'. injection Hs' as <-. rewrite Hfb in Hfb'. injection Hfb' as <-.
  destruct (handoff_ready _ fb c m d Hd _ _ _ _ Hpf) as [Hrd Hpool].
  fold info in Hrd, Hpool.
  destruct (start_spec n fuel Hl Hf a table address code_at frame (c_rdi c) info sched (entered d c m) Hrd) as
    (failed & [[[Hc|Hc] _]|[_ (b & base & A & Hr & Tr & Sc & _ & _ & _ & _ & _ & _ & T & K)]]).
  { apply has_run_length in Hrun. change (usable_frames _) with (pool_of info (entered d c m)) in Hrun.
    unfold HEAP_FRAMES in Hrun. lia. }
  { done. }
  exists b, failed, base. split; [by rewrite <- Hpool|]. intros Hpress.
  assert (exists t, displays (ks_machine (b_k b)) t) as [t Ht].
  { unfold screen_is in Sc. destruct (mc_console (b_machine b)); [|done]. by destruct Sc as [_ Sc]. }
  destruct (wait_phase_spec n fuel sched (b_k b) t Hl Hf Ht T K Hbeats Hirqs) as (s & code & l & Hw & Hlog & _).
  pose proof (press_succeeds fuel sched (b_k b) s code T K Hpress Hw) as ->.
  exists s, l. split; [done|]. split; [|done]. rewrite Hb. cbn [power_on]. by rewrite Hr, Hw.
Qed.

(** C4: a press in time is enough. On a platform whose memory has room for the
    heap, a machine whose bootloader enters the kernel prints exactly the
    boot's lines and, if the keyboard hands over the press of a key with a
    character before eleven seconds of ticks have passed since interrupts came
    on (the hundred the timer has to prove itself with and the ten seconds of
    the wait), ends the run with the code QEMU turns into 33: no order of ticks,
    spurious interrupts, releases and other keys makes it miss that press. *)
Theorem power_on_succeeds {F H} `{ExitServices F} `{!FileProtocol H} {D} `{Device D} `{!Typist D} init fsr vol h size
    gh op file_size (f : F) m0 c m n fuel a table address code_at frame sched fb (d : D) :
  let loaded := bootloader init fsr vol (inl (Regular h)) file_size gh op f m0 in
  let info := read_BootInfo m (c_rdi c) in
  answers_ok (inl (Regular h)) file_size op -> file_size h = inl size ->
  loaded = Ok (Jumped c m) -> open_framebuffer gh op = Ok fb ->
  platform a address code_at frame (firstn (Z.to_nat size) (contents h)) fb c m ->
  live (D := D) n -> (n < fuel)%nat ->
  has_run (memory_regions m info) (HEAP_FRAMES + 2) ->
  BEATS <= beats sched -> irqs sched < 2 ^ 60 ->
  exists b failed base, transcript (entered d c m) b
      (boot_lines info failed frame (Z.of_nat (length (usable_frames (memory_regions m info)))) base) /\
    (press_within 1100 (typed (io_dev (mc_io (b_machine b)))) sched ->
     exists s l, power_on fuel a table address code_at frame sched d loaded = Ok (In_kernel (with_k s b) Success) /\
       io_log (mc_io (ks_machine s)) = l ++ [Out ISA_DEBUG_EXIT_PORT 0x10] /\ process_exit_code 0x10 = 33).
Proof.
  intros loaded info Hao Hsz Hb Hfb Hpf Hl Hf Hrun Hbeats Hirqs.
  destruct (power_on_press init fsr vol h size gh op file_size f m0 c m n fuel a table address code_at frame sched fb d
    Hao Hsz Hb Hfb Hpf Hl Hf Hrun Hbeats Hirqs) as (b & failed & base & Tr & Hp).
  exists b, failed, base. split; [exact Tr|]. intros Hpress. destruct (Hp Hpress) as (s & l & _ & Hr & Hlog).
  by exists s, l.
Qed.


(** C5: every fair boot ends, and ends as [power_on] says. On a platform whose
    memory has room for the heap, a kernel the bootloader enters comes to its
    last phase with interrupts off; let that phase then run in any way at all,
    interrupts landing at any instruction that lets them in, as long as the timer
    does not stop and the kernel is not kept from its own code for good: the
    machine comes to the exit, and the whole run from power on is one of
    [power_on], on the interrupts that were taken. There are such runs. *)
Theorem fair_boot_ends {F H} `{ExitServices F} `{!FileProtocol H} {D} `{Device D} init fsr vol h size
    gh op file_size (f : F) m0 c m n fuel a table address code_at frame fb (d : D) :
  let loaded := bootloader init fsr vol (inl (Regular h)) file_size gh op f m0 in
  let info := read_BootInfo m (c_rdi c) in
  answers_ok (inl (Regular h)) file_size op -> file_size h = inl size ->
  loaded = Ok (Jumped c m) -> open_framebuffer gh op = Ok fb ->
  platform a address code_at frame (firstn (Z.to_nat size) (contents h)) fb c m ->
  live (D := D) n -> (n < fuel)%nat ->
  has_run (memory_regions m info) (HEAP_FRAMES + 2) ->
  exists b failed base, transcript (entered d c m) b
      (boot_lines info failed frame (Z.of_nat (length (usable_frames (memory_regions m info)))) base) /\
    (exists run lab, fair_run fuel run lab /\ run 0%nat = (At_enabling, b_k b)) /\
    forall run lab, fair_run fuel run lab -> run 0%nat = (At_enabling, b_k b) ->
      exists i code s sched, run i = (Over code, s) /\ concat sched = taken run lab i /\
        power_on fuel a table address code_at frame sched d loaded = Ok (In_kernel (with_k s b) code) /\
        match code with
        | Success => process_exit_code (QemuExitCode_as_u32 code) = 33 /\ TICKS_REQUIRED <= TICKS s /\ 0 < KEY_EVENTS_SEEN s
        | Failed => process_exit_code (QemuExitCode_as_u32 code) = 35 /\ TICKS_REQUIRED + 10 * TIMER_HZ < TICKS s
        end.
Proof.
  intros loaded info Hao Hsz Hb Hfb Hpf Hl Hf Hrun.
  destruct (bootloader_jumped init fsr vol (inl (Regular h)) file_size gh op f m0 c m Hao Hb)
    as (h' & size' & fb' & [= <-] & Hs' & _ & Hfb' & Hd).
  rewrite Hsz in Hs'. injection Hs' as <-. rewrite Hfb in Hfb'. injection Hfb' as <-.
  destruct (handoff_ready _ fb c m d Hd _ _ _ _ Hpf) as [Hrd Hpool]. fold info in Hrd, Hpool.
  destruct (start_paths n fuel Hl Hf a table address code_at frame (c_rdi c) info (entered d c m) Hrd) as
    (failed & [[[Hc|Hc] _]|[_ (b & base & A & Hr & Tr & Sc & _ & _ & _ & _ & _ & I & T & K)]]).
  { apply has_run_length in Hrun. change (usable_frames _) with (pool_of info (entered d c m)) in Hrun.
    unfold HEAP_FRAMES in Hrun. lia. }
  { done. }
  destruct (delivered_struct _ _ _ _ Hd) as (Hoff & _).
  assert (get_if (b_k b) = false) as Hif by (etrans; [exact I|exact Hoff]).
  assert (exists t, displays (ks_machine (b_k b)) t) as [t Ht].
  { unfold screen_is in Sc. destruct (mc_console (b_machine b)); [|done]. by destruct Sc as [_ Sc]. }
  exists b, failed, base. split; [by rewrite <- Hpool|].
  split; [by apply (fair_run_exists n fuel (b_k b) t)|]. intros run lab Hfair Hrun0.
  destruct (fair_run_spec fuel (b_k b) run lab Hfair Hrun0 Hif) as (i & code & s & sched & Hi & Hs & Hw & Hv); [by rewrite K|].
  exists i, code, s, sched. split; [done|]. split; [done|]. split; [|by destruct code].
  rewrite Hb. cbn [power_on]. by rewrite Hr, Hw.
Qed.

(** ** Instances *)

(** A kernel file of one 32 KiB segment, its tables and fault stack inside it,
    booted by the firmware of [Bootloader]. *)
Definition system_elf : bytes :=
  demo_ehdr 0x200010 1 ++ demo_phdr PT_LOAD 120 0x200010 4 0x8000 ++ [0xeb; 0xfe; 0x90; 0x90].
Definition system_statics : statics := {| TSS := 0x200100; GDT := 0x200200; FAULT_STACK := 0x201000 |}.
Definition system_address (h : handler) : Z := match h with breakpoint => 0x206000 | _ => 0x206100 end.
Definition system_code (x : Z) : option handler := if x =? 0x206000 then Some breakpoint else None.
Definition system_file : chunked := Chunked system_elf 0 99.
Definition system_boot : res boot_end :=
  bootloader (inl tt) (inl tt) (inl tt) (inl (Regular system_file)) (fun _ => inl 124)
    (inl tt) (inl demo_gop) demo_firmware ∅.

Lemma system_answers_ok : answers_ok (inl (Regular system_file)) (fun _ => inl 124) (inl demo_gop).
Proof.
  split.
  - intros h [= <-]. split; [reflexivity|]. by intros size [= <-].
  - intros h [= <-]. apply is_bytes_ok. vm_compute. reflexivity.
  - intros gop [= <-]. by split; vm_compute.
Qed.

Definition system_info : BootInfo :=
  BootInfo_new {| fb_addr := 0x80000000; fb_size := 4096000; fb_width := 1280; fb_height := 800; fb_stride := 1280;
    fb_bytes_per_pixel := 4; fb_pixel_format_raw := 1; fb_pad := 0 |} 0x1000000 1 0x200000 0x9000.

Lemma system_jumps : exists c m, system_boot = Ok (Jumped c m) /\
  c_rsp c = 0x1011ff8 /\ c_rdi c = 0x1012000 /\ read_BootInfo m (c_rdi c) = system_info /\
  memory_regions m system_info = [MemoryRegion_new 0x8000000 1024 CONVENTIONAL].
Proof.
  assert (match system_boot with
    | Ok (Jumped c m) => c_rsp c = 0x1011ff8 /\ c_rdi c = 0x1012000 /\ read_BootInfo m (c_rdi c) = system_info /\
        memory_regions m system_info = [MemoryRegion_new 0x8000000 1024 CONVENTIONAL]
    | _ => False end) as Hx by (vm_compute; repeat split).
  destruct system_boot as [[| |c m]| | |]; [destruct Hx|destruct Hx| |destruct Hx..]. exists c, m. split; [reflexivity|exact Hx].
Qed.

Lemma system_image : firstn (Z.to_nat 124) (contents system_file) = system_elf.
Proof. vm_compute. reflexivity. Qed.

Lemma system_segments :
  kernel_segments system_elf = [{| sg_offset := 120; sg_vaddr := 0x200010; sg_filesz := 4; sg_memsz := 0x8000 |}].
Proof. vm_compute. reflexivity. Qed.

Lemma system_pool_bounds x :
  owned (usable_frames [MemoryRegion_new 0x8000000 1024 CONVENTIONAL]) x -> 0x8000000 <= x < 0x8400000.
Proof.
  intros (f & Hin & Hx). apply elem_of_usable_frames in Hin; [|repeat constructor; by vm_compute].
  apply Exists_cons in Hin as [Hf|Hf]; [|by apply Exists_nil in Hf].
  destruct Hf as (_ & _ & _ & _ & Hlo & Hhi). unfold mr_end in Hhi. simpl in *. unfold range, PAGE_SIZE in *. lia.
Qed.

Lemma system_platform fb c m :
  c_rsp c = 0x1011ff8 -> c_rdi c = 0x1012000 -> read_BootInfo m (c_rdi c) = system_info ->
  memory_regions m system_info = [MemoryRegion_new 0x8000000 1024 CONVENTIONAL] -> fb = bi_framebuffer system_info ->
  platform system_statics system_address system_code demo_frame system_elf fb c m.
Proof.
  intros Hsp Hdi Hb Hm ->. split; rewrite ?Hb, ?Hm.
  - destruct (console_new (bi_framebuffer system_info)) eqn:E; [by eexists|]. by vm_compute in E.
  - constructor; [|constructor]. intros run Hr. vm_compute in Hr. injection Hr as <-. by vm_compute.
  - by repeat constructor.
  - intros x Hx%system_pool_bounds. lia.
  - intros x Hx. change (range 0x80000000 4096000 x) in Hx. unfold range in Hx.
    split; [intros Hy%system_pool_bounds; lia|]. unfold boot_reserved. rewrite system_segments, Hsp, Hdi.
    change (bi_memory_regions_ptr system_info) with 0x1000000.
    change (bi_memory_regions_len system_info * size_of_MemoryRegion) with 24.
    change size_of_BootInfo with 88. unfold range. intros [Hy|[Hy|[Hy|Hy]]]; try lia.
    apply Exists_cons in Hy as [Hy|Hy]; [simpl in Hy; lia|by apply Exists_nil in Hy].
  - intros x Hx. unfold in_segments. rewrite system_segments. left. unfold table_bytes, range in *. simpl in *. lia.
  - assert (size_of_TSS = 104) as Hz by reflexivity.
    split; rewrite ?Hz; cbn [TSS GDT FAULT_STACK system_statics]; unfold GDT_ENTRIES, FAULT_STACK_SIZE;
      [lia|lia|split; [lia|split; [reflexivity|lia]]|lia].
  - intros []; unfold in_u; simpl; lia.
  - reflexivity.
  - unfold isf_ok, in_u. simpl. lia.
Qed.

Lemma system_boots : exists c m, system_boot = Ok (Jumped c m) /\
  has_run (memory_regions m (read_BootInfo m (c_rdi c))) (HEAP_FRAMES + 2) /\
  platform system_statics system_address system_code demo_frame
    (firstn (Z.to_nat 124) (contents system_file)) (bi_framebuffer system_info) c m.
Proof.
  destruct system_jumps as (c & m & Hb & Hsp & Hdi & Hi & Hm). exists c, m. split; [exact Hb|]. split.
  - rewrite Hi, Hm. left. by vm_compute.
  - rewrite system_image. exact (system_platform _ c m Hsp Hdi Hi Hm eq_refl).
Qed.

Lemma handoff_accepted_witness : exists c m b,
  system_boot = Ok (Jumped c m) /\
  kernel_start 3 system_statics 0x204000 system_address system_code demo_frame (c_rdi c) [] (entered 0%nat c m) =
    kernel_main 3 system_statics 0x204000 system_address system_code demo_frame (read_BootInfo m (c_rdi c)) [] b.
Proof.
  destruct system_jumps as (c & m & Hb & _).
  destruct (handoff_accepted (inl tt) (inl tt) (inl tt) (inl (Regular system_file)) (fun _ => inl 124) (inl tt)
    (inl demo_gop) demo_firmware ∅ c m 2 3 system_statics 0x204000 system_address system_code demo_frame [] 0%nat
    system_answers_ok Hb slow_uart_live ltac:(lia)) as (b & Hr & _).
  exists c, m, b. exact (conj Hb Hr).
Defined.

Lemma boot_keeps_image_witness : exists c m b base A,
  system_boot = Ok (Jumped c m) /\
  kernel_start 3 system_statics 0x204000 system_address system_code demo_frame (c_rdi c) [] (entered 0%nat c m) =
    ('(s, code) ← lift (wait_phase 3 [] (b_k b)); Err (with_k s b, code)) /\
  Owns (kernel_of b) A HEAP_FRAMES /\ (forall x, range base HEAP_BYTES x -> ~ range 0x200010 0x8000 x).
Proof.
  destruct system_boots as (c & m & Hb & Hrun & Hpf).
  destruct (boot_keeps_image (inl tt) (inl tt) (inl tt) system_file 124 (inl tt) (inl demo_gop) (fun _ => inl 124)
    demo_firmware ∅ c m 2 3 system_statics 0x204000 system_address system_code demo_frame [] _ 0%nat
    system_answers_ok eq_refl Hb eq_refl Hpf slow_uart_live ltac:(lia) Hrun)
    as (b & base & A & Hs & _ & _ & HO & _ & _ & _ & Hclear).
  exists c, m, b, base, A. split; [exact Hb|]. split; [exact Hs|]. split; [exact HO|].
  intros x Hx Hy. refine (proj2 (Hclear x _) Hx). left. rewrite system_image, system_segments. by left.
Defined.


Lemma power_on_succeeds_witness : exists b s,
  power_on 3 system_statics 0x204000 system_address system_code demo_frame
    demo_batches (HeldKey 0) system_boot = Ok (In_kernel (with_k s b) Success).
Proof.
  destruct system_boots as (c & m & Hb & Hrun & Hpf).
  destruct (power_on_succeeds (inl tt) (inl tt) (inl tt) system_file 124 (inl tt) (inl demo_gop) (fun _ => inl 124)
    demo_firmware ∅ c m 2 3 system_statics 0x204000 system_address system_code demo_frame
    demo_batches _ (HeldKey 0)
    system_answers_ok eq_refl Hb eq_refl Hpf held_live ltac:(lia) Hrun) as (b & failed & base & _ & Hp).
  - apply demo_batches_beats.
  - apply demo_batches_beats.
  - destruct Hp as (s & l & Hr & _).
    + exists [[]; [TimerIrq; SpuriousIrq]], [], [], (drop 3 demo_batches).
      split; [reflexivity|]. split; [vm_compute; discriminate|reflexivity].
    + exists b, s. exact Hr.
Defined.

Lemma fair_boot_ends_witness : exists b run lab i s code sched,
  fair_run (D := nat) 3 run lab /\ run 0%nat = (At_enabling, b_k b) /\ run i = (Over code, s) /\
  power_on 3 system_statics 0x204000 system_address system_code demo_frame sched 0%nat system_boot =
    Ok (In_kernel (with_k s b) code).
Proof.
  destruct system_boots as (c & m & Hb & Hrun & Hpf).
  destruct (fair_boot_ends (inl tt) (inl tt) (inl tt) system_file 124 (inl tt) (inl demo_gop) (fun _ => inl 124)
    demo_firmware ∅ c m 2 3 system_statics 0x204000 system_address system_code demo_frame _ 0%nat
    system_answers_ok eq_refl Hb eq_refl Hpf slow_uart_live ltac:(lia) Hrun)
    as (b & failed & base & _ & (run & lab & Hf & H0) & Hall).
  destruct (Hall run lab Hf H0) as (i & code & s & sched & Hi & _ & Hp & _).
  exists b, run, lab, i, s, code, sched. exact (conj Hf (conj H0 (conj Hi Hp))).
Defined.
