(* ===== verification/Xtask.v ===== *)
(** The harness's checks of a run ([xtask/src/main.rs]): the screen capture it
    waits for and compares, the exit codes it expects of QEMU, and that the
    kernel's boot gives it what it looks for. *)
From Stdlib Require Import String.
From S2P Require Import Prelude Memory BootInfo Font Console Screen Port Interrupts Serial QemuExit Fmt.

(** ** [check_screen_has_text] *)

Definition bytes := list Z.

Definition KERNEL_SCREENSHOT_DIMENSIONS : bytes := text "1280 800".
Definition KERNEL_SCREENSHOT_WIDTH : Z := 1280.
Definition KERNEL_SCREENSHOT_HEIGHT : Z := 800.
Definition KERNEL_BACKGROUND : bytes := [0x00; 0x33; 0x99].
Definition KERNEL_FOREGROUND : bytes := [0xE0; 0xE0; 0xE0].
Definition KERNEL_FIRST_GLYPH : list Z :=
  scanlines 0x00 0x00 0x38 0x6c 0x64 0x60 0xf0 0x60 0x60 0x60 0x60 0xf0 0x00 0x00 0x00 0x00.

(** Why a capture is refused. *)
Inductive screen_error :=
| NoCapture
| NotP6
| WrongDimensions (got : bytes)
| WrongMaxval
| DimensionsOverflow
| WrongLength (got : Z)
| GlyphMissing.

(** The bytes before the first line feed, and those after it. *)
Fixpoint split_line (data : bytes) : option (bytes * bytes) :=
  match data with
  | [] => None
  | b :: data =>
      if b =? 10 then Some ([], data)
      else '(l, r) ← split_line data; Some (b :: l, r)
  end.

(** [slice.splitn(n, |b| *b == b'\n')]: at most [n] parts, the last unsplit. *)
Fixpoint splitn (n : nat) (data : bytes) : list bytes :=
  match n with
  | O => []
  | S O => [data]
  | S n => match split_line data with
           | None => [data]
           | Some (l, r) => l :: splitn n r
           end
  end.

(** [parts.next().unwrap_or(b"")]. *)
Definition part (parts : list bytes) (i : nat) : bytes := default [] (parts !! i).

(** [pixels.get(offset..offset + 3)]. *)
Definition get_pixel (pixels : bytes) (offset : Z) : option bytes :=
  if offset + 3 <=? Z.of_nat (length pixels) then Some (take 3 (drop (Z.to_nat offset) pixels)) else None.

Definition bytes_eqb (a b : bytes) : bool := bool_decide (a = b).

(** The capture as [fs::read] returns it. *)
Definition check_screen_has_text (capture : option bytes) : outcome screen_error unit :=
  data ← ok_or NoCapture capture;
  let parts := splitn 4 data in
  if negb (bytes_eqb (part parts 0) (text "P6")) then Err NotP6 else
  if negb (bytes_eqb (part parts 1) KERNEL_SCREENSHOT_DIMENSIONS) then Err (WrongDimensions (part parts 1)) else
  if negb (bytes_eqb (part parts 2) (text "255")) then Err WrongMaxval else
  let pixels := part parts 3 in
  expected_len ← ok_or DimensionsOverflow
    (n ← checked_mul 64 KERNEL_SCREENSHOT_WIDTH KERNEL_SCREENSHOT_HEIGHT; checked_mul 64 n 3);
  if negb (Z.of_nat (length pixels) =? expected_len) then Err (WrongLength (Z.of_nat (length pixels))) else
  for_range 0 (Z.of_nat (length KERNEL_FIRST_GLYPH)) (fun y u =>
    let scanline := default 0 (KERNEL_FIRST_GLYPH !! Z.to_nat y) in
    for_range 0 8 (fun x _ =>
      row ← mul_u 64 y KERNEL_SCREENSHOT_WIDTH;
      p ← add_u 64 row x;
      offset ← mul_u 64 p 3;
      let expected := if lit scanline x then KERNEL_FOREGROUND else KERNEL_BACKGROUND in
      if negb (bool_decide (get_pixel pixels offset = Some expected)) then Err GlyphMissing else Ok tt) u) tt.

(** ** The exit codes *)

Definition EXPECTED_EXIT_CODE : Z := 33.
Definition FAILURE_EXIT_CODE : Z := 35.

(** ** What the check accepts *)

(** A loop of checks that stops at the first failure. *)
Lemma for_n_checks {E} n a (body : Z -> unit -> outcome E unit) (P : Z -> Prop) e :
  (forall i, a <= i < a + Z.of_nat n -> (body i tt = Ok tt /\ P i) \/ (body i tt = Err e /\ ~ P i)) ->
  (for_n n a body tt = Ok tt /\ forall i, a <= i < a + Z.of_nat n -> P i) \/
  (for_n n a body tt = Err e /\ ~ forall i, a <= i < a + Z.of_nat n -> P i).
Proof.
  revert a. induction n as [|n IH]; intros a Hb; simpl for_n.
  - left. split; [done|]. intros i Hi. lia.
  - destruct (Hb a ltac:(lia)) as [[-> Ha]|[-> Ha]].
    + rewrite bind_Ok. destruct (IH (a + 1)) as [[-> Hall]|[-> Hno]]; [intros i Hi; apply Hb; lia| |].
      * left. split; [done|]. intros i Hi. destruct (Z.eq_dec i a) as [->|]; [done|apply Hall; lia].
      * right. split; [done|]. intros Hall. apply Hno. intros i Hi. apply Hall. lia.
    + right. split; [done|]. intros Hall. apply Ha, Hall. lia.
Qed.

Lemma for_range_checks {E} a b (body : Z -> unit -> outcome E unit) (P : Z -> Prop) e :
  a <= b ->
  (forall i, a <= i < b -> (body i tt = Ok tt /\ P i) \/ (body i tt = Err e /\ ~ P i)) ->
  (for_range a b body tt = Ok tt /\ forall i, a <= i < b -> P i) \/
  (for_range a b body tt = Err e /\ ~ forall i, a <= i < b -> P i).
Proof.
  intros Hab Hb. pose proof (for_n_checks (Z.to_nat (b - a)) a body P e) as H.
  replace (a + Z.of_nat (Z.to_nat (b - a))) with b in H by lia. exact (H Hb).
Qed.

Lemma split_line_Some data l r : split_line data = Some (l, r) -> data = l ++ 10 :: r.
Proof.
  revert l. induction data as [|b data IH]; intros l; simpl; [done|].
  destruct (Z.eqb_spec b 10) as [->|]; [by intros [= <- <-]|].
  destruct (split_line data) as [[l' r']|]; [|done]. simpl. intros [= <- <-]. simpl. f_equal. by apply IH.
Qed.

Lemma split_line_app l r : 10 ∉ l -> split_line (l ++ 10 :: r) = Some (l, r).
Proof.
  induction l as [|b l IH]; intros Hl; simpl; [done|]. apply not_elem_of_cons in Hl as [Hb Hl].
  destruct (Z.eqb_spec b 10); [congruence|]. by rewrite IH.
Qed.

Lemma no_line_feed l : forallb (fun b => negb (b =? 10)) l = true -> 10 ∉ l.
Proof. intros Hl Hin. rewrite forallb_forall in Hl. apply list_elem_of_In, Hl in Hin. done. Qed.

(** The header of a capture of the kernel's surface. *)
Definition ppm_header : bytes := line (text "P6") ++ line (text "1280 800") ++ line (text "255").

Definition pixel_bytes : Z := 1280 * 800 * 3.

(** The three bytes of pixel (x, y) of a capture. *)
Definition captured (pixels : bytes) (x y : Z) : bytes := take 3 (drop (Z.to_nat ((y * 1280 + x) * 3)) pixels).

(** The top-left cell holds the glyph in the kernel's colours. *)
Definition shows_first_glyph (pixels : bytes) : Prop :=
  forall x y, 0 <= x < 8 -> 0 <= y < 16 ->
    captured pixels x y = if glyph_bit 102 x y then KERNEL_FOREGROUND else KERNEL_BACKGROUND.

(** The harness's copy of the bitmap is the font's [f]. *)
Lemma first_glyph_is_f : KERNEL_FIRST_GLYPH = bitmap_of 102.
Proof. reflexivity. Qed.

Lemma glyph_loop pixels :
  Z.of_nat (length pixels) = pixel_bytes ->
  let loop := for_range 0 (Z.of_nat (length KERNEL_FIRST_GLYPH)) (fun y u =>
    let scanline := default 0 (KERNEL_FIRST_GLYPH !! Z.to_nat y) in
    for_range 0 8 (fun x _ =>
      row ← mul_u 64 y KERNEL_SCREENSHOT_WIDTH;
      p ← add_u 64 row x;
      offset ← mul_u 64 p 3;
      let expected := if lit scanline x then KERNEL_FOREGROUND else KERNEL_BACKGROUND in
      if negb (bool_decide (get_pixel pixels offset = Some expected)) then Err GlyphMissing else Ok tt) u) tt in
  (loop = Ok tt /\ shows_first_glyph pixels) \/ (loop = Err GlyphMissing /\ ~ shows_first_glyph pixels).
Proof.
  intros Hlen. cbv zeta. unfold pixel_bytes in Hlen.
  match goal with |- (for_range 0 ?n ?body tt = _ /\ _) \/ _ => destruct (for_range_checks 0 n body
    (fun y => forall x, 0 <= x < 8 ->
       captured pixels x y = if glyph_bit 102 x y then KERNEL_FOREGROUND else KERNEL_BACKGROUND) GlyphMissing)
    as [[-> Hall]|[-> Hno]] end; [lia| | |].
  2: { left. split; [done|]. intros x y Hx Hy. by apply Hall. }
  2: { right. split; [done|]. intros Hs. apply Hno. intros y Hy x Hx. by apply Hs. }
  intros y Hy. change (Z.of_nat (length KERNEL_FIRST_GLYPH)) with 16 in Hy. cbv beta.
  apply for_range_checks; [lia|]. intros x Hx. unfold KERNEL_SCREENSHOT_WIDTH.
  rewrite mul_u_ok, bind_Ok by lia. rewrite add_u_ok, bind_Ok by lia. rewrite mul_u_ok, bind_Ok by lia.
  unfold get_pixel. destruct (Z.leb_spec ((y * 1280 + x) * 3 + 3) (Z.of_nat (length pixels))); [|lia].
  rewrite first_glyph_is_f. fold (glyph_bit 102 x y). fold (captured pixels x y).
  destruct (decide (captured pixels x y = if glyph_bit 102 x y then KERNEL_FOREGROUND else KERNEL_BACKGROUND)) as [He|He].
  - left. rewrite bool_decide_true by (by f_equal). done.
  - right. rewrite bool_decide_false by (by intros [= ?]). done.
Qed.

(** The parts of a capture whose first three lines are as expected. *)
Lemma parts_header pixels :
  splitn 4 (ppm_header ++ pixels) = [text "P6"; text "1280 800"; text "255"; pixels].
Proof.
  assert (ppm_header ++ pixels = text "P6" ++ 10 :: (text "1280 800" ++ 10 :: (text "255" ++ 10 :: pixels))) as -> by reflexivity.
  cbn [splitn]. rewrite split_line_app by (by apply no_line_feed).
  rewrite split_line_app by (by apply no_line_feed).
  rewrite split_line_app by (by apply no_line_feed). reflexivity.
Qed.

Lemma header_of_parts data :
  part (splitn 4 data) 0 = text "P6" -> part (splitn 4 data) 1 = text "1280 800" ->
  part (splitn 4 data) 2 = text "255" -> part (splitn 4 data) 3 <> [] ->
  data = ppm_header ++ part (splitn 4 data) 3.
Proof.
  cbn [splitn]. destruct (split_line data) as [[l1 r1]|] eqn:E1; [|done].
  destruct (split_line r1) as [[l2 r2]|] eqn:E2; [|done].
  destruct (split_line r2) as [[l3 r3]|] eqn:E3; [|done].
  apply split_line_Some in E1, E2, E3. subst. unfold part. simpl. intros -> -> -> _.
  reflexivity.
Qed.

Lemma check_screen_exact_spec data :
  check_screen_has_text (Some data) = Ok tt <->
  exists pixels, data = ppm_header ++ pixels /\ Z.of_nat (length pixels) = pixel_bytes /\ shows_first_glyph pixels.
Proof.
  unfold check_screen_has_text, ok_or. rewrite bind_Ok. cbv zeta.
  unfold bytes_eqb, KERNEL_SCREENSHOT_DIMENSIONS. split.
  - pose proof (header_of_parts data) as Hhp. set (parts := splitn 4 data) in *. clearbody parts.
    destruct (decide (part parts 0 = text "P6")) as [E0|E0];
      [rewrite (bool_decide_true _ E0)|rewrite (bool_decide_false _ E0); intros Hx; discriminate Hx].
    destruct (decide (part parts 1 = text "1280 800")) as [E1|E1];
      [rewrite (bool_decide_true _ E1)|rewrite (bool_decide_false _ E1); intros Hx; discriminate Hx].
    destruct (decide (part parts 2 = text "255")) as [E2|E2];
      [rewrite (bool_decide_true _ E2)|rewrite (bool_decide_false _ E2); intros Hx; discriminate Hx].
    cbn [negb]. change (_ ← checked_mul 64 _ _; _) with (Some 3072000). cbv iota. rewrite bind_Ok.
    destruct (Z.eqb_spec (Z.of_nat (length (part parts 3))) 3072000) as [Hlen|]; cbn [negb];
      [|intros Hx; discriminate Hx].
    destruct (glyph_loop _ Hlen) as [[_ Hs]|[Hl _]]; [|cbv zeta in Hl; rewrite Hl; intros Hx; discriminate Hx].
    intros _. exists (part parts 3). split; [|by split].
    apply Hhp; try done. intros E3. by rewrite E3 in Hlen.
  - intros (pixels & -> & Hlen & Hs). rewrite parts_header.
    set (parts := [text "P6"; text "1280 800"; text "255"; pixels]).
    change (part parts 0) with (text "P6"). change (part parts 1) with (text "1280 800").
    change (part parts 2) with (text "255"). change (part parts 3) with pixels.
    rewrite !bool_decide_true by done. cbn [negb].
    change (_ ← checked_mul 64 _ _; _) with (Some 3072000). cbv iota. rewrite bind_Ok.
    rewrite Hlen. change (pixel_bytes =? 3072000) with true. cbn [negb].
    destruct (glyph_loop _ Hlen) as [[Hl _]|[_ Hn]]; [exact Hl|done].
Qed.

(** The check always comes to a verdict: none of its arithmetic overflows. *)
Lemma check_screen_settles capture : settled (check_screen_has_text capture).
Proof.
  destruct capture as [data|]; [|exact I]. unfold check_screen_has_text, ok_or. rewrite bind_Ok. cbv zeta.
  destruct (negb _); [exact I|]. destruct (negb _); [exact I|]. destruct (negb _); [exact I|].
  change (_ ← checked_mul 64 _ _; _) with (Some 3072000). cbv iota. rewrite bind_Ok.
  destruct (Z.eqb_spec (Z.of_nat (length (part (splitn 4 data) 3))) 3072000) as [Hlen|]; cbn [negb]; [|exact I].
  destruct (glyph_loop _ Hlen) as [[Hl _]|[Hl _]]; cbv zeta in Hl; by rewrite Hl.
Qed.

(** ** From the kernel's screen to the check *)

(** The red, green and blue of a framebuffer pixel. *)
Definition channels (f : PixelFormatKind) (v : Z) : bytes :=
  match f with
  | Rgb => [v mod 256; v / 256 mod 256; v / 65536 mod 256]
  | Bgr => [v / 65536 mod 256; v / 256 mod 256; v mod 256]
  end.

(** A capture of the screen, as QEMU's [screendump] documents it: the header
    and, row by row, the three channels of every pixel. *)
Record captures (fb : FrameBufferInfo) (f : PixelFormatKind) (m : mem) (data : bytes) : Prop := {
  cap_pixels : exists pixels, data = ppm_header ++ pixels /\ Z.of_nat (length pixels) = pixel_bytes /\
    forall x y, 0 <= x < 1280 -> 0 <= y < 800 -> captured pixels x y = channels f (pixel_at fb m x y);
}.

Lemma channels_pack f r g b :
  0 <= r < 256 -> 0 <= g < 256 -> 0 <= b < 256 -> channels f (pack f r g b) = [r; g; b].
Proof.
  intros Hr Hg Hb.
  assert (forall x y z, 0 <= x < 256 -> 0 <= y < 256 -> 0 <= z < 256 ->
    Z.lor (Z.lor x (Z.shiftl y 8)) (Z.shiftl z 16) = x + y * 256 + z * 65536) as Hsum.
  { clear. intros x y z Hx Hy Hz. rewrite (lor_shiftl x) by lia. rewrite lor_shiftl by lia. lia. }
  unfold channels, pack. destruct f; rewrite Hsum by done;
    (assert (forall x y z, 0 <= x < 256 -> 0 <= y < 256 -> 0 <= z < 256 ->
      (x + y * 256 + z * 65536) mod 256 = x /\ (x + y * 256 + z * 65536) / 256 mod 256 = y /\
      (x + y * 256 + z * 65536) / 65536 mod 256 = z) as Hd by (clear; intros; divmod)).
  - by destruct (Hd r g b Hr Hg Hb) as (-> & -> & ->).
  - by destruct (Hd b g r Hb Hg Hr) as (-> & -> & ->).
Qed.

(** A screen whose first cell holds an [f] gives a capture the check takes. *)
Lemma shown_f_passes fb c f m t data :
  FrameBufferInfo_ok fb -> console_ok c -> co_framebuffer c = fb ->
  fb_width fb = 1280 -> fb_height fb = 800 ->
  co_foreground c = pack f 0xE0 0xE0 0xE0 -> co_background c = pack f 0x00 0x33 0x99 ->
  shows c m t -> t_cell t 0 0 = 102 -> captures fb f m data ->
  check_screen_has_text (Some data) = Ok tt.
Proof.
  intros Hfb Hok Hco Hw Hh Hfg Hbg Hsh Hf [(pixels & -> & Hlen & Hpx)].
  apply check_screen_exact_spec. exists pixels. split; [done|]. split; [done|].
  intros x y Hx Hy. rewrite Hpx by lia.
  assert (co_columns c = 160 /\ co_rows c = 50) as [Hc Hr].
  { rewrite (ok_columns c Hok), (ok_rows c Hok), Hco, Hw, Hh. done. }
  rewrite <- Hco, (sh_cell c m t Hsh) by lia.
  rewrite (Z.div_small x 8), (Z.div_small y 16), (Z.mod_small x 8), (Z.mod_small y 16), Hf by lia.
  rewrite Hfg, Hbg. destruct (glyph_bit 102 x y); by apply channels_pack.
Qed.

(** ** Properties *)

(** C21: the screen check accepts exactly the files that are a whole 1280x800
    eight-bit colour PPM whose top-left cell is the font's letter f in the
    console's two colours; anything else, a missing file, another size, a
    truncated payload or one wrong pixel of the cell, is refused. *)
Theorem check_screen_exact capture :
  check_screen_has_text capture = Ok tt <->
  exists data pixels, capture = Some data /\ data = ppm_header ++ pixels /\
    Z.of_nat (length pixels) = pixel_bytes /\ shows_first_glyph pixels.
Proof.
  destruct capture as [data|].
  - rewrite check_screen_exact_spec. split.
    + intros (pixels & H1 & H2 & H3). by exists data, pixels.
    + intros (d & pixels & [= <-] & H1 & H2 & H3). by exists pixels.
  - split; [done|]. by intros (d & p & [=] & _).
Qed.

(** C20: on the 1280x800 framebuffer the harness expects, the kernel's own
    sequence (fill the screen, start the console, print "framebuffer painted")
    ends with a screen whose capture passes the harness's check; the same text
    goes down the line, and no memory but the screen's changes. *)
Theorem boot_screen_passes_check {D} `{Device D} n fuel fb c f (s : machine D) :
  live (D := D) n -> (n < fuel)%nat -> FrameBufferInfo_ok fb -> console_new fb = Some c ->
  pixel_format fb = Some f -> fb_width fb = 1280 -> fb_height fb = 800 ->
  exists m' s' l, fill_screen fb 0x00 0x33 0x99 (mc_mem s) = Ok (m', (0, false)) /\
    print fuel (line (text "framebuffer painted"))
      (console_init fb (Machine (mc_if s) (mc_io s) (mc_console s) m')) = Ok (s', ()) /\
    (forall data, captures fb f (mc_mem s') data -> check_screen_has_text (Some data) = Ok tt) /\
    io_log (mc_io s') = io_log (mc_io s) ++ l /\
    transmits (crlf (line (text "framebuffer painted"))) l /\
    mem_agree (fun a => ~ screen fb a) (mc_mem s) (mc_mem s').
Proof.
  intros Hlive Hf Hfb Hc Hpf Hw Hh.
  destruct (console_boots_blank_spec fb c (mc_mem s) Hfb Hc) as (m' & Hfill & Hok & Hag & Hsh).
  destruct (console_new_ok fb c Hfb Hc) as (_ & Hco & _ & _ & f' & Hpf' & Hbg & Hfg & _).
  assert (f' = f) as -> by congruence.
  set (s0 := console_init fb (Machine (mc_if s) (mc_io s) (mc_console s) m')).
  assert (displays s0 blank_terminal) as Hd by (unfold displays, s0, console_init; simpl; by rewrite Hc).
  assert (Forall is_byte (line (text "framebuffer painted"))) as Hb by (apply line_bytes, text_bytes).
  destruct (print_spec n fuel _ s0 blank_terminal Hlive Hf Hb Hd) as (s' & Hp & [_ (l & Hl & Hwl) Hcons Hm Hshows]).
  exists m', s', l. split; [exact Hfill|]. split; [exact Hp|]. split.
  - intros data Hcap. unfold displays, same_console, term_put, s0, console_init in Hshows, Hcons.
    cbn [mc_console mc_mem] in Hshows, Hcons.
    rewrite Hc in Hshows, Hcons. destruct (mc_console s') as [c'|]; [|done].
    destruct Hshows as [Hok' Hsh']. destruct Hcons as (G1 & G2 & G3 & G4 & G5).
    apply (shown_f_passes fb c' f (mc_mem s') (put_all c (line (text "framebuffer painted")) blank_terminal) data Hfb Hok');
      [congruence..|exact Hsh'| |exact Hcap].
    assert (co_columns c = 160 /\ co_rows c = 50) as [Hcc Hcr].
    { rewrite (ok_columns c Hok), (ok_rows c Hok), Hco, Hw, Hh. done. }
    unfold put_all. rewrite Hcc, Hcr. reflexivity.
  - split; [exact Hl|]. split; [exact Hwl|]. etrans; [exact Hag|].
    intros a Ha. apply Hm. unfold drawn_on, s0, console_init. simpl. rewrite Hc, Hco. exact Ha.
Qed.

(** ** Instances *)

(** QEMU's standard adapter. *)
Definition qemu_fb : FrameBufferInfo := FrameBufferInfo_new 0x80000000 (1280 * 800 * 4) 1280 800 1280 4 Bgr.

(** A capture of any screen exists: its pixels, row by row. *)
Definition screendump (fb : FrameBufferInfo) (f : PixelFormatKind) (m : mem) : bytes :=
  ppm_header ++ concat ((fun i => channels f (pixel_at fb m (i mod 1280) (i / 1280))) <$> seqZ 0 (1280 * 800)).

Lemma drop_concat3 {A} (ls : list (list A)) i :
  Forall (fun l => length l = 3%nat) ls -> take 3 (drop (3 * i) (concat ls)) = default [] (ls !! i).
Proof.
  intros Hls. revert i. induction Hls as [|l ls Hl Hls IH]; intros i; [change (concat []) with (@nil A); rewrite drop_nil; by destruct i|].
  destruct i as [|i]; simpl concat; simpl lookup.
  - rewrite Nat.mul_0_r, drop_0, take_app_le by lia. simpl. rewrite <- Hl. apply firstn_all.
  - rewrite drop_app_ge by lia. rewrite Hl. replace (3 * S i - 3)%nat with (3 * i)%nat by lia. apply IH.
Qed.

Lemma channels_length f v : length (channels f v) = 3%nat.
Proof. by destruct f. Qed.

Lemma screendump_captures fb f m : captures fb f m (screendump fb f m).
Proof.
  split. eexists. split; [reflexivity|].
  set (g := fun i => channels f (pixel_at fb m (i mod 1280) (i / 1280))).
  assert (forall k, Forall (fun l => length l = 3%nat) (g <$> seqZ 0 k)) as Hall.
  { intros k. apply Forall_fmap, Forall_forall. intros i _. apply channels_length. }
  assert (forall ls : list bytes, Forall (fun l => length l = 3%nat) ls -> length (concat ls) = (3 * length ls)%nat) as Hcl.
  { induction 1 as [|l ls Hl _ IH]; [done|]. simpl concat. rewrite length_app, IH, Hl. simpl. lia. }
  split.
  - rewrite Hcl by done. rewrite length_fmap, length_seqZ. unfold pixel_bytes. lia.
  - intros x y Hx Hy. unfold captured. replace (Z.to_nat ((y * 1280 + x) * 3)) with (3 * Z.to_nat (y * 1280 + x))%nat by lia.
    rewrite drop_concat3 by done. rewrite list_lookup_fmap, lookup_seqZ_lt by lia. simpl. unfold g.
    rewrite Z2Nat.id by lia. f_equal. f_equal; divmod.
Qed.

Lemma boot_screen_passes_check_witness : exists m' s',
  fill_screen qemu_fb 0x00 0x33 0x99 ∅ = Ok (m', (0, false)) /\
  print 3 (line (text "framebuffer painted"))
    (console_init qemu_fb (Machine true (Io 0%nat []) None m')) = Ok (s', ()) /\
  check_screen_has_text (Some (screendump qemu_fb Bgr (mc_mem s'))) = Ok tt.
Proof.
  destruct (console_new qemu_fb) as [c|] eqn:Hc; [|discriminate Hc].
  destruct (boot_screen_passes_check 2 3 qemu_fb c Bgr (Machine true (Io 0%nat []) None ∅) slow_uart_live)
    as (m' & s' & l & Hfill & Hp & Hcheck & _).
  - lia.
  - by repeat split.
  - exact Hc.
  - reflexivity.
  - reflexivity.
  - reflexivity.
  - exists m', s'. split; [exact Hfill|]. split; [exact Hp|].
    apply Hcheck, screendump_captures.
Defined.
