(* ===== verification/Host.v ===== *)
(** What the test harness relies on of the operating system it runs on, as an
    interface: the calls [xtask/src/main.rs] makes of [std::fs],
    [std::process], [std::os::unix::net], [std::thread] and [std::time], the
    documented behaviour it needs of them, and the rules for programs made of
    such calls. *)
From Stdlib Require Import String.
From stdpp Require Import gmap.
From S2P Require Import Prelude.

Abbreviation bytes := (list Z).
Abbreviation path := (list Z).
Abbreviation child := Z.
Abbreviation stream := Z.

(** [io::Error]: the one kind the harness tells apart, and the rest. *)
Inductive ErrorKind := NotFound | OtherKind.
Record IoError := { kind : ErrorKind; os_code : Z }.

(** ** The calls *)

(** [Say] answers whether the line could be printed and [Thread] whether the
    thread could be started: [println!], [eprintln!] and [thread::spawn] panic
    when not. *)
Inductive call (Line : Type) : Type -> Type :=
| Read (p : path) : call Line (bytes + IoError)
| Write (p : path) (b : bytes) : call Line (unit + IoError)
| Copy (src dst : path) : call Line (Z + IoError)
| CreateDirAll (p : path) : call Line (unit + IoError)
| RemoveFile (p : path) : call Line (unit + IoError)
| Status (argv : list bytes) (dir : path) : call Line (bool + IoError)
| Spawn (argv : list bytes) : call Line (child + IoError)
| TryWait (c : child) : call Line (option (option Z) + IoError)
| Kill (c : child) : call Line (unit + IoError)
| Wait (c : child) : call Line (option Z + IoError)
| Connect (p : path) : call Line (stream + IoError)
| WriteAll (s : stream) (b : bytes) : call Line (unit + IoError)
| VarOs (name : bytes) : call Line bool
| Thread (s : stream) : call Line bool
| Sleep (ms : Z) : call Line unit
| Now : call Line Z
| Say (l : Line) : call Line bool.
Arguments Read {Line} p.
Arguments Write {Line} p b.
Arguments Copy {Line} src dst.
Arguments CreateDirAll {Line} p.
Arguments RemoveFile {Line} p.
Arguments Status {Line} argv dir.
Arguments Spawn {Line} argv.
Arguments TryWait {Line} c.
Arguments Kill {Line} c.
Arguments Wait {Line} c.
Arguments Connect {Line} p.
Arguments WriteAll {Line} s b.
Arguments VarOs {Line} name.
Arguments Thread {Line} s.
Arguments Sleep {Line} ms.
Arguments Now {Line}.
Arguments Say {Line} l.

(** The process a call starts. *)
Definition started {L R} (c : call L R) : R -> option child :=
  match c with
  | Spawn _ => fun r => match r with inl i => Some i | inr _ => None end
  | _ => fun _ => None
  end.

(** What a call does to the files while no child of the harness runs. A failed
    write may leave anything in its own file; a program run to completion may
    change anything. *)
Definition effect {L R} (c : call L R) : R -> gmap path bytes -> gmap path bytes -> Prop :=
  match c with
  | Read p => fun r m m' => m' = m /\ match r with inl b => m !! p = Some b | inr _ => True end
  | Write p b => fun r m m' => match r with inl _ => m' = <[p := b]> m | inr _ => delete p m' = delete p m end
  | Copy src dst => fun r m m' =>
      match r with
      | inl _ => exists b, m !! src = Some b /\ m' = <[dst := b]> m
      | inr _ => delete dst m' = delete dst m
      end
  | RemoveFile p => fun r m m' => match r with inl _ => m' = delete p m | inr _ => m' = m end
  | Status _ _ | Spawn _ => fun _ _ _ => True
  | _ => fun _ m m' => m' = m
  end.

(** The operating system: what a call answers, the files, the monotonic clock
    in milliseconds, and which children run. A child can end at any moment, but
    only [Spawn] makes one; one that was waited for has ended, and so has one
    whose status was collected. Files change under the harness only by its own
    calls and by programs it runs. *)
Class Host (L W : Type) := {
  perform {R} : call L R -> W -> W * R;
  files : W -> gmap path bytes;
  now : W -> Z;
  alive : W -> child -> Prop;
  perform_time {R} (c : call L R) w : now w <= now (fst (perform c w));
  perform_sleep ms w : now w + ms <= now (fst (perform (Sleep ms) w));
  perform_now w : now w <= snd (perform Now w) <= now (fst (perform Now w));
  perform_alive {R} (c : call L R) w i :
    alive (fst (perform c w)) i -> alive w i \/ started c (snd (perform c w)) = Some i;
  try_wait_reaps i w st : snd (perform (TryWait i) w) = inl (Some st) -> ~ alive (fst (perform (TryWait i) w)) i;
  wait_reaps i w : ~ alive (fst (perform (Wait i) w)) i;
  perform_files {R} (c : call L R) w : (forall i, ~ alive w i) ->
    effect c (snd (perform c w)) (files w) (files (fst (perform c w)));
}.

(** ** Programs over a host *)

(** A program changes the host whether it fails or not. *)
Definition act (W E A : Type) : Type := W -> W * outcome E A.

#[export] Instance act_ret {W E} : MRet (act W E) := fun A a w => (w, Ok a).
#[export] Instance act_bind {W E} : MBind (act W E) := fun A B f m w =>
  match m w with
  | (w, Ok a) => f a w
  | (w, Err e) => (w, Err e)
  | (w, Panic) => (w, Panic)
  | (w, Loop) => (w, Loop)
  end.

Definition ask {L W E R} `{Host L W} (c : call L R) : act W E R := fun w => let '(w, r) := perform c w in (w, Ok r).
Definition fail {W E A} (e : E) : act W E A := fun w => (w, Err e).
Definition panic {W E A} : act W E A := fun w => (w, Panic).
Definition spin {W E A} : act W E A := fun w => (w, Loop).

(** A call that panics when it cannot be done. *)
Definition must {L W E} `{Host L W} (c : call L bool) : act W E () := ok ← ask c; if ok : bool then mret () else panic.

(** An outcome of pure code. *)
Definition of_outcome {W E A} (r : outcome E A) : act W E A := fun w => (w, r).

(** [r.map_err(e)?]. *)
Definition or_fail {W E A} (e : IoError -> E) (r : A + IoError) : act W E A :=
  match r with inl a => mret a | inr x => fail (e x) end.

(** A call whose [Result] the caller matches on. *)
Definition attempt {W E E' A} (m : act W E A) : act W E' (A + E) := fun w =>
  match m w with
  | (w, Ok a) => (w, Ok (inl a))
  | (w, Err e) => (w, Ok (inr e))
  | (w, Panic) => (w, Panic)
  | (w, Loop) => (w, Loop)
  end.

(** ** Postconditions *)

(** After [m] from [w], the host and the result satisfy [Q]. *)
Definition ends {W E A} (m : act W E A) (w : W) (Q : W -> outcome E A -> Prop) : Prop := Q (fst (m w)) (snd (m w)).

Lemma ends_bind {W E A B} (m : act W E A) (f : A -> act W E B) w Q :
  ends m w (fun w' r =>
    match r with
    | Ok a => ends (f a) w' Q
    | Err e => Q w' (Err e)
    | Panic => Q w' Panic
    | Loop => Q w' Loop
    end) -> ends (mbind f m) w Q.
Proof. unfold ends, mbind, act_bind. by destruct (m w) as [w' [a|e| |]]. Qed.

Lemma ends_ret {W E A} (a : A) (w : W) (Q : W -> outcome E A -> Prop) : Q w (Ok a) -> ends (mret a) w Q.
Proof. done. Qed.

Lemma ends_fail {W E A} (e : E) (w : W) (Q : W -> outcome E A -> Prop) : Q w (Err e) -> ends (fail e) w Q.
Proof. done. Qed.

Lemma ends_attempt {W E E' A} (m : act W E A) w (Q : W -> outcome E' (A + E) -> Prop) :
  ends m w (fun w' r =>
    match r with
    | Ok a => Q w' (Ok (inl a))
    | Err e => Q w' (Ok (inr e))
    | Panic => Q w' Panic
    | Loop => Q w' Loop
    end) -> ends (attempt m) w Q.
Proof. unfold ends, attempt. by destruct (m w) as [w' [a|e| |]]. Qed.

Lemma ends_mono {W E A} (m : act W E A) w (P Q : W -> outcome E A -> Prop) :
  ends m w P -> (forall w' r, P w' r -> Q w' r) -> ends m w Q.
Proof. unfold ends. auto. Qed.

Section Rules.
Context {L W : Type} `{Host L W} {E : Type}.

(** Only children in [P] run. *)
Definition among (P : child -> Prop) (w : W) : Prop := forall i, alive w i -> P i.
Definition quiet (w : W) : Prop := forall i, ~ alive w i.

(** One call: its clock, its children, and what is known of its answer. *)
Lemma ends_ask {R} (c : call L R) w (Q : W -> outcome E R -> Prop) :
  (forall w' r, perform c w = (w', r) -> now w <= now w' -> Q w' (Ok r)) -> ends (ask c) w Q.
Proof.
  intros HQ. unfold ends, ask. pose proof (perform_time c w) as Ht.
  destruct (perform c w) as [w' r] eqn:Ep. by apply HQ.
Qed.

Lemma among_perform {R} (c : call L R) w w' r P :
  perform c w = (w', r) -> among P w -> started c r = None -> among P w'.
Proof.
  intros Hp HP Hs i Hi. pose proof (perform_alive c w i) as Ha. rewrite Hp in Ha. simpl in Ha.
  destruct (Ha Hi) as [Hw|Hn]; [by apply HP|by rewrite Hs in Hn].
Qed.

Lemma quiet_among w : quiet w <-> among (fun _ => False) w.
Proof. unfold quiet, among. naive_solver. Qed.

Lemma quiet_perform {R} (c : call L R) w w' r :
  perform c w = (w', r) -> quiet w -> started c r = None -> quiet w'.
Proof. rewrite !quiet_among. apply among_perform. Qed.

Lemma effect_perform {R} (c : call L R) w w' r :
  perform c w = (w', r) -> quiet w -> effect c r (files w) (files w').
Proof. intros Hp Hq. pose proof (perform_files c w Hq) as Hf. by rewrite Hp in Hf. Qed.
End Rules.

(** The clock's answer and a sleep, as they bound what follows. *)
Section Clock.
Context {L W : Type} `{Host L W} {E : Type}.

Lemma ends_now w (Q : W -> outcome E Z -> Prop) P :
  among P w -> (forall w' t, perform Now w = (w', t) -> among P w' -> now w <= t <= now w' -> Q w' (Ok t)) ->
  ends (ask Now) w Q.
Proof.
  intros HP HQ. apply ends_ask. intros w' t Hp _. apply HQ; [done|..].
  - by eapply among_perform.
  - pose proof (perform_now w) as Hn. by rewrite Hp in Hn.
Qed.

Lemma ends_sleep ms w (Q : W -> outcome E () -> Prop) P :
  among P w -> (forall w' r, perform (Sleep ms) w = (w', r) -> among P w' -> now w + ms <= now w' -> Q w' (Ok r)) ->
  ends (ask (Sleep ms)) w Q.
Proof.
  intros HP HQ. apply ends_ask. intros w' r Hp _. apply HQ; [done|..].
  - by eapply among_perform.
  - pose proof (perform_sleep ms w) as Hn. by rewrite Hp in Hn.
Qed.

(** A call that starts no process. *)
Lemma ends_call {R} (c : call L R) w (Q : W -> outcome E R -> Prop) P :
  (forall r, started c r = None) -> among P w ->
  (forall w' r, perform c w = (w', r) -> among P w' -> now w <= now w' -> Q w' (Ok r)) -> ends (ask c) w Q.
Proof.
  intros Hs HP HQ. apply ends_ask. intros w' r Hp Ht. apply HQ; [done| |done]. by eapply among_perform.
Qed.
End Clock.

(** ** Running on *)

Section Running.
Context {L W : Type} `{Host L W}.

(** [w'] comes from [w] by calls of the program. *)
Inductive leads : W -> W -> Prop :=
| leads_refl w : leads w w
| leads_call {R} (c : call L R) w w' : leads (fst (perform c w)) w' -> leads w w'.

#[export] Instance leads_preorder : PreOrder leads.
Proof.
  split; [exact leads_refl|]. intros w1 w2 w3 H12 H23. induction H12 as [|R c w w' _ IH]; [done|].
  apply (leads_call c). by apply IH.
Qed.

Lemma leads_perform {R} (c : call L R) w w' r : perform c w = (w', r) -> leads w w'.
Proof. intros Hp. apply (leads_call c). rewrite Hp. constructor. Qed.

Lemma leads_time w w' : leads w w' -> now w <= now w'.
Proof. induction 1 as [|R c w w' _ IH]; [lia|]. pose proof (perform_time c w). lia. Qed.

(** On the way from [w] to [w'], [c] was called and answered [r]. *)
Definition made (w : W) {R} (c : call L R) (r : R) (w' : W) : Prop :=
  exists w1, leads w w1 /\ snd (perform c w1) = r /\ leads (fst (perform c w1)) w'.

Lemma made_perform {R} (c : call L R) w w' r : perform c w = (w', r) -> made w c r w'.
Proof. intros Hp. exists w. rewrite Hp. by repeat split; constructor. Qed.

Lemma made_leads {R} (c : call L R) r w0 w w' w2 : leads w0 w -> made w c r w' -> leads w' w2 -> made w0 c r w2.
Proof. intros H0 (w1 & H1 & Hr & H1') H2. exists w1. split; [by etrans|]. split; [done|by etrans]. Qed.

(** A line could not be printed, or the thread not started. *)
Definition refused (w w' : W) : Prop :=
  (exists l, made w (Say l) false w') \/ exists s, made w (Thread s) false w'.

Lemma refused_leads w0 w w' w2 : leads w0 w -> refused w w' -> leads w' w2 -> refused w0 w2.
Proof. intros H0 [[x Hx]|[x Hx]] H2; [left|right]; exists x; by eapply made_leads. Qed.

(** How a program ends that makes no unbounded loop: with a result of its own,
    or in the panic of such a call. *)
Definition concluded {E A} (w w' : W) (r : outcome E A) : Prop := settled r \/ r = Panic /\ refused w w'.

Lemma concluded_leads {E A} w0 w w' (r : outcome E A) : leads w0 w -> concluded w w' r -> concluded w0 w' r.
Proof. intros H0 [Hs|[-> Hr]]; [by left|]. right. split; [done|]. by eapply refused_leads. Qed.
End Running.

(** Steps and calls in a row. *)
Ltac chain :=
  match goal with
  | |- leads ?a ?a => reflexivity
  | H : leads ?a ?c |- leads ?a ?c => exact H
  | H : perform _ ?a = (?b, _) |- leads ?a _ => apply (transitivity (leads_perform _ _ _ _ H)); chain
  | H : leads ?a ?b |- leads ?a _ => apply (transitivity H); chain
  end.
Ltac carry H := eapply made_leads; [|exact H|]; chain.

(** What the steps of a program keep: only children in [P] run, and the program
    comes to an end. *)
Definition keeps {L W} `{Host L W} (P : child -> Prop) (w : W) {E A} (w' : W) (r : outcome E A) : Prop :=
  among P w' /\ leads w w' /\ concluded w w' r.

Section Keeps.
Context {L W : Type} `{Host L W} (P : child -> Prop).

Lemma keeps_later {E A} (w w1 w2 : W) (r : outcome E A) : leads w w1 -> keeps P w1 w2 r -> keeps P w w2 r.
Proof.
  intros Ht (HP & Ht' & Hr). split; [done|]. split; [by etrans|]. by eapply concluded_leads.
Qed.

Lemma keeps_here {E A} (w : W) (r : outcome E A) : settled r -> among P w -> keeps P w w r.
Proof. intros Hr HP. split; [done|]. split; [constructor|by left]. Qed.

Lemma keeps_bind {E A B} (m : act W E A) (f : A -> act W E B) w :
  ends m w (keeps P w) ->
  (forall w' a, among P w' -> now w <= now w' -> ends (f a) w' (keeps P w')) ->
  ends (mbind f m) w (keeps P w).
Proof.
  intros Hm Hf. apply ends_bind. eapply ends_mono; [exact Hm|]. intros w' r (HP & Ht & Hr).
  destruct r as [a|e| |]; cycle 1; [by split; [|split; [|left]]|destruct Hr as [[]|[_ Hr]]; by split; [|split; [|right]]|by destruct Hr as [Hr|[Hr _]]|].
  eapply ends_mono; [apply Hf; [done|by apply leads_time]|]. intros. by eapply keeps_later.
Qed.

Lemma keeps_ret {E A} (a : A) w : among P w -> ends (E := E) (mret a) w (keeps P w).
Proof. intros HP. apply ends_ret. by apply keeps_here. Qed.

Lemma keeps_fail {E A} (e : E) w : among P w -> ends (A := A) (fail e) w (keeps P w).
Proof. intros HP. apply ends_fail. by apply keeps_here. Qed.

Lemma keeps_or_fail {E A} (e : IoError -> E) (r : A + IoError) w : among P w -> ends (or_fail e r) w (keeps P w).
Proof. intros HP. destruct r; [by apply keeps_ret|by apply keeps_fail]. Qed.

Lemma keeps_ask {E R} (c : call L R) w :
  (forall r, started c r = None) -> among P w -> ends (E := E) (ask c) w (keeps P w).
Proof.
  intros Hs HP. eapply ends_call; [done|done|]. intros w' r Hp HP' Ht.
  split; [done|]. split; [by eapply leads_perform|by left].
Qed.

Lemma keeps_must {E} (c : call L bool) w :
  (exists l, c = Say l) \/ (exists s, c = Thread s) -> among P w -> ends (E := E) (must c) w (keeps P w).
Proof.
  intros Hc HP. apply ends_bind. eapply ends_call; [|done|].
  { by destruct Hc as [[l ->]|[s ->]]. }
  intros w' [] Hp HP' Ht; (split; [done|]); (split; [by eapply leads_perform|]); [by left|].
  right. split; [done|]. apply made_perform in Hp. destruct Hc as [[l ->]|[s ->]]; [left|right]; eauto.
Qed.

Lemma keeps_now {E B} (f : Z -> act W E B) w :
  among P w -> (forall w' t, among P w' -> now w <= t <= now w' -> ends (f t) w' (keeps P w')) ->
  ends (t ← ask Now; f t) w (keeps P w).
Proof.
  intros HP Hf. apply ends_bind. eapply ends_now; [done|]. intros w' t Hp HP' Ht.
  eapply ends_mono; [apply Hf; done|]. intros. eapply keeps_later; [|done]. by eapply leads_perform.
Qed.

Lemma keeps_sleep {E B} ms (f : () -> act W E B) w :
  0 <= ms -> among P w -> (forall w', among P w' -> now w + ms <= now w' -> ends (f ()) w' (keeps P w')) ->
  ends (r ← ask (Sleep ms); f r) w (keeps P w).
Proof.
  intros Hms HP Hf. apply ends_bind. eapply ends_sleep; [done|]. intros w' [] Hp HP' Ht.
  eapply ends_mono; [apply Hf; done|]. intros. eapply keeps_later; [|done]. by eapply leads_perform.
Qed.

Lemma keeps_attempt {E E' A} (m : act W E A) w :
  ends m w (keeps P w) -> ends (E := E') (attempt m) w (keeps P w).
Proof.
  intros Hm. apply ends_attempt. eapply ends_mono; [exact Hm|]. intros w' r (HP & Ht & Hr).
  destruct r; (split; [done|]); (split; [done|]); [by left|by left|right|]; by destruct Hr as [Hr|[Hr ?]].
Qed.

Lemma keeps_of_outcome {E A} (r : outcome E A) w : settled r -> among P w -> ends (of_outcome r) w (keeps P w).
Proof. by apply keeps_here. Qed.
End Keeps.

Create HintDb host.
#[export] Hint Resolve keeps_ret keeps_fail keeps_or_fail keeps_ask keeps_attempt : host.

Lemma ends_and {W E A} (m : act W E A) w (P Q : W -> outcome E A -> Prop) :
  ends m w P -> ends m w Q -> ends m w (fun w' r => P w' r /\ Q w' r).
Proof. by split. Qed.

(** The last child ended: none is left. *)
Lemma last_reaped {L W} `{Host L W} c (w : W) : among (fun i => i = c) w -> ~ alive w c -> quiet w.
Proof. intros HP Hc i Hi. pose proof (HP i Hi) as ->. by apply Hc. Qed.

(** An attempt is never an error itself. *)
Lemma ends_attempted {W E E' A} (m : act W E A) w :
  ends (E := E') (attempt m) w (fun _ r => match r with Err _ => False | _ => True end).
Proof. apply ends_attempt. unfold ends. by destruct (snd (m w)). Qed.
