(* ===== verification/Harness.v ===== *)
(** The test harness as a program ([xtask/src/main.rs]): building and staging,
    the boot under QEMU with its time limits, key presses and screen capture,
    the corrupted-image test, and the verdicts. *)
From Stdlib Require Import String.
From stdpp Require Import gmap.
From S2P Require Import Prelude Memory BootInfo Uefi Elf File Handoff QemuExit Bootloader Fmt Wait Gdt Idt Main System.
From S2P Require Import Port Interrupts Serial Xtask Host.

(** ** Errors and printed lines *)

(** The harness's error strings, each by its format. *)
Inductive harness_error :=
| RunCargo (e : IoError)
| CargoFailed
| RunCargoKernel (e : IoError)
| CargoFailedKernel
| CreateEsp (e : IoError)
| CopyBootloader (e : IoError)
| CopyKernel (e : IoError)
| CopyVars (e : IoError)
| NoMonitor
| RemoveCapture (e : IoError)
| RequestCapture (e : IoError)
| NoText (why : screen_error)
| Launch (e : IoError)
| PollFailed (e : IoError)
| TimedOut.

(** What it prints. *)
Inductive report :=
| Usage
| UnknownCommand (other : bytes)
| Fail (e : harness_error)
| FailScreen (e : screen_error)
| Pass
| BootloaderFailed
| WrongCode (expected got : Z)
| Signalled
| ReadKernel (e : IoError)
| TooSmallToCorrupt
| WriteCorrupted (e : IoError)
| Corrupted
| NotRestored (e : IoError)
| Restored
| Rejected
| SuccessFromCorrupted
| KeysSuppressed.

Inductive ExitCode := SUCCESS | FAILURE.

(** ** Constants *)

Definition OVMF_CODE : path := text "/usr/share/OVMF/OVMF_CODE_4M.fd".
Definition OVMF_VARS_SRC : path := text "/usr/share/OVMF/OVMF_VARS_4M.fd".
Definition QEMU_TIMEOUT : Z := 60 * 1000.
Definition SCREEN_CAPTURE_TIMEOUT : Z := 30 * 1000.
Definition SCREEN_CAPTURE_POLL_INTERVAL : Z := 250.

Record Staged := { esp_dir : path; vars_copy : path }.

Section Harness.
(** The host; the workspace root, this process's id and the cargo that started
    it; the bound its two unbounded loops are run with. *)
Context {W : Type} `{Host report W} (root : path) (pid : Z) (cargo : bytes) (fuel : nat).

Abbreviation run_of A := (act W harness_error A).
Abbreviation command := (act W Empty_set ExitCode).

Definition call_ {E R} (c : call report R) : act W E R := ask c.
Definition say {E} (l : report) : act W E () := must (Say l).
Definition join (p q : path) : path := p ++ text "/" ++ q.

Definition screenshot_path : path := text "/tmp/rust_bl_screen_" ++ dec pid ++ text ".ppm".
Definition monitor_socket_path : path := text "/tmp/rust_bl_monitor_" ++ dec pid ++ text ".sock".

(** ** Building and staging *)

Definition build_bootloader : run_of () :=
  r ← call_ (Status [cargo; text "build"; text "-p"; text "bootloader"; text "--target"; text "x86_64-unknown-uefi"] root);
  status ← or_fail RunCargo r;
  if negb status then fail CargoFailed else mret ().

Definition build_kernel : run_of () :=
  r ← call_ (Status [cargo; text "build"; text "-p"; text "kernel"; text "--target"; text "x86_64-unknown-none"] root);
  status ← or_fail RunCargoKernel r;
  if negb status then fail CargoFailedKernel else mret ().

Definition stage_esp : run_of path :=
  let esp_boot_dir := join root (text "target/esp/EFI/BOOT") in
  r ← call_ (CreateDirAll esp_boot_dir);
  _ ← or_fail CreateEsp r;
  r ← call_ (Copy (join root (text "target/x86_64-unknown-uefi/debug/bootloader.efi")) (join esp_boot_dir (text "BOOTX64.EFI")));
  _ ← or_fail CopyBootloader r;
  r ← call_ (Copy (join root (text "target/x86_64-unknown-none/debug/kernel")) (join root (text "target/esp/kernel.elf")));
  _ ← or_fail CopyKernel r;
  mret (join root (text "target/esp")).

Definition copy_ovmf_vars : run_of path :=
  let dest := join root (text "target/OVMF_VARS.fd") in
  r ← call_ (Copy OVMF_VARS_SRC dest);
  _ ← or_fail CopyVars r;
  mret dest.

Definition build_and_stage : run_of Staged :=
  _ ← build_bootloader;
  _ ← build_kernel;
  esp ← stage_esp;
  vars ← copy_ovmf_vars;
  mret {| esp_dir := esp; vars_copy := vars |}.

(** ** The boot *)

(** The check of the screen capture file. *)
Definition check_capture {E} (screenshot : path) : act W E (() + screen_error) :=
  r ← call_ (Read screenshot);
  attempt (of_outcome (check_screen_has_text (match r with inl data => Some data | inr _ => None end))).

(** [for _ in 0..n], waiting for QEMU's monitor. *)
Fixpoint connect_monitor (n : nat) (socket : path) : run_of (option stream) :=
  match n with
  | O => mret None
  | S n =>
      _ ← call_ (Sleep 100);
      r ← call_ (Connect socket);
      match r with inl s => mret (Some s) | inr _ => connect_monitor n socket end
  end.

Fixpoint capture_screen (fuel : nat) (s : stream) (screenshot : path) (capture_deadline : Z) : run_of () :=
  match fuel with
  | O => spin
  | S fuel =>
      r ← call_ (RemoveFile screenshot);
      _ ← match r with
          | inl _ => mret ()
          | inr e => match kind e with NotFound => mret () | OtherKind => fail (RemoveCapture e) end
          end;
      r ← call_ (WriteAll s (line (text "screendump " ++ screenshot)));
      _ ← or_fail RequestCapture r;
      _ ← call_ (Sleep SCREEN_CAPTURE_POLL_INTERVAL);
      r ← check_capture screenshot;
      match r with
      | inl _ => mret ()
      | inr why =>
          now ← call_ Now;
          if capture_deadline <=? now then fail (NoText why) else capture_screen fuel s screenshot capture_deadline
      end
  end.

(** The body of the injector thread, [n] key presses from its end. *)
Fixpoint send_keys (n : nat) (s : stream) : act W Empty_set () :=
  match n with
  | O => mret ()
  | S n =>
      _ ← call_ (Sleep 500);
      r ← call_ (WriteAll s (line (text "sendkey a")));
      match r with inr _ => mret () | inl _ => send_keys n s end
  end.

Definition inject_keystrokes (socket screenshot : path) : run_of () :=
  no_keys ← call_ (VarOs (text "XTASK_NO_KEYS"));
  if no_keys : bool then say KeysSuppressed else
  s ← connect_monitor 100 socket;
  match s with
  | None => fail NoMonitor
  | Some s =>
      now ← call_ Now;
      _ ← capture_screen fuel s screenshot (now + SCREEN_CAPTURE_TIMEOUT);
      must (Thread s)
  end.

Definition qemu_args (staged : Staged) (socket : path) : list bytes :=
  [text "qemu-system-x86_64"; text "-drive"; text "if=pflash,format=raw,readonly=on,file=" ++ OVMF_CODE;
   text "-drive"; text "if=pflash,format=raw,file=" ++ vars_copy staged;
   text "-drive"; text "format=raw,file=fat:rw:" ++ esp_dir staged;
   text "-device"; text "isa-debug-exit,iobase=0xf4,iosize=0x04"; text "-no-reboot";
   text "-m"; text "256M"; text "-display"; text "none"; text "-serial"; text "stdio";
   text "-monitor"; text "unix:" ++ socket ++ text ",server,nowait"].

(** Waiting for QEMU: its status, or [None] at the deadline. *)
Fixpoint poll (fuel : nat) (c : child) (deadline : Z) : run_of (option (option Z)) :=
  match fuel with
  | O => spin
  | S fuel =>
      r ← call_ (TryWait c);
      match r with
      | inl (Some status) => mret (Some status)
      | inl None =>
          now ← call_ Now;
          if deadline <=? now then mret None else _ ← call_ (Sleep 100); poll fuel c deadline
      | inr e => fail (PollFailed e)
      end
  end.

Definition kill_and_wait (c : child) : run_of () :=
  _ ← call_ (Kill c); _ ← call_ (Wait c); mret ().

Definition boot_qemu (staged : Staged) (inject : bool) (screenshot : path) : run_of (option Z) :=
  let socket_path := monitor_socket_path in
  _ ← call_ (RemoveFile socket_path);
  r ← call_ (Spawn (qemu_args staged socket_path));
  c ← or_fail Launch r;
  injected ← (if inject then attempt (inject_keystrokes socket_path screenshot) else mret (inl ()));
  match injected with
  | inr msg => _ ← kill_and_wait c; fail msg
  | inl _ =>
      now ← call_ Now;
      status ← poll fuel c (now + QEMU_TIMEOUT);
      match status with
      | Some code => mret code
      | None => _ ← kill_and_wait c; fail TimedOut
      end
  end.

(** ** The commands *)

Definition failing (l : report) : command := _ ← say l; mret FAILURE.

Definition run : command :=
  staged ← attempt build_and_stage;
  match staged with
  | inr msg => failing (Fail msg)
  | inl staged =>
      observed ← attempt (boot_qemu staged true screenshot_path);
      match observed with
      | inr msg => failing (Fail msg)
      | inl None => failing Signalled
      | inl (Some code) =>
          if code =? EXPECTED_EXIT_CODE then
            r ← check_capture screenshot_path;
            match r with
            | inr msg => failing (FailScreen msg)
            | inl _ => _ ← say Pass; mret SUCCESS
            end
          else if code =? FAILURE_EXIT_CODE then failing BootloaderFailed
          else failing (WrongCode EXPECTED_EXIT_CODE code)
      end
  end.

Definition kernel_path : path := join root (text "target/esp/kernel.elf").

(** [corrupted[..4].copy_from_slice(b"XXXX")]. *)
Definition corrupt (image : bytes) : bytes := text "XXXX" ++ drop 4 image.

Definition test_verdict (observed : harness_error + option Z) : command :=
  match observed with
  | inl msg => failing (Fail msg)
  | inr None => failing Signalled
  | inr (Some code) =>
      if code =? FAILURE_EXIT_CODE then _ ← say Rejected; mret SUCCESS
      else if code =? EXPECTED_EXIT_CODE then failing SuccessFromCorrupted
      else failing (WrongCode FAILURE_EXIT_CODE code)
  end.

(** The image goes back before the result is looked at. *)
Definition restoring (pristine : bytes) (observed : harness_error + option Z) : command :=
  r ← call_ (Write kernel_path pristine);
  match r with
  | inr e => failing (NotRestored e)
  | inl _ => _ ← say Restored; test_verdict observed
  end.

Definition test : command :=
  staged ← attempt build_and_stage;
  match staged with
  | inr msg => failing (Fail msg)
  | inl staged =>
      pristine ← call_ (Read kernel_path);
      match pristine with
      | inr e => failing (ReadKernel e)
      | inl pristine =>
          if Z.of_nat (length pristine) <? 4 then failing TooSmallToCorrupt else
          r ← call_ (Write kernel_path (corrupt pristine));
          match r with
          | inr e => failing (WriteCorrupted e)
          | inl _ =>
              _ ← say Corrupted;
              observed ← attempt (boot_qemu staged false screenshot_path);
              restoring pristine (match observed with inl code => inr code | inr msg => inl msg end)
          end
      end
  end.

Definition main (args : list bytes) : command :=
  match args !! 1%nat with
  | Some cmd =>
      if bool_decide (cmd = text "run") then run
      else if bool_decide (cmd = text "test") then test
      else failing (UnknownCommand cmd)
  | None => failing Usage
  end.
End Harness.

(** ** The boot ends *)

Section Proofs.
Context {W : Type} `{Host report W} (root : path) (pid : Z) (cargo : bytes) (fuel : nat).

Context (P : child -> Prop).

Lemma connect_monitor_keeps n socket w : among P w -> ends (connect_monitor n socket) w (keeps P w).
Proof.
  revert w. induction n as [|n IH]; intros w HP; cbn [connect_monitor]; [auto with host|].
  apply keeps_sleep; [lia|done|]. intros w1 H1 _. apply keeps_bind; [by apply keeps_ask|].
  intros w2 [s|e] H2 _; auto with host.
Qed.

Lemma check_capture_keeps {E} shot w : among P w -> ends (E := E) (check_capture shot) w (keeps P w).
Proof.
  intros HP. apply keeps_bind; [by apply keeps_ask|]. intros w1 r H1 _.
  apply keeps_attempt, keeps_of_outcome; [apply check_screen_settles|done].
Qed.

Lemma capture_screen_keeps n s shot deadline w :
  among P w -> (0 < n)%nat -> deadline - now w <= SCREEN_CAPTURE_POLL_INTERVAL * (Z.of_nat n - 1) ->
  ends (capture_screen n s shot deadline) w (keeps P w).
Proof.
  revert w. induction n as [|n IH]; intros w HP Hn Hd; [lia|]. cbn [capture_screen].
  unfold SCREEN_CAPTURE_POLL_INTERVAL in *.
  apply keeps_bind; [by apply keeps_ask|]. intros w1 r1 H1 T1.
  apply keeps_bind; [destruct r1 as [?|e]; [|destruct (kind e)]; auto with host|]. intros w2 _ H2 T2.
  apply keeps_bind; [by apply keeps_ask|]. intros w3 r3 H3 T3.
  apply keeps_bind; [by apply keeps_or_fail|]. intros w4 _ H4 T4.
  apply keeps_sleep; [lia|done|]. intros w5 H5 T5.
  apply keeps_bind; [by apply check_capture_keeps|]. intros w6 [?|why] H6 T6; [auto with host|].
  apply keeps_now; [done|]. intros w7 t H7 T7. destruct (Z.leb_spec deadline t); [auto with host|].
  apply IH; [done|lia|lia].
Qed.

Lemma poll_keeps n c deadline w :
  among P w -> (0 < n)%nat -> deadline - now w <= 100 * (Z.of_nat n - 1) ->
  ends (poll n c deadline) w (keeps P w).
Proof.
  revert w. induction n as [|n IH]; intros w HP Hn Hd; [lia|]. cbn [poll].
  apply keeps_bind; [by apply keeps_ask|]. intros w1 [[st|]|e] H1 T1; [auto with host| |auto with host].
  apply keeps_now; [done|]. intros w2 t H2 T2. destruct (Z.leb_spec deadline t); [auto with host|].
  apply keeps_sleep; [lia|done|]. intros w3 H3 T3. apply IH; [done|lia|lia].
Qed.

Hypothesis Hfuel : (600 < fuel)%nat.

Lemma inject_keystrokes_keeps socket shot w : among P w -> ends (inject_keystrokes fuel socket shot) w (keeps P w).
Proof using Hfuel.
  intros HP. apply keeps_bind; [by apply keeps_ask|]. intros w1 [] H1 T1; [apply keeps_must; [by left; eexists|done]|].
  apply keeps_bind; [by apply connect_monitor_keeps|]. intros w2 [s|] H2 T2; [|auto with host].
  apply keeps_now; [done|]. intros w3 t H3 T3.
  apply keeps_bind; [|intros; apply keeps_must; [by right; eexists|done]].
  apply capture_screen_keeps; [done|lia|]. unfold SCREEN_CAPTURE_TIMEOUT, SCREEN_CAPTURE_POLL_INTERVAL in *. lia.
Qed.
End Proofs.

Section Boot.
Context {W : Type} `{Host report W} (root : path) (pid : Z) (cargo : bytes) (fuel : nat).

(** A status is QEMU's own, and QEMU has ended by then. *)
Lemma poll_status n c deadline (w : W) :
  ends (poll n c deadline) w (fun w' r =>
    match r with
    | Ok (Some st) => ~ alive w' c /\ made w (TryWait c) (inl (Some st)) w'
    | Ok None => True
    | Err e => exists x, e = PollFailed x /\ made w (TryWait c) (inr x) w'
    | Panic => False
    | Loop => True
    end).
Proof using.
  revert w. induction n as [|n IH]; intros w; cbn [poll]; [done|].
  apply ends_bind, ends_ask. intros w1 r Hp _. pose proof (made_perform _ _ _ _ Hp) as Hm. destruct r as [[st|]|e].
  - apply ends_ret. pose proof (try_wait_reaps c w st) as Hr. rewrite Hp in Hr. by split; [apply Hr|].
  - apply ends_bind, ends_ask. intros w2 t Hp2 _. destruct (deadline <=? t); [done|].
    apply ends_bind, ends_ask. intros w3 ? Hp3 _. eapply ends_mono; [apply IH|].
    assert (leads w w3) as Hl by chain.
    intros w4 [[st|]|x| |]; try done.
    + intros [Ha Hd]. split; [done|]. carry Hd.
    + intros (y & -> & Hd). exists y. split; [done|]. carry Hd.
  - apply ends_fail. by exists e.
Qed.

Lemma kill_and_wait_quiet c (w : W) : among (fun i => i = c) w ->
  ends (kill_and_wait c) w (fun w' r => r = Ok () /\ leads w w' /\ quiet w').
Proof using.
  intros HP. unfold kill_and_wait. apply ends_bind. eapply ends_call; [done|exact HP|]. intros w1 r1 Hp1 H1 _.
  apply ends_bind. eapply ends_call; [done|exact H1|]. intros w2 r2 Hp2 H2 _. apply ends_ret.
  split; [done|]. split; [chain|]. apply (last_reaped c); [done|].
  pose proof (wait_reaps c w1) as Hr. by rewrite Hp2 in Hr.
Qed.

(** What is left running: nothing, but for a QEMU given up on because asking
    for its status failed, or one running when the harness panics. *)
Definition left_over {E A} (w w' : W) (r : outcome E A) : Prop :=
  quiet w' \/ exists c, among (fun i => i = c) w' /\ ((exists e, made w (TryWait c) (inr e) w') \/ r = Panic).

(** How a command or a boot leaves the host. *)
Definition closed {E A} (w w' : W) (r : outcome E A) : Prop :=
  leads w w' /\ concluded w w' r /\ left_over w w' r.

Lemma quiet_closed {E A} (w w' : W) (r : outcome E A) : keeps (fun _ => False) w w' r -> closed w w' r.
Proof using. intros (HP & Hl & Hr). split; [done|]. split; [done|]. left. by apply quiet_among. Qed.

Lemma closed_later {E A} (w0 w w' : W) (r : outcome E A) : leads w0 w -> closed w w' r -> closed w0 w' r.
Proof using.
  intros H0 (Hl & Hc & Ho). split; [chain|]. split; [by eapply concluded_leads|].
  destruct Ho as [Hq|(c & Ha & Ho)]; [by left|]. right. exists c. split; [done|].
  destruct Ho as [[e He]|Hp]; [left; exists e; carry He|by right].
Qed.

(** A boot ends closed; with a status, it is the one QEMU exited with; and
    without an injector it does not panic. *)
Definition booted (inject : bool) (w w' : W) (r : outcome harness_error (option Z)) : Prop :=
  closed w w' r /\
  (forall st, r = Ok st -> quiet w' /\ exists c, made w (TryWait c) (inl (Some st)) w') /\
  (inject = false -> r <> Panic).

Lemma killed_boot inject c (w0 w : W) (e : harness_error) : leads w0 w -> among (fun i => i = c) w ->
  ends (_ ← kill_and_wait c; fail e) w (booted inject w0).
Proof using.
  intros Ht HP. apply ends_bind. eapply ends_mono; [by apply kill_and_wait_quiet|]. intros w1 r (-> & T1 & Hq).
  apply ends_fail. split; [split; [chain|split; by left]|by split].
Qed.

(** The wait for a running QEMU. *)
Lemma polled_boot inject c (w0 w : W) : leads w0 w -> among (fun i => i = c) w -> (600 < fuel)%nat ->
  ends (now ← call_ Now; status ← poll fuel c (now + QEMU_TIMEOUT);
        match status with Some code => mret code | None => _ ← kill_and_wait c; fail TimedOut end) w (booted inject w0).
Proof using.
  intros H0 HP Hfuel. apply ends_bind. eapply ends_now; [exact HP|]. intros w1 t Hp1 H1 T1.
  pose proof (leads_perform _ _ _ _ Hp1) as L1. apply ends_bind. eapply ends_mono.
  { apply ends_and; [apply (poll_keeps (fun i => i = c) fuel c _ _ H1)|apply poll_status]; [lia|unfold QEMU_TIMEOUT; lia]. }
  intros w2 r ((H2 & L2 & C2) & Hr). assert (leads w0 w2) as L02 by chain.
  destruct r as [[st|]|e| |]; try done.
  - destruct Hr as [Ha Hm]. assert (quiet w2) as Hq by by apply (last_reaped c).
    apply ends_ret. split; [split; [done|split; by left]|]. split; [|done]. intros ? [= <-]. split; [done|].
    exists c. carry Hm.
  - by apply killed_boot.
  - destruct Hr as (x & -> & Hx). split; [|by split]. split; [done|]. split; [by left|]. right. exists c.
    split; [done|]. left. exists x. carry Hx.
  - by destruct C2 as [[]|[[=] _]].
Qed.

Context (Hfuel : (600 < fuel)%nat).

Lemma boot_qemu_spec staged inject shot (w : W) : quiet w -> ends (boot_qemu pid fuel staged inject shot) w (booted inject w).
Proof using Hfuel.
  intros Hq. unfold boot_qemu. apply quiet_among in Hq.
  apply ends_bind. eapply ends_call; [done|exact Hq|]. intros w1 r1 Hp1 H1 _. pose proof (leads_perform _ _ _ _ Hp1) as L1.
  apply ends_bind, ends_ask. intros w2 r2 Hp _. assert (leads w w2) as L2 by chain.
  destruct r2 as [c|e].
  2: { apply ends_bind, ends_fail. split; [|by split]. split; [done|]. split; [by left|]. left. apply quiet_among.
    by eapply among_perform. }
  apply ends_bind, ends_ret.
  assert (among (fun i => i = c) w2) as H2.
  { intros i Hi. pose proof (perform_alive (Spawn (qemu_args staged (monitor_socket_path pid))) w1 i) as Ha.
    rewrite Hp in Ha. destruct (Ha Hi) as [Hw|[= ->]]; [destruct (H1 i Hw)|done]. }
  apply ends_bind. eapply ends_mono.
  { apply ends_and; [instantiate (1 := keeps (fun i => i = c) w2)|
      instantiate (1 := fun _ r => match r with Err _ => False | Panic => inject = true | _ => True end)];
      destruct inject; [apply keeps_attempt, inject_keystrokes_keeps; [exact Hfuel|exact H2]|by apply keeps_ret| |done].
    eapply ends_mono; [apply ends_attempted|]. by intros ? []. }
  intros w3 r3 ((H3 & L3 & C3) & Hne). assert (leads w w3) as L03 by chain.
  destruct r3 as [[[]|msg]|?| |]; try done; [by apply polled_boot|by apply killed_boot| |by destruct C3 as [[]|[[=] _]]].
  split; [|split; [done|by rewrite Hne]]. split; [done|].
  split; [|right; exists c; by split; [|right]]. destruct C3 as [[]|[_ C3]]. right. split; [done|].
  by apply (refused_leads _ _ _ _ L2 C3).
Qed.
End Boot.

(** ** The commands *)

Section Commands.
Context {W : Type} `{Host report W} (root : path) (pid : Z) (cargo : bytes) (fuel : nat).

Lemma build_and_stage_keeps P (w : W) : among P w -> ends (build_and_stage root cargo) w (keeps P w).
Proof using.
  assert (forall (c : call report (bool + IoError)) (e : IoError -> harness_error) f w, (forall r, started c r = None) ->
    among P w -> ends (r ← call_ c; status ← or_fail e r; if negb status then fail f else mret ()) w (keeps P w)) as Hbuild.
  { intros c e f w0 Hc HP. apply keeps_bind; [by apply keeps_ask|]. intros w1 r H1 _.
    apply keeps_bind; [by apply keeps_or_fail|]. intros w2 [] H2 _; [by apply keeps_ret|by apply keeps_fail]. }
  assert (forall A B (c : call report (A + IoError)) (e : IoError -> harness_error) (m : act W harness_error B) w,
    (forall r, started c r = None) -> (forall w, among P w -> ends m w (keeps P w)) -> among P w ->
    ends (r ← call_ c; _ ← or_fail e r; m) w (keeps P w)) as Hfile.
  { intros A B c e m w0 Hc Hm HP. apply keeps_bind; [by apply keeps_ask|]. intros w1 r H1 _.
    apply keeps_bind; [by apply keeps_or_fail|]. auto. }
  intros HP. unfold build_and_stage. apply keeps_bind; [by apply Hbuild|]. intros w1 _ H1 _.
  apply keeps_bind; [by apply Hbuild|]. intros w2 _ H2 _. apply keeps_bind.
  - repeat (apply Hfile; [done| |done]; intros); auto with host.
  - intros w3 esp H3 _. apply keeps_bind; [apply Hfile; [done|intros; by apply keeps_ret|done]|].
    intros w4 vars H4 _. by apply keeps_ret.
Qed.

(** *** What a command leaves running *)

Lemma say_keeps {E} P l (w : W) : among P w -> ends (E := E) (say l) w (keeps P w).
Proof using. intros HP. apply keeps_must; [left; by eexists|done]. Qed.

Lemma said_keeps {E A} P l (a : A) (w : W) : among P w -> ends (E := E) (_ ← say l; mret a) w (keeps P w).
Proof using. intros HP. apply keeps_bind; [by apply say_keeps|]. intros. by apply keeps_ret. Qed.

Lemma failing_keeps P l (w : W) : among P w -> ends (failing l) w (keeps P w).
Proof using. apply said_keeps. Qed.
Hint Resolve said_keeps failing_keeps : host.

Lemma test_verdict_keeps P observed (w : W) : among P w -> ends (test_verdict observed) w (keeps P w).
Proof using.
  intros HP. destruct observed as [msg|[code|]]; cbn [test_verdict]; auto with host.
  destruct (code =? FAILURE_EXIT_CODE); [auto with host|]. destruct (code =? EXPECTED_EXIT_CODE); auto with host.
Qed.

(** A step that leaves nothing running. *)
Lemma closed_bind {E A B} (m : act W E A) (f : A -> act W E B) (w : W) :
  quiet w -> (forall P, among P w -> ends m w (keeps P w)) ->
  (forall w' a, quiet w' -> ends (f a) w' (closed w')) -> ends (mbind f m) w (closed w).
Proof using.
  intros Hq Hm Hf. apply ends_bind. eapply ends_mono; [by apply Hm, quiet_among|]. intros w' r Hk.
  pose proof (quiet_closed _ _ _ Hk) as (Hl & Hc & Hq'). destruct Hk as (HP & _ & _). apply quiet_among in HP.
  destruct r as [a|e| |]; [|by split; [|split; [left|left]]| |by destruct Hc as [[]|[[=] _]]].
  - eapply ends_mono; [by apply Hf|]. intros. by eapply closed_later.
  - split; [done|]. split; [|by left]. by destruct Hc as [[]|[_ Hc]]; right.
Qed.

Lemma closed_keeps {E A} (m : act W E A) (w : W) :
  quiet w -> (forall P, among P w -> ends m w (keeps P w)) -> ends m w (closed w).
Proof using. intros Hq Hm. eapply ends_mono; [by apply Hm, quiet_among|]. intros. by apply quiet_closed. Qed.

Context (Hfuel : (600 < fuel)%nat).

(** A boot, and what the command does about it. *)
Lemma closed_boot {B} staged inject shot (f : option Z + harness_error -> act W Empty_set B) (w : W) :
  quiet w -> (forall x P w', among P w' -> ends (f x) w' (keeps P w')) ->
  ends (x ← attempt (boot_qemu pid fuel staged inject shot); f x) w (closed w).
Proof using Hfuel.
  intros Hq Hf. apply ends_bind, ends_attempt. eapply ends_mono; [by apply boot_qemu_spec|].
  intros w1 r ((L1 & C1 & O1) & _ & _).
  assert (r <> Panic -> forall x, ends (f x) w1 (closed w)) as Hgo.
  { intros Hr x. destruct O1 as [H1|(c & H1 & [[e He]|?])]; [| |done].
    - eapply ends_mono; [by apply closed_keeps; [|intros; apply Hf]|]. intros. by eapply closed_later.
    - eapply ends_mono; [by apply Hf|]. intros w2 r2 (H2 & L2 & C2). split; [chain|].
      split; [by eapply concluded_leads|]. right. exists c. split; [done|]. left. exists e. carry He. }
  destruct r as [st|msg| |]; [by apply Hgo|by apply Hgo| |by destruct C1 as [[]|[[=] _]]].
  split; [done|]. split; [by destruct C1 as [[]|[_ C1]]; right|].
  destruct O1 as [H1|(c & H1 & O1)]; [by left|right]. exists c. split; [done|]. by right.
Qed.

Lemma run_closed (w : W) : quiet w -> ends (run root pid cargo fuel) w (closed w).
Proof using Hfuel.
  intros Hq. apply closed_bind; [done|intros; by apply keeps_attempt, build_and_stage_keeps|].
  intros w1 [staged|msg] H1; [|apply closed_keeps; auto with host].
  apply closed_boot; [done|]. intros [[code|]|msg] P w2 H2; [|auto with host..].
  destruct (code =? EXPECTED_EXIT_CODE); [|destruct (code =? FAILURE_EXIT_CODE); auto with host].
  apply keeps_bind; [by apply check_capture_keeps|]. intros w3 [[]|why] H3 _; auto with host.
Qed.

Lemma test_closed (w : W) : quiet w -> ends (test root pid cargo fuel) w (closed w).
Proof using Hfuel.
  intros Hq. apply closed_bind; [done|intros; by apply keeps_attempt, build_and_stage_keeps|].
  intros w1 [staged|msg] H1; [|apply closed_keeps; auto with host].
  apply closed_bind; [done|intros; by apply keeps_ask|]. intros w2 [b|e] H2; [|apply closed_keeps; auto with host].
  destruct (_ <? 4); [apply closed_keeps; auto with host|].
  apply closed_bind; [done|intros; by apply keeps_ask|]. intros w3 [u|e] H3; [|apply closed_keeps; auto with host].
  apply closed_bind; [done|intros; by apply say_keeps|]. intros w4 _ H4.
  apply closed_boot; [done|]. intros observed P w5 H5. unfold restoring.
  apply keeps_bind; [by apply keeps_ask|]. intros w6 [v|e] H6 _; [|auto with host].
  apply keeps_bind; [by apply say_keeps|]. intros w7 _ H7 _. by apply test_verdict_keeps.
Qed.

Lemma main_closed args (w : W) : quiet w -> ends (main root pid cargo fuel args) w (closed w).
Proof using Hfuel.
  intros Hq. unfold main. destruct (args !! 1%nat) as [cmd|]; [|apply closed_keeps; auto with host].
  case_bool_decide; [by apply run_closed|]. case_bool_decide; [by apply test_closed|]. apply closed_keeps; auto with host.
Qed.

(** *** What a success rests on *)

(** A line is printed: the files stay as they are. Or it is not, and there
    the program ends. *)
Lemma ends_say {E B} l w (m : act W E B) (Q : W -> outcome E B -> Prop) :
  quiet w ->
  (forall w', quiet w' -> files w' = files w -> leads w w' -> made w (Say l) true w' -> ends m w' Q) ->
  (forall w', quiet w' -> files w' = files w -> leads w w' -> made w (Say l) false w' -> Q w' Panic) ->
  ends (_ ← say l; m) w Q.
Proof using.
  intros Hq Hm HQ. apply ends_bind. unfold say, must. apply ends_bind, ends_ask. intros w1 r Hp _.
  pose proof (quiet_perform _ _ _ _ Hp Hq ltac:(done)) as Hq1. pose proof (effect_perform _ _ _ _ Hp Hq) as Hf1.
  pose proof (leads_perform _ _ _ _ Hp). pose proof (made_perform _ _ _ _ Hp).
  destruct r; [by apply Hm|by apply HQ].
Qed.

Lemma ends_failing l w (Q : W -> outcome Empty_set ExitCode -> Prop) :
  (forall w' r, leads w w' -> (quiet w -> files w' = files w) -> (r = Ok FAILURE \/ r = Panic) -> Q w' r) -> ends (failing l) w Q.
Proof using.
  intros HQ. apply ends_bind. unfold say, must. apply ends_bind, ends_ask. intros w1 r Hp _.
  assert (quiet w -> files w1 = files w) as Hf by (intros Hq; exact (effect_perform _ _ _ _ Hp Hq)).
  apply leads_perform in Hp. destruct r; (apply HQ; [done|done|]); [by left|by right].
Qed.

(** What a success of [run] rests on. *)
Definition ran (w w' : W) : Prop :=
  quiet w' /\ (exists c, made w (TryWait c) (inl (Some (Some EXPECTED_EXIT_CODE))) w') /\
  exists w3 data, files w3 !! screenshot_path pid = Some data /\ check_screen_has_text (Some data) = Ok ().

Lemma run_spec (w : W) : quiet w -> ends (run root pid cargo fuel) w (fun w' r => r = Ok SUCCESS -> ran w w').
Proof using Hfuel.
  intros Hq. unfold run. apply ends_bind, ends_attempt.
  eapply ends_mono; [by apply build_and_stage_keeps, quiet_among|]. intros w1 r (H1 & L1 & _). apply quiet_among in H1.
  assert (forall l w0, ends (failing l) w0 (fun w' r => r = Ok SUCCESS -> ran w w')) as Hfail.
  { intros l w0. apply ends_failing. intros w' r' _ _ [-> | ->]; done. }
  destruct r as [staged|msg| |]; try done.
  apply ends_bind, ends_attempt. eapply ends_mono; [by apply boot_qemu_spec|]. intros w2 r ((L2 & _ & _) & Hst & _).
  destruct r as [[code|]|msg| |]; try done.
  destruct (Z.eqb_spec code EXPECTED_EXIT_CODE) as [->|_]; [|by destruct (code =? FAILURE_EXIT_CODE)].
  destruct (Hst _ eq_refl) as (H2 & c & Hc).
  apply ends_bind. unfold check_capture. apply ends_bind, ends_ask. intros w3 r Hp _.
  pose proof (quiet_perform _ _ _ _ Hp H2 ltac:(done)) as H3. destruct (effect_perform _ _ _ _ Hp H2) as [F3 R3].
  apply ends_attempt. set (capture := match r with inl data => Some data | inr _ => None end).
  pose proof (check_screen_settles capture) as Hsc. unfold of_outcome, ends. cbn [fst snd].
  destruct (check_screen_has_text capture) as [[]|why| |] eqn:Ec; try done; [|by apply Hfail].
  apply ends_say; [done| |done]. intros w4 H4 F4 L4 _. apply ends_ret. intros _. split; [done|]. split.
  - exists c. carry Hc.
  - destruct r as [data|e]; [|discriminate Ec]. exists w2, data. by split.
Qed.

(** *** The staged kernel *)

(** The file is as it was staged. The exceptions: the notice between the
    corruption and the boot could not be printed, either write failed, or QEMU
    was given up on. *)
Definition kept (b : bytes) (w w' : W) (r : outcome Empty_set ExitCode) : Prop :=
  files w' !! kernel_path root = Some b \/
  (made w (Say Corrupted) false w' /\ r = Panic) \/
  (exists e, made w (Write (kernel_path root) (corrupt b)) (inr e) w') \/
  (exists e, made w (Write (kernel_path root) b) (inr e) w') \/
  (exists c e, made w (TryWait c) (inr e) w').

(** What a pass of [test] rests on. *)
Definition rejected (w w' : W) (r : outcome Empty_set ExitCode) : Prop :=
  r = Ok SUCCESS -> exists c, made w (TryWait c) (inl (Some (Some FAILURE_EXIT_CODE))) w'.

Lemma test_verdict_spec observed (w : W) :
  ends (test_verdict observed) w (fun w' r => leads w w' /\ (quiet w -> files w' = files w) /\
    (r = Ok SUCCESS -> observed = inr (Some FAILURE_EXIT_CODE))).
Proof using.
  assert (forall l, ends (failing l) w (fun w' r => leads w w' /\ (quiet w -> files w' = files w) /\
    (r = Ok SUCCESS -> observed = inr (Some FAILURE_EXIT_CODE)))) as Hfail.
  { intros l. apply ends_failing. by intros w' r Hl Hf [-> | ->]. }
  destruct observed as [msg|[code|]]; cbn [test_verdict]; [apply Hfail| |apply Hfail].
  destruct (Z.eqb_spec code FAILURE_EXIT_CODE) as [->|_]; [|by destruct (code =? EXPECTED_EXIT_CODE)].
  apply ends_bind. unfold say, must. apply ends_bind, ends_ask. intros w1 r Hp _.
  assert (quiet w -> files w1 = files w) as Hf by (intros Hq; exact (effect_perform _ _ _ _ Hp Hq)).
  apply leads_perform in Hp. by destruct r.
Qed.

Lemma restoring_spec b observed (w : W) : ends (restoring root b observed) w (fun w' r =>
  leads w w' /\ (quiet w -> files w' !! kernel_path root = Some b \/ exists e, made w (Write (kernel_path root) b) (inr e) w') /\
  (r = Ok SUCCESS -> observed = inr (Some FAILURE_EXIT_CODE))).
Proof using.
  apply ends_bind, ends_ask. intros w1 r Hp _. pose proof (leads_perform _ _ _ _ Hp) as L1.
  assert (quiet w -> quiet w1) as Hq1 by (intros Hq; by apply (quiet_perform _ _ _ _ Hp Hq)).
  pose proof (effect_perform _ _ _ _ Hp) as Hf1. simpl in Hf1. destruct r as [u|e].
  - apply ends_bind. unfold say, must. apply ends_bind, ends_ask. intros w2 ok Hp2 _.
    assert (quiet w -> files w2 !! kernel_path root = Some b) as Hk.
    { intros Hq. rewrite (effect_perform _ _ _ _ Hp2 (Hq1 Hq)), (Hf1 Hq). apply lookup_insert_eq. }
    assert (quiet w -> quiet w2) as Hq2 by (intros Hq; by apply (quiet_perform _ _ _ _ Hp2 (Hq1 Hq))).
    assert (leads w w2) as L2 by chain.
    destruct ok; [|split; [done|split; [by left; apply Hk|done]]].
    apply ends_ret. eapply ends_mono; [apply test_verdict_spec|]. intros w3 r (L3 & F3 & S3).
    split; [chain|]. split; [|done]. intros Hq. left. by rewrite F3; [apply Hk|apply Hq2].
  - apply ends_failing. intros w2 r L2 _ Hr. split; [chain|]. split; [|by destruct Hr as [-> | ->]].
    intros _. right. exists e. apply made_perform in Hp. carry Hp.
Qed.

Lemma test_spec (w w1 : W) staged b : quiet w ->
  build_and_stage root cargo w = (w1, Ok staged) -> files w1 !! kernel_path root = Some b ->
  ends (test root pid cargo fuel) w (fun w' r => kept b w1 w' r /\ rejected w1 w' r).
Proof using Hfuel.
  intros Hq Hs Hb. unfold test. apply ends_bind, ends_attempt. apply quiet_among in Hq.
  pose proof (build_and_stage_keeps _ w Hq) as (H1 & _ & _). unfold ends at 1. rewrite Hs in H1 |- *.
  cbn [fst snd] in H1 |- *. apply quiet_among in H1. clear Hq Hs.
  assert (forall l w0, quiet w0 -> files w0 !! kernel_path root = Some b ->
    ends (failing l) w0 (fun w' r => kept b w1 w' r /\ rejected w1 w' r)) as Hfail.
  { intros l w0 H0 F0. apply ends_failing. intros w' r _ F Hr. split; [left; by rewrite F|]. intros ->. by destruct Hr. }
  apply ends_bind, ends_ask. intros w2 r Hp2 _. pose proof (quiet_perform _ _ _ _ Hp2 H1 ltac:(done)) as H2.
  pose proof (leads_perform _ _ _ _ Hp2) as L2. destruct (effect_perform _ _ _ _ Hp2 H1) as [F2 R2].
  destruct r as [b'|e]; [|apply Hfail; [done|by rewrite F2]].
  rewrite Hb in R2. injection R2 as <-.
  destruct (Z.of_nat (length b) <? 4); [apply Hfail; [done|by rewrite F2]|].
  apply ends_bind, ends_ask. intros w3 r Hp3 _. pose proof (quiet_perform _ _ _ _ Hp3 H2 ltac:(done)) as H3.
  pose proof (leads_perform _ _ _ _ Hp3) as L3. pose proof (effect_perform _ _ _ _ Hp3 H2) as F3. simpl in F3.
  destruct r as [u|e].
  2: { apply ends_failing. intros w' r L _ Hr. split; [|intros ->; by destruct Hr].
    right; right; left. exists e. apply made_perform in Hp3. carry Hp3. }
  assert (leads w1 w3) as L13 by chain.
  apply ends_say; [done| |].
  2: { intros w' _ _ _ Hm. split; [|done]. right; left. split; [|done]. carry Hm. }
  intros w4 H4 F4 L4 _. assert (leads w1 w4) as L14 by chain.
  apply ends_bind, ends_attempt. eapply ends_mono; [by apply (boot_qemu_spec pid fuel Hfuel staged false)|].
  intros w5 r ((L5 & C5 & O5) & Hst & Hnp). specialize (Hnp eq_refl). assert (leads w1 w5) as L15 by chain.
  assert (forall observed, (forall st, observed = inr st -> r = Ok st) ->
    ends (restoring root b observed) w5 (fun w' r' => kept b w1 w' r' /\ rejected w1 w' r')) as Hrest.
  { intros observed Ho. eapply ends_mono; [apply restoring_spec|]. intros w6 r6 (L6 & K6 & S6). split.
    - destruct O5 as [H5|(c & _ & [[e He]|?])]; [|right; right; right; right; exists c, e; carry He|done].
      destruct (K6 H5) as [K|[e He]]; [by left|]. right; right; right; left. exists e. carry He.
    - intros Hr. destruct (Hst _ (Ho _ (S6 Hr))) as (_ & c & Hc). exists c. carry Hc. }
  destruct r as [st|msg| |]; [apply (Hrest (inr st)); by intros ? [= ->]|apply (Hrest (inl msg)); by intros ? [=]|done|].
  by destruct C5 as [[]|[[=] _]].
Qed.

(** Lines can be printed, and the file at [p] written, at any time. *)
Definition prints : Prop := forall l (w : W), snd (perform (Say l) w) = true.
Definition writable (p : path) : Prop := forall b (w : W), exists u, snd (perform (Write p b) w) = inl u.

Lemma ends_said {E B} l w (m : act W E B) (Q : W -> outcome E B -> Prop) : prints ->
  (forall w', (quiet w -> quiet w' /\ files w' = files w) -> ends m w' Q) -> ends (_ ← say l; m) w Q.
Proof using.
  intros Hp HQ. apply ends_bind. unfold say, must. apply ends_bind, ends_ask. intros w1 r Hw _.
  pose proof (Hp l w) as Hr. rewrite Hw in Hr. simpl in Hr. subst r. apply HQ. intros Hq.
  split; [by apply (quiet_perform _ _ _ _ Hw Hq)|exact (effect_perform _ _ _ _ Hw Hq)].
Qed.

Lemma ends_write {E B} p b w (m : () + IoError -> act W E B) (Q : W -> outcome E B -> Prop) : writable p ->
  (forall w' u, (quiet w -> quiet w' /\ files w' = <[p := b]> (files w)) -> ends (m (inl u)) w' Q) ->
  ends (r ← call_ (Write p b); m r) w Q.
Proof using.
  intros Hp HQ. apply ends_bind, ends_ask. intros w1 r Hw _.
  destruct (Hp b w) as [u Hu]. rewrite Hw in Hu. simpl in Hu. subst r. apply HQ. intros Hq.
  split; [by apply (quiet_perform _ _ _ _ Hw Hq)|exact (effect_perform _ _ _ _ Hw Hq)].
Qed.

(** Where nothing fails and QEMU rejects the corrupted file, [test] passes. *)
Lemma test_succeeds (w w1 : W) staged b : quiet w -> prints -> writable (kernel_path root) ->
  build_and_stage root cargo w = (w1, Ok staged) ->
  snd (perform (Read (kernel_path root)) w1) = inl b -> 4 <= Z.of_nat (length b) ->
  (forall w2, quiet w2 -> files w2 !! kernel_path root = Some (corrupt b) ->
     snd (boot_qemu pid fuel staged false (screenshot_path pid) w2) = Ok (Some FAILURE_EXIT_CODE)) ->
  ends (test root pid cargo fuel) w (fun _ r => r = Ok SUCCESS).
Proof using.
  intros Hq Hpr Hwr Hs Hb Hlen Hboot. unfold test. apply ends_bind, ends_attempt. apply quiet_among in Hq.
  pose proof (build_and_stage_keeps _ w Hq) as (H1 & _ & _). unfold ends at 1. rewrite Hs in H1 |- *.
  cbn [fst snd] in H1 |- *. apply quiet_among in H1.
  apply ends_bind, ends_ask. intros w2 r Hp2 _. pose proof (quiet_perform _ _ _ _ Hp2 H1 ltac:(done)) as H2.
  rewrite Hp2 in Hb. simpl in Hb. subst r. rewrite (proj2 (Z.ltb_ge _ _)) by done.
  apply ends_write; [done|]. intros w3 _ H3. specialize (H3 H2) as [H3 F3].
  apply ends_said; [done|]. intros w4 H4. specialize (H4 H3) as [H4 F4].
  apply ends_bind, ends_attempt. specialize (Hboot w4 H4). rewrite F4, F3, lookup_insert_eq in Hboot.
  unfold ends at 1. rewrite (Hboot eq_refl). unfold restoring. apply ends_write; [done|]. intros w5 _ _.
  apply ends_said; [done|]. intros w6 _. cbn [test_verdict]. rewrite Z.eqb_refl.
  apply ends_said; [done|]. intros w7 _. by apply ends_ret.
Qed.
End Commands.

(** ** The corrupted image *)

(** Whatever else the firmware answers, the bootloader never enters a file
    whose magic number was overwritten. *)
Lemma corrupted_exits {F K} `{ExitServices F} `{!FileProtocol K} init fsr vol (h : K) file_size gh op (f : F) m image :
  answers_ok (inl (Regular h)) file_size op -> contents h = corrupt image ->
  (forall size, file_size h = inl size -> served f size) ->
  bootloader init fsr vol (inl (Regular h)) file_size gh op f m = Ok (Exited Failed).
Proof.
  intros [Hmeta Hbytes _] Hc Hsv. specialize (Hbytes h eq_refl). unfold bootloader, boot_main.
  destruct init as [[]|st]; cbn [status_or or_exit]; [|done].
  pose proof (read_file_spec fsr vol (inl (Regular h)) file_size f Hmeta) as Hrf. unfold read_file_post in Hrf.
  destruct (read_file fsr vol (inl (Regular h)) file_size f) as [b|st| |]; cbn [or_exit]; [|done| |done].
  2: { destruct Hrf as (h' & size & [= <-] & Hs & Hno). by specialize (Hsv size Hs). }
  destruct Hrf as (h' & size & [= <-] & Hs & [Hlt _] & Hl & ->).
  pose proof (proj2 (Hmeta h eq_refl) size Hs) as Hsz. set (b := take (Z.to_nat size) (contents h)).
  assert (image_ok b) as Hb.
  { split; [by apply Forall_take|]. unfold len, b, in_u in *. rewrite length_take. lia. }
  destruct (load_kernel_spec b f m Hb) as [[e ->]|(k & f1 & m1 & ? & ? & ? & ? & Hk & _)]; [done|]. exfalso.
  apply load_kernel_placed in Hk as (phoff & phnum & Hh & _); [|done].
  apply parse_header_Ok in Hh as (Hlen & Hmagic & _); [|done].
  unfold b, len, EHDR_SIZE in *. rewrite length_take in Hlen.
  rewrite take_take, Hc, Nat.min_l in Hmagic by lia. discriminate Hmagic.
Qed.

(** ** Properties *)

(** How a program that comes to an end ends: with a code, or in the panic of
    a line that could not be printed or a thread that could not be started. *)
Lemma concluded_code {W} `{Host report W} (w w' : W) (r : outcome Empty_set ExitCode) :
  concluded w w' r -> (exists code, r = Ok code) \/ r = Panic /\ refused w w'.
Proof. intros [Hs|Hr]; [left|by right]. destruct r as [code|[]| |]; [by exists code|done..]. Qed.

(** C27: the harness always comes to an end. Whatever the command line and
    whatever the host answers to each call (a build that fails, a file that
    cannot be read or written, a QEMU that does not start, never opens its
    monitor, never shows the text, never exits or cannot be asked for its
    status, a closed standard output), every command ends, inside its time
    limits: neither the capture loop nor the wait for QEMU makes more than 601
    rounds. It ends with an exit code, or panics because a line could not be
    printed or the injector's thread not started. No QEMU is left running but
    one whose status the host failed to give, or one that was up at such a
    panic. *)
Theorem harness_ends {W} `{Host report W} root pid cargo fuel args (w : W) :
  (600 < fuel)%nat -> quiet w ->
  exists w' r, main root pid cargo fuel args w = (w', r) /\
    ((exists code, r = Ok code) \/ r = Panic /\ refused w w') /\
    (quiet w' \/
     exists c, among (fun i => i = c) w' /\ ((exists e, made w (TryWait c) (inr e) w') \/ r = Panic)).
Proof.
  intros Hf Hq. destruct (main_closed root pid cargo fuel Hf args w Hq) as (_ & Hc & Ho).
  destruct (main root pid cargo fuel args w) as [w' r]. exists w', r. split; [done|].
  split; [by apply concluded_code|exact Ho].
Qed.

(** C28: the corrupted image does not outlive the test, with three exceptions.
    Whatever QEMU does with it, refuse it, boot it, hang or fail to start, and
    however early the test gives up, [test] leaves [kernel.elf] byte for byte
    as the build staged it, unless: the notice it prints between corrupting the
    file and booting it could not be printed, where it panics with the corrupted
    file in place; a write, of the corruption or of the restoration, failed; or
    the host failed to give QEMU's status and QEMU may still be at it. And it
    passes only if QEMU exited with the failure code. *)
Theorem test_restores_image {W} `{Host report W} root pid cargo fuel (w w1 : W) staged b :
  (600 < fuel)%nat -> quiet w ->
  build_and_stage root cargo w = (w1, Ok staged) -> files w1 !! kernel_path root = Some b ->
  exists w' r, test root pid cargo fuel w = (w', r) /\
    ((exists code, r = Ok code) \/ r = Panic /\ refused w w') /\
    (files w' !! kernel_path root = Some b \/
     (made w1 (Say Corrupted) false w' /\ r = Panic) \/
     (exists e, made w1 (Write (kernel_path root) (corrupt b)) (inr e) w') \/
     (exists e, made w1 (Write (kernel_path root) b) (inr e) w') \/
     (exists c e, made w1 (TryWait c) (inr e) w')) /\
    (r = Ok SUCCESS -> exists c, made w1 (TryWait c) (inl (Some (Some FAILURE_EXIT_CODE))) w').
Proof.
  intros Hf Hq Hs Hb. destruct (test_closed root pid cargo fuel Hf w Hq) as (_ & Hc & _).
  destruct (test_spec root pid cargo fuel Hf w w1 staged b Hq Hs Hb) as [Hk Hr].
  destruct (test root pid cargo fuel w) as [w' r]. exists w', r. split; [done|].
  split; [by apply concluded_code|]. by split.
Qed.

(** C29: the negative test passes against this bootloader. On a host where the
    build, the file calls and the printing succeed and QEMU runs the bootloader
    on the staged file, reporting its exit code in time, [test] ends in success:
    overwriting the magic number of any kernel file of four bytes or more makes
    the bootloader exit with the code the test expects, whatever else the
    firmware answers, as long as it serves the buffer the file is read into. *)
Theorem test_passes {W} `{Host report W} {F K} `{ExitServices F} `{!FileProtocol K} root pid cargo fuel (w w1 : W)
    staged b init fsr vol (disk : bytes -> K) file_size gh op (f : F) m :
  quiet w -> prints (W := W) -> writable (W := W) (kernel_path root) ->
  build_and_stage root cargo w = (w1, Ok staged) ->
  snd (perform (Read (kernel_path root)) w1) = inl b -> 4 <= Z.of_nat (length b) ->
  (forall image, contents (disk image) = image) ->
  answers_ok (inl (Regular (disk (corrupt b)))) file_size op ->
  (forall size, file_size (disk (corrupt b)) = inl size -> served f size) ->
  (forall w2 image code, quiet w2 -> files w2 !! kernel_path root = Some image ->
     bootloader init fsr vol (inl (Regular (disk image))) file_size gh op f m = Ok (Exited code) ->
     snd (boot_qemu pid fuel staged false (screenshot_path pid) w2) =
       Ok (Some (process_exit_code (QemuExitCode_as_u32 code)))) ->
  exists w', test root pid cargo fuel w = (w', Ok SUCCESS).
Proof.
  intros Hq Hpr Hw Hs Hb Hlen Hdisk Hao Hsv Hguest.
  pose proof (test_succeeds root pid cargo fuel w w1 staged b Hq Hpr Hw Hs Hb Hlen) as Ht. unfold ends in Ht.
  destruct (test root pid cargo fuel w) as [w' r]. exists w'. simpl in Ht. rewrite Ht; [done|]. intros w2 H2 K2.
  by rewrite (Hguest w2 (corrupt b) Failed H2 K2
    (corrupted_exits init fsr vol (disk (corrupt b)) file_size gh op f m b Hao (Hdisk _) Hsv)).
Qed.

(** C15: a pass of [run] means what it says. If QEMU's exit code is that of the
    modelled machine, booted from the staged file, then [run] reports success
    only when the bootloader entered the kernel, the kernel counted a hundred
    timer ticks and saw a keypress, and a capture of the screen is a whole
    1280x800 picture whose first cell is the console's letter f. And then QEMU
    is not left running; in any case [run] ends, with an exit code or in the
    panic of a refused print. *)
Theorem run_passes_soundly {W} `{Host report W} {F K} `{ExitServices F} `{!FileProtocol K} {D} `{Device D}
    root pid cargo fuel (w : W) init fsr vol (open : handle K + Z) file_size gh op (f : F) m0
    n kfuel a table address code_at frame sched (d : D) :
  let loaded := bootloader init fsr vol open file_size gh op f m0 in
  (600 < fuel)%nat -> quiet w ->
  answers_ok open file_size op ->
  (forall h size fb c m, open = inl (Regular h) -> file_size h = inl size ->
     loaded = Ok (Jumped c m) -> open_framebuffer gh op = Ok fb ->
     platform a address code_at frame (firstn (Z.to_nat size) (contents h)) fb c m) ->
  live (D := D) n -> (n < kfuel)%nat ->
  BEATS <= beats sched -> irqs sched < 2 ^ 60 ->
  (forall c (w1 : W) st e, snd (perform (TryWait c) w1) = inl (Some st) ->
     power_on kfuel a table address code_at frame sched d loaded = Ok e -> st = Some (end_status e)) ->
  exists w' r, run root pid cargo fuel w = (w', r) /\
    ((exists code, r = Ok code) \/ r = Panic /\ refused w w') /\
    (quiet w' \/
     exists c, among (fun i => i = c) w' /\ ((exists e, made w (TryWait c) (inr e) w') \/ r = Panic)) /\
    (r = Ok SUCCESS -> quiet w' /\
       (exists b, power_on kfuel a table address code_at frame sched d loaded = Ok (In_kernel b Success) /\
          TICKS_REQUIRED <= TICKS (b_k b) /\ 0 < KEY_EVENTS_SEEN (b_k b)) /\
       exists (w3 : W) pixels, files w3 !! screenshot_path pid = Some (ppm_header ++ pixels) /\
         Z.of_nat (length pixels) = pixel_bytes /\ shows_first_glyph pixels).
Proof.
  intros loaded Hf Hq Hao Hpf Hl Hkf Hbeats Hirqs Hguest.
  destruct (power_on_spec init fsr vol open file_size gh op f m0 n kfuel a table address code_at frame sched d
    Hao Hpf Hl Hkf Hbeats Hirqs) as (e & He & Hs).
  destruct (run_closed root pid cargo fuel Hf w Hq) as (_ & Hc & Ho).
  pose proof (run_spec root pid cargo fuel Hf w Hq) as Hran. unfold ends in Hran.
  destruct (run root pid cargo fuel w) as [w' r]. cbn [fst snd] in *. exists w', r. split; [done|].
  split; [by apply concluded_code|]. split; [exact Ho|].
  intros Hok. destruct (Hran Hok) as (Hq' & (c & w2 & _ & Hw2 & _) & (w3 & data & Hd & Hck)). split; [done|]. split.
  - pose proof (Hguest c w2 _ e Hw2 He) as Hst. destruct e as [code|b code|]; [subst code; discriminate Hst| |discriminate Hst].
    destruct code; [|discriminate Hst]. exists b. split; [done|]. by apply Hs.
  - apply check_screen_exact_spec in Hck as (pixels & -> & Hlp & Hg). by exists w3, pixels.
Qed.

(** ** Instances *)

(** A host where every call succeeds that can: commands work, standard output
    is open or not, a [screendump] leaves [shot]. A QEMU runs for [lasts]
    milliseconds and then exits with the code [guest] gives for [kernel.elf];
    from then on nobody can connect to its monitor and every write to it fails.
    A child's number is the time of its launch. *)
Record toy := Toy { t_files : gmap path bytes; t_clock : Z; t_child : option child }.

Section Toy.
Context (root : path) (guest : option bytes -> Z) (shot_path : path) (shot : bytes) (stdout : bool) (lasts : Z).

Definition absent : IoError := {| kind := NotFound; os_code := 2 |}.
Definition broken : IoError := {| kind := OtherKind; os_code := 32 |}.
Definition with_files (m : gmap path bytes) (w : toy) : toy := Toy m (t_clock w) (t_child w).
Definition running (w : toy) : bool := match t_child w with Some t => t_clock w <? t + lasts | None => false end.
Definition with_child (c : option child) (w : toy) : toy := Toy (t_files w) (t_clock w) c.

Definition toy_perform {R} (c : call report R) (w : toy) : toy * R :=
  match c in call _ R return toy * R with
  | Read p => (w, match t_files w !! p with Some b => inl b | None => inr absent end)
  | Write p b => (with_files (<[p := b]> (t_files w)) w, inl ())
  | Copy src dst =>
      match t_files w !! src with
      | Some b => (with_files (<[dst := b]> (t_files w)) w, inl (Z.of_nat (length b)))
      | None => (w, inr absent)
      end
  | CreateDirAll _ => (w, inl ())
  | RemoveFile p =>
      match t_files w !! p with
      | Some _ => (with_files (delete p (t_files w)) w, inl ())
      | None => (w, inr absent)
      end
  | Status _ _ => (w, inl true)
  | Spawn _ => (with_child (Some (t_clock w)) w, inl (t_clock w))
  | TryWait _ =>
      if running w then (w, inl None) else (with_child None w, inl (Some (Some (guest (t_files w !! kernel_path root)))))
  | Kill _ => (w, inl ())
  | Wait _ => (with_child None w, inl None)
  | Connect _ => (w, if running w then inl 7 else inr absent)
  | WriteAll _ _ => if running w then (with_files (<[shot_path := shot]> (t_files w)) w, inl ()) else (w, inr broken)
  | VarOs _ => (w, false)
  | Thread _ => (w, true)
  | Sleep ms => (Toy (t_files w) (t_clock w + Z.max 0 ms) (t_child w), ())
  | Now => (w, t_clock w)
  | Say _ => (w, stdout)
  end.

Definition toy_Host : Host report toy.
Proof.
  refine {| perform := @toy_perform; files := t_files; now := t_clock; alive w i := t_child w = Some i |}.
  - intros R c w. destruct c; simpl; try lia; repeat case_match; simpl; lia.
  - intros ms w. simpl. lia.
  - intros w. simpl. lia.
  - intros R c w i. destruct c; simpl; auto; repeat case_match; simpl; naive_solver.
  - intros i w st. simpl. destruct (running w); [discriminate|]. intros _. simpl. congruence.
  - intros i w. simpl. congruence.
  - intros R c w Hq.
    assert (running w = false) as Hr.
    { unfold running. destruct (t_child w) as [t|] eqn:Et; [by destruct (Hq t)|done]. }
    destruct c; simpl; rewrite ?Hr; try done; repeat case_match; simpl; try done; eauto; by simplify_eq.
Defined.
End Toy.

Definition demo_root : path := text "/w".

(** A workspace whose build made both programs, and the firmware's variables. *)
Definition demo_disk : gmap path bytes :=
  <[join demo_root (text "target/x86_64-unknown-uefi/debug/bootloader.efi") := text "MZ"]>
  (<[join demo_root (text "target/x86_64-unknown-none/debug/kernel") := system_elf]>
  (<[OVMF_VARS_SRC := [0]]> ∅)).
Definition demo_start : toy := Toy demo_disk 0 None.

(** QEMU runs the bootloader on the staged file. *)
Definition file_of (image : bytes) : chunked := Chunked image 0 99.
Definition boot_image (image : bytes) : res boot_end :=
  bootloader (inl tt) (inl tt) (inl tt) (inl (Regular (file_of image))) (fun h => inl (Z.of_nat (length (contents h))))
    (inl tt) (inl demo_gop) demo_firmware ∅.
Definition guest_test (image : option bytes) : Z :=
  match image with
  | Some image => match boot_image image with Ok (Exited code) => process_exit_code (QemuExitCode_as_u32 code) | _ => 0 end
  | None => 0
  end.
Definition test_host : Host report toy := toy_Host demo_root guest_test (screenshot_path 7) [] true 0.

Lemma demo_quiet : quiet (H := test_host) demo_start.
Proof. intros i Hi. discriminate Hi. Qed.

Lemma demo_prints : prints (H := test_host).
Proof. intros l w. reflexivity. Qed.

Lemma demo_writable : writable (H := test_host) (kernel_path demo_root).
Proof. intros b w. exists (). reflexivity. Qed.

Definition demo_staged : Staged := {| esp_dir := join demo_root (text "target/esp"); vars_copy := join demo_root (text "target/OVMF_VARS.fd") |}.

Lemma demo_stages : exists w1, build_and_stage (H := test_host) demo_root (text "cargo") demo_start = (w1, Ok demo_staged) /\
  files (Host := test_host) w1 !! kernel_path demo_root = Some system_elf.
Proof.
  assert (match build_and_stage (H := test_host) demo_root (text "cargo") demo_start with
    | (w1, Ok staged) => staged = demo_staged /\ t_files w1 !! kernel_path demo_root = Some system_elf
    | _ => False end) as Hx by (vm_compute; split; reflexivity).
  destruct (build_and_stage (H := test_host) demo_root (text "cargo") demo_start) as [w1 [staged|e| |]]; [|destruct Hx..].
  destruct Hx as [-> Hk]. exists w1. split; [reflexivity|exact Hk].
Qed.

(** Nothing is refused, and every status is had. *)
Lemma demo_polls c (w : toy) e : snd (perform (Host := test_host) (TryWait c) w) <> inr e.
Proof. simpl. by destruct (running 0 w). Qed.

Lemma demo_never_refused w w' : ~ refused (H := test_host) w w'.
Proof. intros [[x (w1 & _ & Hx & _)]|[x (w1 & _ & Hx & _)]]; discriminate Hx. Qed.

Lemma harness_ends_witness : exists w' code,
  main (H := test_host) demo_root 7 (text "cargo") 601 [text "xtask"; text "test"] demo_start = (w', Ok code) /\
  quiet (H := test_host) w'.
Proof.
  destruct (harness_ends (H := test_host) demo_root 7 (text "cargo") 601 [text "xtask"; text "test"] demo_start
    ltac:(lia) demo_quiet) as (w' & r & Hr & [[code ->]|[_ Hno]] & Ho); [|by apply demo_never_refused in Hno].
  exists w', code. split; [exact Hr|]. destruct Ho as [Hq|(c & _ & [(e & w2 & _ & He & _)|[=]])]; [exact Hq|by apply demo_polls in He].
Defined.

Lemma test_restores_image_witness : exists w' code,
  test (H := test_host) demo_root 7 (text "cargo") 601 demo_start = (w', Ok code) /\
  files (Host := test_host) w' !! kernel_path demo_root = Some system_elf.
Proof.
  destruct demo_stages as (w1 & Hs & Hk).
  destruct (test_restores_image (H := test_host) demo_root 7 (text "cargo") 601 demo_start w1 demo_staged system_elf
    ltac:(lia) demo_quiet Hs Hk) as (w' & r & Hr & [[code ->]|[_ Hno]] & Hf & _); [|by apply demo_never_refused in Hno].
  exists w', code. split; [exact Hr|].
  destruct Hf as [Hf|[[_ [=]]|[(e & w2 & _ & He & _)|[(e & w2 & _ & He & _)|(c & e & w2 & _ & He & _)]]]];
    [exact Hf|discriminate He|discriminate He|by apply demo_polls in He].
Defined.

(** The exception that costs the image: with standard output closed, [test]
    stops at its notice and leaves the corrupted kernel staged. *)
Definition mute_host : Host report toy := toy_Host demo_root guest_test (screenshot_path 7) [] false 0.

Theorem closed_stdout_leaves_corrupted : exists w',
  test (H := mute_host) demo_root 7 (text "cargo") 601 demo_start = (w', Panic) /\
  files (Host := mute_host) w' !! kernel_path demo_root = Some (corrupt system_elf).
Proof.
  assert (match test (H := mute_host) demo_root 7 (text "cargo") 601 demo_start with
    | (w', Panic) => t_files w' !! kernel_path demo_root = Some (corrupt system_elf)
    | _ => False end) as Hx by (vm_compute; reflexivity).
  destruct (test (H := mute_host) demo_root 7 (text "cargo") 601 demo_start) as [w' [c|e| |]]; [destruct Hx..| |destruct Hx].
  by exists w'.
Qed.

(** QEMU has exited by the first time it is asked for its status. *)
Lemma demo_poll n c deadline (w : toy) : running 0 w = false ->
  snd (poll (H := test_host) (S n) c deadline w) = Ok (Some (Some (guest_test (t_files w !! kernel_path demo_root)))).
Proof.
  intros Hr. cbn [poll]. unfold call_, ask, mbind, act_bind. cbn [perform test_host toy_Host toy_perform]. by rewrite Hr.
Qed.

(** The boot of any image the bootloader refuses, from any quiet state. *)
Lemma demo_boot_exits (w : toy) image code : quiet (H := test_host) w ->
  files (Host := test_host) w !! kernel_path demo_root = Some image -> boot_image image = Ok (Exited code) ->
  snd (boot_qemu (H := test_host) 7 601 demo_staged false (screenshot_path 7) w) =
    Ok (Some (process_exit_code (QemuExitCode_as_u32 code))).
Proof.
  intros _ Hk Hb. change (t_files w !! kernel_path demo_root = Some image) in Hk.
  set (w1 := fst (toy_perform demo_root guest_test (screenshot_path 7) [] true 0 (RemoveFile (monitor_socket_path 7)) w)).
  transitivity (Ok (E := harness_error) (Some (guest_test (t_files w1 !! kernel_path demo_root)))).
  { transitivity (match snd (poll (H := test_host) 601 (t_clock w1) (t_clock w1 + QEMU_TIMEOUT) (with_child (Some (t_clock w1)) w1)) with
      | Ok (Some st) => Ok (E := harness_error) st | _ => Panic end).
    - unfold boot_qemu, call_, ask, mbind, act_bind, w1. cbn [perform test_host toy_Host toy_perform].
      destruct (t_files w !! monitor_socket_path 7); cbn [or_fail mret act_ret fst snd];
        (pose proof demo_poll as Hp; match goal with |- context [poll ?n ?c ?d ?x] => specialize (Hp 600%nat c d x) end);
        destruct (poll _ _ _ _) as [w2 r]; cbn [snd] in Hp |- *; by rewrite Hp by (unfold running; simpl; apply Z.ltb_ge; lia).
    - rewrite demo_poll; [reflexivity|]. unfold running. simpl. apply Z.ltb_ge. lia. }
  assert (t_files w1 !! kernel_path demo_root = Some image) as ->.
  { unfold w1, toy_perform. destruct (t_files w !! monitor_socket_path 7); [|exact Hk]. simpl t_files.
    rewrite lookup_delete_ne; [exact Hk|]. intros E. vm_compute in E. discriminate E. }
  unfold guest_test. rewrite Hb. reflexivity.
Qed.

Lemma demo_corrupt_ok :
  answers_ok (inl (Regular (file_of (corrupt system_elf)))) (fun h => inl (Z.of_nat (length (contents h)))) (inl demo_gop).
Proof.
  split.
  - intros h [= <-]. split; [reflexivity|]. intros size [= <-]. vm_compute. split; [discriminate|reflexivity].
  - intros h [= <-]. apply is_bytes_ok. vm_compute. reflexivity.
  - intros gop [= <-]. by split; vm_compute.
Qed.

Lemma test_passes_witness : exists w',
  test (H := test_host) demo_root 7 (text "cargo") 601 demo_start = (w', Ok SUCCESS).
Proof.
  destruct demo_stages as (w1 & Hs & Hk).
  refine (test_passes (H := test_host) demo_root 7 (text "cargo") 601 demo_start w1 demo_staged system_elf
    (inl tt) (inl tt) (inl tt) file_of (fun h => inl (Z.of_nat (length (contents h)))) (inl tt) (inl demo_gop) demo_firmware ∅
    demo_quiet demo_prints demo_writable Hs _ _ _ demo_corrupt_ok _ demo_boot_exits).
  - change (t_files w1 !! kernel_path demo_root = Some system_elf) in Hk.
    cbn [perform test_host toy_Host toy_perform snd]. rewrite Hk. reflexivity.
  - vm_compute. discriminate.
  - intros image. reflexivity.
  - intros size [= <-]. split; [vm_compute; reflexivity|]. right. vm_compute. reflexivity.
Defined.

(** QEMU runs both programs to the end, on the machine of [System]. *)
Definition demo_run : res (run_end nat) :=
  power_on 3 system_statics 0x204000 system_address system_code demo_frame demo_batches 0%nat system_boot.
Definition code_of (r : res (run_end nat)) : Z :=
  match r with Ok e => end_status e | _ => 0 end.
Definition guest_run (_ : option bytes) : Z := code_of demo_run.
Definition run_host : Host report toy := toy_Host demo_root guest_run (screenshot_path 7) (screendump qemu_fb Bgr ∅) true 4600.

Lemma run_passes_soundly_witness : exists w' r,
  run (H := run_host) demo_root 7 (text "cargo") 601 demo_start = (w', r) /\
  (r = Ok SUCCESS -> exists b, demo_run = Ok (In_kernel b Success)).
Proof.
  destruct (run_passes_soundly (H := run_host) demo_root 7 (text "cargo") 601 demo_start
    (inl tt) (inl tt) (inl tt) (inl (Regular system_file)) (fun _ => inl 124) (inl tt) (inl demo_gop) demo_firmware ∅
    2 3 system_statics 0x204000 system_address system_code demo_frame demo_batches 0%nat) as (w' & r & Hr & _ & _ & Hs).
  - lia.
  - intros i Hi. discriminate Hi.
  - exact system_answers_ok.
  - intros h size fb c m [= <-] [= <-] Hb [= <-]. rewrite system_image.
    destruct system_jumps as (c' & m' & Hb' & Hsp & Hdi & Hi & Hm).
    assert (Ok (Jumped c m) = Ok (Jumped c' m')) as E by (etrans; [symmetry; exact Hb|exact Hb']).
    injection E as -> ->. exact (system_platform _ c' m' Hsp Hdi Hi Hm eq_refl).
  - exact slow_uart_live.
  - lia.
  - apply demo_batches_beats.
  - apply demo_batches_beats.
  - intros c w st e Hw He. simpl in Hw. destruct (running 4600 w); [discriminate Hw|]. injection Hw as <-. apply (f_equal Some).
    change (code_of demo_run = end_status e).
    unfold demo_run, system_boot. rewrite He. reflexivity.
  - exists w', r. split; [exact Hr|]. intros Hc. destruct (Hs Hc) as (_ & (b & Hb & _) & _). exists b.
    unfold demo_run, system_boot. exact Hb.
Defined.
