(* ===== verification/Injector.v ===== *)
(** The injector thread of the harness ([inject_keystrokes] in
    [xtask/src/main.rs]) against the kernel's wait: when its key presses are
    sent, what the guest makes of them, and when one is in time. *)
From Stdlib Require Import String Sorted.
From stdpp Require Import sorting.
From S2P Require Import Prelude Memory BootInfo Uefi Elf File Frame Heap FrameApi HeapApi.
From S2P Require Import Handoff QemuExit Bootloader Port Interrupts Console Serial Keyboard Fmt Gdt Idt Wait KeyPress Main System.
From S2P Require Import Xtask Host Harness.

(** ** A host with a log *)

(** What a call put on a stream: a write that failed put nothing there. *)
Definition written {L R} (c : call L R) : R -> option bytes :=
  match c with
  | WriteAll _ b => fun r => match r with inl _ => Some b | inr _ => None end
  | _ => fun _ => None
  end.

(** The same host, keeping the time and the bytes of every write to a stream
    that went through. *)
Definition logged (W : Type) : Type := W * list (Z * bytes).

Definition logged_perform {L W R} `{Host L W} (c : call L R) (w : logged W) : logged W * R :=
  let '(w', r) := perform c (fst w) in
  ((w', match written c r with Some b => snd w ++ [(now (fst w), b)] | None => snd w end), r).

#[export] Instance logged_Host {L W} `{Host L W} : Host L (logged W).
Proof.
  assert (forall R (c : call L R) w, fst (fst (logged_perform c w)) = fst (perform c (fst w)) /\
    snd (logged_perform c w) = snd (perform c (fst w))) as Hp.
  { intros R c w. unfold logged_perform. by destruct (perform c (fst w)). }
  refine {| perform R := logged_perform; files w := files (fst w); now w := now (fst w);
            alive w i := alive (fst w) i |}; intros; rewrite ?(proj1 (Hp _ _ _)), ?(proj2 (Hp _ _ _)) in *.
  - apply perform_time.
  - apply perform_sleep.
  - apply perform_now.
  - by apply perform_alive.
  - by eapply try_wait_reaps.
  - apply wait_reaps.
  - by apply perform_files.
Defined.

Definition KEY_LINE : bytes := line (text "sendkey a").

(** The times of the presses sent. *)
Definition press_times (log : list (Z * bytes)) : list Z :=
  fst <$> filter (fun e => snd e = KEY_LINE) log.

(** One round of the thread: its sleep, then its write. *)
Definition slept {W} `{Host report W} (w : logged W) : logged W := fst (perform (Sleep 500) w).
Definition round_done {W} `{Host report W} (s : stream) (w : logged W) : logged W :=
  fst (perform (WriteAll s KEY_LINE) (slept w)).

(** The states the thread comes through, round after round. *)
Inductive rounds {W} `{Host report W} (s : stream) (w0 : logged W) : logged W -> Prop :=
| rounds_start : rounds s w0 w0
| rounds_next w : rounds s w0 w -> rounds s w0 (round_done s w).

(** The host during the thread's rounds from [w0], for a guest that turns
    interrupts on at [T]: it is late by at most [late] milliseconds for a sleep
    and [slow] for a write, and QEMU is there to take a line as long as the
    guest's run is not over, that is, while no press has been sent after [T]
    and the guest's eleven seconds from [T] have not passed. Of any other write
    nothing is said: it may well fail, with QEMU gone. *)
Record punctual {W} `{Host report W} (late slow : Z) (s : stream) (T : Z) (w0 : logged W) : Prop := {
  pu_sleep (w : W) : now (fst (perform (Sleep 500) w)) <= now w + 500 + late;
  pu_write (w : W) : now (fst (perform (WriteAll s KEY_LINE) w)) <= now w + slow;
  pu_listens w : rounds s w0 w -> Forall (fun t => t <= T) (press_times (snd w)) ->
    now (fst (slept w)) <= T + 11000 -> snd (perform (WriteAll s KEY_LINE) (slept w)) = inl ();
}.

Section Sending.
Context {W : Type} `{Host report W} (s : stream).

(** Half a second or more between presses. *)
Fixpoint spaced (a : Z) (ts : list Z) : Prop :=
  match ts with [] => True | t :: ts => a + 500 <= t /\ spaced t ts end.

Lemma spaced_weaken a a' ts : a' <= a -> spaced a ts -> spaced a' ts.
Proof using. destruct ts as [|t ts]; simpl; [done|]. intros Ha [? ?]. split; [lia|done]. Qed.

Lemma logged_fst {R} (c : call report R) (w : logged W) : fst (fst (perform c w)) = fst (perform c (fst w)).
Proof using. simpl. unfold logged_perform. by destruct (perform c (fst w)). Qed.

Lemma logged_snd {R} (c : call report R) (w : logged W) : snd (perform c w) = snd (perform c (fst w)).
Proof using. simpl. unfold logged_perform. by destruct (perform c (fst w)). Qed.

Lemma logged_log {R} (c : call report R) (w : logged W) :
  snd (fst (perform c w)) =
  match written c (snd (perform c w)) with Some b => snd w ++ [(now (fst w), b)] | None => snd w end.
Proof using. simpl. unfold logged_perform. by destruct (perform c (fst w)). Qed.

(** A round: the press is sent half a second later or more, or QEMU is gone
    and the thread ends. *)
Lemma send_keys_round n (w : logged W) :
  now (fst w) + 500 <= now (fst (slept w)) <= now (fst (round_done s w)) /\ snd (slept w) = snd w /\
  ((snd (perform (WriteAll s KEY_LINE) (slept w)) = inl () /\ send_keys (S n) s w = send_keys n s (round_done s w) /\
      snd (round_done s w) = snd w ++ [(now (fst (slept w)), KEY_LINE)]) \/
   (snd (perform (WriteAll s KEY_LINE) (slept w)) <> inl () /\ fst (send_keys (S n) s w) = round_done s w /\
      snd (round_done s w) = snd w)).
Proof using.
  assert (snd (slept w) = snd w) as Hs by (unfold slept; by rewrite logged_log).
  split; [|split; [done|]].
  { split; [exact (perform_sleep 500 w)|exact (perform_time (WriteAll s KEY_LINE) (slept w))]. }
  pose proof (logged_log (WriteAll s KEY_LINE) (slept w)) as Hl. fold (round_done s w) in Hl. rewrite Hs in Hl.
  cbn [send_keys]. unfold call_, ask, mbind, act_bind. fold KEY_LINE. unfold round_done, slept in *.
  destruct (perform (Sleep 500) w) as [w1 []]. cbn [fst snd] in *.
  destruct (perform (WriteAll s KEY_LINE) w1) as [w2 [[]|e]]; cbn [fst snd written] in *; [by left|by right].
Qed.

(** The thread's presses: no more than it was told to make, spaced. *)
Lemma send_keys_log n (w : logged W) :
  exists ts, snd (fst (send_keys n s w)) = snd w ++ ((fun t => (t, KEY_LINE)) <$> ts) /\ (length ts <= n)%nat /\
    spaced (now (fst w)) ts.
Proof using.
  revert w. induction n as [|n IH]; intros w; [exists []; by rewrite app_nil_r|].
  destruct (send_keys_round n w) as (Ht & _ & [(_ & -> & Hlog)|(_ & -> & Hlog)]).
  - destruct (IH (round_done s w)) as (ts & -> & Hl & Hsp). exists (now (fst (slept w)) :: ts).
    split; [by rewrite Hlog, <- app_assoc|]. split; [simpl; lia|].
    split; [lia|]. apply (spaced_weaken (now (fst (round_done s w)))); [lia|done].
  - exists []. rewrite app_nil_r. split; [done|]. simpl. split; [lia|done].
Qed.

Lemma press_times_snoc log t : press_times (log ++ [(t, KEY_LINE)]) = press_times log ++ [t].
Proof using. unfold press_times. by rewrite filter_app, fmap_app, filter_cons_True. Qed.

(** One of the presses comes after [T] and soon, whether the thread starts
    before [T] or after it. *)
Lemma send_keys_press late slow T (w0 : logged W) n w :
  punctual late slow s T w0 -> rounds s w0 w -> Forall (fun t => t <= T) (press_times (snd w)) ->
  Z.max T (now (fst w0)) + 501 + late + slow <= T + 11000 -> 0 <= slow ->
  now (fst w) <= Z.max T (now (fst w0)) + slow -> T < now (fst w) + 500 * Z.of_nat n -> (0 < n)%nat ->
  exists t, t ∈ press_times (snd (fst (send_keys n s w))) /\ T < t <= Z.max T (now (fst w0)) + 500 + late + slow.
Proof using.
  intros Hpu. revert w. induction n as [|n IH]; intros w Hw Hold Hroom Hslow Hnow HT Hn; [lia|].
  pose proof (pu_sleep _ _ _ _ _ Hpu (fst w)) as Hs. rewrite <- logged_fst in Hs. fold (slept w) in Hs.
  pose proof (pu_write _ _ _ _ _ Hpu (fst (slept w))) as Hr. rewrite <- logged_fst in Hr. fold (round_done s w) in Hr.
  pose proof (pu_listens _ _ _ _ _ Hpu w Hw Hold ltac:(lia)) as Hl.
  destruct (send_keys_round n w) as (Ht & _ & [(_ & Hk & Hlog)|(Hno & _)]); [|done].
  destruct (Z.le_gt_cases (now (fst (slept w))) T) as [Hle|Hgt].
  - rewrite Hk. apply IH; [by constructor| |done|done|lia|lia|lia].
    rewrite Hlog, press_times_snoc. apply Forall_app_2; [done|]. by constructor.
  - exists (now (fst (slept w))). split; [|lia]. rewrite Hk.
    destruct (send_keys_log n (round_done s w)) as (ts & -> & _ & _).
    rewrite Hlog. unfold press_times. rewrite !filter_app, !fmap_app, filter_cons_True by done.
    apply elem_of_app. left. apply elem_of_app. right. by left.
Qed.
End Sending.

Lemma press_times_lines ts : press_times ((fun t => (t, KEY_LINE)) <$> ts) = ts.
Proof.
  unfold press_times. induction ts as [|t ts IH]; [done|]. cbn [fmap list_fmap].
  rewrite filter_cons_True by done. cbn [fmap list_fmap fst]. by rewrite IH.
Qed.

(** ** The guest's side *)

(** What the keyboard hands over for each press: the key's byte when it goes
    down and the released one when it comes up, [hold] later. *)
Definition KEY_DOWN : Z := 0x1E.
Definition KEY_UP : Z := 0x9E.
Definition keystrokes (hold : Z) (ts : list Z) : list (Z * Z) :=
  ts ≫= (fun t => [(t, KEY_DOWN); (t + hold, KEY_UP)]).

(** Bytes from before [T], when interrupts come on, are gone: [ps2::init]
    drained them. *)
Definition pending (T : Z) (arr : list (Z * Z)) : list (Z * Z) := filter (fun x => T < fst x) arr.

(** How many of the coming bytes are there by [t]. *)
Fixpoint arrived (t : Z) (arr : list (Z * Z)) : nat :=
  match arr with [] => 0%nat | x :: arr => if fst x <=? t then S (arrived t arr) else 0%nat end.

(** The interrupts from [T] on, when they are enabled: one tick every ten
    milliseconds, before it the keyboard's since the last. *)
Fixpoint guest_irqs (k : nat) (T : Z) (arr : list (Z * Z)) : list irq :=
  match k with
  | O => []
  | S k =>
      let n := arrived (T + 10) arr in
      replicate n KeyboardIrq ++ TimerIrq :: guest_irqs k (T + 10) (drop n arr)
  end.

(** These interrupts, wherever they land between the kernel's critical
    sections, as long as no stretch between two of them is two ticks long. *)
Definition lands (irqs_ : list irq) (sched : schedule) : Prop :=
  concat sched = irqs_ /\ Forall (fun qs => ticks_in qs <= 1) sched.

Definition bytes_of (arr : list (Z * Z)) (i : nat) : Z := default 0 (snd <$> arr !! i).

Abbreviation in_order := (StronglySorted (fun x y : Z * Z => fst x <= fst y)).

Lemma arrived_length t arr : (arrived t arr <= length arr)%nat.
Proof. induction arr as [|x arr IH]; simpl; [lia|]. destruct (fst x <=? t); lia. Qed.

(** A byte not there yet comes later than [t]. *)
Lemma arrived_late t arr j x : in_order arr -> arr !! j = Some x -> (arrived t arr <= j)%nat -> t < fst x.
Proof.
  intros Ho. revert j. induction Ho as [|y arr Ho IH Hy]; intros j Hj Hle; [done|]. simpl in Hle.
  destruct (Z.leb_spec (fst y) t).
  - destruct j as [|j]; [lia|]. apply (IH j); [done|lia].
  - destruct j as [|j]; simpl in Hj; [by injection Hj as <-|].
    rewrite Forall_forall in Hy. apply list_elem_of_lookup_2, Hy in Hj. lia.
Qed.

Lemma keys_in_replicate n : keys_in (replicate n KeyboardIrq) = n.
Proof. induction n as [|n IH]; simpl; lia. Qed.

Lemma ticks_in_replicate n : ticks_in (replicate n KeyboardIrq) = 0.
Proof. induction n as [|n IH]; simpl; lia. Qed.

Lemma bytes_of_drop n arr i : bytes_of (drop n arr) i = bytes_of arr (n + i)%nat.
Proof. unfold bytes_of. by rewrite lookup_drop. Qed.

(** The [j]-th byte, there by the [m]-th tick, comes with an interrupt before
    it. *)
Lemma guest_press k m T arr j x :
  in_order arr -> arr !! j = Some x -> fst x <= T + 10 * Z.of_nat m -> (0 < m <= k)%nat ->
  exists l r, guest_irqs k T arr = l ++ KeyboardIrq :: r /\ keys_in l = j /\ ticks_in l < Z.of_nat m.
Proof.
  revert m T arr j. induction k as [|k IH]; intros m T arr j Ho Hj Hx Hm; [lia|]. cbn [guest_irqs].
  set (n := arrived (T + 10) arr). destruct (Nat.lt_ge_cases j n) as [Hlt|Hge].
  - exists (replicate j KeyboardIrq), (replicate (n - S j) KeyboardIrq ++ TimerIrq :: guest_irqs k (T + 10) (drop n arr)).
    rewrite keys_in_replicate, ticks_in_replicate. split; [|split; [done|lia]].
    replace n with (j + S (n - S j))%nat at 1 by lia. by rewrite replicate_add, <- app_assoc.
  - pose proof (arrived_late _ _ _ _ Ho Hj Hge) as Hlate.
    destruct (IH (pred m) (T + 10) (drop n arr) (j - n)%nat) as (l & r & -> & Hk & Ht).
    { rewrite <- (take_drop n arr) in Ho. by apply StronglySorted_app_1_r in Ho. }
    { rewrite lookup_drop. by replace (n + (j - n))%nat with j by lia. } { lia. } { lia. }
    exists (replicate n KeyboardIrq ++ TimerIrq :: l), r. split; [by rewrite <- app_assoc|].
    rewrite keys_in_app, ticks_in_app, keys_in_replicate, ticks_in_replicate. simpl. lia.
Qed.

(** A press by the [m]-th tick is a press within [m] ticks, wherever it
    lands. *)
Lemma press_lands k m T arr j x f sched :
  in_order arr -> arr !! j = Some x -> is_press (f j) = true -> fst x <= T + 10 * Z.of_nat m -> (0 < m <= k)%nat ->
  lands (guest_irqs k T arr) sched -> press_within (Z.of_nat m) f sched.
Proof.
  intros Ho Hj Hp Hx Hm [Hc H1]. destruct (guest_press k m T arr j x Ho Hj Hx Hm) as (l & r & Hg & Hk & Ht).
  rewrite Hg in Hc. apply concat_split in Hc as (pre & l' & r' & post & -> & ->).
  exists pre, l', r', post. split; [done|]. rewrite Hk. split; [|done].
  apply Forall_app in H1 as [_ [Hb _]%Forall_cons]. rewrite ticks_in_app in Ht |- *.
  pose proof (ticks_in_nonneg l'). lia.
Qed.

Lemma guest_irqs_ticks k T arr :
  ticks_in (guest_irqs k T arr) = Z.of_nat k /\ (length (guest_irqs k T arr) <= k + length arr)%nat.
Proof.
  revert T arr. induction k as [|k IH]; intros T arr; [split; simpl; lia|]. cbn [guest_irqs].
  destruct (IH (T + 10) (drop (arrived (T + 10) arr) arr)) as [Ht Hl]. pose proof (arrived_length (T + 10) arr).
  rewrite length_drop in Hl. rewrite ticks_in_app, ticks_in_replicate, length_app, length_replicate. simpl. lia.
Qed.

(** With no two ticks in a batch, there is one for every tick. *)
Lemma beats_of_ticks sched : Forall (fun qs => ticks_in qs <= 1) sched -> beats sched = ticks_in (concat sched).
Proof.
  induction 1 as [|qs sched Hq _ IH]; [done|]. cbn [beats foldr]. fold (beats sched). simpl concat.
  rewrite ticks_in_app, IH. unfold beat. pose proof (ticks_in_nonneg qs). case_cmp; lia.
Qed.

Lemma lands_beats k T arr sched :
  lands (guest_irqs k T arr) sched ->
  beats sched = Z.of_nat k /\ irqs sched <= Z.of_nat k + Z.of_nat (length arr).
Proof.
  intros [Hc H1]. destruct (guest_irqs_ticks k T arr) as [Ht Hl].
  rewrite beats_of_ticks by done. unfold irqs. rewrite Hc. lia.
Qed.

(** One interrupt at a time. *)
Lemma lands_apart qs : lands qs ((fun q => [q]) <$> qs).
Proof.
  split; [induction qs as [|q qs IH]; [done|]; simpl; by f_equal|].
  induction qs as [|[] qs IH]; constructor; simpl; try lia; done.
Qed.

(** ** In order *)

Lemma filter_in_order (P : Z * Z -> Prop) `{forall x, Decision (P x)} arr : in_order arr -> in_order (filter P arr).
Proof.
  induction 1 as [|x arr Ho IH Hx]; [constructor|]. rewrite filter_cons. destruct (decide (P x)); [|done].
  constructor; [done|]. rewrite Forall_forall in Hx |- *. intros y [_ Hy]%list_elem_of_filter. by apply Hx.
Qed.

Lemma keystrokes_in_order hold a ts :
  0 <= hold <= 500 -> spaced a ts ->
  in_order (keystrokes hold ts) /\ Forall (fun x => a + 500 <= fst x) (keystrokes hold ts).
Proof.
  intros Hh. revert a. induction ts as [|t ts IH]; intros a Hs; [by split; constructor|].
  destruct Hs as [Ht Hs]. destruct (IH t Hs) as [Ho Hf].
  change (keystrokes hold (t :: ts)) with ((t, KEY_DOWN) :: (t + hold, KEY_UP) :: keystrokes hold ts).
  assert (Forall (fun x => t + hold <= fst x) (keystrokes hold ts)) as Hf' by (eapply Forall_impl; [exact Hf|simpl; lia]).
  split; [|constructor; [simpl; lia|constructor; [simpl; lia|eapply Forall_impl; [exact Hf|simpl; lia]]]].
  constructor; [constructor; [done|exact Hf']|]. constructor; [simpl; lia|].
  eapply Forall_impl; [exact Hf|simpl; lia].
Qed.

(** A press after [T] is one of the bytes still to come. *)
Lemma pending_press hold ts t T :
  t ∈ ts -> T < t -> exists j, pending T (keystrokes hold ts) !! j = Some (t, KEY_DOWN).
Proof.
  intros Hin HT. apply list_elem_of_lookup_1, list_elem_of_filter. split; [done|].
  apply list_elem_of_bind. exists t. split; [by left|done].
Qed.

Lemma length_pending hold ts T : (length (pending T (keystrokes hold ts)) <= 2 * length ts)%nat.
Proof.
  etrans; [apply length_filter|]. induction ts as [|t ts IH]; [simpl; lia|].
  change (keystrokes hold (t :: ts)) with ((t, KEY_DOWN) :: (t + hold, KEY_UP) :: keystrokes hold ts). simpl length. lia.
Qed.

(** ** The thread and the wait *)

(** What the injector leaves for a guest whose interrupts come on at [T]. *)
Definition injected {W} `{Host report W} (s : stream) (hold T : Z) (w : W) : list (Z * Z) :=
  pending T (keystrokes hold (press_times (snd (fst (send_keys 40 s ((w, []) : logged W)))))).

Lemma injected_order {W} `{Host report W} s hold T (w : W) : 0 <= hold <= 500 ->
  in_order (injected s hold T w) /\ (length (injected s hold T w) <= 80)%nat.
Proof.
  intros Hh. unfold injected. destruct (send_keys_log s 40 ((w, []) : logged W)) as (ts & -> & Hl & Hsp).
  cbn [fst snd app] in *. rewrite press_times_lines. split.
  - apply filter_in_order. by eapply keystrokes_in_order.
  - pose proof (length_pending hold ts T). lia.
Qed.

(** A key gets through in time, to a guest whose keyboard hands over the
    presses it is sent. *)
Lemma injected_press {W} `{Host report W} late slow s hold T k f sched (w : W) :
  punctual late slow s T ((w, []) : logged W) -> 0 <= hold <= 500 -> 0 <= slow ->
  T < now w + 20000 -> Z.max T (now w) + 501 + late + slow <= T + 11000 -> (1100 <= k)%nat ->
  (forall i t, injected s hold T w !! i = Some (t, KEY_DOWN) -> f i = KEY_DOWN) ->
  lands (guest_irqs k T (injected s hold T w)) sched ->
  press_within (TICKS_REQUIRED + 10 * TIMER_HZ) f sched.
Proof.
  intros Hpu Hh Hs HT Hlate Hk Hf Hsched. destruct (injected_order s hold T w Hh) as [Ho _].
  destruct (send_keys_press s late slow T ((w, []) : logged W) 40 (w, []) Hpu) as (t & Hin & Ht);
    [constructor|constructor|done|done|cbn [fst]; lia|cbn [fst]; lia|lia|]. cbn [fst] in Ht.
  destruct (pending_press hold _ t T Hin) as [j Hj]; [lia|]. fold (injected s hold T w) in Hj.
  apply (press_lands k 1100 T (injected s hold T w) j (t, KEY_DOWN) f sched Ho Hj); [by rewrite (Hf j t Hj)|simpl; lia|lia|done].
Qed.

(** ** Properties *)

(** C16: the injector and the kernel's wait meet. Let the thread [run] leaves
    behind start less than twenty seconds before the kernel turns interrupts
    on, or after that but with a round of its loop, as late as the host makes
    it, still fitting in the eleven seconds the kernel then allows; and let
    QEMU take its lines for as long as the guest has not had a press it can see
    and those seconds last, and break the stream whenever it likes after that,
    which ends the thread. Then, whatever the presses before that (they are
    lost), the kernel's ticks and the remaining presses, and wherever those
    interrupts land between its prints and reads, one press is handed over
    before the kernel's deadline, and the machine, from power on, ends with the
    code [run] expects. *)
Theorem injected_run_succeeds {W} `{Host report W} {F K} `{ExitServices F} `{!FileProtocol K} {D} `{Device D} `{!Typist D}
    late slow s hold T k (w : W) init fsr vol h size gh op file_size (f : F) m0 c m n fuel a table address code_at
    frame fb sched (d : D) :
  let loaded := bootloader init fsr vol (inl (Regular h)) file_size gh op f m0 in
  let info := read_BootInfo m (c_rdi c) in
  let arr := injected s hold T w in
  punctual late slow s T ((w, []) : logged W) -> 0 <= hold <= 500 -> 0 <= slow ->
  T < now w + 20000 -> Z.max T (now w) + 501 + late + slow <= T + 11000 -> BEATS <= Z.of_nat k < 2 ^ 32 ->
  lands (guest_irqs k T arr) sched ->
  answers_ok (inl (Regular h)) file_size op -> file_size h = inl size ->
  loaded = Ok (Jumped c m) -> open_framebuffer gh op = Ok fb ->
  platform a address code_at frame (firstn (Z.to_nat size) (contents h)) fb c m ->
  live (D := D) n -> (n < fuel)%nat ->
  has_run (memory_regions m info) (HEAP_FRAMES + 2) ->
  exists b failed base, transcript (entered d c m) b
      (boot_lines info failed frame (Z.of_nat (length (usable_frames (memory_regions m info)))) base) /\
    ((forall i t, arr !! i = Some (t, KEY_DOWN) -> typed (io_dev (mc_io (b_machine b))) i = KEY_DOWN) ->
     exists e, power_on fuel a table address code_at frame sched d loaded = Ok e /\ end_status e = EXPECTED_EXIT_CODE).
Proof.
  intros loaded info arr Hpu Hh Hs HT Hlate Hk Hsched Hao Hsz Hb Hfb Hpf Hl Hf Hrun.
  destruct (lands_beats _ _ _ _ Hsched) as [Hbeats Hirqs].
  destruct (injected_order s hold T w Hh) as [_ Harr]. fold arr in Harr.
  destruct (power_on_press init fsr vol h size gh op file_size f m0 c m n fuel a table address code_at frame
    sched fb d Hao Hsz Hb Hfb Hpf Hl Hf Hrun) as (b & failed & base & Tr & Hp); [lia|lia|].
  exists b, failed, base. split; [exact Tr|]. intros Hty.
  destruct Hp as (s' & l & _ & Hr & _).
  { apply (injected_press late slow s hold T k _ _ w); try done. unfold BEATS in Hk. lia. }
  by exists (In_kernel (with_k s' b) Success).
Qed.

(** ** Instances *)

(** The example host's QEMU goes away 4.6 s after the thread starts, with its
    guest's interrupts on from 3 s: after the press the guest needs, the seventh,
    and before the thread's tenth, which is refused. *)
Definition qemu_up : toy := Toy demo_disk 0 (Some 0).

Lemma toy_round (w : logged toy) : t_child (fst w) = Some 0 ->
  t_clock (fst (round_done (H := run_host) 7 w)) = t_clock (fst w) + 500 /\
  t_child (fst (round_done (H := run_host) 7 w)) = Some 0 /\
  snd (round_done (H := run_host) 7 w) =
    if t_clock (fst w) + 500 <? 4600 then snd w ++ [(t_clock (fst w) + 500, KEY_LINE)] else snd w.
Proof.
  destruct w as [[fs clock c] log]. cbn [fst snd t_child t_clock]. intros ->. unfold round_done, slept. simpl.
  unfold logged_perform. simpl. unfold running. simpl.
  change (0 `max` 500) with 500. change (0 + 4600) with 4600. by destruct (clock + 500 <? 4600).
Qed.

Lemma toy_rounds w : rounds (H := run_host) 7 (qemu_up, []) w ->
  t_child (fst w) = Some 0 /\ (t_clock (fst w) <= 3000 \/ Exists (fun t => 3000 < t) (press_times (snd w))).
Proof.
  induction 1 as [|w _ [Hc IH]]; [split; [done|left; simpl; lia]|]. destruct (toy_round w Hc) as (-> & -> & ->).
  split; [done|]. destruct (Z.ltb_spec (t_clock (fst w) + 500) 4600).
  - rewrite press_times_snoc, Exists_app.
    destruct IH as [IH|IH]; [|by right; left]. destruct (Z.le_gt_cases (t_clock (fst w) + 500) 3000); [by left|].
    right. right. by constructor.
  - right. by destruct IH; [lia|].
Qed.

Lemma toy_punctual : punctual (H := run_host) 0 0 7 3000 (qemu_up, []).
Proof.
  split.
  - intros w. simpl. lia.
  - intros w. simpl. destruct (running 4600 w); simpl; lia.
  - intros w Hw Hold _. destruct (toy_rounds w Hw) as [Hch [Hc|He]].
    + unfold slept. simpl. unfold logged_perform. simpl. unfold running. simpl. rewrite Hch.
      by rewrite (proj2 (Z.ltb_lt _ _)) by (simpl; lia).
    + apply Exists_exists in He as (t & Hin & Ht). rewrite Forall_forall in Hold. specialize (Hold t Hin). lia.
Qed.

(** Interrupts come on three seconds after the first capture, on a machine
    whose keyboard is leant on. *)
Lemma injected_run_succeeds_witness : exists e,
  power_on 3 system_statics 0x204000 system_address system_code demo_frame
    ((fun q => [q]) <$> guest_irqs 1108 3000 (injected (H := run_host) 7 100 3000 qemu_up)) (HeldKey 0) system_boot = Ok e /\
  end_status e = EXPECTED_EXIT_CODE.
Proof.
  destruct system_boots as (c & m & Hb & Hrun & Hpf).
  destruct (injected_run_succeeds (H := run_host) 0 0 7 100 3000 1108 qemu_up (inl tt) (inl tt) (inl tt) system_file 124
    (inl tt) (inl demo_gop) (fun _ => inl 124) demo_firmware ∅ c m 2 3 system_statics 0x204000 system_address system_code
    demo_frame (bi_framebuffer system_info)
    ((fun q => [q]) <$> guest_irqs 1108 3000 (injected (H := run_host) 7 100 3000 qemu_up)) (HeldKey 0) toy_punctual) as (b & failed & base & _ & Hp);
    [lia|lia|simpl; lia|simpl; lia|unfold BEATS; lia|apply lands_apart|exact system_answers_ok|reflexivity|exact Hb|reflexivity|exact Hpf|exact held_live|lia|exact Hrun|].
  apply Hp. intros i t _. reflexivity.
Defined.
