(* ===== verification/Tests.v ===== *)
(** The repository's own unit tests: of the usable-region iterator
    ([boot_info/src/lib.rs], [mod tests]) and of the screen check
    ([xtask/src/main.rs], [mod screen_tests]). Each test is the function it is
    in the code: [Ok] when it passes, [Panic] when an assertion fails. *)
From Stdlib Require Import String.
From stdpp Require Import gmap.
From S2P Require Import Prelude Memory BootInfo Fmt Font Console Xtask Host Harness.

Definition assert_ {E} (b : bool) : outcome E () := if b then Ok () else Panic.

(** ** The iterator's tests *)

Definition LOADER_DATA_KIND : Z := 2.
Definition frame_run (start frames : Z) : option FrameRun := Some {| fr_start := start; fr_frames := frames |}.

(** [assert_eq!(runs.next(), expected)]. *)
Definition expect_next (runs : UsableRegions) (expected : option FrameRun) : res UsableRegions :=
  let '(run, runs) := next runs in
  _ ← assert_ (bool_decide (run = expected));
  Ok runs.

Definition skips_regions_that_are_not_conventional : res () :=
  let regions := [MemoryRegion_new 0x1000 4 LOADER_DATA_KIND; MemoryRegion_new 0x5000 4 CONVENTIONAL] in
  let runs := UsableRegions_new regions in
  runs ← expect_next runs (frame_run 0x5000 4);
  _ ← expect_next runs None;
  Ok ().

Definition never_yields_the_frame_at_physical_zero : res () :=
  let runs := UsableRegions_new [MemoryRegion_new 0 2 CONVENTIONAL] in
  runs ← expect_next runs (frame_run 0x1000 1);
  _ ← expect_next runs None;
  Ok ().

Definition clamps_an_unaligned_span_inward : res () :=
  let runs := UsableRegions_new [MemoryRegion_new 0x1800 2 CONVENTIONAL] in
  runs ← expect_next runs (frame_run 0x2000 1);
  _ ← expect_next runs None;
  Ok ().

Definition drops_a_span_that_rounds_away_to_nothing : res () :=
  _ ← expect_next (UsableRegions_new [MemoryRegion_new 0x1800 1 CONVENTIONAL]) None;
  Ok ().

Definition yields_every_usable_region_in_order : res () :=
  let regions := [MemoryRegion_new 0x2000 3 CONVENTIONAL; MemoryRegion_new 0x9000 1 LOADER_DATA_KIND;
                  MemoryRegion_new 0xa000 2 CONVENTIONAL] in
  let runs := UsableRegions_new regions in
  runs ← expect_next runs (frame_run 0x2000 3);
  runs ← expect_next runs (frame_run 0xa000 2);
  _ ← expect_next runs None;
  Ok ().

Definition an_empty_map_yields_nothing : res () :=
  _ ← expect_next (UsableRegions_new []) None;
  Ok ().

Definition skips_a_descriptor_whose_span_overflows : res () :=
  let u64_max := 2 ^ 64 - 1 in
  _ ← expect_next (UsableRegions_new [MemoryRegion_new (u64_max - 0xfff) u64_max CONVENTIONAL]) None;
  Ok ().

Lemma iterator_tests_pass :
  skips_regions_that_are_not_conventional = Ok () /\ never_yields_the_frame_at_physical_zero = Ok () /\
  clamps_an_unaligned_span_inward = Ok () /\ drops_a_span_that_rounds_away_to_nothing = Ok () /\
  yields_every_usable_region_in_order = Ok () /\ an_empty_map_yields_nothing = Ok () /\
  skips_a_descriptor_whose_span_overflows = Ok ().
Proof. repeat split; vm_compute; reflexivity. Qed.

(** ** The screen check's tests *)

Definition SCREEN_WIDTH : Z := 1280.
Definition SCREEN_HEIGHT : Z := 800.
Definition EXPECTED_FIRST_GLYPH : list Z :=
  scanlines 0x00 0x00 0x38 0x6c 0x64 0x60 0xf0 0x60 0x60 0x60 0x60 0xf0 0x00 0x00 0x00 0x00.

(** [vec![0; SCREEN_WIDTH * SCREEN_HEIGHT * 3]]. *)
Definition black_pixels : bytes := replicate (Z.to_nat (SCREEN_WIDTH * SCREEN_HEIGHT * 3)) 0.

(** [pixels[offset..offset + src.len()].copy_from_slice(src)]. *)
Definition copy_pixels (pixels : bytes) (offset : Z) (src : bytes) : res bytes :=
  if Z.of_nat (length pixels) <? offset + Z.of_nat (length src) then Panic
  else Ok (list_inserts (Z.to_nat offset) src pixels).

(** [for chunk in pixels.chunks_exact_mut(3) { chunk.copy_from_slice(c) }], for
    [c] of three bytes: the last, shorter chunk is left alone. *)
Fixpoint fill_chunks (n : nat) (c pixels : bytes) : bytes :=
  match n with
  | O => pixels
  | S n => c ++ fill_chunks n c (drop 3 pixels)
  end.

Definition kernel_text_pixels : res bytes :=
  let pixels := black_pixels in
  let pixels := fill_chunks (length pixels / 3) [0x00; 0x33; 0x99] pixels in
  for_range 0 (Z.of_nat (length EXPECTED_FIRST_GLYPH)) (fun y pixels =>
    let scanline := default 0 (EXPECTED_FIRST_GLYPH !! Z.to_nat y) in
    for_range 0 8 (fun x pixels =>
      if lit scanline x then
        row ← mul_u 64 y SCREEN_WIDTH;
        p ← add_u 64 row x;
        offset ← mul_u 64 p 3;
        copy_pixels pixels offset [0xe0; 0xe0; 0xe0]
      else Ok pixels) pixels) pixels.

(** The bytes [write_ppm] writes. *)
Definition test_ppm (maxval : Z) (pixels : bytes) : bytes :=
  text "P6" ++ [10] ++ dec SCREEN_WIDTH ++ text " " ++ dec SCREEN_HEIGHT ++ [10] ++ dec maxval ++ [10] ++ pixels.

Section ScreenTests.
(** The host, [env::temp_dir()] and [process::id()]. *)
Context {W : Type} `{Host report W} (temp_dir : path) (pid : Z).

Definition test_path (name : bytes) : path :=
  join temp_dir (text "rust_bl_" ++ name ++ text "_" ++ dec pid ++ text "_screen_test.ppm").

Definition write_ppm (name : bytes) (maxval : Z) (pixels : bytes) : act W Empty_set path :=
  let path := test_path name in
  r ← ask (Write path (test_ppm maxval pixels));
  match r with
  | inl _ => mret path
  | inr _ => of_outcome Panic
  end.

(** What the three tests have in common: write, check, remove, assert. *)
Definition rejects (name : bytes) (maxval : Z) (pixels : bytes) : act W Empty_set () :=
  path ← write_ppm name maxval pixels;
  result ← check_capture path;
  _ ← ask (RemoveFile path);
  of_outcome (assert_ (match result with inl _ => false | inr _ => true end)).

Definition rejects_coloured_firmware_frame_without_kernel_text : act W Empty_set () :=
  pixels ← of_outcome (copy_pixels black_pixels 3 [0xff; 0xff; 0xff]);
  rejects (text "firmware_colours") 255 pixels.

Definition rejects_ppm_with_nonstandard_maxval : act W Empty_set () :=
  pixels ← of_outcome kernel_text_pixels;
  rejects (text "bad_maxval") 42 pixels.

Definition rejects_truncated_ppm_payload : act W Empty_set () :=
  pixels ← of_outcome kernel_text_pixels;
  rejects (text "truncated") 255 (take (Z.to_nat (SCREEN_WIDTH * 16 * 3)) pixels).
End ScreenTests.

(** ** Pixels *)

(** Pixel [k] of a payload: three bytes. *)
Definition chunk (pixels : bytes) (k : Z) : bytes := take 3 (drop (Z.to_nat (k * 3)) pixels).

Lemma chunk_lookup pixels k i : 0 <= k -> (i < 3)%nat -> chunk pixels k !! i = pixels !! (Z.to_nat (k * 3) + i)%nat.
Proof. intros Hk Hi. unfold chunk. by rewrite lookup_take_lt, lookup_drop by done. Qed.

Lemma chunk_ext pixels pixels' k :
  0 <= k -> (forall i, (i < 3)%nat -> pixels !! (Z.to_nat (k * 3) + i)%nat = pixels' !! (Z.to_nat (k * 3) + i)%nat) ->
  chunk pixels k = chunk pixels' k.
Proof.
  intros Hk He. apply list_eq. intros i. destruct (decide (i < 3)%nat) as [Hi|Hi].
  - rewrite !chunk_lookup by done. by apply He.
  - unfold chunk. by rewrite !lookup_take_ge by lia.
Qed.

Lemma chunk_copied pixels j c k :
  length c = 3%nat -> 0 <= j -> 0 <= k -> (k + 1) * 3 <= Z.of_nat (length pixels) ->
  chunk (list_inserts (Z.to_nat (j * 3)) c pixels) k = if k =? j then c else chunk pixels k.
Proof.
  intros Hc Hj Hk Hl. destruct (Z.eqb_spec k j) as [->|Hne].
  - apply list_eq. intros i. destruct (decide (i < 3)%nat) as [Hi|Hi].
    + rewrite chunk_lookup by done. rewrite list_lookup_inserts by lia. f_equal. lia.
    + unfold chunk. rewrite lookup_take_ge by lia. symmetry. apply lookup_ge_None_2. lia.
  - apply chunk_ext; [done|]. intros i Hi. destruct (decide (k < j)).
    + apply list_lookup_inserts_lt. lia.
    + apply list_lookup_inserts_ge. lia.
Qed.

Lemma chunk_filled n c pixels k :
  length c = 3%nat -> length pixels = (n * 3)%nat -> 0 <= k < Z.of_nat n -> chunk (fill_chunks n c pixels) k = c.
Proof.
  intros Hc. revert pixels k. induction n as [|n IH]; intros pixels k Hl Hk; [lia|]. cbn [fill_chunks]. unfold chunk.
  destruct (Z.eq_dec k 0) as [->|Hk0]; [change (Z.to_nat (0 * 3)) with 0%nat; rewrite drop_0; by apply take_app_length'|].
  rewrite drop_app_ge by lia. etrans; [|apply (IH (drop 3 pixels) (k - 1)); [rewrite length_drop; lia|lia]].
  unfold chunk. do 2 f_equal. lia.
Qed.

Lemma length_filled n c pixels :
  length c = 3%nat -> length pixels = (n * 3)%nat -> length (fill_chunks n c pixels) = length pixels.
Proof.
  intros Hc. revert pixels. induction n as [|n IH]; intros pixels Hl; [done|]. cbn [fill_chunks].
  rewrite length_app, IH by (rewrite length_drop; lia). rewrite length_drop. lia.
Qed.

Lemma length_black : Z.of_nat (length black_pixels) = pixel_bytes.
Proof. unfold black_pixels. rewrite length_replicate, Z2Nat.id by (vm_compute; discriminate). reflexivity. Qed.

Lemma chunk_black : chunk black_pixels 0 !! 1%nat = Some 0.
Proof.
  rewrite chunk_lookup by lia. unfold black_pixels. apply lookup_replicate_2. unfold SCREEN_WIDTH, SCREEN_HEIGHT. lia.
Qed.

#[local] Opaque black_pixels.

(** A thousand thousand pixels of one colour. *)
Lemma filled_pixels c k :
  length c = 3%nat -> let pixels := fill_chunks (length black_pixels / 3) c black_pixels in
  Z.of_nat (length pixels) = pixel_bytes /\ (0 <= k < 1280 * 800 -> chunk pixels k = c).
Proof.
  intros Hc. cbv zeta. pose proof length_black as Hl. unfold pixel_bytes in *.
  assert (length black_pixels = length black_pixels / 3 * 3)%nat as Hd.
  { rewrite <- (Nat2Z.id (length black_pixels)), Hl. change (1280 * 800 * 3) with (1024000 * 3).
    rewrite Z2Nat.inj_mul by lia. change (Z.to_nat 3) with 3%nat. rewrite Nat.div_mul by lia. lia. }
  split; [rewrite length_filled; [exact Hl|exact Hc|exact Hd]|]. intros Hk. apply chunk_filled; [exact Hc|exact Hd|lia].
Qed.

(** The payload the tests start from. *)
Definition painted (done : Z -> Z -> bool) (pixels : bytes) : Prop :=
  Z.of_nat (length pixels) = pixel_bytes /\
  forall x y, 0 <= x < 8 -> 0 <= y < 16 ->
    captured pixels x y = if done x y && glyph_bit 102 x y then KERNEL_FOREGROUND else KERNEL_BACKGROUND.

Lemma copy_pixels_ok pixels offset src :
  offset + Z.of_nat (length src) <= Z.of_nat (length pixels) ->
  copy_pixels pixels offset src = Ok (list_inserts (Z.to_nat offset) src pixels).
Proof. intros Hl. unfold copy_pixels. by rewrite (proj2 (Z.ltb_ge _ _) Hl). Qed.

Lemma painted_step done x0 y0 pixels :
  painted done pixels -> 0 <= x0 < 8 -> 0 <= y0 < 16 -> glyph_bit 102 x0 y0 = true ->
  painted (fun x y => done x y || ((x =? x0) && (y =? y0)))
    (list_inserts (Z.to_nat ((y0 * 1280 + x0) * 3)) KERNEL_FOREGROUND pixels).
Proof.
  intros [Hl Hp] Hx0 Hy0 Hg. split; [by rewrite length_inserts|]. intros x y Hx Hy. unfold pixel_bytes in Hl.
  change (captured ?p x y) with (chunk p (y * 1280 + x)). rewrite chunk_copied by (try reflexivity; lia).
  change (chunk pixels (y * 1280 + x)) with (captured pixels x y).
  destruct (Z.eqb_spec (y * 1280 + x) (y0 * 1280 + x0)).
  - assert (y = y0) as -> by lia. assert (x = x0) as -> by lia. by rewrite !Z.eqb_refl, orb_true_r, Hg.
  - rewrite Hp by done. destruct (Z.eqb_spec x x0), (Z.eqb_spec y y0); rewrite ?orb_false_r; [|done..].
    subst. lia.
Qed.

Lemma painted_ext (d d' : Z -> Z -> bool) pixels :
  (forall x y, 0 <= x < 8 -> 0 <= y < 16 -> glyph_bit 102 x y = true -> d x y = d' x y) -> painted d pixels -> painted d' pixels.
Proof.
  intros He [Hl Hp]. split; [done|]. intros x y Hx Hy. rewrite Hp by done.
  destruct (glyph_bit 102 x y) eqn:Hg; [by rewrite (He x y)|by rewrite !andb_false_r].
Qed.

Lemma kernel_text_pixels_spec : exists pixels, kernel_text_pixels = Ok pixels /\
  Z.of_nat (length pixels) = pixel_bytes /\ shows_first_glyph pixels.
Proof.
  unfold kernel_text_pixels. cbv zeta. set (pixels0 := fill_chunks _ _ _).
  assert (painted (fun _ y => y <? 0) pixels0) as Hp0.
  { split; [by apply (filled_pixels [0x00; 0x33; 0x99] 0)|].
    intros x y Hx Hy. destruct (Z.ltb_spec y 0); [lia|]. change (captured pixels0 x y) with (chunk pixels0 (y * 1280 + x)).
    apply filled_pixels; [reflexivity|lia]. }
  clearbody pixels0.
  match goal with |- exists r, for_range 0 ?n ?body _ = _ /\ _ =>
    destruct (for_range_inv (fun y => painted (fun _ y' => y' <? y)) 0 n body pixels0) as (pixels & Hr & Hp) end;
    [done|exact Hp0| |].
  - intros y p Hy Hp. change (Z.of_nat (length EXPECTED_FIRST_GLYPH)) with 16 in Hy. cbv beta.
    match goal with |- exists r, for_range 0 8 ?body _ = _ /\ _ =>
      destruct (for_range_inv (fun x => painted (fun x' y' => (y' <? y) || ((x' <? x) && (y' =? y)))) 0 8 body p)
        as (p' & Hr & Hp') end; [lia| | |].
    + eapply painted_ext; [|exact Hp]. intros x' y' Hx' Hy' _. cbv beta. destruct (Z.ltb_spec x' 0); [lia|].
      by rewrite orb_false_r.
    + intros x q Hx Hq. cbv beta. change (lit _ x) with (glyph_bit 102 x y). destruct (glyph_bit 102 x y) eqn:Hg.
      * unfold SCREEN_WIDTH. rewrite mul_u_ok, bind_Ok by lia. rewrite add_u_ok, bind_Ok by lia.
        rewrite mul_u_ok, bind_Ok by lia. pose proof (proj1 Hq) as Hl. unfold pixel_bytes in Hl.
        rewrite copy_pixels_ok by (change (Z.of_nat (length [0xe0; 0xe0; 0xe0])) with 3; lia).
        eexists. split; [reflexivity|]. eapply painted_ext; [|by apply (painted_step _ x y q Hq)].
        intros x' y' _ _ _. cbv beta. lia.
      * exists q. split; [done|]. eapply painted_ext; [|exact Hq]. intros x' y' Hx' Hy' Hg'. cbv beta.
        destruct (decide (x' = x /\ y' = y)) as [[-> ->]|]; [congruence|lia].
    + exists p'. split; [done|]. eapply painted_ext; [|exact Hp']. intros x' y' Hx' Hy' _. cbv beta. lia.
  - exists pixels. split; [done|]. split; [apply Hp|]. intros x y Hx Hy. rewrite (proj2 Hp) by done.
    destruct (Z.ltb_spec y (Z.of_nat (length EXPECTED_FIRST_GLYPH))) as [|Hge]; [done|].
    change (Z.of_nat (length EXPECTED_FIRST_GLYPH)) with 16 in Hge. lia.
Qed.

(** ** The check's verdicts on such files *)

Lemma parts_test_ppm maxval pixels :
  10 ∉ dec maxval -> splitn 4 (test_ppm maxval pixels) = [text "P6"; text "1280 800"; dec maxval; pixels].
Proof.
  intros Hm.
  assert (test_ppm maxval pixels = text "P6" ++ 10 :: (text "1280 800" ++ 10 :: (dec maxval ++ 10 :: pixels))) as -> by reflexivity.
  cbn [splitn]. rewrite split_line_app by (by apply no_line_feed). rewrite split_line_app by (by apply no_line_feed).
  by rewrite split_line_app.
Qed.

(** The check past the two lines every such file has right. *)
Lemma check_test_ppm maxval pixels :
  10 ∉ dec maxval ->
  (dec maxval <> text "255" -> check_screen_has_text (Some (test_ppm maxval pixels)) = Err WrongMaxval) /\
  (dec maxval = text "255" -> Z.of_nat (length pixels) <> pixel_bytes ->
     check_screen_has_text (Some (test_ppm maxval pixels)) = Err (WrongLength (Z.of_nat (length pixels)))) /\
  (dec maxval = text "255" -> Z.of_nat (length pixels) = pixel_bytes -> ~ shows_first_glyph pixels ->
     check_screen_has_text (Some (test_ppm maxval pixels)) = Err GlyphMissing).
Proof.
  intros Hm. unfold check_screen_has_text, ok_or. rewrite !bind_Ok. cbv zeta. rewrite (parts_test_ppm _ _ Hm).
  unfold bytes_eqb, KERNEL_SCREENSHOT_DIMENSIONS. set (parts := [text "P6"; text "1280 800"; dec maxval; pixels]).
  change (part parts 0) with (text "P6"). change (part parts 1) with (text "1280 800").
  change (part parts 2) with (dec maxval). change (part parts 3) with pixels.
  rewrite (bool_decide_true (text "P6" = text "P6")), (bool_decide_true (text "1280 800" = text "1280 800")) by done.
  cbn [negb]. change (_ ← checked_mul 64 _ _; _) with (Some 3072000). cbv iota. rewrite !bind_Ok.
  split; [intros Hne; by rewrite bool_decide_false by done|].
  split; intros He; rewrite (bool_decide_true _ He); cbn [negb]; intros Hl.
  - by rewrite (proj2 (Z.eqb_neq _ 3072000) Hl).
  - rewrite (proj2 (Z.eqb_eq _ 3072000) Hl). cbn [negb]. intros Hn.
    destruct (glyph_loop _ Hl) as [[_ Hs]|[Hr _]]; [done|exact Hr].
Qed.

(** The three files of the tests. *)
Lemma coloured_frame_refused : exists pixels, copy_pixels black_pixels 3 [0xff; 0xff; 0xff] = Ok pixels /\
  check_screen_has_text (Some (test_ppm 255 pixels)) = Err GlyphMissing.
Proof.
  pose proof length_black as Hlb. unfold pixel_bytes in Hlb.
  rewrite copy_pixels_ok by (rewrite Hlb; vm_compute; discriminate). eexists. split; [reflexivity|].
  apply check_test_ppm; [by apply no_line_feed|reflexivity|by rewrite length_inserts|].
  intros Hs. specialize (Hs 0 0 ltac:(lia) ltac:(lia)).
  change (captured ?p 0 0) with (chunk p 0) in Hs. change 3 with (1 * 3) in Hs.
  rewrite chunk_copied in Hs; [|reflexivity|lia|lia|lia]. change (0 =? 1) with false in Hs. cbv iota in Hs.
  pose proof chunk_black as H0. by rewrite Hs in H0.
Qed.

Lemma maxval_refused pixels : check_screen_has_text (Some (test_ppm 42 pixels)) = Err WrongMaxval.
Proof. apply check_test_ppm; [by apply no_line_feed|by vm_compute]. Qed.

Lemma truncated_refused pixels : Z.of_nat (length pixels) = pixel_bytes ->
  check_screen_has_text (Some (test_ppm 255 (take (Z.to_nat (SCREEN_WIDTH * 16 * 3)) pixels))) = Err (WrongLength 61440).
Proof.
  intros Hl. assert (Z.of_nat (length (take (Z.to_nat (SCREEN_WIDTH * 16 * 3)) pixels)) = 61440) as Ht.
  { rewrite length_take. unfold pixel_bytes, SCREEN_WIDTH in *. lia. }
  rewrite <- Ht. apply check_test_ppm; [by apply no_line_feed|reflexivity|by rewrite Ht].
Qed.

Section Verdicts.
Context {W : Type} `{Host report W} (temp_dir : path) (pid : Z).

(** A test passes, or could not write its file. *)
Definition passes (w : W) (name : bytes) (maxval : Z) (pixels : bytes) (r : outcome Empty_set ()) : Prop :=
  r = Ok () \/
  r = Panic /\ exists e, snd (perform (Write (test_path temp_dir pid name) (test_ppm maxval pixels)) w) = inr e.

Lemma rejects_passes name maxval pixels why w :
  check_screen_has_text (Some (test_ppm maxval pixels)) = Err why -> quiet w ->
  passes w name maxval pixels (snd (rejects temp_dir pid name maxval pixels w)).
Proof.
  intros Hwhy Hq. change (ends (rejects temp_dir pid name maxval pixels) w (fun _ => passes w name maxval pixels)).
  unfold rejects, write_ppm, passes. set (p := test_path temp_dir pid name).
  apply ends_bind, ends_bind, ends_ask. intros w1 [[]|e] Hw _; [|right; rewrite Hw; eauto].
  pose proof (effect_perform _ _ _ _ Hw Hq) as Hf. simpl in Hf.
  pose proof (quiet_perform _ _ _ _ Hw Hq eq_refl) as Hq1. apply ends_ret.
  apply ends_bind. unfold check_capture, call_. apply ends_bind, ends_ask. intros w2 r Hr _.
  pose proof (effect_perform _ _ _ _ Hr Hq1) as [_ Hr2]. apply ends_attempt. unfold ends, of_outcome. simpl.
  assert (exists why', check_screen_has_text (match r with inl data => Some data | inr _ => None end) = Err why') as [why' ->].
  { destruct r as [data|e]; [|by eexists]. rewrite Hf, lookup_insert_eq in Hr2. injection Hr2 as <-. eauto. }
  simpl. unfold mbind, act_bind, ask. destruct (perform (RemoveFile p) w2). by left.
Qed.
End Verdicts.

Lemma bind_of_outcome {W E A B} (a : A) (f : A -> act W E B) w : (mbind f (of_outcome (Ok a))) w = f a w.
Proof. reflexivity. Qed.

(** ** Properties *)

(** The repository's tests pass, and mean something. Every test of the
    usable-region iterator passes. Every test of the screen check passes on
    any host unless its own file cannot be written, whether or not the file
    can be read back or removed. And the three captures are refused for the
    reasons the tests name (a missing glyph, the maximum value, the length),
    for the payload they start from is, unaltered, one the check accepts. *)
Theorem unit_tests_pass {W : Type} `{Host report W} (temp_dir : path) (pid : Z) (w : W) :
  quiet w ->
  (skips_regions_that_are_not_conventional = Ok () /\ never_yields_the_frame_at_physical_zero = Ok () /\
   clamps_an_unaligned_span_inward = Ok () /\ drops_a_span_that_rounds_away_to_nothing = Ok () /\
   yields_every_usable_region_in_order = Ok () /\ an_empty_map_yields_nothing = Ok () /\
   skips_a_descriptor_whose_span_overflows = Ok ()) /\
  exists coloured text_pixels,
    copy_pixels black_pixels 3 [0xff; 0xff; 0xff] = Ok coloured /\ kernel_text_pixels = Ok text_pixels /\
    let truncated := take (Z.to_nat (SCREEN_WIDTH * 16 * 3)) text_pixels in
    passes temp_dir pid w (text "firmware_colours") 255 coloured
      (snd (rejects_coloured_firmware_frame_without_kernel_text temp_dir pid w)) /\
    passes temp_dir pid w (text "bad_maxval") 42 text_pixels
      (snd (rejects_ppm_with_nonstandard_maxval temp_dir pid w)) /\
    passes temp_dir pid w (text "truncated") 255 truncated
      (snd (rejects_truncated_ppm_payload temp_dir pid w)) /\
    check_screen_has_text (Some (test_ppm 255 coloured)) = Err GlyphMissing /\
    check_screen_has_text (Some (test_ppm 42 text_pixels)) = Err WrongMaxval /\
    check_screen_has_text (Some (test_ppm 255 truncated)) = Err (WrongLength 61440) /\
    check_screen_has_text (Some (test_ppm 255 text_pixels)) = Ok ().
Proof.
  intros Hq. split; [exact iterator_tests_pass|].
  destruct coloured_frame_refused as (coloured & Hc & Hcr). destruct kernel_text_pixels_spec as (pixels & Hp & Hl & Hs).
  exists coloured, pixels. split; [done|]. split; [done|]. cbv zeta.
  pose proof (maxval_refused pixels) as Hmr. pose proof (truncated_refused pixels Hl) as Htr.
  unfold rejects_coloured_firmware_frame_without_kernel_text, rejects_ppm_with_nonstandard_maxval,
    rejects_truncated_ppm_payload. rewrite Hc, Hp, !bind_of_outcome.
  split; [by apply (rejects_passes _ _ _ _ _ GlyphMissing)|]. split; [by apply (rejects_passes _ _ _ _ _ WrongMaxval)|].
  split; [by apply (rejects_passes _ _ _ _ _ (WrongLength 61440))|].
  repeat (split; [done|]). apply check_screen_exact_spec. exists pixels. split; [reflexivity|]. by split.
Qed.

(** On the example host. *)
Lemma unit_tests_pass_witness :
  let host := toy_Host demo_root (fun _ => 0) (text "/tmp/x") [] true 0 in
  exists pixels, kernel_text_pixels = Ok pixels /\
    passes (H := host) (text "/tmp") 1 demo_start (text "bad_maxval") 42 pixels
      (snd (rejects_ppm_with_nonstandard_maxval (H := host) (text "/tmp") 1 demo_start)).
Proof.
  intros host.
  destruct (unit_tests_pass (H := host) (text "/tmp") 1 demo_start)
    as [_ (coloured & pixels & _ & Hp & _ & Hm & _)]; [by intros i|].
  exists pixels. by split.
Defined.
