(* ===== verification/Patience.v ===== *)
(** The harness's time limits ([xtask/src/main.rs]) are long enough: [run]
    passes whenever the guest it starts succeeds in time. *)
From Stdlib Require Import String.
From stdpp Require Import gmap.
From S2P Require Import Prelude Memory BootInfo Uefi Elf File Frame Heap FrameApi HeapApi.
From S2P Require Import Handoff QemuExit Bootloader Port Interrupts Console Serial Keyboard Fmt Gdt Idt Wait KeyPress Main System.
From S2P Require Import Xtask Host Harness Tests.

(** How long a call is asked to take. *)
Definition cost {L R} (c : call L R) : Z := match c with Sleep ms => Z.max 0 ms | _ => 0 end.

(** Calls that neither start a process, nor end one, nor ask about one. *)
Definition harmless {L R} (c : call L R) : bool :=
  match c with
  | Spawn _ | TryWait _ | Kill _ | Wait _ | Status _ _ => false
  | _ => true
  end.

(** Of these, the ones the harness makes once it has a good capture. *)
Definition keeps_capture {L R} (c : call L R) : bool :=
  match c with
  | RemoveFile _ | Write _ _ | Copy _ _ | WriteAll _ _ => false
  | _ => harmless c
  end.

(** Calls that do no work of their own. *)
Definition quick {L R} (c : call L R) : bool :=
  match c with
  | Read _ | RemoveFile _ | TryWait _ | Connect _ | WriteAll _ _ | VarOs _ | Thread _ | Sleep _ | Now => true
  | _ => false
  end.

Section Patience.
Context {W : Type} `{Host report W} (pid : Z) (staged : Staged).
Abbreviation shot := (screenshot_path pid).
Abbreviation socket := (monitor_socket_path pid).

(** A read of the capture file that the check passes. *)
Definition good_capture (w : W) : Prop :=
  exists data : Xtask.bytes, snd (perform (R := (Xtask.bytes + IoError)%type) (Read shot) w) = inl data /\ check_screen_has_text (Some data) = Ok ().

(** A guest that does its part in time, and a system that is never [slow] ms
    late. [launched t i w] says that child [i] is the QEMU started at [t], whose
    end has not been reported yet; it may be gone already. QEMU listens on its
    monitor from [ready] ms after its launch until [lasts] ms after it, and only
    in that time need it let anybody connect and take a line from a connection
    [monitor i s] it accepted. It has the kernel's text on its screen within
    [painted] ms (a screendump asked for by then is in its file one poll interval
    later), and exits with [code] within [over] ms. A good capture stays while
    nobody asks for another. *)
Record cooperates (slow ready painted lasts over code : Z) (launched : Z -> child -> W -> Prop)
    (monitor : child -> stream -> Prop) : Prop := {
  co_prompt {R} (c : call report R) w : quick c = true -> now (fst (perform c w)) <= now w + cost c + slow;
  co_spawn w : quiet w -> exists w' i, perform (Spawn (qemu_args staged socket)) w = (w', inl i) /\ launched (now w') i w';
  co_launched {R} (c : call report R) t i w : harmless c = true -> launched t i w -> launched t i (fst (perform c w));
  co_keys w : snd (perform (VarOs (text "XTASK_NO_KEYS")) w) = false;
  co_connect t i w : launched t i w -> t + ready <= now w < t + lasts ->
    exists s, snd (perform (Connect socket) w) = inl s;
  co_monitor t i w s : launched t i w -> snd (perform (Connect socket) w) = inl s -> monitor i s;
  co_clear t i w e : launched t i w -> snd (perform (RemoveFile shot) w) = inr e -> kind e = NotFound;
  co_dump t i s w : launched t i w -> monitor i s -> now w < t + lasts ->
    let w1 := fst (perform (WriteAll s (line (text "screendump " ++ shot))) w) in
    snd (perform (WriteAll s (line (text "screendump " ++ shot))) w) = inl () /\
    (t + painted <= now w -> good_capture (fst (perform (Sleep SCREEN_CAPTURE_POLL_INTERVAL) w1)));
  co_stays {R} (c : call report R) w : keeps_capture c = true -> good_capture w -> good_capture (fst (perform c w));
  co_thread s w : snd (perform (Thread s) w) = true;
  co_says l w : snd (perform (Say l) w) = true;
  co_exit t i w : launched t i w ->
    snd (perform (TryWait i) w) = inl (Some (Some code)) \/
    snd (perform (TryWait i) w) = inl None /\ now w < t + over /\ launched t i (fst (perform (TryWait i) w));
  co_exit_stays i w : good_capture w -> good_capture (fst (perform (TryWait i) w));
}.

Context (slow ready painted lasts over code : Z) (launched : Z -> child -> W -> Prop) (monitor : child -> stream -> Prop).
Context (Hco : cooperates slow ready painted lasts over code launched monitor).
(** One call of a harmless kind: the guest goes on, and time does not stand
    still for long. *)
Lemma asked {E R} (c : call report R) t i w (Q : W -> outcome E R -> Prop) :
  harmless c = true -> quick c = true -> launched t i w ->
  (forall w', launched t i w' -> now w <= now w' <= now w + cost c + slow -> Q w' (Ok (snd (perform c w)))) -> ends (call_ c) w Q.
Proof using Hco.
  intros Hc Hk Hu HQ. apply ends_ask. intros w' r Hp Ht. pose proof (co_prompt _ _ _ _ _ _ _ _ Hco c w Hk) as Hs.
  pose proof (co_launched _ _ _ _ _ _ _ _ Hco c t i w Hc Hu) as Hu'. rewrite Hp in Hs, Hu'.
  specialize (HQ w'). rewrite Hp in HQ. apply HQ; [done|]. simpl in Hs. lia.
Qed.

(** The monitor is found: the last of the attempts is late enough, and the
    first late enough is soon enough. *)
Lemma connects n t i w :
  launched t i w -> (0 < n)%nat -> t + ready <= now w + 100 * Z.of_nat n ->
  0 <= slow -> now w <= t + ready + slow -> ready + 100 + 3 * slow < lasts ->
  ends (connect_monitor n socket) w (fun w' r => launched t i w' /\ now w' <= t + ready + 100 + 3 * slow /\
    exists s, r = Ok (Some s) /\ monitor i s).
Proof using Hco.
  intros Hu Hn Ht Hs Hw Hlasts. revert w Hu Hn Ht Hw. induction n as [|n IH]; intros w Hu Hn Ht Hw; [lia|].
  cbn [connect_monitor].
  apply ends_bind. apply ends_ask. intros w1 r1 Hp T1.
  pose proof (co_launched _ _ _ _ _ _ _ _ Hco (Sleep 100) t i w eq_refl Hu) as U1.
  pose proof (perform_sleep 100 w) as S1. pose proof (co_prompt _ _ _ _ _ _ _ _ Hco (Sleep 100) w eq_refl) as P1.
  rewrite Hp in U1, S1, P1. cbn [fst cost] in U1, S1, P1.
  apply ends_bind. apply (asked _ t i); [done|done|done|]. intros w2 U2 T2. simpl cost in T2.
  pose proof (fun s => co_monitor _ _ _ _ _ _ _ _ Hco t i w1 s U1) as Hmon.
  pose proof (co_connect _ _ _ _ _ _ _ _ Hco t i w1 U1) as Hcon.
  destruct (snd (perform (Connect socket) w1)) as [s|e].
  - apply ends_ret. split; [done|]. split; [lia|]. eauto.
  - assert (now w1 < t + ready) as Hearly.
    { destruct (decide (now w1 < t + ready)) as [|Hl]; [done|]. by destruct Hcon; [lia|]. }
    apply IH; [done|lia|lia|lia].
Qed.

(** The check of the capture file passes exactly on a good capture, and leaves
    it good. *)
Lemma check_capture_good {E} w (Q : W -> outcome E (() + screen_error) -> Prop) :
  (forall w' v, w' = fst (perform (R := (Xtask.bytes + IoError)%type) (Read shot) w) -> (good_capture w -> v = inl ()) ->
     (v = inl () -> good_capture w') -> Q w' (Ok v)) ->
  ends (check_capture shot) w Q.
Proof using Hco.
  intros HQ. unfold check_capture. apply ends_bind, ends_ask. intros w1 r Hp _.
  pose proof (co_stays _ _ _ _ _ _ _ _ Hco (R := (Xtask.bytes + IoError)%type) (Read shot) w eq_refl) as Hst. rewrite Hp in Hst.
  apply ends_attempt. unfold ends, of_outcome. cbn [fst snd].
  pose proof (check_screen_settles (match r with inl data => Some data | inr _ => None end)) as Hset.
  destruct (check_screen_has_text _) as [[]|why| |] eqn:Hc; try done.
  - apply HQ; [by rewrite Hp|done|]. intros _. apply Hst. destruct r as [data|e]; [|done]. exists data. by rewrite Hp.
  - apply HQ; [by rewrite Hp| |done]. intros (data & Hr & Hd). rewrite Hp in Hr. simpl in Hr. subst r. congruence.
Qed.

(** A round of the capture loop up to its check. *)
Lemma round_spec s t i w (rest : act W harness_error ()) Q :
  launched t i w -> monitor i s -> now w + slow < t + lasts ->
  (forall w', launched t i w' -> now w + 250 <= now w' <= now w + 250 + 3 * slow -> (t + painted <= now w -> good_capture w') ->
     ends rest w' Q) ->
  ends (r ← call_ (RemoveFile shot);
        _ ← match r with
            | inl _ => mret ()
            | inr e => match kind e with NotFound => mret () | OtherKind => fail (RemoveCapture e) end
            end;
        r ← call_ (WriteAll s (line (text "screendump " ++ shot)));
        _ ← or_fail RequestCapture r;
        _ ← call_ (Sleep SCREEN_CAPTURE_POLL_INTERVAL);
        rest) w Q.
Proof using Hco.
  intros Hu Hm Hl Hrest. apply ends_bind. apply (asked _ t i); [done|done|done|]. intros w1 U1 T1. simpl cost in T1.
  pose proof (fun e => co_clear _ _ _ _ _ _ _ _ Hco t i w e Hu) as Hclear. apply ends_bind.
  destruct (co_dump _ _ _ _ _ _ _ _ Hco t i s w1 U1 Hm ltac:(lia)) as [Hr2 Hgood].
  set (w2 := fst (perform (WriteAll s (line (text "screendump " ++ shot))) w1)) in *.
  pose proof (co_launched _ _ _ _ _ _ _ _ Hco (WriteAll s (line (text "screendump " ++ shot))) t i w1 eq_refl U1) as U2.
  pose proof (co_prompt _ _ _ _ _ _ _ _ Hco (WriteAll s (line (text "screendump " ++ shot))) w1 eq_refl) as S2.
  pose proof (perform_time (WriteAll s (line (text "screendump " ++ shot))) w1) as T2. fold w2 in U2, S2, T2. simpl cost in S2.
  set (w3 := fst (perform (Sleep SCREEN_CAPTURE_POLL_INTERVAL) w2)) in *.
  pose proof (co_launched _ _ _ _ _ _ _ _ Hco (Sleep SCREEN_CAPTURE_POLL_INTERVAL) t i w2 eq_refl U2) as U3.
  pose proof (co_prompt _ _ _ _ _ _ _ _ Hco (Sleep SCREEN_CAPTURE_POLL_INTERVAL) w2 eq_refl) as S3.
  pose proof (perform_sleep SCREEN_CAPTURE_POLL_INTERVAL w2) as T3. fold w3 in U3, S3, T3.
  unfold SCREEN_CAPTURE_POLL_INTERVAL in S3, T3. simpl cost in S3.
  specialize (Hrest w3 U3 ltac:(lia) ltac:(intros; apply Hgood; lia)).
  assert (ends (r ← call_ (WriteAll s (line (text "screendump " ++ shot)));
        _ ← or_fail RequestCapture r; _ ← call_ (Sleep SCREEN_CAPTURE_POLL_INTERVAL); rest) w1 Q) as Hgo.
  { apply ends_bind, ends_ask. intros w2' r2 Hp2 _. rewrite Hp2 in Hr2. simpl in Hr2. subst r2.
    assert (w2 = w2') as E2 by (unfold w2; by rewrite Hp2).
    apply ends_bind, ends_ret, ends_bind, ends_ask. intros w3' r3 Hp3 _. rewrite <- E2 in Hp3.
    assert (w3 = w3') as E3 by (unfold w3; by rewrite Hp3). by rewrite <- E3. }
  destruct (snd (perform (RemoveFile shot) w)) as [u|e]; [by apply ends_ret|].
  rewrite (Hclear e eq_refl). by apply ends_ret.
Qed.

(** A round that begins after the text is painted is the last; one that
    begins before ends before the deadline. *)
Lemma captures_in_time n s t i w deadline :
  launched t i w -> monitor i s -> 0 <= slow -> now w + slow < t + lasts -> painted + 250 + 6 * slow < lasts ->
  (0 < n)%nat -> deadline - now w <= SCREEN_CAPTURE_POLL_INTERVAL * (Z.of_nat n - 1) ->
  t + painted + SCREEN_CAPTURE_POLL_INTERVAL + 5 * slow < deadline ->
  ends (capture_screen n s shot deadline) w (fun w' r => launched t i w' /\ good_capture w' /\ r = Ok ()).
Proof using Hco.
  intros Hu Hm Hs Hw Hlasts. revert w Hu Hw. induction n as [|n IH]; intros w Hu Hw Hn Hd Hp; [lia|]. cbn [capture_screen].
  apply (round_spec s t i w); [done|done|done|]. intros w1 U1 T1 Hgood. apply ends_bind, check_capture_good. intros w2 v Hw2 Hv Hv'.
  unfold SCREEN_CAPTURE_POLL_INTERVAL in *.
  pose proof (co_launched _ _ _ _ _ _ _ _ Hco (R := (Xtask.bytes + IoError)%type) (Read shot) t i w1 eq_refl U1) as U2.
  pose proof (co_prompt _ _ _ _ _ _ _ _ Hco (R := (Xtask.bytes + IoError)%type) (Read shot) w1 eq_refl) as S2.
  pose proof (perform_time (R := (Xtask.bytes + IoError)%type) (Read shot) w1) as T2. rewrite <- Hw2 in U2, S2, T2. simpl cost in S2.
  destruct v as [[]|why]; [apply ends_ret; split; [done|split; [by apply Hv'|done]]|].
  assert (now w < t + painted) as Hearly.
  { destruct (decide (t + painted <= now w)) as [Hl|]; [|lia]. by specialize (Hv (Hgood Hl)). }
  apply ends_bind. apply (asked _ t i); [done|done|done|]. intros w3 U3 T3. simpl cost in T3.
  pose proof (perform_now w2) as Hnow. pose proof (co_prompt _ _ _ _ _ _ _ _ Hco Now w2 eq_refl) as S3. simpl cost in S3.
  destruct (Z.leb_spec deadline (snd (perform Now w2))); [lia|]. apply IH; [done|lia|lia|lia|done].
Qed.

(** The wait for QEMU sees it end. *)
Lemma polled_in_time n t i w deadline :
  launched t i w -> good_capture w -> (0 < n)%nat -> deadline - now w <= 100 * (Z.of_nat n - 1) -> t + over + 2 * slow < deadline ->
  ends (poll n i deadline) w (fun w' r => good_capture w' /\ r = Ok (Some (Some code))).
Proof using Hco.
  revert w. induction n as [|n IH]; intros w Hu Hg Hn Hd Hp; [lia|]. cbn [poll].
  apply ends_bind, ends_ask. intros w1 r Hp1 T1. pose proof (co_exit_stays _ _ _ _ _ _ _ _ Hco i w Hg) as G1.
  pose proof (co_prompt _ _ _ _ _ _ _ _ Hco (TryWait i) w eq_refl) as S1. pose proof (co_exit _ _ _ _ _ _ _ _ Hco t i w Hu) as He.
  rewrite Hp1 in G1, S1, He. cbn [fst snd cost] in G1, S1, He.
  destruct He as [->|(-> & Hearly & U1)]; [by apply ends_ret|].
  apply ends_bind. unfold call_. apply ends_ask. intros w2 now_ Hp2 T2. pose proof (perform_now w1) as Hnow.
  pose proof (co_prompt _ _ _ _ _ _ _ _ Hco Now w1 eq_refl) as S2. pose proof (co_launched _ _ _ _ _ _ _ _ Hco Now t i w1 eq_refl U1) as U2.
  pose proof (co_stays _ _ _ _ _ _ _ _ Hco Now w1 eq_refl G1) as G2. rewrite Hp2 in Hnow, S2, U2, G2. cbn [fst snd cost] in *.
  destruct (Z.leb_spec deadline now_); [lia|].
  apply ends_bind, ends_ask. intros w3 r3 Hp3 T3. pose proof (perform_sleep 100 w2) as T4.
  pose proof (co_launched _ _ _ _ _ _ _ _ Hco (Sleep 100) t i w2 eq_refl U2) as U3.
  pose proof (co_stays _ _ _ _ _ _ _ _ Hco (Sleep 100) w2 eq_refl G2) as G3. rewrite Hp3 in T4, U3, G3. cbn [fst] in *.
  apply IH; [done|done|lia|lia|done].
Qed.

Context (root : path) (cargo : bytes) (fuel : nat) (Hfuel : (600 < fuel)%nat) (Hslow : 0 <= slow).
Context (Hready : 0 <= ready <= 10000) (Hpainted : painted + 250 + 5 * slow < 30000) (Hover : over + 2 * slow < 60000).
Context (Hlisten : ready + 100 + 5 * slow < lasts) (Hshown : painted + 250 + 6 * slow < lasts).

Lemma injects_in_time t i w :
  launched t i w -> t = now w ->
  ends (inject_keystrokes fuel socket shot) w (fun w' r => launched t i w' /\ good_capture w' /\ r = Ok () /\ t <= now w').
Proof using Hco Hfuel Hslow Hready Hpainted Hlisten Hshown.
  intros Hu Ht. unfold inject_keystrokes. apply ends_bind. apply (asked _ t i); [done|done|done|]. intros w1 U1 T1.
  simpl cost in T1. rewrite (co_keys _ _ _ _ _ _ _ _ Hco). apply ends_bind. eapply ends_mono.
  { apply ends_and; [apply (connects 100 t i w1 U1); lia|apply (connect_monitor_keeps (fun _ => True)); by intros j]. }
  intros w2 r ((U2 & B2 & s & -> & M2) & _ & T2%leads_time & _). apply ends_bind, ends_ask. intros w3 now_ Hp3 T3.
  pose proof (perform_now w2) as Hnow. pose proof (co_launched _ _ _ _ _ _ _ _ Hco Now t i w2 eq_refl U2) as U3.
  pose proof (co_prompt _ _ _ _ _ _ _ _ Hco Now w2 eq_refl) as S3.
  rewrite Hp3 in Hnow, U3, S3. cbn [fst snd cost] in Hnow, U3, S3. apply ends_bind. eapply ends_mono.
  { apply ends_and; [apply (captures_in_time fuel s t i w3 (now_ + SCREEN_CAPTURE_TIMEOUT) U3 M2 Hslow)|
      apply (capture_screen_keeps (fun _ => True) fuel s shot (now_ + SCREEN_CAPTURE_TIMEOUT))];
      try lia; unfold SCREEN_CAPTURE_TIMEOUT, SCREEN_CAPTURE_POLL_INTERVAL in *; try lia. by intros j. }
  intros w4 r4 ((U4 & G4 & ->) & _ & T4%leads_time & _). apply ends_bind, ends_ask. intros w5 ok Hp5 T5.
  pose proof (co_launched _ _ _ _ _ _ _ _ Hco (Thread s) t i w4 eq_refl U4) as U5.
  pose proof (co_stays _ _ _ _ _ _ _ _ Hco (Thread s) w4 eq_refl G4) as G5.
  pose proof (co_thread _ _ _ _ _ _ _ _ Hco s w4) as H5. rewrite Hp5 in U5, G5, H5. cbn [fst snd] in *. subst ok.
  apply ends_ret. split; [exact U5|]. split; [exact G5|]. split; [done|lia].
Qed.

Lemma boots_in_time w :
  quiet w -> ends (boot_qemu pid fuel staged true shot) w (fun w' r => good_capture w' /\ r = Ok (Some code)).
Proof using Hco Hfuel Hslow Hready Hpainted Hover Hlisten Hshown.
  intros Hq. unfold boot_qemu. apply ends_bind, ends_ask. intros w1 r1 Hp1 _.
  pose proof (quiet_perform _ _ _ _ Hp1 Hq eq_refl) as Q1. destruct (co_spawn _ _ _ _ _ _ _ _ Hco w1 Q1) as (w2 & i & Hp2 & U2).
  apply ends_bind, ends_ask. intros w2' r2 Hp2' _. rewrite Hp2 in Hp2'. injection Hp2' as <- <-.
  apply ends_bind, ends_ret. apply ends_bind, ends_attempt. eapply ends_mono; [apply (injects_in_time (now w2) i w2 U2); lia|].
  intros w3 r3 (U3 & G3 & -> & T3). apply ends_bind, ends_ask. intros w4 now_ Hp4 T4.
  pose proof (perform_now w3) as Hnow. pose proof (co_launched _ _ _ _ _ _ _ _ Hco Now _ i w3 eq_refl U3) as U4.
  pose proof (co_stays _ _ _ _ _ _ _ _ Hco Now w3 eq_refl G3) as G4. rewrite Hp4 in Hnow, U4, G4. cbn [fst snd] in Hnow, U4, G4.
  apply ends_bind. eapply ends_mono.
  { apply (polled_in_time fuel (now w2) i w4 (now_ + QEMU_TIMEOUT) U4 G4); unfold QEMU_TIMEOUT; lia. }
  intros w5 r5 (G5 & ->). by apply ends_ret.
Qed.

(** [run] passes when the guest exits with the code it expects. *)
Lemma run_patient (w w1 : W) :
  code = EXPECTED_EXIT_CODE -> quiet w -> build_and_stage root cargo w = (w1, Ok staged) ->
  exists w', run root pid cargo fuel w = (w', Ok SUCCESS).
Proof using Hco Hfuel Hslow Hready Hpainted Hover Hlisten Hshown.
  intros Hcode Hq Hb.
  assert (quiet w1) as Q1.
  { apply quiet_among. pose proof (build_and_stage_keeps root cargo (fun _ => False) w (proj1 (quiet_among w) Hq)) as (Hk & _).
    by rewrite Hb in Hk. }
  assert (ends (run root pid cargo fuel) w (fun _ r => r = Ok SUCCESS)) as Hr.
  { unfold run. apply ends_bind, ends_attempt. unfold ends at 1. rewrite Hb. cbn [fst snd].
    apply ends_bind, ends_attempt. eapply ends_mono; [by apply boots_in_time|]. intros w2 r2 (G2 & ->).
    rewrite Hcode, Z.eqb_refl. apply ends_bind, check_capture_good. intros w3 v _ Hv _. rewrite (Hv G2).
    apply ends_bind. unfold say, must. apply ends_bind, ends_ask. intros w4 ok Hp4 _.
    pose proof (co_says _ _ _ _ _ _ _ _ Hco Pass w3) as H4. rewrite Hp4 in H4. simpl in H4. subst ok. by apply ends_ret. }
  unfold ends in Hr. destruct (run root pid cargo fuel w) as [w' r]. simpl in Hr. subst r. by exists w'.
Qed.
End Patience.

(** ** Properties *)

(** C17: a good build passes. On a system that prints lines, starts threads and
    is never late by [slow] ms for a call, let QEMU answer on its monitor from [ready] ms after its launch, ten
    seconds at most, and at least until its guest has shown its text and been
    seen to (so [lasts] may be the length of a healthy run, a second or so more
    than [painted]; nothing is asked of the monitor, or of QEMU, after that);
    let the text be there within thirty seconds less one poll and five late
    calls, and QEMU be done within a minute less two late calls, with the exit
    code the modelled machine writes; and let that machine, bootloader, kernel
    and keyboard, be one on which a press arrives within eleven seconds of
    ticks. Then, once the two programs are built and staged, [run] passes: none
    of its limits cuts the guest off, and no capture it asks for too early makes
    it fail. *)
Theorem run_passes {W} `{Host report W} {F K} `{ExitServices F} `{!FileProtocol K} {D} `{Device D} `{!Typist D}
    root pid cargo fuel staged slow ready painted lasts over code launched monitor (w w1 : W)
    init fsr vol h size gh op file_size (f : F) m0 c m n kfuel a table address code_at frame sched fb (d : D) :
  let loaded := bootloader init fsr vol (inl (Regular h)) file_size gh op f m0 in
  let info := read_BootInfo m (c_rdi c) in
  cooperates pid staged slow ready painted lasts over code launched monitor -> (600 < fuel)%nat -> 0 <= slow ->
  0 <= ready <= 10000 -> painted + 250 + 5 * slow < 30000 -> over + 2 * slow < 60000 ->
  ready + 100 + 5 * slow < lasts -> painted + 250 + 6 * slow < lasts ->
  quiet w -> build_and_stage root cargo w = (w1, Ok staged) ->
  answers_ok (inl (Regular h)) file_size op -> file_size h = inl size ->
  loaded = Ok (Jumped c m) -> open_framebuffer gh op = Ok fb ->
  platform a address code_at frame (firstn (Z.to_nat size) (contents h)) fb c m ->
  live (D := D) n -> (n < kfuel)%nat -> has_run (memory_regions m info) (HEAP_FRAMES + 2) ->
  BEATS <= beats sched -> irqs sched < 2 ^ 60 ->
  (forall e, power_on kfuel a table address code_at frame sched d loaded = Ok e -> code = end_status e) ->
  exists b failed base, transcript (entered d c m) b
      (boot_lines info failed frame (Z.of_nat (length (usable_frames (memory_regions m info)))) base) /\
    (press_within 1100 (typed (io_dev (mc_io (b_machine b)))) sched ->
     exists w', run root pid cargo fuel w = (w', Ok SUCCESS)).
Proof.
  intros loaded info Hco Hfuel Hslow Hready Hpainted Hover Hlisten Hshown Hq Hb Hao Hsz Hj Hfb Hpf Hl Hf Hrun Hbeats Hirqs Hcode.
  destruct (power_on_press init fsr vol h size gh op file_size f m0 c m n kfuel a table address code_at frame sched fb d
    Hao Hsz Hj Hfb Hpf Hl Hf Hrun Hbeats Hirqs) as (b & failed & base & Tr & Hp).
  exists b, failed, base. split; [exact Tr|]. intros Hpress. destruct (Hp Hpress) as (s & l & _ & Hr & _).
  apply (run_patient pid staged slow ready painted lasts over code launched monitor Hco root cargo fuel Hfuel Hslow Hready
    Hpainted Hover Hlisten Hshown w w1); [|exact Hq|exact Hb]. by rewrite (Hcode _ Hr).
Qed.

(** ** An instance: the example host, with a guest that paints and, 4.6 s after
    its launch, exits *)

Section Example.
Context (data : Xtask.bytes) (Hdata : check_screen_has_text (Some data) = Ok ()).

#[local] Instance patient_host : Host report toy := toy_Host demo_root (fun _ => EXPECTED_EXIT_CODE) (screenshot_path 7) data true 4600.

Lemma patient_good w : good_capture 7 w <-> exists d, t_files w !! screenshot_path 7 = Some d /\ check_screen_has_text (Some d) = Ok ().
Proof using.
  unfold good_capture. simpl. destruct (t_files w !! screenshot_path 7) as [d|].
  - split; [intros (d' & [= <-] & Hd)|intros (d' & [= <-] & Hd)]; eauto.
  - split; [by intros (d & [=] & _)|by intros (d & [=] & _)].
Qed.

Lemma patient_running t w : t_child w = Some t -> running 4600 w = true <-> t_clock w < t + 4600.
Proof using. intros Hc. unfold running. rewrite Hc. apply Z.ltb_lt. Qed.

Lemma patient_cooperates : cooperates 7 demo_staged 0 0 0 4600 4600 EXPECTED_EXIT_CODE
  (fun t i w => t_child w = Some i /\ t = i) (fun _ _ => True).
Proof using Hdata.
  split.
  - intros R c w Hq. destruct c; simpl in *; try done; repeat case_match; simpl; lia.
  - intros w _. by eexists _, _.
  - intros R c t i w Hc [Hu Ht]. split; [|done]. destruct c; simpl in *; try done; repeat case_match; simpl; congruence.
  - done.
  - intros t i w [Hu ->] Ht. simpl in *. rewrite (proj2 (patient_running i w Hu)) by lia. by eexists.
  - done.
  - intros t i w e _. simpl. case_match; [done|]. by intros [= <-].
  - intros t i s w [Hu ->] _ Hl. simpl in *. rewrite (proj2 (patient_running i w Hu) Hl). split; [done|]. intros _.
    apply patient_good. exists data. split; [apply lookup_insert_eq|exact Hdata].
  - intros R c w Hk. rewrite !patient_good. destruct c; simpl in *; try done; repeat case_match; done.
  - done.
  - done.
  - intros t i w [Hu ->]. simpl. destruct (running 4600 w) eqn:Hr; [|by left]. right.
    by apply (patient_running i w Hu) in Hr.
  - intros i w. rewrite !patient_good. simpl. by destruct (running 4600 w).
Qed.

Lemma patient_stages : exists w1, build_and_stage demo_root (text "cargo") demo_start = (w1, Ok demo_staged).
Proof using.
  assert (snd (build_and_stage demo_root (text "cargo") demo_start) = Ok demo_staged) as Hx by (vm_compute; reflexivity).
  destruct (build_and_stage demo_root (text "cargo") demo_start) as [w1 r]. simpl in Hx. subst r. by exists w1.
Qed.
End Example.

Lemma run_passes_witness : exists data w',
  run (H := patient_host data) demo_root 7 (text "cargo") 601 demo_start = (w', Ok SUCCESS).
Proof.
  destruct kernel_text_pixels_spec as (pixels & _ & Hl & Hs).
  assert (check_screen_has_text (Some (ppm_header ++ pixels)) = Ok ()) as Hc by (apply check_screen_exact_spec; by exists pixels).
  exists (ppm_header ++ pixels). destruct (patient_stages (ppm_header ++ pixels)) as [w1 Hst].
  destruct system_boots as (c & m & Hb & Hrun & Hpf).
  set (sched := demo_batches). destruct demo_batches_beats as [Hbeats Hirqs].
  assert (forall b : boot held_key, press_within 1100 (typed (io_dev (mc_io (b_machine b)))) sched) as Hpress.
  { intros b. exists [[]; [TimerIrq; SpuriousIrq]], [], [], (drop 3 demo_batches).
    split; [reflexivity|]. split; [vm_compute; discriminate|reflexivity]. }
  destruct (power_on_press (inl tt) (inl tt) (inl tt) system_file 124 (inl tt) (inl demo_gop) (fun _ => inl 124)
    demo_firmware ∅ c m 2 3 system_statics 0x204000 system_address system_code demo_frame sched _ (HeldKey 0)
    system_answers_ok eq_refl Hb eq_refl Hpf held_live ltac:(lia) Hrun Hbeats Hirqs) as (b0 & ? & ? & _ & Hp0).
  destruct (Hp0 (Hpress b0)) as (s0 & l0 & _ & Hr0 & _).
  destruct (run_passes (H := patient_host (ppm_header ++ pixels)) demo_root 7 (text "cargo") 601 demo_staged 0 0 0 4600 4600
    EXPECTED_EXIT_CODE _ _ demo_start w1 (inl tt) (inl tt) (inl tt) system_file 124 (inl tt) (inl demo_gop) (fun _ => inl 124)
    demo_firmware ∅ c m 2 3 system_statics 0x204000 system_address system_code demo_frame sched _ (HeldKey 0)
    (patient_cooperates _ Hc) ltac:(lia) ltac:(lia) ltac:(lia) ltac:(lia) ltac:(lia) ltac:(lia) ltac:(lia) ltac:(by intros i) Hst
    system_answers_ok eq_refl Hb eq_refl Hpf held_live ltac:(lia) Hrun Hbeats Hirqs) as (b & ? & ? & _ & Hp).
  - intros e He. rewrite Hr0 in He. injection He as <-. reflexivity.
  - exact (Hp (Hpress b)).
Defined.
