(* ===== verification/FontGen.v ===== *)
(** The generator of the console font ([tools/generate_font.py]): from the
    bytes of a PSF1 font file to the text of [kernel/src/font.rs]. *)
From Stdlib Require Import String.
From S2P Require Import Prelude Memory Fmt Font.

Abbreviation bytes := (list Z).

(** ** The script *)

Definition SRC : bytes := text "/usr/share/consolefonts/Lat15-VGA16.psf.gz".

(** [sys.exit] with a message; an [IndexError] is a panic. *)
Inductive gen_error :=
| NotPSF1
| BadCharsize (charsize : Z).

(** [glyphs[off : off + charsize]]: a slice stops at the end of the data. *)
Definition py_slice (b : bytes) (start stop : Z) : bytes :=
  take (Z.to_nat (stop - start)) (drop (Z.to_nat start) b).

(** [f"0x{b:02x}"], and [", ".join(...)]. *)
Definition hex2 (b : Z) : bytes := text "0x" ++ [digit (b / 16); digit (b mod 16)].

Fixpoint comma_joined (parts : list bytes) : bytes :=
  match parts with
  | [] => []
  | [p] => p
  | p :: parts => p ++ text ", " ++ comma_joined parts
  end.

Definition row_body (glyph : bytes) : bytes := comma_joined (hex2 <$> glyph).

Definition row_text (code : Z) (glyph : bytes) : bytes :=
  let label := if code =? 32 then text "space" else [code] in
  text "    // " ++ hex2 code ++ text " " ++ label ++ [10] ++ text "    [" ++ row_body glyph ++ text "],".

(** The characters of the script's loop with the glyph it takes for each. *)
Definition generate_rows (data : bytes) : outcome gen_error (list (Z * bytes)) :=
  if negb (bool_decide (py_slice data 0 2 = [0x36; 0x04])) then Err NotPSF1 else
  charsize ← match data !! 3%nat with Some c => Ok c | None => Panic end;
  if negb (charsize =? 16) then Err (BadCharsize charsize) else
  let glyphs := drop 4 data in
  Ok ((fun code =>
         let off := code * charsize in (code, py_slice glyphs off (off + charsize))) <$> seqZ FIRST (LAST + 1 - FIRST)).

(** The file it writes. *)
Definition font_rs (rows : list (Z * bytes)) : bytes :=
  line (text "//! An 8x16 bitmap font.") ++
  line (text "//!") ++
  line (text "//! GENERATED by `tools/generate_font.py` from") ++
  line (text "//! `" ++ SRC ++ text "` — do not edit by hand.") ++
  line (text "//!") ++
  line (text "//! Each glyph is " ++ dec 16 ++ text " bytes, one per scanline, most significant bit") ++
  line (text "//! leftmost. Only printable ASCII (" ++ hex2 FIRST ++ text "..=" ++ hex2 LAST ++ text ") is stored;") ++
  line (text "//! [`glyph`] substitutes `?` for anything else.") ++
  line [] ++
  line (text "/// Width of a glyph in pixels. One byte per scanline, so this is 8.") ++
  line (text "pub const GLYPH_WIDTH: usize = 8;") ++
  line (text "/// Height of a glyph in pixels.") ++
  line (text "pub const GLYPH_HEIGHT: usize = " ++ dec 16 ++ text ";") ++
  line [] ++
  line (text "const FIRST: u8 = " ++ hex2 FIRST ++ text ";") ++
  line (text "const LAST: u8 = " ++ hex2 LAST ++ text ";") ++
  line [] ++
  line (text "static GLYPHS: [[u8; GLYPH_HEIGHT]; " ++ dec (Z.of_nat (length rows)) ++ text "] = [") ++
  concat ((fun r => line (row_text (fst r) (snd r))) <$> rows) ++
  line (text "];") ++
  line [] ++
  line (text "/// The bitmap for `byte`, or the bitmap for `?` if it is not printable.") ++
  line (text "pub fn glyph(byte: u8) -> &'static [u8; GLYPH_HEIGHT] {") ++
  line (text "    let index = if (FIRST..=LAST).contains(&byte) {") ++
  line (text "        (byte - FIRST) as usize") ++
  line (text "    } else {") ++
  line (text "        (b'?' - FIRST) as usize") ++
  line (text "    };") ++
  line (text "    &GLYPHS[index]") ++
  line (text "}").

Definition generate_font (data : bytes) : outcome gen_error bytes :=
  rows ← generate_rows data;
  Ok (font_rs rows).

(** ** Reading a row back *)

(** The bytes an array literal's elements denote: what rustc makes of a row. *)
Fixpoint read_elements (fuel : nat) (b : bytes) : option bytes :=
  match fuel, b with
  | S fuel, 48 :: 120 :: h :: l :: rest =>
      let v := digit_value h * 16 + digit_value l in
      match rest with
      | [] => Some [v]
      | 44 :: 32 :: rest => vs ← read_elements fuel rest; Some (v :: vs)
      | _ => None
      end
  | _, _ => None
  end.

Lemma read_hex2 b : is_byte b -> digit_value (digit (b / 16)) * 16 + digit_value (digit (b mod 16)) = b.
Proof.
  intros Hb. unfold is_byte in Hb.
  destruct (digit_value_digit (b / 16)) as [-> _]; [divmod|]. destruct (digit_value_digit (b mod 16)) as [-> _]; [divmod|].
  divmod.
Qed.

Lemma read_elements_cons n b rest :
  is_byte b -> read_elements (S n) (hex2 b ++ text ", " ++ rest) = (vs ← read_elements n rest; Some (b :: vs)).
Proof.
  intros Hb. transitivity (vs ← read_elements n rest; Some (digit_value (digit (b / 16)) * 16 + digit_value (digit (b mod 16)) :: vs));
    [reflexivity|by rewrite read_hex2].
Qed.

Lemma row_body_reads glyph : glyph <> [] -> Forall is_byte glyph -> read_elements (length glyph) (row_body glyph) = Some glyph.
Proof.
  intros Hne Hb. induction Hb as [|b glyph Hb Hrest IH]; [done|]. destruct glyph as [|b' glyph].
  - unfold row_body. cbn -[digit digit_value]. by rewrite read_hex2.
  - change (row_body (b :: b' :: glyph)) with (hex2 b ++ text ", " ++ row_body (b' :: glyph)). cbn [length].
    rewrite read_elements_cons by done. cbn [length] in IH. by rewrite IH.
Qed.

(** ** The table it makes *)

(** The bitmap of a character in a PSF1 font of 16-byte glyphs. *)
Definition psf_glyph (data : bytes) (code : Z) : bytes := py_slice data (4 + code * 16) (4 + code * 16 + 16).

Lemma psf_glyph_slice data code : 0 <= code -> py_slice (drop 4 data) (code * 16) (code * 16 + 16) = psf_glyph data code.
Proof.
  intros Hc. unfold psf_glyph, py_slice. rewrite drop_drop. f_equal; [lia|]. f_equal. lia.
Qed.

Lemma psf_glyph_length data code :
  0 <= code -> 4 + (code + 1) * 16 <= Z.of_nat (length data) -> length (psf_glyph data code) = 16%nat.
Proof. intros Hc Hl. unfold psf_glyph, py_slice. rewrite length_take, length_drop. lia. Qed.

(** A font file the script takes. *)
Definition psf_ok (data : bytes) : Prop :=
  Forall is_byte data /\ take 2 data = [0x36; 0x04] /\ data !! 3%nat = Some 16 /\ 4 + 127 * 16 <= Z.of_nat (length data).

Lemma generate_rows_ok data :
  psf_ok data -> generate_rows data = Ok ((fun code => (code, psf_glyph data code)) <$> seqZ 32 95).
Proof.
  intros (_ & Hm & Hc & _). unfold generate_rows. change (py_slice data 0 2) with (take 2 data).
  rewrite bool_decide_true by done. cbn [negb]. rewrite Hc, bind_Ok. cbv iota beta. cbn [Z.eqb Pos.eqb negb].
  f_equal. change (LAST + 1 - FIRST) with 95. change FIRST with 32. apply list_fmap_ext. intros i code Hi.
  apply lookup_seqZ in Hi as [-> _]. by rewrite psf_glyph_slice by lia.
Qed.

(** The generator reproduces the committed table, and what the kernel draws is
    the font file's: from any font file whose printable characters look as
    they do in [font.rs], the generator writes 95 rows, row by row the literals
    of that table; and [glyph] gives, for every byte, the bitmap that byte (or
    the question mark) has in the font file. *)
Theorem font_generated data :
  psf_ok data -> (forall i, 0 <= i < 95 -> Some (psf_glyph data (32 + i)) = GLYPHS !! Z.to_nat i) ->
  exists rows, generate_font data = Ok (font_rs rows) /\ snd <$> rows = GLYPHS /\
    Forall (fun r => read_elements 16 (row_body (snd r)) = Some (snd r)) rows /\
    forall byte, 0 <= byte < 256 ->
      glyph (E := Empty_set) byte = Ok (psf_glyph data (if (FIRST <=? byte) && (byte <=? LAST) then byte else 63)).
Proof.
  intros Hok Hg. unfold generate_font. rewrite (generate_rows_ok data Hok), bind_Ok. eexists. split; [reflexivity|].
  destruct Hok as (Hb & _ & _ & Hl). split; [|split].
  - rewrite <- list_fmap_compose. apply list_eq. intros i. rewrite list_lookup_fmap.
    destruct (decide (i < 95)%nat) as [Hi|Hi].
    + rewrite lookup_seqZ_lt by lia. cbn [fmap option_fmap option_map compose snd]. rewrite Hg by lia. by rewrite Nat2Z.id.
    + rewrite lookup_seqZ_ge by lia. symmetry. by apply lookup_ge_None_2; rewrite length_GLYPHS; lia.
  - apply Forall_fmap, Forall_forall. intros code Hc. apply elem_of_seqZ in Hc. cbn [snd compose].
    pose proof (psf_glyph_length data code ltac:(lia) ltac:(lia)) as Hlen. rewrite <- Hlen. apply row_body_reads.
    + intros E. by rewrite E in Hlen.
    + unfold psf_glyph, py_slice. by apply Forall_take, Forall_drop.
  - intros byte Hby. rewrite (proj1 (glyph_total byte Hby)). unfold bitmap_of.
    assert (forall c, 32 <= c <= 126 -> default [] (GLYPHS !! Z.to_nat (c - FIRST)) = psf_glyph data c) as Hc.
    { intros c Hc. unfold FIRST. rewrite <- Hg by lia. cbn. f_equal. lia. }
    f_equal. unfold FIRST, LAST in *. destruct (Z.leb_spec 32 byte), (Z.leb_spec byte 126); cbn [andb]; apply Hc; lia.
Qed.

(** ** An instance: a font file with the committed glyphs *)

Definition demo_psf : bytes := [0x36; 0x04; 0; 16] ++ replicate 512 0 ++ concat GLYPHS ++ replicate 16 0.

Lemma demo_psf_ok : psf_ok demo_psf.
Proof.
  split; [|split; [reflexivity|split; [reflexivity|vm_compute; discriminate]]].
  assert (forallb (fun b => (0 <=? b) && (b <? 256)) demo_psf = true) as H by (vm_compute; reflexivity).
  rewrite forallb_forall in H. apply Forall_forall. intros b Hb%list_elem_of_In%H. unfold is_byte. lia.
Qed.

Lemma font_generated_instance : exists rows, generate_font demo_psf = Ok (font_rs rows) /\ snd <$> rows = GLYPHS.
Proof.
  destruct (font_generated demo_psf demo_psf_ok) as (rows & Hr & Ht & _); [|by exists rows].
  assert (forallb (fun i => bool_decide (Some (psf_glyph demo_psf (32 + Z.of_nat i)) = GLYPHS !! Z.to_nat (Z.of_nat i)))
    (seq 0 95) = true) as H by (vm_compute; reflexivity).
  intros i Hi. pose proof (all_below (fun i => bool_decide (Some (psf_glyph demo_psf (32 + i)) = GLYPHS !! Z.to_nat i)) 95 H i Hi) as Hd.
  by apply bool_decide_eq_true in Hd.
Qed.
